(** * batch-bytes: a shallow embedding of the batch pipeline

    The development follows the JavaScript sources of the repository:
    [utils/convert.js], [utils/validate.js], [utils/excel.js],
    [utils/logs.js], [utils/storage.js], [utils/date.js],
    [utils/response.js], [auth0.js], [email.js], [sms.js], [whatsapp.js]
    and [report.js].

    Conventions of the embedding.
    - A JavaScript string is a [string]; one [ascii] stands for one UTF-16
      code unit, so the model covers strings whose code units are below 256.
    - A spreadsheet cell is an [option string]: [None] is [undefined]
      (an empty cell), [Some s] a text cell, as the JSDoc types of the
      sources have it. A sheet is the array of rows that
      [XLSX.utils.sheet_to_json(sheet, { header: 1 })] returns for a sheet
      of text cells; a numeric or boolean cell, on which the string methods
      of the extraction throw, is outside the model.
    - A thrown [Error] is the left injection of a sum, carrying the message.
    - Token amounts are integers ([Z]), and the sums, differences and
      products of the code are taken in [Z]: the model covers the amounts
      that are safe integers (at most 2^53 - 1 in absolute value), on which
      the arithmetic of Numbers is exact. The unit costs and the feature
      switches of the environment are taken as numbers and booleans.
    - Network collaborators (identity provider, SES, SNS, WhatsApp API, S3,
      CloudWatch) are a record of outcome functions; the account store of
      the identity provider and the trace of the requests that leave the
      process are threaded explicitly. A request is recorded when it is
      made, whether or not it succeeds; the requests of concurrent
      callbacks are listed callback by callback.
    - An error object handed on as the [details] of a response is given by
      its text.
    - Concurrent sends are given by their outcomes: each promise settles at
      an instant, and lines pushed by concurrent callbacks are ordered by
      these instants. *)

From Stdlib Require Import String Ascii List ZArith Lia Bool Arith PeanoNat.
From Stdlib Require Import DecimalString DecimalNat.
Import ListNotations.
Open Scope list_scope.
Open Scope string_scope.

(** ** JavaScript strings *)

(** [\d] without the unicode flag: the ten ASCII digits. *)
Definition isDigit (c : ascii) : bool :=
  let n := nat_of_ascii c in Nat.leb 48 n && Nat.leb n 57.

(** [\s]: tab, line feed, vertical tab, form feed, carriage return, space and
    the no-break space (the members of the class below code unit 256). *)
Definition isSpace (c : ascii) : bool :=
  let n := nat_of_ascii c in
  (Nat.leb 9 n && Nat.leb n 13) || Nat.eqb n 32 || Nat.eqb n 160.

Fixpoint allChars (p : ascii -> bool) (s : string) : bool :=
  match s with
  | EmptyString => true
  | String c rest => p c && allChars p rest
  end.

Fixpoint dropWhile (p : ascii -> bool) (s : string) : string :=
  match s with
  | EmptyString => EmptyString
  | String c rest => if p c then dropWhile p rest else s
  end.

Fixpoint rev_string (s : string) (acc : string) : string :=
  match s with
  | EmptyString => acc
  | String c rest => rev_string rest (String c acc)
  end.

(** [String.prototype.trim]. *)
Definition trim (s : string) : string :=
  rev_string (dropWhile isSpace (rev_string (dropWhile isSpace s) "")) "".

(** Template-literal rendering of numbers. *)
Definition show_nat (n : nat) : string :=
  NilZero.string_of_uint (Nat.to_uint n).

Definition show_Z (z : Z) : string :=
  NilZero.string_of_int (Z.to_int z).

(** [Array.prototype.join]. *)
Fixpoint join (sep : string) (l : list string) : string :=
  match l with
  | [] => ""
  | [x] => x
  | x :: rest => x ++ sep ++ join sep rest
  end.

(** ** Regular expressions

    The two validation patterns of [validate.js] are transcribed into a small
    regular-expression syntax and run by a derivative matcher; [^...$]
    patterns under [RegExp.prototype.test] are whole-string matches. *)

Module Regex.

Inductive regex : Type :=
| Fail : regex
| Eps : regex
| Class : (ascii -> bool) -> regex
| Seq : regex -> regex -> regex
| Alt : regex -> regex -> regex
| Star : regex -> regex.

Definition Chr (c : ascii) : regex := Class (Ascii.eqb c).
Definition Plus (r : regex) : regex := Seq r (Star r).
Definition Opt (r : regex) : regex := Alt r Eps.

Fixpoint power (k : nat) (r : regex) : regex :=
  match k with
  | O => Eps
  | S k' => Seq r (power k' r)
  end.

Fixpoint upto (k : nat) (r : regex) : regex :=
  match k with
  | O => Eps
  | S k' => Opt (Seq r (upto k' r))
  end.

(** The bounded quantifier [r{m,n}]. *)
Definition Repeat (m n : nat) (r : regex) : regex :=
  Seq (power m r) (upto (n - m) r).

Fixpoint nullable (r : regex) : bool :=
  match r with
  | Fail => false
  | Eps => true
  | Class _ => false
  | Seq a b => nullable a && nullable b
  | Alt a b => nullable a || nullable b
  | Star _ => true
  end.

Fixpoint deriv (c : ascii) (r : regex) : regex :=
  match r with
  | Fail => Fail
  | Eps => Fail
  | Class p => if p c then Eps else Fail
  | Seq a b =>
      if nullable a then Alt (Seq (deriv c a) b) (deriv c b)
      else Seq (deriv c a) b
  | Alt a b => Alt (deriv c a) (deriv c b)
  | Star a => Seq (deriv c a) (Star a)
  end.

(** Whole-string match. *)
Fixpoint test (r : regex) (s : string) : bool :=
  match s with
  | EmptyString => nullable r
  | String c rest => test (deriv c r) rest
  end.

(** The language of a pattern. *)
Inductive Lang : regex -> string -> Prop :=
| LEps : Lang Eps ""
| LClass : forall p c, p c = true -> Lang (Class p) (String c "")
| LSeq : forall a b s1 s2, Lang a s1 -> Lang b s2 -> Lang (Seq a b) (s1 ++ s2)
| LAltL : forall a b s, Lang a s -> Lang (Alt a b) s
| LAltR : forall a b s, Lang b s -> Lang (Alt a b) s
| LStar0 : forall a, Lang (Star a) ""
| LStarS : forall a s1 s2,
    Lang a s1 -> Lang (Star a) s2 -> Lang (Star a) (s1 ++ s2).

End Regex.

Import Regex.

(** ** utils/validate.js: address formats *)

(** [[^\s@]] *)
Definition notSpaceNorAt (c : ascii) : bool :=
  negb (isSpace c || Ascii.eqb c "@").

(** [/^[^\s@]+@[^\s@]+\.[^\s@]+$/] *)
Definition emailRegex : regex :=
  Seq (Plus (Class notSpaceNorAt))
    (Seq (Chr "@")
       (Seq (Plus (Class notSpaceNorAt))
          (Seq (Chr ".") (Plus (Class notSpaceNorAt))))).

Definition isValidEmail (emailAddress : string) : bool :=
  test emailRegex emailAddress.

(** [/^\+\d{1,3}(\s?\d){4,14}$/] *)
Definition mobileRegex : regex :=
  Seq (Chr "+")
    (Seq (Repeat 1 3 (Class isDigit))
       (Repeat 4 14 (Seq (Opt (Class isSpace)) (Class isDigit)))).

Definition isValidMobile (mobileNumber : string) : bool :=
  test mobileRegex (trim mobileNumber).

(** ** utils/convert.js *)

Definition isPlaceholderAt (c d : ascii) : bool :=
  Ascii.eqb c "{" && Ascii.eqb d "}".

(** [messageBody.replace(/{}/g, callback)]: the scan goes left to right over
    the original text, calls the callback once per match and resumes after
    the match; [index] is the callback's counter. *)
Fixpoint replaceFrom (parameters : list string) (messageBody : string)
    (index : nat) : string :=
  match messageBody with
  | EmptyString => ""
  | String c rest =>
      match rest with
      | String d rest' =>
          if isPlaceholderAt c d then
            let replacement := nth_error parameters index in
            (match replacement with
             | Some r => r
             | None => "{}"
             end) ++ replaceFrom parameters rest' (S index)
          else String c (replaceFrom parameters rest index)
      | EmptyString => String c ""
      end
  end.

Definition replacePlaceholders (messageBody : string)
    (parameters : list string) : string :=
  replaceFrom parameters messageBody 0.

(** ** utils/validate.js: placeholders *)

(** [paragraph.match(/\{\}/g)]: the matches, [None] for [null]. *)
Fixpoint matchesOf (paragraph : string) : list string :=
  match paragraph with
  | EmptyString => []
  | String c rest =>
      match rest with
      | String d rest' =>
          if isPlaceholderAt c d then "{}" :: matchesOf rest'
          else matchesOf rest
      | EmptyString => []
      end
  end.

Definition matchPlaceholders (paragraph : string) : option (list string) :=
  match matchesOf paragraph with
  | [] => None
  | ms => Some ms
  end.

(** A recipient entry: [{ email | mobile, parameters }]. *)
Record ParameterMap : Type := mkParameterMap {
  address : string;
  parameters : list string
}.

Definition placeholderCountOf (messageParagraphs : list string) : nat :=
  fold_left
    (fun count paragraph =>
       count + match matchPlaceholders paragraph with
               | Some ms => length ms
               | None => 0
               end)
    messageParagraphs 0.

Definition mismatchMessage (index placeholderCount parameterCount : nat)
  : string :=
  "Parameter mismatch detected in row[" ++ show_nat (index + 1)
  ++ "]: Found " ++ show_nat placeholderCount
  ++ " '{}' placeholders but " ++ show_nat parameterCount
  ++ " parameter values!".

(** The [forEach] of [validateMessagePlaceholders]; the first throw ends it. *)
Fixpoint checkParameterMaps (placeholderCount : nat)
    (parameterMaps : list ParameterMap) (index : nat) : string + unit :=
  match parameterMaps with
  | [] => inr tt
  | emailParameterMap :: rest =>
      let parameterCount := length (parameters emailParameterMap) in
      if negb (Nat.eqb placeholderCount parameterCount) then
        inl (mismatchMessage index placeholderCount parameterCount)
      else checkParameterMaps placeholderCount rest (S index)
  end.

Definition validateMessagePlaceholders (messageParagraphs : list string)
    (parameterMaps : list ParameterMap) : string + unit :=
  checkParameterMaps (placeholderCountOf messageParagraphs) parameterMaps 0.

(** ** utils/excel.js: the sheet *)

Definition Cell : Type := option string.
Definition Row : Type := list Cell.
Definition Sheet : Type := list Row.

(** [row[j]]: [undefined] past the end of the row. *)
Definition cellAt (row : Row) (j : nat) : Cell :=
  match nth_error row j with
  | Some c => c
  | None => None
  end.

(** [sheetData[i][j]]: a [TypeError] when row [i] does not exist. *)
Definition sheetCell (sheetData : Sheet) (i j : nat) : string + Cell :=
  match nth_error sheetData i with
  | Some row => inr (cellAt row j)
  | None =>
      inl ("Cannot read properties of undefined (reading '" ++ show_nat j
           ++ "')")
  end.

(** [row.slice(k).filter((param) => param !== undefined)] *)
Fixpoint definedCells (cells : list Cell) : list string :=
  match cells with
  | [] => []
  | Some s :: rest => s :: definedCells rest
  | None :: rest => definedCells rest
  end.

Definition parametersFrom (k : nat) (row : Row) : list string :=
  definedCells (skipn k row).

(** [row !== null && row !== undefined && row.trim() !== ""] *)
Definition isNonBlank (row : Cell) : bool :=
  match row with
  | Some s => negb (String.eqb (trim s) "")
  | None => false
  end.

(** [number.replace(/\s+/g, "")] *)
Fixpoint removeSpaces (number : string) : string :=
  match number with
  | EmptyString => ""
  | String c rest =>
      if isSpace c then removeSpaces rest else String c (removeSpaces rest)
  end.

(** [.replace(/(?!^\+)[^\d]/g, "")]: every non-digit is removed, except a
    ['+'] standing at position 0 of the text the replace is applied to. *)
Fixpoint removeSpecialFrom (number : string) (position : nat) : string :=
  match number with
  | EmptyString => ""
  | String c rest =>
      if negb (isDigit c) && negb (Nat.eqb position 0 && Ascii.eqb c "+")
      then removeSpecialFrom rest (S position)
      else String c (removeSpecialFrom rest (S position))
  end.

Definition formatMobileNumber (number : string) : string :=
  removeSpecialFrom (removeSpaces number) 0.

Definition formatMobileNumbers (mobileNumbers : list string) : list string :=
  map formatMobileNumber mobileNumbers.

(** What the [map] callback of an extraction does with one row: it returns an
    entry, or pushes the address to the invalid list and returns [null], or
    just returns [null]. *)
Inductive RowResult : Type :=
| Entry : ParameterMap -> RowResult
| InvalidAddress : string -> RowResult
| NoAddress : RowResult.

Fixpoint entriesOf (results : list RowResult) : list ParameterMap :=
  match results with
  | [] => []
  | Entry item :: rest => item :: entriesOf rest
  | _ :: rest => entriesOf rest
  end.

Fixpoint invalidOf (results : list RowResult) : list string :=
  match results with
  | [] => []
  | InvalidAddress a :: rest => a :: invalidOf rest
  | _ :: rest => invalidOf rest
  end.

(** The callback of [extractEmail]; the address is column 3 and the
    parameters start at column 4. [isValidEmail(undefined)] tests the text
    ["undefined"]. *)
Definition emailRow (sheetRow : Row) : RowResult :=
  let row := cellAt sheetRow 3 in
  if isValidEmail (match row with Some s => s | None => "undefined" end) then
    match row with
    | Some s => Entry (mkParameterMap s (parametersFrom 4 sheetRow))
    | None => NoAddress
    end
  else if isNonBlank row then
    match row with
    | Some s => InvalidAddress s
    | None => NoAddress
    end
  else NoAddress.

(** The callback of [extractMobile] and of [extractWhatsapp]; the address is
    column 2 and the parameters start at column 3. The entry keeps the cell
    as it is in the sheet ([mobile: row]). *)
Definition mobileRow (sheetRow : Row) : RowResult :=
  let row := cellAt sheetRow 2 in
  let formattedMobileNumber :=
    match row with
    | Some s => Some (formatMobileNumbers [s])
    | None => None
    end in
  match formattedMobileNumber, row with
  | Some (formatted :: _), Some s =>
      if isValidMobile formatted then
        Entry (mkParameterMap s (parametersFrom 3 sheetRow))
      else if isNonBlank row then InvalidAddress s
      else NoAddress
  | _, _ => NoAddress
  end.

(** An insertion-ordered [Map] from address to entry. *)
Definition JsMap : Type := list (string * ParameterMap).

Definition Map_has (m : JsMap) (key : string) : bool :=
  existsb (fun kv => String.eqb (fst kv) key) m.

Fixpoint Map_set (m : JsMap) (key : string) (value : ParameterMap) : JsMap :=
  match m with
  | [] => [(key, value)]
  | (k, v) :: rest =>
      if String.eqb k key then (k, value) :: rest
      else (k, v) :: Map_set rest key value
  end.

Definition Map_values (m : JsMap) : list ParameterMap := map snd m.

(** [items.forEach((item) => { if (!unique.has(key)) unique.set(key, item) })]
    followed by [Array.from(unique.values())]; the key is the entry's
    [email] or [mobile] property. *)
Definition uniqueEntries (items : list ParameterMap) : list ParameterMap :=
  Map_values
    (fold_left
       (fun unique item =>
          if negb (Map_has unique (address item))
          then Map_set unique (address item) item
          else unique)
       items []).

(** ** utils/validate.js: sheet fields *)

(** [value == null] *)
Definition isNullish (value : Cell) : bool :=
  match value with
  | Some _ => false
  | None => true
  end.

(** [row === null || row === undefined || row.trim() === ""] *)
Definition isBlankText (row : string) : bool := String.eqb (trim row) "".

(** [item.email] / [item.mobile] as a condition: a non-empty string. *)
Definition truthy (s : string) : bool := negb (String.eqb s "").

Definition validateEmailSheetFields
    (clientName clientEmail companyName companyAddress emailSubject : Cell)
    (emailParagraphs : list string) (emailParameterMaps : list ParameterMap)
  : string + unit :=
  if isNullish clientName then inl "Client name missing in speadsheet!"
  else if isNullish clientEmail then
    inl "Client email address missing in speadsheet!"
  else if isNullish companyName then inl "Company name missing in speadsheet!"
  else if isNullish companyAddress then
    inl "Company address missing in speadsheet!"
  else if isNullish emailSubject then
    inl "Email subject missing in speadsheet!"
  else
    let allParagraphsNull := forallb isBlankText emailParagraphs in
    if allParagraphsNull then
      inl "Atleast one paragraph required in spreadsheet!"
    else if negb (existsb (fun item => truthy (address item))
                    emailParameterMaps) then
      inl "At least one email address required to send to!"
    else
      match validateMessagePlaceholders emailParagraphs emailParameterMaps with
      | inl message =>
          inl ("Failed to validate message placeholders: " ++ message)
      | inr _ => inr tt
      end.

Definition validateSmsSheetFields
    (clientName clientEmail clientMobile smsBody : Cell)
    (mobileParameterMaps : list ParameterMap) : string + unit :=
  if isNullish clientName then inl "Client name missing in speadsheet!"
  else if isNullish clientEmail then
    inl "Client email address missing in speadsheet!"
  else if isNullish clientMobile then
    inl "Client mobile number missing in speadsheet!"
  else
    match smsBody with
    | None => inl "SMS body missing in speadsheet!"
    | Some body =>
        if negb (existsb (fun item => truthy (address item))
                   mobileParameterMaps) then
          inl "At least one mobile number required to send to!"
        else
          match validateMessagePlaceholders [body] mobileParameterMaps with
          | inl message =>
              inl ("Failed to validate message placeholders: " ++ message)
          | inr _ => inr tt
          end
    end.

Definition validateWhatsappSheetFields
    (clientName clientEmail clientMobile whatsappAccessToken
       whatsappPhoneNumberId whatsappTemplateName : Cell) : string + unit :=
  if isNullish clientName then inl "Client name missing in speadsheet!"
  else if isNullish clientEmail then
    inl "Client email address missing in speadsheet!"
  else if isNullish clientMobile then
    inl "Client mobile number missing in speadsheet!"
  else if isNullish whatsappAccessToken then
    inl "Client WhatsApp Access Token missing in speadsheet!"
  else if isNullish whatsappPhoneNumberId then
    inl "Client WhatsApp Phone Number ID missing in speadsheet!"
  else if isNullish whatsappTemplateName then
    inl "Client WhatsApp Template Name missing in speadsheet!"
  else inr tt.

(** ** utils/excel.js: the three extractions *)

Module EmailSheet.
Record t : Type := mk {
  clientName : string;
  clientEmail : string;
  companyName : string;
  companyAddress : string;
  emailSubject : string;
  emailParagraphs : list string;
  emailParameterMaps : list ParameterMap;
  invalidEmailAddresses : list string
}.
End EmailSheet.

Module SmsSheet.
Record t : Type := mk {
  clientName : string;
  clientEmail : string;
  clientMobile : list string;
  smsBody : string;
  mobileParameterMaps : list ParameterMap;
  invalidMobileNumbers : list string
}.
End SmsSheet.

Module WhatsappSheet.
Record t : Type := mk {
  clientName : string;
  clientEmail : string;
  clientMobile : list string;
  whatsappAccessToken : string;
  whatsappPhoneNumberId : string;
  whatsappTemplateName : string;
  whatsappParameterMaps : list ParameterMap;
  invalidMobileNumbers : list string
}.
End WhatsappSheet.

(** Sequencing of computations that may throw. *)
Definition bindE {E A B : Type} (m : E + A) (k : A -> E + B) : E + B :=
  match m with
  | inl e => inl e
  | inr a => k a
  end.

Notation "'let?' x ':=' m 'in' k" := (bindE m (fun x => k))
  (at level 10, x name, m at level 100, k at level 200).

(** The paragraph column keeps the cells that are text and not blank. *)
Fixpoint paragraphsOf (paragraphColumnData : list Cell) : list string :=
  match paragraphColumnData with
  | [] => []
  | Some s :: rest =>
      if negb (isBlankText s) then s :: paragraphsOf rest
      else paragraphsOf rest
  | None :: rest => paragraphsOf rest
  end.

Definition orEmpty (c : Cell) : string :=
  match c with
  | Some s => s
  | None => ""
  end.

Definition extractEmail (sheetData : Sheet) : string + EmailSheet.t :=
  let rows := skipn 1 sheetData in
  let paragraphColumnData := map (fun row => cellAt row 2) rows in
  let? clientName := sheetCell sheetData 1 1 in
  let? clientEmail := sheetCell sheetData 2 1 in
  let? companyName := sheetCell sheetData 3 1 in
  let? companyAddress := sheetCell sheetData 4 1 in
  let? emailSubject := sheetCell sheetData 5 1 in
  let emailParagraphs := paragraphsOf paragraphColumnData in
  let results := map emailRow rows in
  let emailParameterMaps := entriesOf results in
  let invalidEmailAddresses := invalidOf results in
  match validateEmailSheetFields clientName clientEmail companyName
          companyAddress emailSubject emailParagraphs emailParameterMaps with
  | inl message => inl ("Failed to validate email sheet: " ++ message)
  | inr _ =>
      inr (EmailSheet.mk (orEmpty clientName) (orEmpty clientEmail)
             (orEmpty companyName) (orEmpty companyAddress)
             (orEmpty emailSubject) emailParagraphs
             (uniqueEntries emailParameterMaps) invalidEmailAddresses)
  end.

Definition extractMobile (sheetData : Sheet) : string + SmsSheet.t :=
  let rows := skipn 1 sheetData in
  let? clientName := sheetCell sheetData 1 1 in
  let? clientEmail := sheetCell sheetData 2 1 in
  let? clientMobile := sheetCell sheetData 3 1 in
  let? smsBody := sheetCell sheetData 4 1 in
  let results := map mobileRow rows in
  let mobileParameterMaps := entriesOf results in
  let invalidMobileNumbers := invalidOf results in
  match validateSmsSheetFields clientName clientEmail clientMobile smsBody
          mobileParameterMaps with
  | inl message => inl ("Failed to validate SMS sheet: " ++ message)
  | inr _ =>
      let formattedClientMobile :=
        formatMobileNumbers [orEmpty clientMobile] in
      inr (SmsSheet.mk (orEmpty clientName) (orEmpty clientEmail)
             formattedClientMobile (orEmpty smsBody)
             (uniqueEntries mobileParameterMaps) invalidMobileNumbers)
  end.

Definition extractWhatsapp (sheetData : Sheet) : string + WhatsappSheet.t :=
  let rows := skipn 1 sheetData in
  let? clientName := sheetCell sheetData 1 1 in
  let? clientEmail := sheetCell sheetData 2 1 in
  let? clientMobile := sheetCell sheetData 3 1 in
  let? whatsappAccessToken := sheetCell sheetData 4 1 in
  let? whatsappPhoneNumberId := sheetCell sheetData 5 1 in
  let? whatsappTemplateName := sheetCell sheetData 6 1 in
  let results := map mobileRow rows in
  let whatsappParameterMaps := entriesOf results in
  let invalidMobileNumbers := invalidOf results in
  match validateWhatsappSheetFields clientName clientEmail clientMobile
          whatsappAccessToken whatsappPhoneNumberId whatsappTemplateName with
  | inl message => inl ("Failed to validate WhatsApp sheet: " ++ message)
  | inr _ =>
      let formattedClientMobile :=
        formatMobileNumbers [orEmpty clientMobile] in
      inr (WhatsappSheet.mk (orEmpty clientName) (orEmpty clientEmail)
             formattedClientMobile (orEmpty whatsappAccessToken)
             (orEmpty whatsappPhoneNumberId) (orEmpty whatsappTemplateName)
             (uniqueEntries whatsappParameterMaps) invalidMobileNumbers)
  end.

(** ** process.env *)

Record ProcessEnv : Type := mkProcessEnv {
  TOKENS_PER_EMAIL : Z;
  TOKENS_PER_SMS : Z;
  TOKENS_PER_WHATSAPP : Z;
  ENABLE_SEND_EMAIL : bool;
  ENABLE_SEND_SMS : bool;
  ENABLE_SEND_WHATSAPP : bool;
  ENABLE_UPLOAD_LOG_FILE_TO_S3 : bool;
  ENABLE_SEND_LOG_FILE_TO_CLIENT : bool;
  ENABLE_SEND_AUTH0_EMAIL : bool;
  ENABLE_SEND_MONTHLY_REPORT : bool;
  ADMIN_EMAIL_ADDRESS : string;
  WA_API_URL : string
}.

(** The [batchType] argument, always one of three literals. *)
Inductive BatchType : Type := TypeEmail | TypeSms | TypeWhatsapp.

(** ** utils/response.js *)

Record Response (A : Type) : Type := mkResponse {
  statusCode : nat;
  message : string;
  data : option A;
  details : option string
}.

Arguments mkResponse {A}.
Arguments statusCode {A}.
Arguments message {A}.
Arguments data {A}.
Arguments details {A}.

Module ResponseHandler.

Definition success {A : Type} (message : string) (data : option A)
  : Response A :=
  mkResponse 200 message data None.

(** [statusCode = 500] is the default the callers get with [undefined]. *)
Definition error {A : Type} (statusCode : option nat) (message : string)
    (details : option string) : Response A :=
  mkResponse (match statusCode with Some c => c | None => 500 end)
    message None details.

Definition badRequest {A : Type} (message : string) (details : option string)
  : Response A :=
  error (Some 400) message details.

Definition notFound {A : Type} (message : string) (details : option string)
  : Response A :=
  error (Some 404) message details.

End ResponseHandler.

(** ** The remote world *)

(** An account of the identity provider. *)
Record User : Type := mkUser {
  user_id : string;
  email : string;
  nickname : string;
  name : string;
  email_verified : bool;
  is_active : bool;
  tokens : Z;
  wa_access_token : string;
  wa_phone_number_id : string
}.

(** The [user_metadata] documents the code PATCHes. *)
Inductive Patch : Type :=
| PatchTokens : Z -> Patch
| PatchWhatsapp : string -> string -> Patch.

(** The [to] of a WhatsApp message: a text, or the one-element array that
    [formatMobileNumbers([clientMobile])] returns. *)
Inductive Phone : Type :=
| PhoneText : string -> Phone
| PhoneArray : list string -> Phone.

(** The log groups the environment names: the group of the email events
    ([NEXT_PUBLIC_AWS_EMAIL_LOG_GROUP_NAME]), the group that holds one stream
    per sender of SMS ([NEXT_PUBLIC_AWS_SMS_LOG_STREAM_NAME]) and the group of
    the delivery logs of SNS ([NEXT_PUBLIC_AWS_SMS_LOG_GROUP_NAME]). *)
Inductive LogGroup : Type :=
| AWS_EMAIL_LOG_GROUP_NAME
| AWS_SMS_LOG_STREAM_NAME
| AWS_SMS_LOG_GROUP_NAME.

(** Requests that leave the process. A query of the logs carries its group,
    its [logStreamNames[0]] and its [filterPattern], when it has them. *)
Inductive Effect : Type :=
| IdpGetUsers : option string -> Effect
| IdpPatchUser : string -> Patch -> Effect
| SesSendEmail : string -> string -> string -> string -> Effect
| SnsPublish : string -> string -> Effect
| WhatsappPost : string -> Phone -> string -> string
                 -> option (list string) -> Effect
| CloudWatchPutLogEvents : string -> string -> string -> string -> Effect
| S3PutObject : string -> string -> Effect
| SesSendRawEmail : string -> string -> string -> string -> Effect
| CloudWatchDescribeLogStreams : LogGroup -> Effect
| CloudWatchCreateLogStream : string -> Effect
| CloudWatchFilterLogEvents : LogGroup -> option string -> option string
                              -> Effect.

Record World : Type := mkWorld {
  users : list User;
  requests : nat;
  effects : list Effect
}.

(** How a call that returns a promise ends: the promise is fulfilled or
    rejected at some instant, or the call throws before returning one. *)
Inductive Outcome (A : Type) : Type :=
| Fulfilled : nat -> A -> Outcome A
| Rejected : nat -> string -> Outcome A
| Thrown : string -> Outcome A.

Arguments Fulfilled {A}.
Arguments Rejected {A}.
Arguments Thrown {A}.

Record SmsReportEntry : Type := mkSmsReportEntry {
  mobileNumber : string;
  phoneCarrier : string;
  providerResponse : string;
  status : string
}.

Record EmailEvent : Type := mkEmailEvent {
  eventType : string;
  destination : list string
}.

(** The collaborators: what the outside answers, and the functions of
    modules that are not part of the sources at hand ([utils/template.js],
    [templates/*], the [obscenity] package, [JSON.stringify], [JSON.parse],
    the clock).

    The answers of CloudWatch carry the index of the concurrent callback
    that asks (0 outside a batch), so that two callbacks may be answered
    differently. [describeLogStreams] answers with the names of the streams
    of a group and [filterLogEvents] with the [message] of each event found;
    [None] is a response without the property. The three [JSON_parse]
    functions stand for [JSON.parse] on the message of an email event, of a
    sender's SMS event (of which the code reads the [messageId]) and of a
    delivery log (of which it reads [delivery.destination],
    [delivery.phoneCarrier], [delivery.providerResponse] and [status]); the
    left injection is the message of the error thrown. *)
Record Collaborators : Type := mkCollaborators {
  idpFault : nat -> option string;
  sesSend : nat -> string -> string -> Outcome string;
  snsSend : nat -> string -> string -> Outcome string;
  whatsappSend : nat -> Phone -> Outcome string;
  describeLogStreams : nat -> LogGroup -> string + option (list string);
  createLogStreamFault : nat -> string -> option string;
  putLogEventsFault : string -> string -> option string;
  filterLogEvents : nat -> LogGroup -> option string -> option string
                    -> string + option (list string);
  s3Fault : string -> option string;
  sesRawFault : string -> string -> option string;
  JSON_parseEmailEvent : string -> string + EmailEvent;
  JSON_parseSmsEvent : string -> string + string;
  JSON_parseSnsLog : string -> string + SmsReportEntry;
  censorMessageBody : string -> string;
  buildBatchRequestEmailBody : list string -> string -> string -> string
                               -> string;
  clientLogFileEmailTemplate : string -> string -> string * string;
  clientTokensUpdatedEmailTemplate : string -> Z -> string * string;
  clientMonthlyReportEmailTemplate : string -> Z -> string * string;
  JSON_stringify : string -> string;
  getFileNameDate : string;
  getFormattedDate : string
}.

(** Computations over the remote world. *)
Definition Eff (A : Type) : Type := World -> A * World.

Definition ret {A : Type} (a : A) : Eff A := fun w => (a, w).

Definition bind {A B : Type} (m : Eff A) (k : A -> Eff B) : Eff B :=
  fun w => let (a, w') := m w in k a w'.

(** A step that may leave the function with a value of type [R]. *)
Definition bindR {R A B : Type} (m : Eff (R + A)) (k : A -> Eff (R + B))
  : Eff (R + B) :=
  fun w =>
    match m w with
    | (inl r, w') => (inl r, w')
    | (inr a, w') => k a w'
    end.

Notation "x <- m ;; k" := (bind m (fun x => k))
  (at level 61, m at next level, right associativity).

Notation "x <-? m ;; k" := (bindR m (fun x => k))
  (at level 61, m at next level, right associativity).

Definition emit (e : Effect) : Eff unit :=
  fun w => (tt, mkWorld (users w) (requests w) (effects w ++ [e])%list).

(** [try { ... } catch (error) { return handler(error) }] *)
Definition catchReturn {R A : Type} (m : Eff (string + A))
    (handler : string -> R) : Eff (R + A) :=
  fun w =>
    match m w with
    | (inl e, w') => (inl (handler e), w')
    | (inr a, w') => (inr a, w')
    end.

(** The value a function returns, by [return] or by falling off its end. *)
Definition returned {R : Type} (m : Eff (R + R)) : Eff R :=
  fun w =>
    match m w with
    | (inl r, w') => (r, w')
    | (inr r, w') => (r, w')
    end.

(** ** Promises *)

(** An element of the array given to [Promise.all]: a promise, settled at
    some instant with a rejection or a value, or a plain value. *)
Inductive Awaitable (A : Type) : Type :=
| Promise : nat -> string + A -> Awaitable A
| Plain : A -> Awaitable A.

Arguments Promise {A}.
Arguments Plain {A}.

(** The rejection that settles first (the earlier element among equals). *)
Fixpoint firstRejection {A : Type} (promises : list (Awaitable A))
  : option (nat * string) :=
  match promises with
  | [] => None
  | Promise t (inl reason) :: rest =>
      match firstRejection rest with
      | Some (t', reason') =>
          if Nat.leb t t' then Some (t, reason) else Some (t', reason')
      | None => Some (t, reason)
      end
  | _ :: rest => firstRejection rest
  end.

Fixpoint valuesOf {A : Type} (promises : list (Awaitable A)) : list A :=
  match promises with
  | [] => []
  | Promise _ (inr v) :: rest => v :: valuesOf rest
  | Plain v :: rest => v :: valuesOf rest
  | Promise _ (inl _) :: rest => valuesOf rest
  end.

(** [await Promise.all(promises)]: the values in the order of the array, or
    the reason of the rejection that came first. *)
Definition Promise_all {A : Type} (promises : list (Awaitable A))
  : string + list A :=
  match firstRejection promises with
  | Some (_, reason) => inl reason
  | None => inr (valuesOf promises)
  end.

(** Lines pushed by concurrent callbacks land in the order of the instants
    at which they are pushed (the earlier callback first among equals). *)
Fixpoint insertByTime (x : nat * string) (l : list (nat * string))
  : list (nat * string) :=
  match l with
  | [] => [x]
  | y :: rest =>
      if Nat.leb (fst x) (fst y) then x :: l else y :: insertByTime x rest
  end.

Definition inCompletionOrder (pushed : list (nat * string)) : list string :=
  map snd (fold_right insertByTime [] pushed).

Fixpoint mapiFrom {A B : Type} (f : A -> nat -> B) (i : nat) (l : list A)
  : list B :=
  match l with
  | [] => []
  | x :: rest => f x i :: mapiFrom f (S i) rest
  end.

(** [array.map((item, index) => ...)] *)
Definition mapi {A B : Type} (f : A -> nat -> B) (l : list A) : list B :=
  mapiFrom f 0 l.

Definition emitAll (es : list Effect) : Eff unit :=
  fun w => (tt, mkWorld (users w) (requests w) (effects w ++ es)%list).

(** ** Text helpers of utils/logs.js *)

Definition nl : string := String (ascii_of_nat 10) "".

(** The double quote of the filter patterns. *)
Definition doubleQuote : string := String (ascii_of_nat 34) "".

(** [array.map(callback)] with a callback that may throw: the first throw
    ends the loop. *)
Fixpoint mapE {A B : Type} (f : A -> string + B) (l : list A)
  : string + list B :=
  match l with
  | [] => inr []
  | x :: rest =>
      match f x with
      | inl error => inl error
      | inr y =>
          match mapE f rest with
          | inl error => inl error
          | inr ys => inr (y :: ys)
          end
      end
  end.

(** [text.split("@")[0]] *)
Fixpoint beforeAt (text : string) : string :=
  match text with
  | EmptyString => ""
  | String c rest => if Ascii.eqb c "@" then "" else String c (beforeAt rest)
  end.

(** [client.replace(/\./g, "")] *)
Fixpoint removeDots (client : string) : string :=
  match client with
  | EmptyString => ""
  | String c rest =>
      if Ascii.eqb c "." then removeDots rest else String c (removeDots rest)
  end.

(** [subject.replace(/\s+/g, "_")]: one underscore per run of white space. *)
Fixpoint underscoreSpaces (subject : string) (inRun : bool) : string :=
  match subject with
  | EmptyString => ""
  | String c rest =>
      if isSpace c then
        if inRun then underscoreSpaces rest true
        else String "_" (underscoreSpaces rest true)
      else String c (underscoreSpaces rest false)
  end.

Definition lowerChar (c : ascii) : ascii :=
  let n := nat_of_ascii c in
  if (Nat.leb 65 n && Nat.leb n 90)
     || (Nat.leb 192 n && Nat.leb n 222 && negb (Nat.eqb n 215))
  then ascii_of_nat (n + 32) else c.

Fixpoint toLowerCase (s : string) : string :=
  match s with
  | EmptyString => ""
  | String c rest => String (lowerChar c) (toLowerCase rest)
  end.

Record LogFile : Type := mkLogFile {
  fileName : string;
  file : string
}.

Definition concatMap (f : string -> string) (l : list string) : string :=
  join "" (map f l).

(** The email part of a monthly report ([report.js]). *)
Record EmailReport : Type := mkEmailReport {
  bounceCount : nat;
  bounceRecipients : list string;
  complaintCount : nat;
  complaintRecipients : list string;
  deliveredCount : nat;
  deliveredRecipients : list string;
  sendCount : nat;
  sendRecipients : list string;
  deliveryDelayCount : nat;
  deliveryDelayRecipients : list string
}.

(** A message object of [whatsapp.js]. *)
Module Message.
Record t : Type := mk {
  phoneNumber : Phone;
  templateName : string;
  parameters : option (list string);
  languageCode : string
}.
End Message.

Section Pipeline.

Variable env : ProcessEnv.
Variable ext : Collaborators.

(** ** utils/validate.js: the batch cost *)

Definition calculateBatchCost (batchSize : nat) (batchType : BatchType) : Z :=
  let costPerItem :=
    match batchType with
    | TypeEmail => TOKENS_PER_EMAIL env
    | TypeSms => TOKENS_PER_SMS env
    | TypeWhatsapp => TOKENS_PER_WHATSAPP env
    end in
  let totalBatchCost := (Z.of_nat batchSize * costPerItem)%Z in
  totalBatchCost.

(** ** auth0.js *)

(** One HTTP request to the identity provider: it is counted, recorded, and
    fails when the collaborator says so. *)
Definition request {A : Type} (e : Effect) (answer : World -> (string + A) * list User)
  : Eff (string + A) :=
  fun w =>
    let n := requests w in
    let log := (effects w ++ [e])%list in
    match idpFault ext n with
    | Some failure => (inl failure, mkWorld (users w) (S n) log)
    | None =>
        let (a, users') := answer w in
        (a, mkWorld users' (S n) log)
    end.

(** [GET /api/v2/users?q=email:...] *)
Definition axiosGetUsersByEmail (emailAddress : string)
  : Eff (string + list User) :=
  request (IdpGetUsers (Some emailAddress))
    (fun w =>
       (inr (filter (fun u => String.eqb (email u) emailAddress) (users w)),
        users w)).

(** [GET /api/v2/users] *)
Definition axiosGetAllUsers : Eff (string + list User) :=
  request (IdpGetUsers None) (fun w => (inr (users w), users w)).

Definition applyPatch (p : Patch) (u : User) : User :=
  match p with
  | PatchTokens t =>
      mkUser (user_id u) (email u) (nickname u) (name u) (email_verified u)
        (is_active u) t (wa_access_token u) (wa_phone_number_id u)
  | PatchWhatsapp accessToken phoneNumberId =>
      mkUser (user_id u) (email u) (nickname u) (name u) (email_verified u)
        (is_active u) (tokens u) accessToken phoneNumberId
  end.

Definition patchUsers (userId : string) (p : Patch) (us : list User)
  : list User :=
  map (fun u => if String.eqb (user_id u) userId then applyPatch p u else u)
    us.

(** [PATCH /api/v2/users/{id}]: the provider merges the metadata and answers
    with the updated account. *)
Definition axiosPatchUser (userId : string) (p : Patch)
  : Eff (string + User) :=
  request (IdpPatchUser userId p)
    (fun w =>
       match find (fun u => String.eqb (user_id u) userId) (users w) with
       | Some u => (inr (applyPatch p u), patchUsers userId p (users w))
       | None => (inl "Not Found", users w)
       end).

Definition getUserByEmail (emailAddress : string)
  : Eff (Response (list User)) :=
  r <- axiosGetUsersByEmail emailAddress ;;
  match r with
  | inl failure =>
      ret (ResponseHandler.error None "Failed to fetch user by email"
             (Some failure))
  | inr [] =>
      ret (ResponseHandler.notFound "User not found" (Some emailAddress))
  | inr users =>
      ret (ResponseHandler.success "Successfully fetched user by email"
             (Some users))
  end.

(** [sesClient.send(new SendRawEmailCommand(...))] of a message built by
    [buildRawMessage], which writes the headers [From], [To] and [Subject]
    and the attachment, and ignores a [bcc] property. *)
Definition sendRawEmail (from to subject filename attachment : string)
  : Eff (option string) :=
  _ <- emit (SesSendRawEmail from to subject filename) ;;
  ret (sesRawFault ext to filename).

Definition emailUserTokensUpdated (clientName clientEmail : string)
    (clientTokens : Z) : Eff (string + unit) :=
  let template := clientTokensUpdatedEmailTemplate ext clientName clientTokens in
  if ENABLE_SEND_AUTH0_EMAIL env then
    failure <- sendRawEmail (ADMIN_EMAIL_ADDRESS env) clientEmail
                 (fst template) "" "" ;;
    match failure with
    | Some error =>
        ret (inl ("Error sending user tokens updated email: " ++ error))
    | None => ret (inr tt)
    end
  else ret (inl "Send Auth0 emails disabled").

Definition updateUserTokens (emailAddress : string) (tokenAmount : Z)
    (mathOperator : string) (isBatch : bool) : Eff (Response Z) :=
  returned (
    response <-? catchReturn (axiosGetUsersByEmail emailAddress)
                   (fun error =>
                      ResponseHandler.error None "Failed to update user tokens"
                        (Some error)) ;;
    match response with
    | [] =>
        ret (inl (ResponseHandler.notFound "User not found"
                    (Some emailAddress)))
    | user :: _ =>
        let userId := user_id user in
        let currentTokens := tokens user in
        let tokenAmountNumber := tokenAmount in
        updatedTokenAmount <-?
          ret (if String.eqb mathOperator "+" then
                 inr (currentTokens + tokenAmountNumber)%Z
               else if String.eqb mathOperator "-" then
                 inr (currentTokens - tokenAmountNumber)%Z
               else
                 inl (ResponseHandler.error None
                        "A subtraction or addition mathematical operator is required"
                        None)) ;;
        updateUserTokensResponse <-?
          catchReturn (axiosPatchUser userId (PatchTokens updatedTokenAmount))
            (fun error =>
               ResponseHandler.error None "Failed to update user tokens"
                 (Some error)) ;;
        let clientName := nickname updateUserTokensResponse in
        let clientTokens := tokens updateUserTokensResponse in
        _ <-? (if negb isBatch then
                 catchReturn
                   (emailUserTokensUpdated clientName emailAddress clientTokens)
                   (fun error =>
                      ResponseHandler.error None
                        "Failed to send user tokens updated email" (Some error))
               else ret (inr tt)) ;;
        ret (inr (ResponseHandler.success "Successfully updated user tokens"
                    (Some (tokens updateUserTokensResponse))))
    end).

Definition updateUserWhatsAppCredentials (emailAddress accessToken
    phoneNumberId : string) : Eff (Response User) :=
  returned (
    response <-? catchReturn (axiosGetUsersByEmail emailAddress)
                   (fun error =>
                      ResponseHandler.error None
                        "Failed to update user WhatsApp credentials"
                        (Some error)) ;;
    match response with
    | [] =>
        ret (inl (ResponseHandler.notFound "User not found"
                    (Some emailAddress)))
    | user :: _ =>
        let userId := user_id user in
        updateUserTokensResponse <-?
          catchReturn
            (axiosPatchUser userId (PatchWhatsapp accessToken phoneNumberId))
            (fun error =>
               ResponseHandler.error None
                 "Failed to update user WhatsApp credentials" (Some error)) ;;
        ret (inr (ResponseHandler.success
                    "Successfully updated user WhatsApp credentials"
                    (Some updateUserTokensResponse)))
    end).

Definition getAllUsers : Eff (Response (list User)) :=
  r <- axiosGetAllUsers ;;
  match r with
  | inl failure =>
      ret (ResponseHandler.error None "Failed to fetch all users"
             (Some failure))
  | inr users =>
      ret (ResponseHandler.success "Successfully fetched all users"
             (Some users))
  end.

(** ** utils/validate.js: eligibility *)

Definition validateBatchRequest (emailAddress : string) (batchSize : nat)
    (batchType : BatchType) : Eff (string + unit) :=
  userByEmailResponse <- getUserByEmail emailAddress ;;
  if negb (Nat.eqb (statusCode userByEmailResponse) 200) then
    ret (inl ("Failed to validate batch request: "
              ++ match details userByEmailResponse with
                 | Some d => d
                 | None => "undefined"
                 end))
  else
    match data userByEmailResponse with
    | Some (user :: _) =>
        let userActiveStatus := is_active user in
        let userEmailVerified := email_verified user in
        let userTokens := tokens user in
        if negb userActiveStatus then ret (inl "User is not active!")
        else if negb userEmailVerified then
          ret (inl "User email not verified!")
        else
          let batchCost := calculateBatchCost batchSize batchType in
          if (batchCost >? userTokens)%Z then
            ret (inl "User has insufficient tokens!")
          else ret (inr tt)
    | Some [] =>
        ret (inl "Cannot read properties of undefined (reading 'user_metadata')")
    | None => ret (inl "Cannot read properties of undefined (reading '0')")
    end.

(** ** utils/storage.js *)

Definition uploadLogFileToS3 (filePath logFile : string)
  : Eff (string + unit) :=
  if String.eqb filePath "" || String.eqb logFile "" then
    ret (inl "Both file batch and log file required")
  else if ENABLE_UPLOAD_LOG_FILE_TO_S3 env then
    _ <- emit (S3PutObject filePath logFile) ;;
    match s3Fault ext filePath with
    | Some error => ret (inl ("Error uploading log file to S3: " ++ error))
    | None => ret (inr tt)
    end
  else ret (inl "Upload to S3 disabled").

(** ** utils/logs.js *)

(** The common tail of the three log writers. *)
Definition storeLog (concatFileName logContent : string)
  : Eff (string + LogFile) :=
  r <- uploadLogFileToS3 concatFileName logContent ;;
  match r with
  | inl message => ret (inl ("Failed to upload log file to S3: " ++ message))
  | inr _ => ret (inr (mkLogFile concatFileName logContent))
  end.

Definition responsesBlock (responses : list string) : string :=
  match responses with
  | [] => ""
  | _ => join nl responses ++ nl ++ nl
  end.

Definition errorBlock (title : string) (errorResponse : option string)
  : string :=
  match errorResponse with
  | Some e => title ++ nl ++ JSON_stringify ext e ++ nl
  | None => ""
  end.

Definition logEmailToFile (clientName clientEmail emailSubject : string)
    (emailParagraphs : list string) (emailParameterMaps : list ParameterMap)
    (invalidEmailAddresses batchEmailResponses : list string)
    (errorResponse : option string) (updatedUserTokens : Z)
  : Eff (string + LogFile) :=
  let fileNameDate := getFileNameDate ext in
  let formattedDate := getFormattedDate ext in
  let client := removeDots (beforeAt clientEmail) in
  let subject := toLowerCase (underscoreSpaces emailSubject false) in
  let emailAddresses := map address emailParameterMaps in
  let concatFileName := client ++ "_" ++ subject ++ "_" ++ fileNameDate
                        ++ ".txt" in
  let logContent :=
    "Client name: " ++ clientName ++ nl
    ++ "Client email: " ++ clientEmail ++ nl
    ++ "Date: " ++ formattedDate ++ nl
    ++ "Tokens remaining: " ++ show_Z updatedUserTokens ++ nl
    ++ "Subject: " ++ emailSubject ++ nl
    ++ "Paragraphs:" ++ nl ++ nl
    ++ concatMap (fun paragraph => paragraph ++ nl ++ nl) emailParagraphs ++ nl
    ++ "Sending to (" ++ show_nat (length emailAddresses) ++ "):" ++ nl
    ++ join nl emailAddresses ++ nl ++ nl
    ++ "Invalid email addresses:" ++ nl
    ++ join nl invalidEmailAddresses ++ nl ++ nl
    ++ "Batch email responses:" ++ nl
    ++ responsesBlock batchEmailResponses
    ++ errorBlock "Batch email error response:" errorResponse in
  storeLog concatFileName logContent.

Definition logSmsToFile (clientName clientEmail : string)
    (clientMobile : list string) (smsBody : string)
    (mobileParameterMaps : list ParameterMap)
    (invalidMobileNumbers batchSmsResponses : list string)
    (errorResponse : option string) (updatedUserTokens : Z)
  : Eff (string + LogFile) :=
  let fileNameDate := getFileNameDate ext in
  let formattedDate := getFormattedDate ext in
  let client := removeDots (beforeAt clientEmail) in
  let mobileNumbers := map address mobileParameterMaps in
  let concatFileName := client ++ "_sms_" ++ fileNameDate ++ ".txt" in
  let logContent :=
    "Client name: " ++ clientName ++ nl
    ++ "Client email: " ++ clientEmail ++ nl
    ++ "Client mobile: " ++ join "," clientMobile ++ nl
    ++ "Tokens remaining: " ++ show_Z updatedUserTokens ++ nl
    ++ "Date: " ++ formattedDate ++ nl
    ++ "Body:" ++ nl ++ smsBody ++ nl ++ nl
    ++ "Sending to (" ++ show_nat (length mobileParameterMaps) ++ "):" ++ nl
    ++ join nl mobileNumbers ++ nl ++ nl
    ++ "Invalid mobile numbers:" ++ nl
    ++ join nl invalidMobileNumbers ++ nl ++ nl
    ++ "Batch SMS responses:" ++ nl
    ++ responsesBlock batchSmsResponses
    ++ errorBlock "Batch SMS error response:" errorResponse in
  storeLog concatFileName logContent.

Definition logWhatsappToFile (clientName clientEmail : string)
    (clientMobile : list string) (templateName : string)
    (whatsappParameterMaps : list ParameterMap)
    (invalidMobileNumbers batchWhatsappResponse : list string)
    (errorResponse : option string) (updatedUserTokens : Z)
  : Eff (string + LogFile) :=
  let fileNameDate := getFileNameDate ext in
  let formattedDate := getFormattedDate ext in
  let client := removeDots (beforeAt clientEmail) in
  let mobileNumbers := map address whatsappParameterMaps in
  let concatFileName := client ++ "_whatsapp_" ++ fileNameDate ++ ".txt" in
  let logContent :=
    "Client name: " ++ clientName ++ nl
    ++ "Client email: " ++ clientEmail ++ nl
    ++ "Client mobile: " ++ join "," clientMobile ++ nl
    ++ "Tokens remaining: " ++ show_Z updatedUserTokens ++ nl
    ++ "Date: " ++ formattedDate ++ nl ++ nl
    ++ "WhatsApp template name: " ++ templateName ++ nl ++ nl
    ++ "Sending to (" ++ show_nat (length whatsappParameterMaps) ++ "):" ++ nl
    ++ join nl mobileNumbers ++ nl ++ nl
    ++ "Invalid mobile numbers:" ++ nl
    ++ join nl invalidMobileNumbers ++ nl ++ nl
    ++ "Batch WhatsApp responses:" ++ nl
    ++ join nl (map (JSON_stringify ext) batchWhatsappResponse) ++ nl ++ nl
    ++ errorBlock "Error response:" errorResponse in
  storeLog concatFileName logContent.

(** ** email.js *)

Definition emailLogFileToClient (clientName clientEmail batchType
    logFileName logFile : string) : Eff (string + unit) :=
  let template := clientLogFileEmailTemplate ext clientName batchType in
  let subject := fst template in
  if ENABLE_SEND_LOG_FILE_TO_CLIENT env then
    failure <- sendRawEmail clientEmail clientEmail subject
                 logFileName logFile ;;
    match failure with
    | Some error =>
        ret (inl ("Failed to send batch log file to client: " ++ error))
    | None => ret (inr tt)
    end
  else ret (inl "Email log file to client disabled").

(** What the [map] callback of [sendBatchEmails] does for one entry: the
    request it hands to [sesClient.send], the array element it returns and
    the line its [catch] pushes when the call itself throws. A rejection of
    the returned promise happens after the callback has returned. *)
Definition emailCallback (clientEmail emailSubject emailBody : string)
    (emailParameterMap : ParameterMap) (index : nat)
  : Effect * Awaitable (option string) * list string :=
  let parameters := parameters emailParameterMap in
  let modifiedEmailBody := replacePlaceholders emailBody parameters in
  let censoredEmailBody := censorMessageBody ext modifiedEmailBody in
  let command :=
    SesSendEmail clientEmail (address emailParameterMap) emailSubject
      censoredEmailBody in
  match sesSend ext index (address emailParameterMap) censoredEmailBody with
  | Fulfilled t messageId => (command, Promise t (inr (Some messageId)), [])
  | Rejected t error => (command, Promise t (inl error), [])
  | Thrown error =>
      (command, Plain None,
       ["Failed to send email to " ++ address emailParameterMap ++ ": "
        ++ error])
  end.

(** [`${emailAddresses[index]}`] *)
Definition showIndexed (l : list string) (index : nat) : string :=
  match nth_error l index with
  | Some s => s
  | None => "undefined"
  end.

(** The array [emailAddresses], [[clientEmail]] for a draft, is read only
    for the success lines; the callbacks run over [emailParameterMaps]. *)
Definition sendBatchEmails (clientEmail emailSubject emailBody : string)
    (emailParameterMaps : list ParameterMap) (isDraft : bool)
  : Eff (list string) :=
  let emailAddresses :=
    if isDraft then [clientEmail] else map address emailParameterMaps in
  let calls :=
    mapi (emailCallback clientEmail emailSubject emailBody)
      emailParameterMaps in
  let promises := map (fun c => snd (fst c)) calls in
  let logs := concat (map snd calls) in
  _ <- emitAll (map (fun c => fst (fst c)) calls) ;;
  match Promise_all promises with
  | inr responses =>
      ret (app logs
             (concat
                (mapi
                   (fun result index =>
                      match result with
                      | Some messageId =>
                          ["Email sent to " ++ showIndexed emailAddresses index
                           ++ ". MessageId: " ++ messageId]
                      | None => []
                      end)
                   responses)))
  | inl error => ret (app logs ["Error sending email: " ++ error])
  end.

Definition failWith {A : Type} (message : string) (details : option string)
  : Response A :=
  ResponseHandler.error None message details.

Definition processEmails (sheetData : Sheet) (isDraft : bool)
  : Eff (Response string) :=
  returned (
    extractResponse <-?
      catchReturn (ret (extractEmail sheetData))
        (fun error =>
           failWith "Failed to extract from email spreadsheet" (Some error)) ;;
    let clientName := EmailSheet.clientName extractResponse in
    let clientEmail := EmailSheet.clientEmail extractResponse in
    let companyName := EmailSheet.companyName extractResponse in
    let companyAddress := EmailSheet.companyAddress extractResponse in
    let emailSubject := EmailSheet.emailSubject extractResponse in
    let emailParagraphs := EmailSheet.emailParagraphs extractResponse in
    let emailParameterMaps := EmailSheet.emailParameterMaps extractResponse in
    let invalidEmailAddresses :=
      EmailSheet.invalidEmailAddresses extractResponse in
    _ <-? (if negb isDraft then
             catchReturn
               (validateBatchRequest clientEmail
                  (length emailParameterMaps) TypeEmail)
               (fun error =>
                  failWith "Failed to validate batch request" (Some error))
           else ret (inr tt)) ;;
    let emailBody :=
      buildBatchRequestEmailBody ext emailParagraphs companyName clientEmail
        companyAddress in
    batchEmailResponses <-?
      (if ENABLE_SEND_EMAIL env then
         logs <- sendBatchEmails clientEmail emailSubject emailBody
                   emailParameterMaps isDraft ;;
         ret (inr logs)
       else ret (inl (failWith "Send email disabled" None))) ;;
    updatedUserTokens <-?
      (if negb isDraft then
         let batchCost :=
           calculateBatchCost (length emailParameterMaps) TypeEmail in
         updateUserTokensResponse <-
           updateUserTokens clientEmail batchCost "-" true ;;
         if negb (Nat.eqb (statusCode updateUserTokensResponse) 200) then
           ret (inl (failWith "Failed to update user tokens"
                       (details updateUserTokensResponse)))
         else
           ret (inr match data updateUserTokensResponse with
                    | Some t => t
                    | None => 0%Z
                    end)
       else ret (inr 0%Z)) ;;
    logResponse <-?
      catchReturn
        (logEmailToFile clientName clientEmail emailSubject emailParagraphs
           emailParameterMaps invalidEmailAddresses batchEmailResponses None
           updatedUserTokens)
        (fun error => failWith "Failed to create log file" (Some error)) ;;
    let logFileName := fileName logResponse in
    let logFile := file logResponse in
    _ <-? catchReturn
            (emailLogFileToClient clientName clientEmail "Email" logFileName
               logFile)
            (fun error =>
               failWith "Failed to email log file to client" (Some error)) ;;
    ret (inr (ResponseHandler.success "Successfully sent email batch!"
                (Some ("You have " ++ show_Z updatedUserTokens
                       ++ " tokens left"))))).

(** ** sms.js *)

(** [ensureLogStreamExist]: the streams of the group are listed and the
    stream is created when it is not among them; any failure is rethrown.
    The result comes with the requests made. *)
Definition ensureLogStreamExist (index : nat) (logStreamName : string)
  : (string + unit) * list Effect :=
  let describe := CloudWatchDescribeLogStreams AWS_SMS_LOG_STREAM_NAME in
  match describeLogStreams ext index AWS_SMS_LOG_STREAM_NAME with
  | inl error => (inl ("Failed to ensure log stream: " ++ error), [describe])
  | inr None =>
      (inl ("Failed to ensure log stream: "
            ++ "TypeError: Cannot read properties of undefined (reading 'find')"),
       [describe])
  | inr (Some logStreams) =>
      if existsb (String.eqb logStreamName) logStreams then
        (inr tt, [describe])
      else
        (match createLogStreamFault ext index logStreamName with
         | Some error => inl ("Failed to ensure log stream: " ++ error)
         | None => inr tt
         end,
         [describe; CloudWatchCreateLogStream logStreamName])
  end.

(** [logSmsEvent] catches both of its failures and returns a response
    object for them, so it never throws; the result type keeps the
    possibility because the caller has a [catch] for it. *)
Definition logSmsEvent (index : nat)
    (clientEmail mobileNumber messageId message : string)
  : (string + option (Response unit)) * list Effect :=
  let logStreamName := "Sender-" ++ clientEmail in
  match ensureLogStreamExist index logStreamName with
  | (inl error, requests) =>
      (inr (Some (failWith "Failed to ensure log stream exist" (Some error))),
       requests)
  | (inr _, requests) =>
      (match putLogEventsFault ext logStreamName messageId with
       | Some error =>
           inr (Some (failWith "Failed to log SMS event" (Some error)))
       | None => inr None
       end,
       (requests
        ++ [CloudWatchPutLogEvents logStreamName mobileNumber messageId
              message])%list)
  end.

(** The async [map] callback of [sendBatchSMS] for one entry: its requests,
    the promise it returns (never rejected: both [catch] blocks swallow the
    error) and the lines it pushes, each with the instant of the push. *)
Definition smsCallback (smsBody clientEmail : string)
    (mobileNumberMap : ParameterMap) (index : nat)
  : list Effect * Awaitable (option (string * string))
    * list (nat * string) :=
  let parameters := parameters mobileNumberMap in
  let modifiedSmsBody := replacePlaceholders smsBody parameters in
  let censoredSmsBody := censorMessageBody ext modifiedSmsBody in
  let mobile := address mobileNumberMap in
  let publish := SnsPublish mobile censoredSmsBody in
  match snsSend ext index mobile censoredSmsBody with
  | Fulfilled t messageId =>
      let (logged, requests) :=
        logSmsEvent index clientEmail mobile messageId censoredSmsBody in
      (publish :: requests, Promise t (inr (Some (mobile, messageId))),
       match logged with
       | inl error =>
           [(t, "Failed to log SMS event for " ++ mobile ++ ": " ++ error)]
       | inr _ => []
       end)
  | Rejected t error =>
      ([publish], Promise t (inr None),
       [(t, "Failed to send SMS to " ++ mobile ++ ": " ++ error)])
  | Thrown error =>
      ([publish], Promise 0 (inr None),
       [(0, "Failed to send SMS to " ++ mobile ++ ": " ++ error)])
  end.

(** The array [mobileNumbers], filled with [clientMobile] for a draft and
    with the mobiles of the entries otherwise, is not read after it is
    filled; the callbacks run over [mobileParameterMaps]. *)
Definition sendBatchSMS (smsBody : string)
    (mobileParameterMaps : list ParameterMap) (clientMobile : list string)
    (clientEmail : string) (isDraft : bool) : Eff (string + list string) :=
  let calls := mapi (smsCallback smsBody clientEmail) mobileParameterMaps in
  let promises := map (fun c => snd (fst c)) calls in
  let logs := inCompletionOrder (concat (map snd calls)) in
  _ <- emitAll (concat (map (fun c => fst (fst c)) calls)) ;;
  match Promise_all promises with
  | inr results =>
      ret (inr (app logs
                  (concat
                     (map
                        (fun result =>
                           match result with
                           | Some (mobile, messageId) =>
                               ["SMS sent to " ++ mobile ++ ". MessageId: "
                                ++ messageId]
                           | None => []
                           end)
                        results))))
  | inl error => ret (inl error)
  end.

Definition processSms (sheetData : Sheet) (isDraft : bool)
  : Eff (Response string) :=
  returned (
    extractResponse <-?
      catchReturn (ret (extractMobile sheetData))
        (fun error =>
           failWith "Failed to extract values from spreadsheet" (Some error)) ;;
    let clientName := SmsSheet.clientName extractResponse in
    let clientEmail := SmsSheet.clientEmail extractResponse in
    let clientMobile := SmsSheet.clientMobile extractResponse in
    let smsBody := SmsSheet.smsBody extractResponse in
    let mobileParameterMaps := SmsSheet.mobileParameterMaps extractResponse in
    let invalidMobileNumbers :=
      SmsSheet.invalidMobileNumbers extractResponse in
    _ <-? (if negb isDraft then
             catchReturn
               (validateBatchRequest clientEmail (length mobileParameterMaps)
                  TypeSms)
               (fun error =>
                  failWith "Failed to validate batch request" (Some error))
           else ret (inr tt)) ;;
    batchSmsResponses <-?
      (if ENABLE_SEND_SMS env then
         catchReturn
           (sendBatchSMS smsBody mobileParameterMaps clientMobile clientEmail
              isDraft)
           (fun error => failWith "Failed to send batch SMS" (Some error))
       else ret (inl (failWith "Send SMS disabled" None))) ;;
    updatedUserTokens <-?
      (if negb isDraft then
         let batchCost :=
           calculateBatchCost (length mobileParameterMaps) TypeSms in
         updateUserTokensResponse <-
           updateUserTokens clientEmail batchCost "-" true ;;
         if negb (Nat.eqb (statusCode updateUserTokensResponse) 200) then
           ret (inl (failWith "Failed to update user tokens"
                       (details updateUserTokensResponse)))
         else
           ret (inr match data updateUserTokensResponse with
                    | Some t => t
                    | None => 0%Z
                    end)
       else ret (inr 0%Z)) ;;
    logResponse <-?
      catchReturn
        (logSmsToFile clientName clientEmail clientMobile smsBody
           mobileParameterMaps invalidMobileNumbers batchSmsResponses None
           updatedUserTokens)
        (fun error => failWith "Failed to create log file" (Some error)) ;;
    let logFileName := fileName logResponse in
    let logFile := file logResponse in
    _ <-? catchReturn
            (emailLogFileToClient clientName clientEmail "SMS" logFileName
               logFile)
            (fun error =>
               failWith "Failed to email log file to client" (Some error)) ;;
    ret (inr (ResponseHandler.success "Successfully sent SMS batch!"
                (Some ("You have " ++ show_Z updatedUserTokens
                       ++ " tokens left"))))).

(** ** whatsapp.js *)

(** [`${phoneNumber}`] *)
Definition showPhone (p : Phone) : string :=
  match p with
  | PhoneText s => s
  | PhoneArray l => join "," l
  end.

(** The async [map] callback of [sendBatchWhatsappTemplateMessages]. It reads
    a property [messageParameters] that no message carries, so the payload
    has no body parameters. On failure it throws: its promise is rejected. *)
Definition whatsappCallback (apiUrl : string) (message : Message.t)
    (index : nat)
  : Effect * Awaitable unit * list (nat * string) :=
  let phoneNumber := Message.phoneNumber message in
  let messageParameters : option (list string) := None in
  let post :=
    WhatsappPost apiUrl phoneNumber (Message.templateName message)
      (Message.languageCode message) messageParameters in
  let failure error :=
    "Failed to send WhatsApp message to: " ++ showPhone phoneNumber ++ ": "
    ++ error in
  match whatsappSend ext index phoneNumber with
  | Fulfilled t responseData =>
      (post, Promise t (inr tt),
       [(t, "Successfully sent WhatsApp message to: " ++ showPhone phoneNumber);
        (t, JSON_stringify ext responseData)])
  | Rejected t error => (post, Promise t (inl (failure error)), [])
  | Thrown error => (post, Promise 0 (inl (failure error)), [])
  end.

Definition sendBatchWhatsappTemplateMessages (messages : list Message.t)
    (accessToken apiUrl : string) : Eff (string + list string) :=
  let calls := mapi (whatsappCallback apiUrl) messages in
  let promises := map (fun c => snd (fst c)) calls in
  let logs := inCompletionOrder (concat (map snd calls)) in
  _ <- emitAll (map (fun c => fst (fst c)) calls) ;;
  match Promise_all promises with
  | inr results => ret (inr logs)
  | inl error => ret (inl error)
  end.

Definition processWhatsapp (sheetData : Sheet) (isDraft : bool)
  : Eff (Response string) :=
  returned (
    extractResponse <-?
      catchReturn (ret (extractWhatsapp sheetData))
        (fun error =>
           failWith "Failed to extract values from spreadsheet" (Some error)) ;;
    let clientName := WhatsappSheet.clientName extractResponse in
    let clientEmail := WhatsappSheet.clientEmail extractResponse in
    let clientMobile := WhatsappSheet.clientMobile extractResponse in
    let accessToken := WhatsappSheet.whatsappAccessToken extractResponse in
    let phoneNumberId := WhatsappSheet.whatsappPhoneNumberId extractResponse in
    let templateName := WhatsappSheet.whatsappTemplateName extractResponse in
    let whatsappParameterMaps :=
      WhatsappSheet.whatsappParameterMaps extractResponse in
    let invalidMobileNumbers :=
      WhatsappSheet.invalidMobileNumbers extractResponse in
    let apiUrl := WA_API_URL env ++ "/" ++ phoneNumberId ++ "/messages" in
    _ <-? (if negb isDraft then
             catchReturn
               (validateBatchRequest clientEmail
                  (length whatsappParameterMaps) TypeWhatsapp)
               (fun error =>
                  failWith "Failed to validate batch request" (Some error))
           else ret (inr tt)) ;;
    let messages :=
      if isDraft then
        [Message.mk (PhoneArray clientMobile) templateName None "en_US"]
      else
        map (fun mobileNumber =>
               Message.mk (PhoneText (address mobileNumber)) templateName
                 (Some (parameters mobileNumber)) "en_US")
          whatsappParameterMaps in
    batchWhatsappResponse <-?
      (if ENABLE_SEND_WHATSAPP env then
         catchReturn
           (sendBatchWhatsappTemplateMessages messages accessToken apiUrl)
           (fun error => failWith "Failed to send batch WhatsApp" (Some error))
       else ret (inl (failWith "Send WhatsApp disabled" None))) ;;
    updatedUserTokens <-?
      (if negb isDraft then
         let batchCost :=
           calculateBatchCost (length whatsappParameterMaps) TypeEmail in
         updateUserTokensResponse <-
           updateUserTokens clientEmail batchCost "-" true ;;
         if negb (Nat.eqb (statusCode updateUserTokensResponse) 200) then
           ret (inl (failWith "Failed to update user tokens"
                       (details updateUserTokensResponse)))
         else
           ret (inr match data updateUserTokensResponse with
                    | Some t => t
                    | None => 0%Z
                    end)
       else ret (inr 0%Z)) ;;
    _ <- updateUserWhatsAppCredentials clientEmail accessToken phoneNumberId ;;
    logResponse <-?
      catchReturn
        (logWhatsappToFile clientName clientEmail clientMobile templateName
           whatsappParameterMaps invalidMobileNumbers batchWhatsappResponse
           None updatedUserTokens)
        (fun error => failWith "Failed to create log file" (Some error)) ;;
    let logFileName := fileName logResponse in
    let logFile := file logResponse in
    _ <-? catchReturn
            (emailLogFileToClient clientName clientEmail "WhatsApp"
               logFileName logFile)
            (fun error =>
               failWith "Failed to email log file to client" (Some error)) ;;
    ret (inr (ResponseHandler.success "Successfully sent WhatsApp batch!"
                (Some ("You have " ++ show_Z updatedUserTokens
                       ++ " tokens left"))))).

(** ** report.js *)

(** [getEmailEventsBySender]: one query of the email log group, whose
    events are parsed; any failure is caught and answered with an error
    response object, which the function returns like a list of events. *)
Definition getEmailEventsBySender (senderEmailAddress : string)
  : Eff (Response unit + list EmailEvent) :=
  let filterPattern :=
    doubleQuote ++ "source" ++ doubleQuote ++ " " ++ doubleQuote ++ "ses"
    ++ doubleQuote ++ " " ++ doubleQuote ++ senderEmailAddress ++ doubleQuote in
  let failed error := inl (failWith "Error fetching email events" (Some error)) in
  _ <- emit (CloudWatchFilterLogEvents AWS_EMAIL_LOG_GROUP_NAME None
               (Some filterPattern)) ;;
  match filterLogEvents ext 0 AWS_EMAIL_LOG_GROUP_NAME None
          (Some filterPattern) with
  | inl error => ret (failed error)
  | inr None =>
      ret (failed
             "TypeError: Cannot read properties of undefined (reading 'map')")
  | inr (Some messages) =>
      match mapE (JSON_parseEmailEvent ext) messages with
      | inl error => ret (failed error)
      | inr events => ret (inr events)
      end
  end.

(** [getSmsEventsBySender]: the streams of the senders are listed; without
    a stream of this sender the answer is the empty list, otherwise the
    events of the stream are queried and parsed. The events are given by
    their [messageId]. *)
Definition getSmsEventsBySender (clientEmail : string)
  : Eff (Response unit + list string) :=
  let logStreamName := "Sender-" ++ clientEmail in
  let failed error := inl (failWith "Failed to fetch logs" (Some error)) in
  _ <- emit (CloudWatchDescribeLogStreams AWS_SMS_LOG_STREAM_NAME) ;;
  match describeLogStreams ext 0 AWS_SMS_LOG_STREAM_NAME with
  | inl error => ret (failed error)
  | inr None =>
      ret (failed
             "TypeError: Cannot read properties of undefined (reading 'find')")
  | inr (Some logStreams) =>
      if negb (existsb (String.eqb logStreamName) logStreams) then
        ret (inr [])
      else
        _ <- emit (CloudWatchFilterLogEvents AWS_SMS_LOG_STREAM_NAME
                     (Some logStreamName) None) ;;
        match filterLogEvents ext 0 AWS_SMS_LOG_STREAM_NAME
                (Some logStreamName) None with
        | inl error => ret (failed error)
        | inr None => ret (inr [])
        | inr (Some messages) =>
            match mapE (JSON_parseSmsEvent ext) messages with
            | inl error => ret (failed error)
            | inr logs => ret (inr logs)
            end
        end
  end.

(** What [searchSnsLogForMessageId] returns: [null], the first event found,
    given by its [message], or the error response object of its [catch]. *)
Inductive SnsLog : Type :=
| NoLog : SnsLog
| LogEvent : string -> SnsLog
| SearchFailed : Response unit -> SnsLog.

(** The [for (const logStream of logStreams)] loop: one query per stream,
    until a stream has an event that matches. *)
Fixpoint searchLogStreams (index : nat) (filterPattern : string)
    (logStreams : list string) : SnsLog * list Effect :=
  match logStreams with
  | [] => (NoLog, [])
  | logStreamName :: rest =>
      let query :=
        CloudWatchFilterLogEvents AWS_SMS_LOG_GROUP_NAME (Some logStreamName)
          (Some filterPattern) in
      match filterLogEvents ext index AWS_SMS_LOG_GROUP_NAME
              (Some logStreamName) (Some filterPattern) with
      | inl error =>
          (SearchFailed (failWith "Error searching SNS logs" (Some error)),
           [query])
      | inr None =>
          (SearchFailed
             (failWith "Error searching SNS logs"
                (Some "TypeError: Cannot read properties of undefined (reading 'length')")),
           [query])
      | inr (Some []) =>
          let (found, queries) := searchLogStreams index filterPattern rest in
          (found, query :: queries)
      | inr (Some (event :: _)) => (LogEvent event, [query])
      end
  end.

(** [searchSnsLogForMessageId], asked by the callback of the event with
    the given index; the result comes with the requests made. *)
Definition searchSnsLogForMessageId (index : nat) (messageId : string)
  : SnsLog * list Effect :=
  let describe := CloudWatchDescribeLogStreams AWS_SMS_LOG_GROUP_NAME in
  let filterPattern := doubleQuote ++ messageId ++ doubleQuote in
  match describeLogStreams ext index AWS_SMS_LOG_GROUP_NAME with
  | inl error =>
      (SearchFailed (failWith "Error searching SNS logs" (Some error)),
       [describe])
  | inr None => (NoLog, [describe])
  | inr (Some []) => (NoLog, [describe])
  | inr (Some logStreams) =>
      let (found, queries) :=
        searchLogStreams index filterPattern logStreams in
      (found, describe :: queries)
  end.

Definition countEvent (report : EmailReport) (event : EmailEvent)
  : EmailReport :=
  let r := report in
  let to := destination event in
  if String.eqb (eventType event) "Bounce" then
    mkEmailReport (S (bounceCount r)) (bounceRecipients r ++ to)%list
      (complaintCount r) (complaintRecipients r) (deliveredCount r)
      (deliveredRecipients r) (sendCount r) (sendRecipients r)
      (deliveryDelayCount r) (deliveryDelayRecipients r)
  else if String.eqb (eventType event) "Complaint" then
    mkEmailReport (bounceCount r) (bounceRecipients r)
      (S (complaintCount r)) (complaintRecipients r ++ to)%list
      (deliveredCount r) (deliveredRecipients r) (sendCount r)
      (sendRecipients r) (deliveryDelayCount r) (deliveryDelayRecipients r)
  else if String.eqb (eventType event) "Delivery" then
    mkEmailReport (bounceCount r) (bounceRecipients r) (complaintCount r)
      (complaintRecipients r) (S (deliveredCount r))
      (deliveredRecipients r ++ to)%list (sendCount r) (sendRecipients r)
      (deliveryDelayCount r) (deliveryDelayRecipients r)
  else if String.eqb (eventType event) "Send" then
    mkEmailReport (bounceCount r) (bounceRecipients r) (complaintCount r)
      (complaintRecipients r) (deliveredCount r) (deliveredRecipients r)
      (S (sendCount r)) (sendRecipients r ++ to)%list
      (deliveryDelayCount r) (deliveryDelayRecipients r)
  else if String.eqb (eventType event) "DeliveryDelay" then
    mkEmailReport (bounceCount r) (bounceRecipients r) (complaintCount r)
      (complaintRecipients r) (deliveredCount r) (deliveredRecipients r)
      (sendCount r) (sendRecipients r) (S (deliveryDelayCount r))
      (deliveryDelayRecipients r ++ to)%list
  else r.

(** [emailEvents.forEach] is not a function when the argument is the error
    response object. *)
Definition buildMonthlyEmailReport
    (emailEvents : Response unit + list EmailEvent) : string + EmailReport :=
  match emailEvents with
  | inl _ => inl "emailEvents.forEach is not a function"
  | inr events =>
      inr (fold_left countEvent events
             (mkEmailReport 0 [] 0 [] 0 [] 0 [] 0 []))
  end.

Fixpoint somes {A : Type} (l : list (option A)) : list A :=
  match l with
  | [] => []
  | Some a :: rest => a :: somes rest
  | None :: rest => somes rest
  end.

(** The async [map] callback of [buildMonthlySmsReport] for one event: its
    requests and the promise it returns. [logResponse == null] gives [null];
    otherwise [logResponse.message] is parsed, which for the error response
    object of a failed search is the text ["Error searching SNS logs"]. A
    throw of the parser or of the property reads rejects the promise. The
    i-th callback settles at instant i. *)
Definition smsReportCallback (messageId : string) (index : nat)
  : list Effect * Awaitable (option SmsReportEntry) :=
  let (logResponse, requests) := searchSnsLogForMessageId index messageId in
  (requests,
   match logResponse with
   | NoLog => Promise index (inr None)
   | LogEvent text =>
       Promise index
         (match JSON_parseSnsLog ext text with
          | inl error => inl error
          | inr entry => inr (Some entry)
          end)
   | SearchFailed response =>
       Promise index
         (match JSON_parseSnsLog ext (message response) with
          | inl error => inl error
          | inr entry => inr (Some entry)
          end)
   end).

(** One promise per event, all awaited together; the entries without a
    matching log are filtered out. The requests of the callbacks are listed
    callback by callback. [smsEvents.map] is not a function when the
    argument is the error response object. *)
Definition buildMonthlySmsReport (smsEvents : Response unit + list string)
  : Eff (string + list SmsReportEntry) :=
  match smsEvents with
  | inl _ => ret (inl "smsEvents.map is not a function")
  | inr events =>
      let calls := mapi smsReportCallback events in
      _ <- emitAll (concat (map fst calls)) ;;
      match Promise_all (map snd calls) with
      | inl error => ret (inl error)
      | inr reportEntries => ret (inr (somes reportEntries))
      end
  end.

Definition recipientsBlock (title : string) (count : nat)
    (recipients : list string) : string :=
  title ++ " (" ++ show_nat count ++ "):" ++ nl
  ++ concatMap (fun recipient => recipient ++ nl) recipients ++ nl.

Definition logReportToFile (clientEmail : string) (emailReport : EmailReport)
    (smsReport : list SmsReportEntry) : LogFile :=
  let fileNameDate := getFileNameDate ext in
  let client := removeDots (beforeAt clientEmail) in
  let concatFileName := client ++ "_report_" ++ fileNameDate ++ ".txt" in
  let logContent :=
    "Email:" ++ nl ++ nl
    ++ recipientsBlock "Send recipients" (sendCount emailReport)
         (sendRecipients emailReport)
    ++ recipientsBlock "Delivered recipients" (deliveredCount emailReport)
         (deliveredRecipients emailReport)
    ++ recipientsBlock "Bounced recipients" (bounceCount emailReport)
         (bounceRecipients emailReport)
    ++ recipientsBlock "Complaint recipients" (complaintCount emailReport)
         (complaintRecipients emailReport)
    ++ recipientsBlock "Delivery delay recipients"
         (deliveryDelayCount emailReport)
         (deliveryDelayRecipients emailReport)
    ++ "SMS:" ++ nl ++ nl
    ++ "SMS Events (" ++ show_nat (length smsReport) ++ "):" ++ nl
    ++ join nl
         (map (fun e =>
                 "Mobile: " ++ mobileNumber e ++ " | Carrier: "
                 ++ phoneCarrier e ++ " | Response: " ++ providerResponse e
                 ++ " | Status: " ++ status e)
            smsReport) in
  mkLogFile concatFileName logContent.

(** [sendMonthlyReportMail]: throws when the flag is off; otherwise the
    promise of the send, here already awaited by the caller. *)
Definition sendMonthlyReportMail (logResponse : LogFile)
    (clientName clientEmail : string) (clientTokens : Z)
  : Eff (string + option string) :=
  let template := clientMonthlyReportEmailTemplate ext clientName clientTokens in
  if ENABLE_SEND_MONTHLY_REPORT env then
    failure <- sendRawEmail clientEmail clientEmail (fst template)
                 (fileName logResponse) (file logResponse) ;;
    match failure with
    | Some error => ret (inl error)
    | None => ret (inr (Some "SendRawEmailCommandOutput"))
    end
  else ret (inl "Send monthly reports disabled").

(** The [try] block of the loop body for one user. *)
Definition reportUser (user : User) : Eff (string + Response unit) :=
  emailEvents <- getEmailEventsBySender (email user) ;;
  match buildMonthlyEmailReport emailEvents with
  | inl error => ret (inl error)
  | inr emailReport =>
      smsEvents <- getSmsEventsBySender (email user) ;;
      built <- buildMonthlySmsReport smsEvents ;;
      match built with
      | inl error => ret (inl error)
      | inr smsReport =>
          let logResponse :=
            logReportToFile (email user) emailReport smsReport in
          sent <- sendMonthlyReportMail logResponse (nickname user)
                    (name user) (tokens user) ;;
          match sent with
          | inl error => ret (inl error)
          | inr None =>
              ret (inr (failWith "Failed to send monthly report" None))
          | inr (Some _) =>
              ret (inr (ResponseHandler.success
                          ("Successfully sent monthly report to "
                           ++ email user) None))
          end
      end
  end.

(** The [for (const user of allUsers.data)] loop: the three [continue]
    guards, then the body, whose every path is a [return]. Falling off the
    end of the loop returns [undefined]. *)
Fixpoint reportLoop (allUsers : list User) : Eff (option (Response unit)) :=
  match allUsers with
  | [] => ret None
  | user :: rest =>
      if negb (email_verified user) then reportLoop rest
      else if negb (is_active user) then reportLoop rest
      else if (tokens user =? 0)%Z then reportLoop rest
      else
        r <- reportUser user ;;
        match r with
        | inr response => ret (Some response)
        | inl error =>
            ret (Some (failWith ("Failed to send monthly report to "
                                 ++ email user) (Some error)))
        end
  end.

Definition processMonthlyReports : Eff (option (Response unit)) :=
  allUsers <- getAllUsers ;;
  if negb (Nat.eqb (statusCode allUsers) 200) then
    ret (Some (failWith "Failed to process monthly report" (details allUsers)))
  else
    reportLoop (match data allUsers with Some us => us | None => [] end).

End Pipeline.

(** * Vocabulary of the statements *)

(** A pattern that, on texts of digits, matches exactly the one-digit ones. *)
Definition oneDigit (r : regex) : Prop :=
  forall s, allChars isDigit s = true -> (Lang r s <-> String.length s = 1).

(** No ["{}"] inside the text. *)
Fixpoint tokenFree (s : string) : bool :=
  match s with
  | EmptyString => true
  | String c rest =>
      match rest with
      | String d _ => negb (isPlaceholderAt c d) && tokenFree rest
      | EmptyString => true
      end
  end.

(** The texts between the placeholders, from left to right. *)
Fixpoint segmentsOf (s : string) : list string :=
  match s with
  | EmptyString => [""]
  | String c rest =>
      match rest with
      | String d rest' =>
          if isPlaceholderAt c d then "" :: segmentsOf rest'
          else
            match segmentsOf rest with
            | seg :: segs => String c seg :: segs
            | [] => [String c ""]
            end
      | EmptyString => [String c ""]
      end
  end.

(** What stands in the i-th gap: the i-th parameter, or the literal ["{}"]
    when the parameters have run out. *)
Definition substitute (parameters : list string) (index : nat) : string :=
  match nth_error parameters index with
  | Some p => p
  | None => "{}"
  end.

(** The segments put back together around the substitutes. *)
Fixpoint fillFrom (parameters : list string) (index : nat)
    (segments : list string) : string :=
  match segments with
  | [] => ""
  | seg :: rest =>
      match rest with
      | [] => seg
      | _ => seg ++ substitute parameters index
             ++ fillFrom parameters (S index) rest
      end
  end.

(** The number of positions at which ["{}"] occurs. *)
Fixpoint occurrences (s : string) : nat :=
  match s with
  | EmptyString => 0
  | String c rest =>
      match rest with
      | String d _ => if isPlaceholderAt c d then 1 else 0
      | EmptyString => 0
      end
      + occurrences rest
  end.

(** The text ends with an opening brace. *)
Fixpoint endsWithOpen (s : string) : bool :=
  match s with
  | EmptyString => false
  | String c rest =>
      match rest with
      | EmptyString => Ascii.eqb c "{"
      | _ => endsWithOpen rest
      end
  end.

(** The entries whose address has not been seen before, in order. *)
Fixpoint keepFirst (seen : list string) (items : list ParameterMap)
  : list ParameterMap :=
  match items with
  | [] => []
  | item :: rest =>
      if existsb (String.eqb (address item)) seen then keepFirst seen rest
      else item :: keepFirst (seen ++ [address item])%list rest
  end.

(** The first entry of a list that carries a given address. *)
Definition firstWith (a : string) (items : list ParameterMap)
  : option ParameterMap :=
  find (fun item => String.eqb (address item) a) items.

(** The addresses of a column that are text, not blank, and fail a check. *)
Fixpoint failingAddresses (check : string -> bool) (column : nat)
    (rows : list Row) : list string :=
  match rows with
  | [] => []
  | row :: rest =>
      match cellAt row column with
      | Some s =>
          if negb (check s) && isNonBlank (Some s)
          then s :: failingAddresses check column rest
          else failingAddresses check column rest
      | None => failingAddresses check column rest
      end
  end.

(** The entries of the rows whose address passes a check. *)
Fixpoint passingEntries (check : string -> bool) (column : nat)
    (rows : list Row) : list ParameterMap :=
  match rows with
  | [] => []
  | row :: rest =>
      match cellAt row column with
      | Some s =>
          if check s
          then mkParameterMap s (parametersFrom (S column) row)
               :: passingEntries check column rest
          else passingEntries check column rest
      | None => passingEntries check column rest
      end
  end.

Definition mobileCheck (s : string) : bool :=
  isValidMobile (formatMobileNumber s).

(** [kept] is the deduplication of [items] by address: no address twice,
    every address of the input present, and each kept entry the first entry
    of the input with its address. *)
Definition firstOccurrences (items kept : list ParameterMap) : Prop :=
  NoDup (map address kept)
  /\ (forall a, In a (map address items) <-> In a (map address kept))
  /\ (forall item, In item kept ->
                   firstWith (address item) items = Some item).

(** The rows below the header. *)
Definition dataRows (sheetData : Sheet) : list Row := skipn 1 sheetData.

(** ** Observations on a run *)

(** The unit cost of a channel. *)
Definition costPerItem (env : ProcessEnv) (batchType : BatchType) : Z :=
  match batchType with
  | TypeEmail => TOKENS_PER_EMAIL env
  | TypeSms => TOKENS_PER_SMS env
  | TypeWhatsapp => TOKENS_PER_WHATSAPP env
  end.

(** The account the identity provider answers a lookup with, if it answers
    and has one. *)
Definition lookupAccount (ext : Collaborators) (w : World)
    (emailAddress : string) : option User :=
  match idpFault ext (requests w) with
  | Some _ => None
  | None =>
      hd_error (filter (fun u => String.eqb (email u) emailAddress) (users w))
  end.

(** The world after [n] more requests to the identity provider and the
    effects [added], accounts untouched. *)
Definition advance (w : World) (n : nat) (added : list Effect) : World :=
  mkWorld (users w) (n + requests w) (effects w ++ added)%list.

(** The recipients of the messages a trace dispatches. *)
Fixpoint dispatchedTo (trace : list Effect) : list string :=
  match trace with
  | [] => []
  | SesSendEmail _ to _ _ :: rest => to :: dispatchedTo rest
  | SnsPublish to _ :: rest => to :: dispatchedTo rest
  | WhatsappPost _ to _ _ _ :: rest => showPhone to :: dispatchedTo rest
  | _ :: rest => dispatchedTo rest
  end.

(** The balances a trace writes to the ledger. *)
Fixpoint tokenWrites (trace : list Effect) : list (string * Z) :=
  match trace with
  | [] => []
  | IdpPatchUser userId (PatchTokens t) :: rest =>
      (userId, t) :: tokenWrites rest
  | _ :: rest => tokenWrites rest
  end.

(** The ledger: the balance of every account. *)
Definition balancesOf (accounts : list User) : list (string * Z) :=
  map (fun u => (user_id u, tokens u)) accounts.

Definition balances (w : World) : list (string * Z) := balancesOf (users w).

(** Between [w] and [w'] the ledger was written once: the balance of [user]
    minus [amount], which is then the balance of the account. *)
Definition deductedOnce (w w' : World) (user : User) (amount : Z) : Prop :=
  tokenWrites (effects w')
  = (tokenWrites (effects w) ++ [(user_id user, tokens user - amount)%Z])%list
  /\ balances w'
     = balancesOf
         (patchUsers (user_id user) (PatchTokens (tokens user - amount))
            (users w)).

(** Between [w] and [w'] the ledger was neither written nor changed. *)
Definition ledgerUntouched (w w' : World) : Prop :=
  tokenWrites (effects w') = tokenWrites (effects w)
  /\ balances w' = balances w.

(** Effects that reach neither the ledger nor a recipient. *)
Definition quiet (added : list Effect) : Prop :=
  tokenWrites added = [] /\ dispatchedTo added = [].

(** The two results that report a failure to persist the audit log. *)
Definition persistenceFailure (response : Response string) : Prop :=
  message response = "Failed to create log file"
  \/ message response = "Failed to email log file to client".

(** The users the report loop does not skip. *)
Definition eligibleForReport (user : User) : bool :=
  email_verified user && is_active user && negb (tokens user =? 0)%Z.

(** ** Scenarios *)

(** An SMS sheet in which rows 1 and 2 write one number in two ways. *)
Definition smsSheetTwoSpellings : Sheet :=
  [ [Some "Field"; Some "Value"; Some "Mobile"; Some "P1"];
    [Some "Client name"; Some "Acme"; Some "+27 82 123 4567"; Some "Ann"];
    [Some "Client email"; Some "client@acme.com"; Some "+27821234567";
     Some "Bob"];
    [Some "Client mobile"; Some "+27 82 000 0000"];
    [Some "Body"; Some "Hello {}"] ].

(** An SMS sheet with a repeated address and an address that is no number. *)
Definition smsSheet : Sheet :=
  [ [Some "Field"; Some "Value"; Some "Mobile"; Some "P1"];
    [Some "Client name"; Some "Acme"; Some "+27821234567"; Some "Ann"];
    [Some "Client email"; Some "client@acme.com"; Some "+27821234567";
     Some "Bob"];
    [Some "Client mobile"; Some "+27 82 000 0000"; Some "call me"];
    [Some "Body"; Some "Hello {}"; Some "+27831234567"; Some "Cy"] ].

Definition emailSheet : Sheet :=
  [ [Some "Field"; Some "Value"; Some "Paragraphs"; Some "Emails"; Some "P1"];
    [Some "Client name"; Some "Acme"; Some "Hello {}"; Some "a@x.com";
     Some "Ann"];
    [Some "Client email"; Some "client@acme.com"; None; Some "b@x.com";
     Some "Bob"];
    [Some "Company"; Some "Acme Ltd"; None; Some "c@x.com"; Some "Cy"];
    [Some "Address"; Some "1 Road"];
    [Some "Subject"; Some "News"] ].

Definition whatsappSheet : Sheet :=
  [ [Some "Field"; Some "Value"; Some "Mobile"; Some "P1"];
    [Some "Client name"; Some "Acme"; Some "+27821234567"; Some "Ann"];
    [Some "Client email"; Some "client@acme.com"; Some "+27831234567";
     Some "Bob"];
    [Some "Client mobile"; Some "+27 82 000 0000"];
    [Some "Access token"; Some "token"];
    [Some "Phone number id"; Some "1234"];
    [Some "Template"; Some "welcome"] ].

Definition env0 : ProcessEnv :=
  mkProcessEnv 2 1 3 true true true true true true true "admin@batchbytes.io"
    "https://graph.example/v1".

(** Collaborators that all answer; the i-th send settles at instant i. *)
Definition ext0 : Collaborators :=
  mkCollaborators
    (fun _ => None)
    (fun index to _ => Fulfilled index ("ses-" ++ to))
    (fun index to _ => Fulfilled index ("sns-" ++ to))
    (fun index _ => Fulfilled index "ok")
    (fun _ _ => inr (Some [])) (fun _ _ => None)
    (fun _ _ => None)
    (fun _ _ _ _ => inr (Some []))
    (fun _ => None) (fun _ _ => None)
    (fun _ => inl "Unexpected token in JSON")
    (fun _ => inl "Unexpected token in JSON")
    (fun _ => inl "Unexpected token in JSON")
    (fun text => text)
    (fun paragraphs _ _ _ => join "" paragraphs)
    (fun _ _ => ("Your batch log", "See the attachment"))
    (fun _ _ => ("Your tokens", "Updated"))
    (fun _ _ => ("Your monthly report", "See the attachment"))
    (fun text => text)
    "01_01_2000_13_01_59" "01-01-2000 13:01:59".

(** As [ext0], but the send for the second recipient is rejected. *)
Definition extSecondFails : Collaborators :=
  mkCollaborators
    (fun _ => None)
    (fun index to _ =>
       if Nat.eqb index 1 then Rejected 7 "Error: Throttled"
       else Fulfilled index ("ses-" ++ to))
    (fun index to _ =>
       if Nat.eqb index 1 then Rejected 7 "Error: Throttled"
       else Fulfilled index ("sns-" ++ to))
    (fun index _ => Fulfilled index "ok")
    (fun _ _ => inr (Some [])) (fun _ _ => None)
    (fun _ _ => None)
    (fun _ _ _ _ => inr (Some []))
    (fun _ => None) (fun _ _ => None)
    (fun _ => inl "Unexpected token in JSON")
    (fun _ => inl "Unexpected token in JSON")
    (fun _ => inl "Unexpected token in JSON")
    (fun text => text)
    (fun paragraphs _ _ _ => join "" paragraphs)
    (fun _ _ => ("Your batch log", "See the attachment"))
    (fun _ _ => ("Your tokens", "Updated"))
    (fun _ _ => ("Your monthly report", "See the attachment"))
    (fun text => text)
    "01_01_2000_13_01_59" "01-01-2000 13:01:59".

(** As [ext0], but the bucket refuses the log file. *)
Definition extBucketDown : Collaborators :=
  mkCollaborators
    (fun _ => None)
    (fun index to _ => Fulfilled index ("ses-" ++ to))
    (fun index to _ => Fulfilled index ("sns-" ++ to))
    (fun index _ => Fulfilled index "ok")
    (fun _ _ => inr (Some [])) (fun _ _ => None)
    (fun _ _ => None)
    (fun _ _ _ _ => inr (Some []))
    (fun _ => Some "AccessDenied") (fun _ _ => None)
    (fun _ => inl "Unexpected token in JSON")
    (fun _ => inl "Unexpected token in JSON")
    (fun _ => inl "Unexpected token in JSON")
    (fun text => text)
    (fun paragraphs _ _ _ => join "" paragraphs)
    (fun _ _ => ("Your batch log", "See the attachment"))
    (fun _ _ => ("Your tokens", "Updated"))
    (fun _ _ => ("Your monthly report", "See the attachment"))
    (fun text => text)
    "01_01_2000_13_01_59" "01-01-2000 13:01:59".

Definition client : User :=
  mkUser "auth0|1" "client@acme.com" "client" "client@acme.com" true true 10
    "" "".

Definition secondClient : User :=
  mkUser "auth0|2" "other@corp.com" "other" "other@corp.com" true true 4
    "" "".

Definition poorClient : User :=
  mkUser "auth0|1" "client@acme.com" "client" "client@acme.com" true true 5
    "" "".

Definition world0 : World := mkWorld [client] 0 [].
Definition worldPoor : World := mkWorld [poorClient] 0 [].
Definition worldTwoClients : World := mkWorld [client; secondClient] 0 [].

Definition threeRecipients : list ParameterMap :=
  [mkParameterMap "a@x.com" ["Ann"]; mkParameterMap "b@x.com" ["Bob"];
   mkParameterMap "c@x.com" ["Cy"]].

(** As [ext0], but SES refuses the raw mails (logs and reports). *)
Definition extMailDown : Collaborators :=
  mkCollaborators
    (fun _ => None)
    (fun index to _ => Fulfilled index ("ses-" ++ to))
    (fun index to _ => Fulfilled index ("sns-" ++ to))
    (fun index _ => Fulfilled index "ok")
    (fun _ _ => inr (Some [])) (fun _ _ => None)
    (fun _ _ => None)
    (fun _ _ _ _ => inr (Some []))
    (fun _ => None) (fun _ _ => Some "MessageRejected")
    (fun _ => inl "Unexpected token in JSON")
    (fun _ => inl "Unexpected token in JSON")
    (fun _ => inl "Unexpected token in JSON")
    (fun text => text)
    (fun paragraphs _ _ _ => join "" paragraphs)
    (fun _ _ => ("Your batch log", "See the attachment"))
    (fun _ _ => ("Your tokens", "Updated"))
    (fun _ _ => ("Your monthly report", "See the attachment"))
    (fun text => text)
    "01_01_2000_13_01_59" "01-01-2000 13:01:59".

(** The raw mails of a trace, by recipient. *)
Fixpoint rawMailsTo (trace : list Effect) : list string :=
  match trace with
  | [] => []
  | SesSendRawEmail _ to _ _ :: rest => to :: rawMailsTo rest
  | _ :: rest => rawMailsTo rest
  end.

(** * Further parts of the sources *)

(** ** utils/date.js *)

Module Clock.

(** The fields of [new Date()] that the module reads (local time). *)
Record Date : Type := mkDate {
  getDate : nat;
  getMonth : nat;
  getFullYear : nat;
  getHours : nat;
  getMinutes : nat;
  getSeconds : nat
}.

(** The filler of [padStart]: [padString] repeated and cut to [n] code
    units; [cursor] is what is left of the current copy. *)
Fixpoint filler (n : nat) (padString cursor : string) : string :=
  match n with
  | O => ""
  | S n' =>
      match cursor with
      | String c rest => String c (filler n' padString rest)
      | EmptyString =>
          match padString with
          | String c rest => String c (filler n' padString rest)
          | EmptyString => ""
          end
      end
  end.

(** [String.prototype.padStart(targetLength, padString)] *)
Definition padStart (s : string) (targetLength : nat) (padString : string)
  : string :=
  if Nat.leb targetLength (String.length s) then s
  else filler (targetLength - String.length s) padString padString ++ s.

(** ["01_01_2000_13_01_59"] *)
Definition getFileNameDate (now : Date) : string :=
  let day := padStart (show_nat (getDate now)) 2 "0" in
  let month := padStart (show_nat (getMonth now + 1)) 2 "0" in
  let year := getFullYear now in
  let hours := padStart (show_nat (getHours now)) 2 "0" in
  let minutes := padStart (show_nat (getMinutes now)) 2 "0" in
  let seconds := padStart (show_nat (getSeconds now)) 2 "0" in
  day ++ "_" ++ month ++ "_" ++ show_nat year ++ "_" ++ hours ++ "_"
  ++ minutes ++ "_" ++ seconds.

(** ["01-01-2000 13:01:59"] *)
Definition getFormattedDate (now : Date) : string :=
  let day := padStart (show_nat (getDate now)) 2 "0" in
  let month := padStart (show_nat (getMonth now + 1)) 2 "0" in
  let year := getFullYear now in
  let hours := padStart (show_nat (getHours now)) 2 "0" in
  let minutes := padStart (show_nat (getMinutes now)) 2 "0" in
  let seconds := padStart (show_nat (getSeconds now)) 2 "0" in
  day ++ "-" ++ month ++ "-" ++ show_nat year ++ " " ++ hours ++ ":"
  ++ minutes ++ ":" ++ seconds.

Definition monthNames : list string :=
  ["January"; "February"; "March"; "April"; "May"; "June"; "July"; "August";
   "September"; "October"; "November"; "December"].

(** [monthNames[currentDate.getMonth()]]: [None] is [undefined]. *)
Definition getCurrentMonth (currentDate : Date) : option string :=
  nth_error monthNames (getMonth currentDate).

Definition getCurrentYear (currentDate : Date) : nat :=
  getFullYear currentDate.

End Clock.

(** ** utils/convert.js: [convertString] *)

Module Convert.

(** The double quote of the messages. *)
Definition quote : string := String (ascii_of_nat 34) "".

(** The first argument as [typeof] sees it. *)
Inductive Input : Type :=
| Text : string -> Input
| NotText : Input.

(** What [JSON.parse] returns. *)
#[warnings="-register-all"]
Inductive Json (N : Type) : Type :=
| JNull : Json N
| JBoolean : bool -> Json N
| JNumber : N -> Json N
| JString : string -> Json N
| JArray : list (Json N) -> Json N
| JObject : list (string * Json N) -> Json N.

Arguments JNull {N}.
Arguments JBoolean {N}.
Arguments JNumber {N}.
Arguments JString {N}.
Arguments JArray {N}.
Arguments JObject {N}.

(** [Array.isArray(parsed)] *)
Definition isArray {N : Type} (parsed : Json N) : bool :=
  match parsed with
  | JArray _ => true
  | _ => false
  end.

(** [typeof parsed === "object"]: objects, arrays and [null]. *)
Definition typeofObject {N : Type} (parsed : Json N) : bool :=
  match parsed with
  | JNull | JArray _ | JObject _ => true
  | _ => false
  end.

Inductive Converted (N D : Type) : Type :=
| NumberValue : N -> Converted N D
| BooleanValue : bool -> Converted N D
| ArrayValue : Json N -> Converted N D
| ObjectValue : Json N -> Converted N D
| DateValue : D -> Converted N D.

Arguments NumberValue {N D}.
Arguments BooleanValue {N D}.
Arguments ArrayValue {N D}.
Arguments ObjectValue {N D}.
Arguments DateValue {N D}.

Section ConvertString.

(** The built-ins: [Number(value)] ([None] is [NaN]), [JSON.parse(value)]
    ([inl] is the [SyntaxError]) and [new Date(value)] ([None] is an invalid
    date). *)
Variables N D : Type.
Variable Number : string -> option N.
Variable JSON_parse : string -> string + Json N.
Variable newDate : string -> option D.

Definition cannotConvert (value target : string) : string :=
  "Cannot convert " ++ quote ++ value ++ quote ++ " to " ++ target.

Definition convertString (value : Input) (type : string)
  : string + Converted N D :=
  match value with
  | NotText => inl "Input value must be a string"
  | Text value =>
      let selector := toLowerCase type in
      if String.eqb selector "number" then
        match Number value with
        | None => inl (cannotConvert value "a number")
        | Some numberValue => inr (NumberValue numberValue)
        end
      else if String.eqb selector "boolean" then
        if String.eqb (toLowerCase value) "true" then inr (BooleanValue true)
        else if String.eqb (toLowerCase value) "false" then
          inr (BooleanValue false)
        else inl (cannotConvert value "a boolean")
      else if String.eqb selector "array" then
        let attempt :=
          match JSON_parse value with
          | inl error => inl error
          | inr parsedArray =>
              if negb (isArray parsedArray) then inl "Expected an array"
              else inr parsedArray
          end in
        match attempt with
        | inl _ => inl (cannotConvert value "an array")
        | inr parsedArray => inr (ArrayValue parsedArray)
        end
      else if String.eqb selector "object" then
        let attempt :=
          match JSON_parse value with
          | inl error => inl error
          | inr parsedObject =>
              if negb (typeofObject parsedObject) || isArray parsedObject
              then inl "Expected an object"
              else inr parsedObject
          end in
        match attempt with
        | inl _ => inl (cannotConvert value "an object")
        | inr parsedObject => inr (ObjectValue parsedObject)
        end
      else if String.eqb selector "date" then
        match newDate value with
        | None => inl (cannotConvert value "a date")
        | Some dateValue => inr (DateValue dateValue)
        end
      else inl ("Unsupported type " ++ quote ++ type ++ quote)
  end.

End ConvertString.

(** The type names the [switch] has a case for. *)
Definition supported : list string :=
  ["number"; "boolean"; "array"; "object"; "date"].

End Convert.

(** ** auth0.js: reading and setting a balance *)

Section Accounts.

Variable env : ProcessEnv.
Variable ext : Collaborators.

(** [user.data[0]] of a 200 answer; a [TypeError], which rejects the
    promise, if the array were empty. *)
Definition getUserTokens (emailAddress : string)
  : Eff (string + Response Z) :=
  user <- getUserByEmail ext emailAddress ;;
  if negb (Nat.eqb (statusCode user) 200) then
    ret (inr (ResponseHandler.error None "Failed to fetch user tokens"
                (details user)))
  else
    match data user with
    | Some (first :: _) =>
        ret (inr (ResponseHandler.success "Successfully fetched user tokens"
                    (Some (tokens first))))
    | Some [] =>
        ret (inl "Cannot read properties of undefined (reading 'user_metadata')")
    | None => ret (inl "Cannot read properties of undefined (reading '0')")
    end.

(** [newTokenAmount] is a number: [None] stands for [NaN]. *)
Definition setUserTokens (emailAddress : string) (newTokenAmount : option Z)
  : Eff (Response Z) :=
  match newTokenAmount with
  | None =>
      ret (ResponseHandler.badRequest "Invalid token amount" (Some "NaN"))
  | Some amount =>
      returned (
        getResponse <-? catchReturn (axiosGetUsersByEmail ext emailAddress)
                          (fun error =>
                             ResponseHandler.error None
                               "Failed to set user tokens" (Some error)) ;;
        match getResponse with
        | [] =>
            ret (inl (ResponseHandler.notFound "User not found"
                        (Some emailAddress)))
        | first :: _ =>
            let userId := user_id first in
            setUserTokensResponse <-?
              catchReturn (axiosPatchUser ext userId (PatchTokens amount))
                (fun error =>
                   ResponseHandler.error None "Failed to set user tokens"
                     (Some error)) ;;
            let clientName := nickname setUserTokensResponse in
            let clientTokens := tokens setUserTokensResponse in
            _ <-? catchReturn
                    (emailUserTokensUpdated env ext clientName emailAddress
                       clientTokens)
                    (fun error =>
                       ResponseHandler.error None
                         "Failed to send user tokens updated email"
                         (Some error)) ;;
            ret (inr (ResponseHandler.success "Successfully set user tokens"
                        (Some (tokens setUserTokensResponse))))
        end)
  end.

End Accounts.

(** ** Further vocabulary *)

(** [Number.isSafeInteger]: the integers on which the arithmetic of the
    code, which is the arithmetic of Numbers, is exact. *)
Definition MAX_SAFE_INTEGER : Z := 9007199254740991.

Definition isSafeInteger (z : Z) : bool := (Z.abs z <=? MAX_SAFE_INTEGER)%Z.

(** The balance the provider holds for the first account with an address. *)
Definition balanceOf (accounts : list User) (emailAddress : string)
  : option Z :=
  option_map tokens
    (hd_error (filter (fun u => String.eqb (email u) emailAddress) accounts)).

(** The number of events of a type, and their recipients in order. *)
Definition eventsOfType (type : string) (events : list EmailEvent)
  : list EmailEvent :=
  filter (fun event => String.eqb (eventType event) type) events.

Definition recipientsOf (events : list EmailEvent) : list string :=
  concat (map destination events).

(** A text starts with a given prefix. *)
Fixpoint startsWith (prefix s : string) : bool :=
  match prefix with
  | EmptyString => true
  | String c prefix' =>
      match s with
      | String d s' => Ascii.eqb c d && startsWith prefix' s'
      | EmptyString => false
      end
  end.

(** A text of white space only. *)
Definition blank (s : string) : bool := allChars isSpace s.

(** A pattern whose matches are one digit, possibly after white space. *)
Definition spacedDigit (r : regex) : Prop :=
  forall s, Lang r s ->
    exists d, isDigit d = true /\ removeSpaces s = String d "".

(** ** Further scenarios *)

(** As [ext0], but every send of a batch is rejected. *)
Definition extAllSendsFail : Collaborators :=
  mkCollaborators
    (fun _ => None)
    (fun index _ _ => Rejected index "Error: Throttled")
    (fun index _ _ => Rejected index "Error: Throttled")
    (fun index _ => Rejected index "Error: Throttled")
    (fun _ _ => inr (Some [])) (fun _ _ => None)
    (fun _ _ => None)
    (fun _ _ _ _ => inr (Some []))
    (fun _ => None) (fun _ _ => None)
    (fun _ => inl "Unexpected token in JSON")
    (fun _ => inl "Unexpected token in JSON")
    (fun _ => inl "Unexpected token in JSON")
    (fun text => text)
    (fun paragraphs _ _ _ => join "" paragraphs)
    (fun _ _ => ("Your batch log", "See the attachment"))
    (fun _ _ => ("Your tokens", "Updated"))
    (fun _ _ => ("Your monthly report", "See the attachment"))
    (fun text => text)
    "01_01_2000_13_01_59" "01-01-2000 13:01:59".

(** As [ext0], but the event logs cannot be read. *)
Definition extLogsDown : Collaborators :=
  mkCollaborators
    (fun _ => None)
    (fun index to _ => Fulfilled index ("ses-" ++ to))
    (fun index to _ => Fulfilled index ("sns-" ++ to))
    (fun index _ => Fulfilled index "ok")
    (fun _ _ => inl "AccessDeniedException") (fun _ _ => None)
    (fun _ _ => None)
    (fun _ _ _ _ => inl "AccessDeniedException")
    (fun _ => None) (fun _ _ => None)
    (fun _ => inl "Unexpected token in JSON")
    (fun _ => inl "Unexpected token in JSON")
    (fun _ => inl "Unexpected token in JSON")
    (fun text => text)
    (fun paragraphs _ _ _ => join "" paragraphs)
    (fun _ _ => ("Your batch log", "See the attachment"))
    (fun _ _ => ("Your tokens", "Updated"))
    (fun _ _ => ("Your monthly report", "See the attachment"))
    (fun text => text)
    "01_01_2000_13_01_59" "01-01-2000 13:01:59".

(** What the three sheets of the scenarios extract to. *)
Definition smsSheetExtract : SmsSheet.t :=
  SmsSheet.mk "Acme" "client@acme.com" ["+27820000000"] "Hello {}"
    [mkParameterMap "+27821234567" ["Ann"];
     mkParameterMap "+27831234567" ["Cy"]]
    ["call me"].

Definition emailSheetExtract : EmailSheet.t :=
  EmailSheet.mk "Acme" "client@acme.com" "Acme Ltd" "1 Road" "News"
    ["Hello {}"] threeRecipients [].

Definition whatsappSheetExtract : WhatsappSheet.t :=
  WhatsappSheet.mk "Acme" "client@acme.com" ["+27820000000"] "token" "1234"
    "welcome"
    [mkParameterMap "+27821234567" ["Ann"];
     mkParameterMap "+27831234567" ["Bob"]]
    [].

(** ** Further vocabulary of the claims *)

(** The entry the callback of an extraction makes of a row: none when the
    address cell is empty or its text fails the check. *)
Definition rowEntry (check : string -> bool) (column : nat) (row : Row)
  : option ParameterMap :=
  match cellAt row column with
  | Some s =>
      if check s then Some (mkParameterMap s (parametersFrom (S column) row))
      else None
  | None => None
  end.

(** The text of the mismatch error for the row printed as [rowIndex]. *)
Definition rowMismatch (rowIndex placeholderCount parameterCount : nat)
  : string :=
  "Parameter mismatch detected in row[" ++ show_nat rowIndex
  ++ "]: Found " ++ show_nat placeholderCount
  ++ " '{}' placeholders but " ++ show_nat parameterCount
  ++ " parameter values!".

(** A row with cell [j] emptied. *)
Fixpoint eraseCell (j : nat) (row : Row) {struct row} : Row :=
  match row with
  | [] => []
  | c :: rest =>
      match j with
      | O => None :: rest
      | S j' => c :: eraseCell j' rest
      end
  end.

(** A sheet with the addresses that fail a check emptied, below the
    header. *)
Definition eraseFailing (check : string -> bool) (column : nat)
    (sheetData : Sheet) : Sheet :=
  match sheetData with
  | [] => []
  | header :: rows =>
      header
      :: map (fun row =>
                match cellAt row column with
                | Some a => if check a then row else eraseCell column row
                | None => row
                end)
           rows
  end.

(** An email sheet whose two paragraphs split a placeholder between them. *)
Definition emailSheetSplitToken : Sheet :=
  [ [Some "Field"; Some "Value"; Some "Paragraphs"; Some "Emails"; Some "P1"];
    [Some "Client name"; Some "Acme"; Some "a{"; Some "a@x.com"; Some "Ann"];
    [Some "Client email"; Some "client@acme.com"; Some "}b"; Some "b@x.com";
     Some "Bob"];
    [Some "Company"; Some "Acme Ltd"];
    [Some "Address"; Some "1 Road"];
    [Some "Subject"; Some "News"] ].

(** An SMS sheet whose body has two placeholders and whose second recipient
    has one parameter. *)
Definition smsSheetMismatch : Sheet :=
  [ [Some "Field"; Some "Value"; Some "Mobile"; Some "P1"; Some "P2"];
    [Some "Client name"; Some "Acme"; Some "+27821234567"; Some "Ann";
     Some "7"];
    [Some "Client email"; Some "client@acme.com"; Some "+27831234567";
     Some "Bob"];
    [Some "Client mobile"; Some "+27 82 000 0000"];
    [Some "Body"; Some "Hello {}, your code is {}"] ].

(** The names under which the three channels store their logs. *)
Definition emailLogName (ext : Collaborators)
    (clientEmail emailSubject : string) : string :=
  removeDots (beforeAt clientEmail) ++ "_"
  ++ toLowerCase (underscoreSpaces emailSubject false) ++ "_"
  ++ getFileNameDate ext ++ ".txt".

Definition smsLogName (ext : Collaborators) (clientEmail : string) : string :=
  removeDots (beforeAt clientEmail) ++ "_sms_" ++ getFileNameDate ext
  ++ ".txt".

Definition whatsappLogName (ext : Collaborators) (clientEmail : string)
  : string :=
  removeDots (beforeAt clientEmail) ++ "_whatsapp_" ++ getFileNameDate ext
  ++ ".txt".

(** The store does not take the log: the upload is switched off, or the
    bucket refuses the file. *)
Definition storeRefuses (env : ProcessEnv) (ext : Collaborators)
    (logName : string) : Prop :=
  ENABLE_UPLOAD_LOG_FILE_TO_S3 env = false \/ s3Fault ext logName <> None.

(** The log cannot be mailed to the client: the mail is switched off, or
    SES refuses it. *)
Definition mailRefuses (env : ProcessEnv) (ext : Collaborators)
    (clientEmail logName : string) : Prop :=
  ENABLE_SEND_LOG_FILE_TO_CLIENT env = false
  \/ sesRawFault ext clientEmail logName <> None.

(** A request that reads the logs. *)
Definition isLogQuery (e : Effect) : bool :=
  match e with
  | CloudWatchDescribeLogStreams _ => true
  | CloudWatchFilterLogEvents _ _ _ => true
  | _ => false
  end.

(** What the callback of the SMS report makes of an event whose promise is
    fulfilled: nothing when the search finds no log, and the entry read
    from the log when it finds one. *)
Definition lookedUp (ext : Collaborators) (index : nat) (messageId : string)
    (result : option SmsReportEntry) : Prop :=
  match fst (searchSnsLogForMessageId ext index messageId) with
  | NoLog => result = None
  | LogEvent text =>
      exists entry, JSON_parseSnsLog ext text = inr entry /\ result = Some entry
  | SearchFailed _ => False
  end.

(** Delivery logs in two streams: the log of ["m-1"] is in the first, the
    log of ["m-3"] in the second, and ["m-2"] has none. The parser reads the
    two logs and refuses every other text. *)
Definition extDeliveryLogs : Collaborators :=
  mkCollaborators
    (fun _ => None)
    (fun index to _ => Fulfilled index ("ses-" ++ to))
    (fun index to _ => Fulfilled index ("sns-" ++ to))
    (fun index _ => Fulfilled index "ok")
    (fun _ group =>
       match group with
       | AWS_SMS_LOG_GROUP_NAME => inr (Some ["stream-b"; "stream-a"])
       | _ => inr (Some [])
       end)
    (fun _ _ => None)
    (fun _ _ => None)
    (fun _ group logStream filterPattern =>
       match group, logStream, filterPattern with
       | AWS_SMS_LOG_GROUP_NAME, Some stream, Some pattern =>
           if String.eqb stream "stream-b"
              && String.eqb pattern (doubleQuote ++ "m-1" ++ doubleQuote)
           then inr (Some ["log-1"])
           else if String.eqb stream "stream-a"
                   && String.eqb pattern (doubleQuote ++ "m-3" ++ doubleQuote)
           then inr (Some ["log-3"])
           else inr (Some [])
       | _, _, _ => inr (Some [])
       end)
    (fun _ => None) (fun _ _ => None)
    (fun _ => inl "Unexpected token in JSON")
    (fun _ => inl "Unexpected token in JSON")
    (fun text =>
       if String.eqb text "log-1" then
         inr (mkSmsReportEntry "+27821234567" "Vodacom" "Message accepted"
                "SUCCESS")
       else if String.eqb text "log-3" then
         inr (mkSmsReportEntry "+27831234567" "MTN" "Phone is switched off"
                "FAILURE")
       else inl "Unexpected token in JSON")
    (fun text => text)
    (fun paragraphs _ _ _ => join "" paragraphs)
    (fun _ _ => ("Your batch log", "See the attachment"))
    (fun _ _ => ("Your tokens", "Updated"))
    (fun _ _ => ("Your monthly report", "See the attachment"))
    (fun text => text)
    "01_01_2000_13_01_59" "01-01-2000 13:01:59".

(** * Properties *)

(** ** The matcher and the language *)

Section RegexFacts.

Lemma Lang_Fail_inv s : Lang Fail s -> False.
Proof. intro H; inversion H. Qed.

Lemma Lang_Eps_inv s : Lang Eps s -> s = "".
Proof. intro H; inversion H; reflexivity. Qed.

Lemma Lang_Class_inv p s :
  Lang (Class p) s -> exists c, s = String c "" /\ p c = true.
Proof. intro H; inversion H; subst; eauto. Qed.

Lemma Lang_Seq_inv a b s :
  Lang (Seq a b) s -> exists s1 s2, s = s1 ++ s2 /\ Lang a s1 /\ Lang b s2.
Proof. intro H; inversion H; subst; eauto. Qed.

Lemma Lang_Alt_inv a b s : Lang (Alt a b) s -> Lang a s \/ Lang b s.
Proof. intro H; inversion H; subst; auto. Qed.

Lemma Lang_Seq_cons a b c s1 s2 :
  Lang a (String c s1) -> Lang b s2 -> Lang (Seq a b) (String c (s1 ++ s2)).
Proof.
  intros Ha Hb. change (String c (s1 ++ s2)) with (String c s1 ++ s2).
  constructor; assumption.
Qed.

Lemma nullable_Lang r : nullable r = true <-> Lang r "".
Proof.
  induction r; simpl; split; intro H.
  - discriminate.
  - inversion H.
  - constructor.
  - reflexivity.
  - discriminate.
  - inversion H.
  - apply andb_prop in H as [Ha Hb].
    change "" with ("" ++ ""). constructor; [apply IHr1 | apply IHr2]; auto.
  - apply Lang_Seq_inv in H as (s1 & s2 & E & H1 & H2).
    destruct s1; [|discriminate]. simpl in E; subst s2.
    apply andb_true_intro; split; [apply IHr1 | apply IHr2]; auto.
  - apply orb_prop in H as [Ha | Hb];
      [apply LAltL, IHr1 | apply LAltR, IHr2]; auto.
  - apply Lang_Alt_inv in H as [H | H]; apply orb_true_intro;
      [left; apply IHr1 | right; apply IHr2]; auto.
  - constructor.
  - reflexivity.
Qed.

Lemma Lang_Star_cons a c s :
  Lang (Star a) (String c s) ->
  exists s1 s2, s = s1 ++ s2 /\ Lang a (String c s1) /\ Lang (Star a) s2.
Proof.
  intro H. remember (Star a) as r eqn:Er. remember (String c s) as w eqn:Ew.
  revert s Ew.
  induction H; intros s0 Ew; try discriminate.
  inversion Er; subst a0.
  destruct s1 as [|c1 s1'].
  - simpl in Ew. apply IHLang2; auto.
  - simpl in Ew. inversion Ew; subst.
    exists s1', s2. auto.
Qed.

Lemma deriv_Lang r : forall c s, Lang (deriv c r) s <-> Lang r (String c s).
Proof.
  induction r; intros c s; simpl.
  - split; intro H; inversion H.
  - split; intro H; inversion H.
  - destruct (b c) eqn:E; split; intro H.
    + apply Lang_Eps_inv in H; subst. constructor; auto.
    + apply Lang_Class_inv in H as (c' & E' & _).
      inversion E'; subst. constructor.
    + inversion H.
    + apply Lang_Class_inv in H as (c' & E' & Hp).
      inversion E'; subst. congruence.
  - destruct (nullable r1) eqn:N; split; intro H.
    + apply Lang_Alt_inv in H as [H | H].
      * apply Lang_Seq_inv in H as (s1 & s2 & -> & H1 & H2).
        apply Lang_Seq_cons; auto. apply IHr1; auto.
      * change (String c s) with ("" ++ String c s).
        constructor; [apply nullable_Lang; auto | apply IHr2; auto].
    + apply Lang_Seq_inv in H as (s1 & s2 & E & H1 & H2).
      destruct s1 as [|c1 s1'].
      * simpl in E. subst s2. apply LAltR, IHr2; auto.
      * simpl in E. inversion E; subst.
        apply LAltL. constructor; auto. apply IHr1; auto.
    + apply Lang_Seq_inv in H as (s1 & s2 & -> & H1 & H2).
      apply Lang_Seq_cons; auto. apply IHr1; auto.
    + apply Lang_Seq_inv in H as (s1 & s2 & E & H1 & H2).
      destruct s1 as [|c1 s1'].
      * apply nullable_Lang in H1. congruence.
      * simpl in E. inversion E; subst.
        constructor; auto. apply IHr1; auto.
  - split; intro H; apply Lang_Alt_inv in H as [H | H];
      solve [apply LAltL, IHr1; auto | apply LAltR, IHr2; auto].
  - split; intro H.
    + apply Lang_Seq_inv in H as (s1 & s2 & -> & H1 & H2).
      change (String c (s1 ++ s2)) with (String c s1 ++ s2).
      constructor; auto. apply IHr; auto.
    + apply Lang_Star_cons in H as (s1 & s2 & -> & H1 & H2).
      constructor; auto. apply IHr; auto.
Qed.

Lemma test_Lang s : forall r, test r s = true <-> Lang r s.
Proof.
  induction s as [|c s IH]; intro r; simpl.
  - apply nullable_Lang.
  - rewrite IH. apply deriv_Lang.
Qed.

End RegexFacts.

(** ** Strings *)

Section StringFacts.

Lemma append_nil_r (s : string) : s ++ "" = s.
Proof. induction s; simpl; congruence. Qed.

Lemma append_assoc (a b c : string) : (a ++ b) ++ c = a ++ (b ++ c).
Proof. induction a; simpl; congruence. Qed.

Lemma length_append (a b : string) :
  String.length (a ++ b) = String.length a + String.length b.
Proof. induction a; simpl; congruence. Qed.

Lemma allChars_append p (a b : string) :
  allChars p (a ++ b) = allChars p a && allChars p b.
Proof.
  induction a as [|c a IH]; simpl; [reflexivity|].
  rewrite IH. apply andb_assoc.
Qed.

Lemma space_not_digit c : isSpace c = true -> isDigit c = false.
Proof.
  destruct c as [[] [] [] [] [] [] [] []]; vm_compute; congruence.
Qed.

Lemma plus_not_digit : isDigit "+" = false.
Proof. reflexivity. Qed.

Lemma dropWhile_id p s : allChars (fun c => negb (p c)) s = true ->
  dropWhile p s = s.
Proof.
  destruct s as [|c s]; simpl; [reflexivity|].
  intro H. apply andb_prop in H as [H _].
  destruct (p c); [discriminate | reflexivity].
Qed.

Lemma rev_string_append s : forall acc,
  rev_string s acc = rev_string s "" ++ acc.
Proof.
  induction s as [|c s IH]; intro acc; simpl; [reflexivity|].
  rewrite IH. rewrite (IH (String c "")).
  rewrite append_assoc. reflexivity.
Qed.

Lemma rev_string_distr a : forall b,
  rev_string (a ++ b) "" = rev_string b "" ++ rev_string a "".
Proof.
  induction a as [|x a IHa]; intro b; simpl.
  - rewrite append_nil_r. reflexivity.
  - rewrite (rev_string_append (a ++ b) (String x "")), IHa.
    rewrite (rev_string_append a (String x "")).
    apply append_assoc.
Qed.

Lemma rev_string_involutive s : rev_string (rev_string s "") "" = s.
Proof.
  induction s as [|c s IH]; simpl; [reflexivity|].
  rewrite (rev_string_append s (String c "")).
  rewrite rev_string_distr. simpl. rewrite IH. reflexivity.
Qed.

Lemma allChars_rev p s : forall acc,
  allChars p (rev_string s acc) = allChars p s && allChars p acc.
Proof.
  induction s as [|c s IH]; intro acc; simpl; [reflexivity|].
  rewrite IH. simpl. rewrite andb_assoc.
  f_equal. apply andb_comm.
Qed.

(** [trim] leaves a text without white space as it is. *)
Lemma trim_id s : allChars (fun c => negb (isSpace c)) s = true -> trim s = s.
Proof.
  intro H. unfold trim.
  rewrite (dropWhile_id isSpace s H).
  rewrite dropWhile_id.
  - apply rev_string_involutive.
  - rewrite allChars_rev. rewrite H. reflexivity.
Qed.

Lemma allChars_impl (p q : ascii -> bool) s :
  (forall c, p c = true -> q c = true) ->
  allChars p s = true -> allChars q s = true.
Proof.
  intro Hpq. induction s as [|c s IH]; simpl; [reflexivity|].
  intro H. apply andb_prop in H as [Hc Hs].
  rewrite (Hpq c Hc). simpl. auto.
Qed.

End StringFacts.

(** ** The address formats *)

Section FormatFacts.

Lemma Lang_Star_Class p s :
  Lang (Star (Class p)) s <-> allChars p s = true.
Proof.
  split.
  - intro H. remember (Star (Class p)) as r eqn:Er.
    induction H; try discriminate.
    + reflexivity.
    + inversion Er; subst a.
      apply Lang_Class_inv in H as (c & -> & Hc).
      simpl. rewrite Hc. simpl. auto.
  - induction s as [|c s IH]; simpl; intro H.
    + constructor.
    + apply andb_prop in H as [Hc Hs].
      change (String c s) with (String c "" ++ s).
      constructor; [constructor; assumption | auto].
Qed.

Lemma Lang_Plus_Class p s :
  Lang (Plus (Class p)) s <-> s <> "" /\ allChars p s = true.
Proof.
  unfold Plus. split.
  - intro H. apply Lang_Seq_inv in H as (s1 & s2 & -> & H1 & H2).
    apply Lang_Class_inv in H1 as (c & -> & Hc).
    apply Lang_Star_Class in H2. simpl. rewrite Hc, H2.
    split; [discriminate | reflexivity].
  - intros [Hne H]. destruct s as [|c s]; [congruence|].
    simpl in H. apply andb_prop in H as [Hc Hs].
    change (String c s) with (String c "" ++ s).
    constructor; [constructor; assumption | apply Lang_Star_Class; auto].
Qed.

Lemma Lang_Chr c s : Lang (Chr c) s <-> s = String c "".
Proof.
  unfold Chr. split.
  - intro H. apply Lang_Class_inv in H as (c' & -> & Hc).
    apply Ascii.eqb_eq in Hc. subst. reflexivity.
  - intros ->. constructor. apply Ascii.eqb_refl.
Qed.

(** The shape of the texts [isValidEmail] accepts. *)
Lemma isValidEmail_shape s :
  isValidEmail s = true <->
  exists localPart domain suffix,
    s = localPart ++ "@" ++ domain ++ "." ++ suffix
    /\ localPart <> "" /\ allChars notSpaceNorAt localPart = true
    /\ domain <> "" /\ allChars notSpaceNorAt domain = true
    /\ suffix <> "" /\ allChars notSpaceNorAt suffix = true.
Proof.
  unfold isValidEmail, emailRegex. rewrite test_Lang. split.
  - intro H.
    apply Lang_Seq_inv in H as (a & r1 & -> & Ha & H).
    apply Lang_Seq_inv in H as (x & r2 & -> & Hx & H).
    apply Lang_Seq_inv in H as (b & r3 & -> & Hb & H).
    apply Lang_Seq_inv in H as (y & c & -> & Hy & Hc).
    apply Lang_Chr in Hx, Hy. subst x y.
    apply Lang_Plus_Class in Ha as [? ?], Hb as [? ?], Hc as [? ?].
    exists a, b, c. simpl. repeat split; assumption.
  - intros (a & b & c & -> & Ha & Ha' & Hb & Hb' & Hc & Hc').
    constructor; [apply Lang_Plus_Class; auto|].
    change ("@" ++ b ++ "." ++ c) with (String "@" "" ++ (b ++ "." ++ c)).
    constructor; [apply Lang_Chr; reflexivity|].
    constructor; [apply Lang_Plus_Class; auto|].
    change ("." ++ c) with (String "." "" ++ c).
    constructor; [apply Lang_Chr; reflexivity | apply Lang_Plus_Class; auto].
Qed.

Lemma split_at (s : string) : forall k, k <= String.length s ->
  exists a b, s = a ++ b /\ String.length a = k.
Proof.
  induction s as [|c s IH]; intros k Hk; simpl in Hk.
  - exists "", "". split; [reflexivity | simpl; lia].
  - destruct k as [|k].
    + exists "", (String c s). auto.
    + destruct (IH k) as (a & b & -> & Ha); [lia|].
      exists (String c a), b. simpl. auto.
Qed.

Lemma length_one (s : string) :
  String.length s = 1 <-> exists c, s = String c "".
Proof.
  split.
  - destruct s as [|c [|d s]]; simpl; intro H; try discriminate. eauto.
  - intros (c & ->). reflexivity.
Qed.

Lemma oneDigit_digit : oneDigit (Class isDigit).
Proof.
  intros s Hs. split.
  - intro H. apply Lang_Class_inv in H as (c & -> & _). reflexivity.
  - intro H. apply length_one in H as (c & ->).
    simpl in Hs. apply andb_prop in Hs as [Hc _]. constructor; assumption.
Qed.

Lemma oneDigit_group : oneDigit (Seq (Opt (Class isSpace)) (Class isDigit)).
Proof.
  intros s Hs. split.
  - intro H. apply Lang_Seq_inv in H as (w & d & -> & Hw & Hd).
    apply Lang_Class_inv in Hd as (c & -> & Hc).
    apply Lang_Alt_inv in Hw as [Hw | Hw].
    + apply Lang_Class_inv in Hw as (x & -> & Hx).
      simpl in Hs. rewrite (space_not_digit x Hx) in Hs. discriminate.
    + apply Lang_Eps_inv in Hw. subst w. reflexivity.
  - intro H. apply length_one in H as (c & ->).
    simpl in Hs. apply andb_prop in Hs as [Hc _].
    change (String c "") with ("" ++ String c "").
    constructor; [apply LAltR; constructor | constructor; assumption].
Qed.

Lemma Lang_power_digits r : oneDigit r -> forall k s,
  allChars isDigit s = true ->
  (Lang (power k r) s <-> String.length s = k).
Proof.
  intros Hr k. induction k as [|k IH]; intros s Hs; simpl.
  - split.
    + intro H. apply Lang_Eps_inv in H. subst. reflexivity.
    + destruct s; [constructor | discriminate].
  - split.
    + intro H. apply Lang_Seq_inv in H as (s1 & s2 & -> & H1 & H2).
      rewrite allChars_append in Hs. apply andb_prop in Hs as [Hs1 Hs2].
      apply (Hr s1 Hs1) in H1. apply (IH s2 Hs2) in H2.
      rewrite length_append. lia.
    + intro H. destruct s as [|c s]; [discriminate|].
      simpl in H, Hs. apply andb_prop in Hs as [Hc Hs].
      change (String c s) with (String c "" ++ s).
      constructor.
      * apply Hr; [simpl; rewrite Hc; reflexivity | reflexivity].
      * apply IH; [assumption | lia].
Qed.

Lemma Lang_upto_digits r : oneDigit r -> forall k s,
  allChars isDigit s = true ->
  (Lang (upto k r) s <-> String.length s <= k).
Proof.
  intros Hr k. induction k as [|k IH]; intros s Hs; simpl.
  - split.
    + intro H. apply Lang_Eps_inv in H. subst. reflexivity.
    + destruct s; simpl; [constructor | lia].
  - split.
    + intro H. apply Lang_Alt_inv in H as [H | H].
      * apply Lang_Seq_inv in H as (s1 & s2 & -> & H1 & H2).
        rewrite allChars_append in Hs. apply andb_prop in Hs as [Hs1 Hs2].
        apply (Hr s1 Hs1) in H1. apply (IH s2 Hs2) in H2.
        rewrite length_append. lia.
      * apply Lang_Eps_inv in H. subst. simpl. lia.
    + intro H. destruct s as [|c s]; [apply LAltR; constructor|].
      simpl in H, Hs. apply andb_prop in Hs as [Hc Hs].
      apply LAltL. change (String c s) with (String c "" ++ s).
      constructor.
      * apply Hr; [simpl; rewrite Hc; reflexivity | reflexivity].
      * apply IH; [assumption | lia].
Qed.

Lemma Lang_Repeat_digits r m n : oneDigit r -> m <= n -> forall s,
  allChars isDigit s = true ->
  (Lang (Repeat m n r) s <-> m <= String.length s <= n).
Proof.
  intros Hr Hmn s Hs. unfold Repeat. split.
  - intro H. apply Lang_Seq_inv in H as (s1 & s2 & -> & H1 & H2).
    rewrite allChars_append in Hs. apply andb_prop in Hs as [Hs1 Hs2].
    apply (Lang_power_digits r Hr m s1 Hs1) in H1.
    apply (Lang_upto_digits r Hr (n - m) s2 Hs2) in H2.
    rewrite length_append. lia.
  - intros [Hlo Hhi].
    destruct (split_at s m Hlo) as (a & b & -> & Ha).
    rewrite allChars_append in Hs. apply andb_prop in Hs as [Hs1 Hs2].
    rewrite length_append in Hhi.
    constructor.
    + apply Lang_power_digits; assumption.
    + apply Lang_upto_digits; [assumption .. | lia].
Qed.

(** On a ['+'] followed by digits, the mobile pattern asks for 5 to 17. *)
Lemma mobileRegex_digits digits :
  allChars isDigit digits = true ->
  (test mobileRegex (String "+" digits) = true
   <-> 5 <= String.length digits <= 17).
Proof.
  intro Hd. rewrite test_Lang. unfold mobileRegex. split.
  - intro H. apply Lang_Seq_inv in H as (p & rest & E & Hp & H).
    apply Lang_Chr in Hp. subst p. simpl in E. inversion E; subst rest.
    apply Lang_Seq_inv in H as (a & b & -> & Ha & Hb).
    rewrite allChars_append in Hd. apply andb_prop in Hd as [Hda Hdb].
    assert (H13 : 1 <= 3) by lia. assert (H414 : 4 <= 14) by lia.
    apply (proj1 (Lang_Repeat_digits _ 1 3 oneDigit_digit H13 a Hda)) in Ha.
    apply (proj1 (Lang_Repeat_digits _ 4 14 oneDigit_group H414 b Hdb)) in Hb.
    rewrite length_append. lia.
  - intros [Hlo Hhi].
    change (String "+" digits) with (String "+" "" ++ digits).
    constructor; [apply Lang_Chr; reflexivity|].
    assert (Hk : Nat.max 1 (String.length digits - 14)
                 <= String.length digits) by lia.
    destruct (split_at digits _ Hk) as (a & b & E & Ha).
    assert (El : String.length digits = String.length a + String.length b)
      by (rewrite E at 1; apply length_append).
    rewrite El in Ha, Hlo, Hhi. clear El Hk.
    rewrite E in Hd |- *.
    rewrite allChars_append in Hd. apply andb_prop in Hd as [Hda Hdb].
    assert (H13 : 1 <= 3) by lia. assert (H414 : 4 <= 14) by lia.
    constructor.
    + apply (proj2 (Lang_Repeat_digits _ 1 3 oneDigit_digit H13 a Hda)). lia.
    + apply (proj2 (Lang_Repeat_digits _ 4 14 oneDigit_group H414 b Hdb)). lia.
Qed.

(** Without the leading ['+'] nothing matches. *)
Lemma mobileRegex_needs_plus s :
  test mobileRegex s = true -> exists rest, s = String "+" rest.
Proof.
  rewrite test_Lang. unfold mobileRegex. intro H.
  apply Lang_Seq_inv in H as (p & rest & -> & Hp & _).
  apply Lang_Chr in Hp. subst p. simpl. eauto.
Qed.


Lemma digit_not_space c : isDigit c = true -> negb (isSpace c) = true.
Proof.
  intro H. destruct (isSpace c) eqn:E; [|reflexivity].
  apply space_not_digit in E. congruence.
Qed.

Lemma removeSpecialFrom_digits s : forall position, 0 < position ->
  allChars isDigit (removeSpecialFrom s position) = true.
Proof.
  induction s as [|c s IH]; intros position Hp; simpl; [reflexivity|].
  destruct position as [|position]; [lia|]. simpl.
  rewrite andb_true_r.
  destruct (isDigit c) eqn:E; simpl.
  - rewrite E. simpl. apply IH. lia.
  - apply IH. lia.
Qed.

(** A formatted number is a text of digits, possibly behind one ['+']. *)
Lemma formatMobileNumber_shape number :
  (exists digits, formatMobileNumber number = String "+" digits
                  /\ allChars isDigit digits = true)
  \/ allChars isDigit (formatMobileNumber number) = true.
Proof.
  unfold formatMobileNumber.
  destruct (removeSpaces number) as [|c s]; simpl; [right; reflexivity|].
  destruct (isDigit c) eqn:E; simpl.
  - right. simpl. rewrite E. simpl. apply removeSpecialFrom_digits. lia.
  - destruct (Ascii.eqb c "+") eqn:P; simpl.
    + left. apply Ascii.eqb_eq in P. subst c.
      eexists. split; [reflexivity|]. apply removeSpecialFrom_digits. lia.
    + right. apply removeSpecialFrom_digits. lia.
Qed.

(** The mobile check, as the extractions apply it: on the formatted number
    it accepts exactly a ['+'] followed by 5 to 17 digits. *)
Lemma isValidMobile_formatted number :
  isValidMobile (formatMobileNumber number) = true <->
  exists digits,
    formatMobileNumber number = String "+" digits
    /\ allChars isDigit digits = true
    /\ 5 <= String.length digits <= 17.
Proof.
  unfold isValidMobile.
  destruct (formatMobileNumber_shape number) as [(digits & E & Hd) | Hd].
  - rewrite E. rewrite trim_id.
    + rewrite (mobileRegex_digits digits Hd). split.
      * intro H. exists digits. auto.
      * intros (d' & E' & _ & H). inversion E'; subst. exact H.
    + simpl. apply (allChars_impl _ _ digits digit_not_space Hd).
  - rewrite trim_id by (apply (allChars_impl _ _ _ digit_not_space Hd)).
    split.
    + intro H. apply mobileRegex_needs_plus in H as (rest & E).
      rewrite E in Hd. simpl in Hd. discriminate.
    + intros (digits & E & _). rewrite E in Hd. simpl in Hd. discriminate.
Qed.


End FormatFacts.

(** ** Placeholders *)

Section PlaceholderFacts.

Variable parameters' : list string.

Lemma replaceFrom_tokenFree seg : forall index,
  tokenFree seg = true -> replaceFrom parameters' seg index = seg.
Proof.
  induction seg as [|c seg IH]; intros index H; [reflexivity|].
  destruct seg as [|d seg']; [reflexivity|].
  simpl in H. apply andb_prop in H as [Hcd Hrest].
  apply negb_true_iff in Hcd.
  change (replaceFrom parameters' (String c (String d seg')) index)
    with (if isPlaceholderAt c d
          then substitute parameters' index ++ replaceFrom parameters' seg' (S index)
          else String c (replaceFrom parameters' (String d seg') index)).
  rewrite Hcd. f_equal. apply IH. exact Hrest.
Qed.

Lemma replaceFrom_segment seg : forall rest index,
  tokenFree seg = true ->
  replaceFrom parameters' (seg ++ "{}" ++ rest) index
  = seg ++ substitute parameters' index ++ replaceFrom parameters' rest (S index).
Proof.
  induction seg as [|c seg IH]; intros rest index H.
  - reflexivity.
  - destruct seg as [|d seg'].
    + change (replaceFrom parameters' (String c "" ++ "{}" ++ rest) index)
        with (if isPlaceholderAt c "{"
              then substitute parameters' index
                   ++ replaceFrom parameters' (String "}" rest) (S index)
              else String c
                     (replaceFrom parameters' ("" ++ "{}" ++ rest) index)).
      assert (E : isPlaceholderAt c "{" = false).
      { unfold isPlaceholderAt. apply andb_false_r. }
      rewrite E. simpl. reflexivity.
    + simpl in H. apply andb_prop in H as [Hcd Hrest].
      apply negb_true_iff in Hcd.
      change (replaceFrom parameters'
                (String c (String d seg') ++ "{}" ++ rest) index)
        with (if isPlaceholderAt c d
              then substitute parameters' index
                   ++ replaceFrom parameters' (seg' ++ "{}" ++ rest) (S index)
              else String c
                     (replaceFrom parameters'
                        (String d seg' ++ "{}" ++ rest) index)).
      rewrite Hcd. rewrite (IH rest index Hrest). reflexivity.
Qed.

Lemma replaceFrom_join segments : forall index,
  Forall (fun s => tokenFree s = true) segments ->
  replaceFrom parameters' (join "{}" segments) index
  = fillFrom parameters' index segments.
Proof.
  induction segments as [|seg rest IH]; intros index H; [reflexivity|].
  inversion H as [|? ? Hseg Hrest]; subst.
  destruct rest as [|seg' rest'].
  - simpl. apply replaceFrom_tokenFree. exact Hseg.
  - change (join "{}" (seg :: seg' :: rest'))
      with (seg ++ "{}" ++ join "{}" (seg' :: rest')).
    rewrite (replaceFrom_segment seg _ index Hseg).
    rewrite (IH (S index) Hrest). reflexivity.
Qed.

(** Induction for scans that look at two characters at a time. *)
Lemma string_pair_ind (P : string -> Prop) :
  P "" ->
  (forall c, P (String c "")) ->
  (forall c d s, P s -> P (String d s) -> P (String c (String d s))) ->
  forall s, P s.
Proof.
  intros H0 H1 H2 s.
  assert (G : P s /\ forall c, P (String c s)).
  { induction s as [|d s [IHs IHc]]; split; auto. }
  apply G.
Qed.

Lemma matchesOf_occurrences s :
  List.length (matchesOf s) = occurrences s.
Proof.
  induction s as [| c | c d s IH1 IH2] using string_pair_ind;
    [reflexivity | reflexivity |].
  change (matchesOf (String c (String d s)))
    with (if isPlaceholderAt c d then "{}" :: matchesOf s
          else matchesOf (String d s)).
  change (occurrences (String c (String d s)))
    with ((if isPlaceholderAt c d then 1 else 0) + occurrences (String d s)).
  destruct (isPlaceholderAt c d) eqn:E.
  - simpl List.length. rewrite IH1.
    unfold isPlaceholderAt in E. apply andb_prop in E as [_ Ed].
    apply Ascii.eqb_eq in Ed. subst d.
    destruct s as [|e s']; reflexivity.
  - exact IH2.
Qed.

Lemma placeholderCountOf_sum paragraphs :
  placeholderCountOf paragraphs = list_sum (map occurrences paragraphs).
Proof.
  unfold placeholderCountOf.
  assert (G : forall ps acc,
             fold_left
               (fun count paragraph =>
                  count + match matchPlaceholders paragraph with
                          | Some ms => List.length ms
                          | None => 0
                          end) ps acc
             = acc + list_sum (map occurrences ps)).
  { induction ps as [|p ps IH]; intro acc; simpl; [lia|].
    rewrite IH. rewrite <- matchesOf_occurrences.
    unfold matchPlaceholders. destruct (matchesOf p); simpl; lia. }
  apply G.
Qed.

Lemma segmentsOf_nonempty s : segmentsOf s <> [].
Proof.
  induction s as [| c | c d s IH1 IH2] using string_pair_ind;
    try discriminate.
  change (segmentsOf (String c (String d s)))
    with (if isPlaceholderAt c d then "" :: segmentsOf s
          else match segmentsOf (String d s) with
               | seg :: segs => String c seg :: segs
               | [] => [String c ""]
               end).
  destruct (isPlaceholderAt c d); [discriminate|].
  destruct (segmentsOf (String d s)); discriminate.
Qed.

Lemma join_cons sep x rest :
  rest <> [] -> join sep (x :: rest) = x ++ sep ++ join sep rest.
Proof. destruct rest; [congruence | reflexivity]. Qed.

Lemma join_cons_head sep c seg segs :
  join sep (String c seg :: segs) = String c (join sep (seg :: segs)).
Proof. destruct segs; reflexivity. Qed.

(** Every text is its segments joined by ["{}"]. *)
Lemma join_segmentsOf s : join "{}" (segmentsOf s) = s.
Proof.
  induction s as [| c | c d s IH1 IH2] using string_pair_ind;
    [reflexivity | reflexivity |].
  change (segmentsOf (String c (String d s)))
    with (if isPlaceholderAt c d then "" :: segmentsOf s
          else match segmentsOf (String d s) with
               | seg :: segs => String c seg :: segs
               | [] => [String c ""]
               end).
  destruct (isPlaceholderAt c d) eqn:E.
  - rewrite join_cons by apply segmentsOf_nonempty. rewrite IH1.
    unfold isPlaceholderAt in E. apply andb_prop in E as [Ec Ed].
    apply Ascii.eqb_eq in Ec, Ed. subst. reflexivity.
  - destruct (segmentsOf (String d s)) as [|seg segs] eqn:Es.
    + exfalso. exact (segmentsOf_nonempty _ Es).
    + rewrite join_cons_head. rewrite IH2. reflexivity.
Qed.

Lemma tokenFree_cons c seg d :
  isPlaceholderAt c d = false ->
  (seg = "" \/ exists seg', seg = String d seg') ->
  tokenFree seg = true -> tokenFree (String c seg) = true.
Proof.
  intros E [-> | (seg' & ->)] H; [reflexivity|].
  change (tokenFree (String c (String d seg')))
    with (negb (isPlaceholderAt c d) && tokenFree (String d seg')).
  rewrite E, H. reflexivity.
Qed.

Lemma segmentsOf_head d s :
  exists seg segs, segmentsOf (String d s) = seg :: segs
                   /\ (seg = "" \/ exists seg', seg = String d seg').
Proof.
  destruct s as [|e s'].
  - exists (String d ""), []. split; [reflexivity | right; eauto].
  - change (segmentsOf (String d (String e s')))
      with (if isPlaceholderAt d e then "" :: segmentsOf s'
            else match segmentsOf (String e s') with
                 | seg :: segs => String d seg :: segs
                 | [] => [String d ""]
                 end).
    destruct (isPlaceholderAt d e).
    + eexists _, _. split; [reflexivity | left; reflexivity].
    + destruct (segmentsOf (String e s')) as [|seg segs];
        eexists _, _; (split; [reflexivity | right; eauto]).
Qed.

Lemma segmentsOf_tokenFree s :
  Forall (fun seg => tokenFree seg = true) (segmentsOf s).
Proof.
  induction s as [| c | c d s IH1 IH2] using string_pair_ind.
  - repeat constructor.
  - repeat constructor.
  - change (segmentsOf (String c (String d s)))
      with (if isPlaceholderAt c d then "" :: segmentsOf s
            else match segmentsOf (String d s) with
                 | seg :: segs => String c seg :: segs
                 | [] => [String c ""]
                 end).
    destruct (isPlaceholderAt c d) eqn:E.
    + constructor; [reflexivity | exact IH1].
    + destruct (segmentsOf_head d s) as (seg & segs & Es & Hseg).
      rewrite Es in IH2 |- *. inversion IH2; subst.
      constructor; [|assumption].
      apply (tokenFree_cons c seg d E Hseg). assumption.
Qed.

Lemma segmentsOf_length s :
  List.length (segmentsOf s) = S (occurrences s).
Proof.
  induction s as [| c | c d s IH1 IH2] using string_pair_ind;
    [reflexivity | reflexivity |].
  change (segmentsOf (String c (String d s)))
    with (if isPlaceholderAt c d then "" :: segmentsOf s
          else match segmentsOf (String d s) with
               | seg :: segs => String c seg :: segs
               | [] => [String c ""]
               end).
  change (occurrences (String c (String d s)))
    with ((if isPlaceholderAt c d then 1 else 0) + occurrences (String d s)).
  destruct (isPlaceholderAt c d) eqn:E.
  - simpl List.length. rewrite IH1.
    unfold isPlaceholderAt in E. apply andb_prop in E as [_ Ed].
    apply Ascii.eqb_eq in Ed. subst d.
    destruct s as [|e s']; reflexivity.
  - destruct (segmentsOf (String d s)) as [|seg segs] eqn:Es.
    + exfalso. exact (segmentsOf_nonempty _ Es).
    + simpl List.length in *. simpl. exact IH2.
Qed.


End PlaceholderFacts.

(** ** Rendering of numbers *)

Section ShowFacts.

Lemma NilEmpty_digits d :
  allChars isDigit (NilEmpty.string_of_uint d) = true.
Proof. induction d; simpl; auto. Qed.

Lemma show_nat_digits n : allChars isDigit (show_nat n) = true.
Proof.
  unfold show_nat, NilZero.string_of_uint.
  destruct (Nat.to_uint n); try reflexivity; apply NilEmpty_digits.
Qed.

Lemma to_uint_not_Nil n : Nat.to_uint n <> Decimal.Nil.
Proof.
  intro H. assert (E : n = 0).
  { rewrite <- (Unsigned.of_to n). rewrite H. reflexivity. }
  subst n. discriminate.
Qed.

Lemma show_nat_inj n m : show_nat n = show_nat m -> n = m.
Proof.
  unfold show_nat. intro H.
  apply Unsigned.to_uint_inj.
  assert (A : NilZero.uint_of_string (NilZero.string_of_uint (Nat.to_uint n))
              = Some (Nat.to_uint n))
    by (apply NilZero.usu, to_uint_not_Nil).
  assert (B : NilZero.uint_of_string (NilZero.string_of_uint (Nat.to_uint m))
              = Some (Nat.to_uint m))
    by (apply NilZero.usu, to_uint_not_Nil).
  rewrite H in A. congruence.
Qed.

Lemma append_inv_head (p x y : string) : p ++ x = p ++ y -> x = y.
Proof.
  induction p as [|c p IH]; simpl; intro H; [assumption|].
  inversion H. auto.
Qed.

(** A run of digits before a bracket is determined by the whole text. *)
Lemma digits_before_bracket a : forall b x y,
  allChars isDigit a = true -> allChars isDigit b = true ->
  a ++ String "]" x = b ++ String "]" y -> a = b.
Proof.
  induction a as [|c a IH]; intros [|d b] x y Ha Hb H; simpl in *.
  - reflexivity.
  - inversion H; subst d. discriminate.
  - inversion H; subst c. discriminate.
  - inversion H; subst d.
    apply andb_prop in Ha as [_ Ha]. apply andb_prop in Hb as [_ Hb].
    f_equal. eapply IH; eauto.
Qed.

(** The message of a mismatch tells the row. *)
Lemma mismatchMessage_row i i' a a' b b' :
  mismatchMessage i a b = mismatchMessage i' a' b' -> i = i'.
Proof.
  unfold mismatchMessage. intro H.
  apply append_inv_head in H.
  change ("]: Found " ++ ?x) with (String "]" (": Found " ++ x)) in H.
  apply digits_before_bracket in H; try apply show_nat_digits.
  apply show_nat_inj in H. lia.
Qed.

End ShowFacts.

(** ** Placeholder validation *)

Section ValidationFacts.

Lemma checkParameterMaps_ok n maps : forall i,
  checkParameterMaps n maps i = inr tt
  <-> Forall (fun m => List.length (parameters m) = n) maps.
Proof.
  induction maps as [|m maps IH]; intro i; simpl.
  - split; auto.
  - destruct (Nat.eqb n (List.length (parameters m))) eqn:E; simpl.
    + apply Nat.eqb_eq in E. rewrite IH. split.
      * intro H. constructor; auto.
      * intro H. inversion H; assumption.
    + apply Nat.eqb_neq in E. split; [discriminate|].
      intro H. inversion H; subst. congruence.
Qed.

Lemma checkParameterMaps_first_mismatch n before : forall bad after i,
  Forall (fun m => List.length (parameters m) = n) before ->
  List.length (parameters bad) <> n ->
  checkParameterMaps n (before ++ bad :: after)%list i
  = inl (mismatchMessage (i + List.length before) n
           (List.length (parameters bad))).
Proof.
  induction before as [|m before IH]; intros bad after i Hok Hbad; simpl.
  - destruct (Nat.eqb n (List.length (parameters bad))) eqn:E; simpl.
    + apply Nat.eqb_eq in E. congruence.
    + rewrite Nat.add_0_r. reflexivity.
  - inversion Hok as [|? ? Hm Hrest]; subst.
    rewrite Nat.eqb_refl. simpl.
    rewrite (IH bad after (S i) Hrest Hbad).
    f_equal. f_equal. lia.
Qed.

Lemma validateMessagePlaceholders_ok paragraphs maps :
  validateMessagePlaceholders paragraphs maps = inr tt
  <-> Forall (fun m => List.length (parameters m)
                       = list_sum (map occurrences paragraphs)) maps.
Proof.
  unfold validateMessagePlaceholders.
  rewrite checkParameterMaps_ok, placeholderCountOf_sum. reflexivity.
Qed.

End ValidationFacts.

(** ** Deduplication *)

Section DedupFacts.

Lemma Map_has_keys m key :
  Map_has m key = existsb (String.eqb key) (map fst m).
Proof.
  unfold Map_has. induction m as [|[k v] m IH]; simpl; [reflexivity|].
  rewrite IH. rewrite (String.eqb_sym k key). reflexivity.
Qed.

Lemma Map_set_fresh m key value :
  Map_has m key = false -> Map_set m key value = (m ++ [(key, value)])%list.
Proof.
  unfold Map_has. induction m as [|[k v] m IH]; simpl; [reflexivity|].
  intro H. apply orb_false_elim in H as [Hk Hm].
  rewrite Hk. rewrite (IH Hm). reflexivity.
Qed.

Lemma unique_fold items : forall unique,
  Map_values
    (fold_left
       (fun unique item =>
          if negb (Map_has unique (address item))
          then Map_set unique (address item) item
          else unique)
       items unique)
  = (Map_values unique ++ keepFirst (map fst unique) items)%list.
Proof.
  induction items as [|item items IH]; intro unique; simpl.
  - rewrite app_nil_r. reflexivity.
  - rewrite IH. rewrite <- Map_has_keys.
    destruct (Map_has unique (address item)) eqn:E; simpl.
    + reflexivity.
    + rewrite (Map_set_fresh unique (address item) item E).
      unfold Map_values. rewrite !map_app. simpl.
      rewrite <- app_assoc. reflexivity.
Qed.

(** The [Map] keeps, for each address, the entry that came first. *)
Lemma uniqueEntries_keepFirst items : uniqueEntries items = keepFirst [] items.
Proof. unfold uniqueEntries. rewrite unique_fold. reflexivity. Qed.

Lemma existsb_eqb_In a seen :
  existsb (String.eqb a) seen = true <-> In a seen.
Proof.
  rewrite existsb_exists. split.
  - intros (x & Hx & E). apply String.eqb_eq in E. subst. assumption.
  - intro H. exists a. split; [assumption | apply String.eqb_refl].
Qed.

Lemma keepFirst_fresh items : forall seen item,
  In item (keepFirst seen items) -> ~ In (address item) seen.
Proof.
  induction items as [|x items IH]; intros seen item H; simpl in H.
  - contradiction.
  - destruct (existsb (String.eqb (address x)) seen) eqn:E.
    + eauto.
    + destruct H as [-> | H].
      * intro Hin. apply existsb_eqb_In in Hin. congruence.
      * apply IH in H. intro Hin. apply H. apply in_or_app. auto.
Qed.

Lemma keepFirst_NoDup items : forall seen,
  NoDup (map address (keepFirst seen items)).
Proof.
  induction items as [|x items IH]; intro seen; simpl.
  - constructor.
  - destruct (existsb (String.eqb (address x)) seen) eqn:E; [apply IH|].
    simpl. constructor; [|apply IH].
    intro Hin. apply in_map_iff in Hin as (y & Ey & Hy).
    apply keepFirst_fresh in Hy. apply Hy. rewrite Ey.
    apply in_or_app. right. left. reflexivity.
Qed.

Lemma keepFirst_first items : forall seen item,
  In item (keepFirst seen items) -> firstWith (address item) items = Some item.
Proof.
  unfold firstWith.
  induction items as [|x items IH]; intros seen item H; simpl in H.
  - contradiction.
  - simpl. destruct (existsb (String.eqb (address x)) seen) eqn:E.
    + assert (Hne : String.eqb (address x) (address item) = false).
      { apply String.eqb_neq. intro Eq.
        apply keepFirst_fresh in H. apply H. rewrite <- Eq.
        apply existsb_eqb_In. assumption. }
      rewrite Hne. eauto.
    + destruct H as [-> | H].
      * rewrite String.eqb_refl. reflexivity.
      * assert (Hne : String.eqb (address x) (address item) = false).
        { apply String.eqb_neq. intro Eq.
          apply keepFirst_fresh in H. apply H. rewrite <- Eq.
          apply in_or_app. right. left. reflexivity. }
        rewrite Hne. eauto.
Qed.

Lemma keepFirst_covers items : forall seen a,
  In a (map address items) ->
  In a seen \/ In a (map address (keepFirst seen items)).
Proof.
  induction items as [|x items IH]; intros seen a H; simpl in H.
  - contradiction.
  - simpl. destruct (existsb (String.eqb (address x)) seen) eqn:E.
    + destruct H as [<- | H]; [|auto].
      left. apply existsb_eqb_In. assumption.
    + destruct H as [<- | H]; [right; left; reflexivity|].
      destruct (IH (seen ++ [address x])%list a H) as [Hs | Hk].
      * apply in_app_or in Hs as [Hs | [<- | []]]; [auto|].
        right. left. reflexivity.
      * right. right. assumption.
Qed.

Lemma keepFirst_subset items : forall seen item,
  In item (keepFirst seen items) -> In item items.
Proof.
  induction items as [|x items IH]; intros seen item H; simpl in H.
  - contradiction.
  - destruct (existsb (String.eqb (address x)) seen).
    + right. eauto.
    + destruct H as [-> | H]; [left; reflexivity | right; eauto].
Qed.

(** What the deduplication of the extractions guarantees: the kept entries
    have pairwise different addresses (as written in the sheet), every
    address of the input is kept, and the entry kept for an address is the
    first one of the input that carries it. *)
Lemma uniqueEntries_spec items :
  NoDup (map address (uniqueEntries items))
  /\ (forall a, In a (map address items)
                <-> In a (map address (uniqueEntries items)))
  /\ (forall item, In item (uniqueEntries items) ->
                   firstWith (address item) items = Some item).
Proof.
  rewrite uniqueEntries_keepFirst. split; [apply keepFirst_NoDup|]. split.
  - intro a. split.
    + intro H. destruct (keepFirst_covers items [] a H) as [[] | Hk].
      assumption.
    + intro H. apply in_map_iff in H as (item & <- & Hin).
      apply in_map. eapply keepFirst_subset; eauto.
  - intros item H. eapply keepFirst_first; eauto.
Qed.

End DedupFacts.

(** ** Rows of the sheet *)

Section RowFacts.

Lemma isValidEmail_undefined : isValidEmail "undefined" = false.
Proof. reflexivity. Qed.

Lemma emailRow_entries rows :
  entriesOf (map emailRow rows) = passingEntries isValidEmail 3 rows.
Proof.
  induction rows as [|row rows IH]; simpl; [reflexivity|].
  unfold emailRow at 1. destruct (cellAt row 3) as [s|].
  - destruct (isValidEmail s); simpl; [rewrite IH; reflexivity|].
    destruct (negb (String.eqb (trim s) "")); simpl; exact IH.
  - rewrite isValidEmail_undefined. simpl. exact IH.
Qed.

Lemma emailRow_invalid rows :
  invalidOf (map emailRow rows) = failingAddresses isValidEmail 3 rows.
Proof.
  induction rows as [|row rows IH]; simpl; [reflexivity|].
  unfold emailRow at 1. destruct (cellAt row 3) as [s|].
  - destruct (isValidEmail s); simpl; [exact IH|].
    destruct (negb (String.eqb (trim s) "")); simpl;
      [rewrite IH; reflexivity | exact IH].
  - rewrite isValidEmail_undefined. simpl. exact IH.
Qed.

Lemma mobileRow_entries rows :
  entriesOf (map mobileRow rows) = passingEntries mobileCheck 2 rows.
Proof.
  induction rows as [|row rows IH]; simpl; [reflexivity|].
  unfold mobileRow at 1, mobileCheck at 1. destruct (cellAt row 2) as [s|].
  - simpl. destruct (isValidMobile (formatMobileNumber s)); simpl;
      [rewrite IH; reflexivity|].
    destruct (negb (String.eqb (trim s) "")); simpl; exact IH.
  - simpl. exact IH.
Qed.

Lemma mobileRow_invalid rows :
  invalidOf (map mobileRow rows) = failingAddresses mobileCheck 2 rows.
Proof.
  induction rows as [|row rows IH]; simpl; [reflexivity|].
  unfold mobileRow at 1, mobileCheck at 1. destruct (cellAt row 2) as [s|].
  - simpl. destruct (isValidMobile (formatMobileNumber s)); simpl;
      [exact IH|].
    destruct (negb (String.eqb (trim s) "")); simpl;
      [rewrite IH; reflexivity | exact IH].
  - simpl. exact IH.
Qed.

Lemma passingEntries_pass check column rows : forall item,
  In item (passingEntries check column rows) -> check (address item) = true.
Proof.
  induction rows as [|row rows IH]; intros item H; simpl in H.
  - contradiction.
  - destruct (cellAt row column) as [s|]; [|auto].
    destruct (check s) eqn:E; [|auto].
    destruct H as [<- | H]; [exact E | auto].
Qed.

Lemma failingAddresses_fail check column rows : forall a,
  In a (failingAddresses check column rows) ->
  check a = false /\ trim a <> "".
Proof.
  induction rows as [|row rows IH]; intros a H; simpl in H.
  - contradiction.
  - destruct (cellAt row column) as [s|]; [|auto].
    destruct (negb (check s) && negb (String.eqb (trim s) "")) eqn:E; [|auto].
    destruct H as [<- | H]; [|auto].
    apply andb_prop in E as [E1 E2].
    apply negb_true_iff in E1, E2. apply String.eqb_neq in E2. auto.
Qed.

Lemma passingEntries_app check column rows rows' :
  passingEntries check column (rows ++ rows')%list
  = (passingEntries check column rows
     ++ passingEntries check column rows')%list.
Proof.
  induction rows as [|row rows IH]; simpl; [reflexivity|].
  destruct (cellAt row column) as [s|]; [|exact IH].
  destruct (check s); simpl; [rewrite IH; reflexivity | exact IH].
Qed.

Lemma failingAddresses_app check column rows rows' :
  failingAddresses check column (rows ++ rows')%list
  = (failingAddresses check column rows
     ++ failingAddresses check column rows')%list.
Proof.
  induction rows as [|row rows IH]; simpl; [reflexivity|].
  destruct (cellAt row column) as [s|]; [|exact IH].
  destruct (negb (check s) && negb (String.eqb (trim s) "")); simpl;
    [rewrite IH; reflexivity | exact IH].
Qed.

End RowFacts.

(** ** The extractions *)

Section ExtractionFacts.

Lemma extractEmail_inv sheetData r :
  extractEmail sheetData = inr r ->
  exists clientName clientEmail companyName companyAddress emailSubject,
    sheetCell sheetData 1 1 = inr clientName
    /\ sheetCell sheetData 2 1 = inr clientEmail
    /\ sheetCell sheetData 3 1 = inr companyName
    /\ sheetCell sheetData 4 1 = inr companyAddress
    /\ sheetCell sheetData 5 1 = inr emailSubject
    /\ validateEmailSheetFields clientName clientEmail companyName
         companyAddress emailSubject
         (paragraphsOf (map (fun row => cellAt row 2) (dataRows sheetData)))
         (passingEntries isValidEmail 3 (dataRows sheetData)) = inr tt
    /\ r = EmailSheet.mk (orEmpty clientName) (orEmpty clientEmail)
             (orEmpty companyName) (orEmpty companyAddress)
             (orEmpty emailSubject)
             (paragraphsOf
                (map (fun row => cellAt row 2) (dataRows sheetData)))
             (uniqueEntries
                (passingEntries isValidEmail 3 (dataRows sheetData)))
             (failingAddresses isValidEmail 3 (dataRows sheetData)).
Proof.
  unfold extractEmail, dataRows, bindE.
  rewrite emailRow_entries, emailRow_invalid.
  destruct (sheetCell sheetData 1 1) as [|c1]; [discriminate|].
  destruct (sheetCell sheetData 2 1) as [|c2]; [discriminate|].
  destruct (sheetCell sheetData 3 1) as [|c3]; [discriminate|].
  destruct (sheetCell sheetData 4 1) as [|c4]; [discriminate|].
  destruct (sheetCell sheetData 5 1) as [|c5]; [discriminate|].
  destruct (validateEmailSheetFields _ _ _ _ _ _ _) as [|[]] eqn:V;
    [discriminate|].
  intro H. inversion H. exists c1, c2, c3, c4, c5. repeat split; auto.
Qed.

Lemma extractMobile_inv sheetData r :
  extractMobile sheetData = inr r ->
  exists clientName clientEmail clientMobile smsBody,
    sheetCell sheetData 1 1 = inr clientName
    /\ sheetCell sheetData 2 1 = inr clientEmail
    /\ sheetCell sheetData 3 1 = inr clientMobile
    /\ sheetCell sheetData 4 1 = inr smsBody
    /\ validateSmsSheetFields clientName clientEmail clientMobile smsBody
         (passingEntries mobileCheck 2 (dataRows sheetData)) = inr tt
    /\ r = SmsSheet.mk (orEmpty clientName) (orEmpty clientEmail)
             (formatMobileNumbers [orEmpty clientMobile]) (orEmpty smsBody)
             (uniqueEntries
                (passingEntries mobileCheck 2 (dataRows sheetData)))
             (failingAddresses mobileCheck 2 (dataRows sheetData)).
Proof.
  unfold extractMobile, dataRows, bindE.
  rewrite mobileRow_entries, mobileRow_invalid.
  destruct (sheetCell sheetData 1 1) as [|c1]; [discriminate|].
  destruct (sheetCell sheetData 2 1) as [|c2]; [discriminate|].
  destruct (sheetCell sheetData 3 1) as [|c3]; [discriminate|].
  destruct (sheetCell sheetData 4 1) as [|c4]; [discriminate|].
  destruct (validateSmsSheetFields _ _ _ _ _) as [|[]] eqn:V;
    [discriminate|].
  intro H. inversion H. exists c1, c2, c3, c4. repeat split; auto.
Qed.

Lemma extractWhatsapp_inv sheetData r :
  extractWhatsapp sheetData = inr r ->
  exists clientName clientEmail clientMobile accessToken phoneNumberId
         templateName,
    sheetCell sheetData 1 1 = inr clientName
    /\ sheetCell sheetData 2 1 = inr clientEmail
    /\ sheetCell sheetData 3 1 = inr clientMobile
    /\ sheetCell sheetData 4 1 = inr accessToken
    /\ sheetCell sheetData 5 1 = inr phoneNumberId
    /\ sheetCell sheetData 6 1 = inr templateName
    /\ validateWhatsappSheetFields clientName clientEmail clientMobile
         accessToken phoneNumberId templateName = inr tt
    /\ r = WhatsappSheet.mk (orEmpty clientName) (orEmpty clientEmail)
             (formatMobileNumbers [orEmpty clientMobile])
             (orEmpty accessToken) (orEmpty phoneNumberId)
             (orEmpty templateName)
             (uniqueEntries
                (passingEntries mobileCheck 2 (dataRows sheetData)))
             (failingAddresses mobileCheck 2 (dataRows sheetData)).
Proof.
  unfold extractWhatsapp, dataRows, bindE.
  rewrite mobileRow_entries, mobileRow_invalid.
  destruct (sheetCell sheetData 1 1) as [|c1]; [discriminate|].
  destruct (sheetCell sheetData 2 1) as [|c2]; [discriminate|].
  destruct (sheetCell sheetData 3 1) as [|c3]; [discriminate|].
  destruct (sheetCell sheetData 4 1) as [|c4]; [discriminate|].
  destruct (sheetCell sheetData 5 1) as [|c5]; [discriminate|].
  destruct (sheetCell sheetData 6 1) as [|c6]; [discriminate|].
  destruct (validateWhatsappSheetFields _ _ _ _ _ _) as [|[]] eqn:V;
    [discriminate|].
  intro H. inversion H. exists c1, c2, c3, c4, c5, c6. repeat split; auto.
Qed.

Lemma sheetCell_app sheetData more i j c :
  sheetCell sheetData i j = inr c ->
  sheetCell (sheetData ++ more)%list i j = inr c.
Proof.
  unfold sheetCell. destruct (nth_error sheetData i) as [row|] eqn:E;
    [|discriminate].
  intro H. rewrite nth_error_app1.
  - rewrite E. exact H.
  - apply nth_error_Some. congruence.
Qed.

Lemma dataRows_app sheetData more c :
  sheetCell sheetData 1 1 = inr c ->
  dataRows (sheetData ++ more)%list = (dataRows sheetData ++ more)%list.
Proof.
  unfold sheetCell, dataRows. destruct sheetData as [|header rows]; simpl.
  - discriminate.
  - reflexivity.
Qed.

Lemma paragraphsOf_app cells cells' :
  paragraphsOf (cells ++ cells')%list
  = (paragraphsOf cells ++ paragraphsOf cells')%list.
Proof.
  induction cells as [|[s|] cells IH]; simpl; [reflexivity | | exact IH].
  destruct (negb (isBlankText s)); simpl; [rewrite IH; reflexivity | exact IH].
Qed.

Lemma passingEntries_failing check column row a :
  cellAt row column = Some a -> check a = false ->
  passingEntries check column [row] = [].
Proof. intros E H. simpl. rewrite E, H. reflexivity. Qed.

Lemma failingAddresses_failing check column row a :
  cellAt row column = Some a -> check a = false -> trim a <> "" ->
  failingAddresses check column [row] = [a].
Proof.
  intros E H T. simpl. rewrite E, H.
  apply String.eqb_neq in T. rewrite T. reflexivity.
Qed.

(** One more row with a text address that fails the format check: the
    extraction still succeeds, with the same recipients, and the address is
    appended to the invalid list. *)
Lemma extractMobile_invalid_row sheetData r row a :
  extractMobile sheetData = inr r ->
  cellAt row 2 = Some a -> mobileCheck a = false -> trim a <> "" ->
  extractMobile (sheetData ++ [row])%list
  = inr (SmsSheet.mk (SmsSheet.clientName r) (SmsSheet.clientEmail r)
           (SmsSheet.clientMobile r) (SmsSheet.smsBody r)
           (SmsSheet.mobileParameterMaps r)
           (SmsSheet.invalidMobileNumbers r ++ [a])%list).
Proof.
  intros H E C T.
  apply extractMobile_inv in H
    as (c1 & c2 & c3 & c4 & H1 & H2 & H3 & H4 & V & ->).
  unfold extractMobile, bindE.
  change (skipn 1 (sheetData ++ [row])%list)
    with (dataRows (sheetData ++ [row])%list).
  rewrite mobileRow_entries, mobileRow_invalid.
  rewrite (dataRows_app sheetData [row] c1 H1).
  rewrite passingEntries_app, failingAddresses_app.
  rewrite (passingEntries_failing mobileCheck 2 row a E C).
  rewrite (failingAddresses_failing mobileCheck 2 row a E C T).
  rewrite app_nil_r.
  rewrite (sheetCell_app _ _ _ _ _ H1), (sheetCell_app _ _ _ _ _ H2),
    (sheetCell_app _ _ _ _ _ H3), (sheetCell_app _ _ _ _ _ H4).
  rewrite V. reflexivity.
Qed.

Lemma extractWhatsapp_invalid_row sheetData r row a :
  extractWhatsapp sheetData = inr r ->
  cellAt row 2 = Some a -> mobileCheck a = false -> trim a <> "" ->
  extractWhatsapp (sheetData ++ [row])%list
  = inr (WhatsappSheet.mk (WhatsappSheet.clientName r)
           (WhatsappSheet.clientEmail r) (WhatsappSheet.clientMobile r)
           (WhatsappSheet.whatsappAccessToken r)
           (WhatsappSheet.whatsappPhoneNumberId r)
           (WhatsappSheet.whatsappTemplateName r)
           (WhatsappSheet.whatsappParameterMaps r)
           (WhatsappSheet.invalidMobileNumbers r ++ [a])%list).
Proof.
  intros H E C T.
  apply extractWhatsapp_inv in H
    as (c1 & c2 & c3 & c4 & c5 & c6 & H1 & H2 & H3 & H4 & H5 & H6 & V & ->).
  unfold extractWhatsapp, bindE.
  change (skipn 1 (sheetData ++ [row])%list)
    with (dataRows (sheetData ++ [row])%list).
  rewrite mobileRow_entries, mobileRow_invalid.
  rewrite (dataRows_app sheetData [row] c1 H1).
  rewrite passingEntries_app, failingAddresses_app.
  rewrite (passingEntries_failing mobileCheck 2 row a E C).
  rewrite (failingAddresses_failing mobileCheck 2 row a E C T).
  rewrite app_nil_r.
  rewrite (sheetCell_app _ _ _ _ _ H1), (sheetCell_app _ _ _ _ _ H2),
    (sheetCell_app _ _ _ _ _ H3), (sheetCell_app _ _ _ _ _ H4),
    (sheetCell_app _ _ _ _ _ H5), (sheetCell_app _ _ _ _ _ H6).
  rewrite V. reflexivity.
Qed.

Lemma extractEmail_invalid_row sheetData r row a :
  extractEmail sheetData = inr r ->
  cellAt row 2 = None ->
  cellAt row 3 = Some a -> isValidEmail a = false -> trim a <> "" ->
  extractEmail (sheetData ++ [row])%list
  = inr (EmailSheet.mk (EmailSheet.clientName r) (EmailSheet.clientEmail r)
           (EmailSheet.companyName r) (EmailSheet.companyAddress r)
           (EmailSheet.emailSubject r) (EmailSheet.emailParagraphs r)
           (EmailSheet.emailParameterMaps r)
           (EmailSheet.invalidEmailAddresses r ++ [a])%list).
Proof.
  intros H P E C T.
  apply extractEmail_inv in H
    as (c1 & c2 & c3 & c4 & c5 & H1 & H2 & H3 & H4 & H5 & V & ->).
  unfold extractEmail, bindE.
  change (skipn 1 (sheetData ++ [row])%list)
    with (dataRows (sheetData ++ [row])%list).
  rewrite emailRow_entries, emailRow_invalid.
  rewrite (dataRows_app sheetData [row] c1 H1).
  rewrite passingEntries_app, failingAddresses_app, map_app, paragraphsOf_app.
  rewrite (passingEntries_failing isValidEmail 3 row a E C).
  rewrite (failingAddresses_failing isValidEmail 3 row a E C T).
  simpl map. rewrite P. simpl paragraphsOf. rewrite !app_nil_r.
  rewrite (sheetCell_app _ _ _ _ _ H1), (sheetCell_app _ _ _ _ _ H2),
    (sheetCell_app _ _ _ _ _ H3), (sheetCell_app _ _ _ _ _ H4),
    (sheetCell_app _ _ _ _ _ H5).
  rewrite V. reflexivity.
Qed.


(** Counting paragraph by paragraph is counting in the concatenation, as
    long as no paragraph ends with an opening brace (a brace that ends one
    paragraph and a brace that starts the next are not a placeholder of
    [validateMessagePlaceholders]). *)
Lemma occurrences_append a : forall b,
  endsWithOpen a = false ->
  occurrences (a ++ b) = occurrences a + occurrences b.
Proof.
  induction a as [|c a IH]; intros b H; [reflexivity|].
  destruct a as [|d a'].
  - simpl in H. simpl.
    destruct b as [|e b']; [reflexivity|].
    unfold isPlaceholderAt. rewrite H. reflexivity.
  - change (occurrences (String c (String d a') ++ b))
      with ((if isPlaceholderAt c d then 1 else 0)
            + occurrences (String d a' ++ b)).
    change (occurrences (String c (String d a')))
      with ((if isPlaceholderAt c d then 1 else 0)
            + occurrences (String d a')).
    rewrite (IH b H). lia.
Qed.

Lemma occurrences_join paragraphs :
  Forall (fun p => endsWithOpen p = false) paragraphs ->
  occurrences (join "" paragraphs) = list_sum (map occurrences paragraphs).
Proof.
  induction paragraphs as [|p rest IH]; intro H; [reflexivity|].
  inversion H as [|? ? Hp Hrest]; subst.
  destruct rest as [|q rest'].
  - simpl. lia.
  - change (join "" (p :: q :: rest')) with (p ++ "" ++ join "" (q :: rest')).
    change ("" ++ join "" (q :: rest')) with (join "" (q :: rest')).
    rewrite (occurrences_append p _ Hp), (IH Hrest). reflexivity.
Qed.

Lemma mobileCheck_truthy a : mobileCheck a = true -> truthy a = true.
Proof. destruct a; [discriminate | reflexivity]. Qed.

Lemma isValidEmail_truthy a : isValidEmail a = true -> truthy a = true.
Proof. destruct a; [discriminate | reflexivity]. Qed.

Lemma passingEntries_some check column rows :
  (forall a, check a = true -> truthy a = true) ->
  passingEntries check column rows <> [] ->
  existsb (fun item => truthy (address item))
    (passingEntries check column rows) = true.
Proof.
  intros Hc Hne.
  destruct (passingEntries check column rows) as [|item items] eqn:E;
    [congruence|].
  simpl. rewrite (Hc (address item)); [reflexivity|].
  apply (passingEntries_pass check column rows). rewrite E. left. reflexivity.
Qed.

Lemma paragraphsOf_not_blank cells :
  forallb isBlankText (paragraphsOf cells) = true -> paragraphsOf cells = [].
Proof.
  induction cells as [|[s|] cells IH]; simpl; auto.
  destruct (isBlankText s) eqn:B; simpl; auto.
  rewrite B. discriminate.
Qed.

(** The placeholder validation inside the SMS extraction: with the four
    fields present and at least one valid number, the extraction succeeds
    or fails as [validateMessagePlaceholders] does on the one body and the
    valid rows, and the failure carries its message. *)
Lemma extractMobile_placeholders sheetData clientName clientEmail clientMobile
    smsBody :
  sheetCell sheetData 1 1 = inr (Some clientName) ->
  sheetCell sheetData 2 1 = inr (Some clientEmail) ->
  sheetCell sheetData 3 1 = inr (Some clientMobile) ->
  sheetCell sheetData 4 1 = inr (Some smsBody) ->
  passingEntries mobileCheck 2 (dataRows sheetData) <> [] ->
  extractMobile sheetData
  = match validateMessagePlaceholders [smsBody]
            (passingEntries mobileCheck 2 (dataRows sheetData)) with
    | inl message =>
        inl ("Failed to validate SMS sheet: "
             ++ "Failed to validate message placeholders: " ++ message)
    | inr _ =>
        inr (SmsSheet.mk clientName clientEmail
               (formatMobileNumbers [clientMobile]) smsBody
               (uniqueEntries
                  (passingEntries mobileCheck 2 (dataRows sheetData)))
               (failingAddresses mobileCheck 2 (dataRows sheetData)))
    end.
Proof.
  intros H1 H2 H3 H4 Hne.
  unfold extractMobile, bindE.
  change (skipn 1 sheetData) with (dataRows sheetData).
  rewrite mobileRow_entries, mobileRow_invalid, H1, H2, H3, H4.
  unfold validateSmsSheetFields. cbn [isNullish].
  rewrite (passingEntries_some mobileCheck 2 _ mobileCheck_truthy Hne).
  cbn [negb].
  destruct (validateMessagePlaceholders _ _) as [message|[]]; reflexivity.
Qed.

(** The same inside the email extraction, on the paragraphs of the sheet. *)
Lemma extractEmail_placeholders sheetData clientName clientEmail companyName
    companyAddress emailSubject :
  sheetCell sheetData 1 1 = inr (Some clientName) ->
  sheetCell sheetData 2 1 = inr (Some clientEmail) ->
  sheetCell sheetData 3 1 = inr (Some companyName) ->
  sheetCell sheetData 4 1 = inr (Some companyAddress) ->
  sheetCell sheetData 5 1 = inr (Some emailSubject) ->
  paragraphsOf (map (fun row => cellAt row 2) (dataRows sheetData)) <> [] ->
  passingEntries isValidEmail 3 (dataRows sheetData) <> [] ->
  extractEmail sheetData
  = match validateMessagePlaceholders
            (paragraphsOf (map (fun row => cellAt row 2) (dataRows sheetData)))
            (passingEntries isValidEmail 3 (dataRows sheetData)) with
    | inl message =>
        inl ("Failed to validate email sheet: "
             ++ "Failed to validate message placeholders: " ++ message)
    | inr _ =>
        inr (EmailSheet.mk clientName clientEmail companyName companyAddress
               emailSubject
               (paragraphsOf
                  (map (fun row => cellAt row 2) (dataRows sheetData)))
               (uniqueEntries
                  (passingEntries isValidEmail 3 (dataRows sheetData)))
               (failingAddresses isValidEmail 3 (dataRows sheetData)))
    end.
Proof.
  intros H1 H2 H3 H4 H5 Hp Hne.
  unfold extractEmail, bindE.
  change (skipn 1 sheetData) with (dataRows sheetData).
  rewrite emailRow_entries, emailRow_invalid, H1, H2, H3, H4, H5.
  unfold validateEmailSheetFields. cbn [isNullish].
  destruct (forallb isBlankText
              (paragraphsOf
                 (map (fun row => cellAt row 2) (dataRows sheetData)))) eqn:B.
  { apply paragraphsOf_not_blank in B. congruence. }
  rewrite (passingEntries_some isValidEmail 3 _ isValidEmail_truthy Hne).
  cbn [negb].
  destruct (validateMessagePlaceholders _ _) as [message|[]]; reflexivity.
Qed.


End ExtractionFacts.

(** ** Failing addresses and the rows of the recipients *)

Section ErasingFacts.

Lemma cellAt_eraseCell_other j row : forall k,
  k <> j -> cellAt (eraseCell j row) k = cellAt row k.
Proof.
  revert j. induction row as [|c row IH]; intros j k H; [reflexivity|].
  destruct j as [|j]; destruct k as [|k]; try reflexivity; try congruence.
  unfold cellAt in *. simpl. apply IH. congruence.
Qed.

Lemma cellAt_eraseCell j row : cellAt (eraseCell j row) j = None.
Proof.
  revert j. induction row as [|c row IH]; intro j.
  - destruct j; reflexivity.
  - destruct j as [|j]; [reflexivity|]. unfold cellAt in *. simpl. apply IH.
Qed.

Variable check : string -> bool.
Variable column : nat.

Let erase (row : Row) : Row :=
  match cellAt row column with
  | Some a => if check a then row else eraseCell column row
  | None => row
  end.

Lemma cellAt_erase_other row k : k <> column -> cellAt (erase row) k = cellAt row k.
Proof.
  intro H. unfold erase. destruct (cellAt row column) as [a|]; [|reflexivity].
  destruct (check a); [reflexivity|]. apply cellAt_eraseCell_other. exact H.
Qed.

Lemma passingEntries_erase rows :
  passingEntries check column (map erase rows)
  = passingEntries check column rows.
Proof.
  induction rows as [|row rows IH]; [reflexivity|].
  cbn [map passingEntries]. rewrite IH. unfold erase at 1 2.
  destruct (cellAt row column) as [a|] eqn:E.
  - destruct (check a) eqn:C.
    + rewrite E, C. reflexivity.
    + rewrite cellAt_eraseCell. reflexivity.
  - rewrite E. reflexivity.
Qed.

Lemma failingAddresses_erase rows :
  failingAddresses check column (map erase rows) = [].
Proof.
  induction rows as [|row rows IH]; [reflexivity|].
  cbn [map failingAddresses]. rewrite IH. unfold erase.
  destruct (cellAt row column) as [a|] eqn:E.
  - destruct (check a) eqn:C.
    + rewrite E, C. reflexivity.
    + rewrite cellAt_eraseCell. reflexivity.
  - rewrite E. reflexivity.
Qed.

Lemma dataRows_eraseFailing sheetData :
  dataRows (eraseFailing check column sheetData)
  = map erase (dataRows sheetData).
Proof. destruct sheetData; reflexivity. Qed.

Lemma sheetCell_eraseFailing sheetData i k :
  k <> column ->
  sheetCell (eraseFailing check column sheetData) i k = sheetCell sheetData i k.
Proof.
  intro H. unfold sheetCell.
  destruct sheetData as [|header rows]; [reflexivity|].
  destruct i as [|i]; [reflexivity|].
  cbn [eraseFailing nth_error]. fold erase.
  rewrite nth_error_map. destruct (nth_error rows i) as [row|]; [|reflexivity].
  cbn [option_map]. rewrite (cellAt_erase_other row k H). reflexivity.
Qed.

Lemma column_erase_other rows k :
  k <> column ->
  map (fun row => cellAt row k) (map erase rows)
  = map (fun row => cellAt row k) rows.
Proof.
  intro H. rewrite map_map. apply map_ext. intro row.
  apply cellAt_erase_other. exact H.
Qed.

End ErasingFacts.

Section ErasedSheets.

(** The extractions of a sheet and of the sheet with its failing addresses
    emptied end alike: with the same error, or with the same fields and
    recipients. *)
Lemma extractEmail_erased sheetData :
  extractEmail (eraseFailing isValidEmail 3 sheetData)
  = match extractEmail sheetData with
    | inl e => inl e
    | inr r =>
        inr (EmailSheet.mk (EmailSheet.clientName r) (EmailSheet.clientEmail r)
               (EmailSheet.companyName r) (EmailSheet.companyAddress r)
               (EmailSheet.emailSubject r) (EmailSheet.emailParagraphs r)
               (EmailSheet.emailParameterMaps r) [])
    end.
Proof.
  unfold extractEmail, bindE.
  change (skipn 1 (eraseFailing isValidEmail 3 sheetData))
    with (dataRows (eraseFailing isValidEmail 3 sheetData)).
  change (skipn 1 sheetData) with (dataRows sheetData).
  rewrite !emailRow_entries, !emailRow_invalid.
  rewrite !sheetCell_eraseFailing by discriminate.
  rewrite dataRows_eraseFailing, passingEntries_erase, failingAddresses_erase.
  rewrite column_erase_other by discriminate.
  repeat match goal with
         | |- context [match sheetCell sheetData ?i 1 with _ => _ end] =>
             destruct (sheetCell sheetData i 1); [reflexivity|]
         end.
  destruct (validateEmailSheetFields _ _ _ _ _ _ _); reflexivity.
Qed.

Lemma extractMobile_erased sheetData :
  extractMobile (eraseFailing mobileCheck 2 sheetData)
  = match extractMobile sheetData with
    | inl e => inl e
    | inr r =>
        inr (SmsSheet.mk (SmsSheet.clientName r) (SmsSheet.clientEmail r)
               (SmsSheet.clientMobile r) (SmsSheet.smsBody r)
               (SmsSheet.mobileParameterMaps r) [])
    end.
Proof.
  unfold extractMobile, bindE.
  change (skipn 1 (eraseFailing mobileCheck 2 sheetData))
    with (dataRows (eraseFailing mobileCheck 2 sheetData)).
  change (skipn 1 sheetData) with (dataRows sheetData).
  rewrite !mobileRow_entries, !mobileRow_invalid.
  rewrite !sheetCell_eraseFailing by discriminate.
  rewrite dataRows_eraseFailing, passingEntries_erase, failingAddresses_erase.
  repeat match goal with
         | |- context [match sheetCell sheetData ?i 1 with _ => _ end] =>
             destruct (sheetCell sheetData i 1); [reflexivity|]
         end.
  destruct (validateSmsSheetFields _ _ _ _ _); reflexivity.
Qed.

Lemma extractWhatsapp_erased sheetData :
  extractWhatsapp (eraseFailing mobileCheck 2 sheetData)
  = match extractWhatsapp sheetData with
    | inl e => inl e
    | inr r =>
        inr (WhatsappSheet.mk (WhatsappSheet.clientName r)
               (WhatsappSheet.clientEmail r) (WhatsappSheet.clientMobile r)
               (WhatsappSheet.whatsappAccessToken r)
               (WhatsappSheet.whatsappPhoneNumberId r)
               (WhatsappSheet.whatsappTemplateName r)
               (WhatsappSheet.whatsappParameterMaps r) [])
    end.
Proof.
  unfold extractWhatsapp, bindE.
  change (skipn 1 (eraseFailing mobileCheck 2 sheetData))
    with (dataRows (eraseFailing mobileCheck 2 sheetData)).
  change (skipn 1 sheetData) with (dataRows sheetData).
  rewrite !mobileRow_entries, !mobileRow_invalid.
  rewrite !sheetCell_eraseFailing by discriminate.
  rewrite dataRows_eraseFailing, passingEntries_erase, failingAddresses_erase.
  repeat match goal with
         | |- context [match sheetCell sheetData ?i 1 with _ => _ end] =>
             destruct (sheetCell sheetData i 1); [reflexivity|]
         end.
  destruct (validateWhatsappSheetFields _ _ _ _ _ _); reflexivity.
Qed.

End ErasedSheets.

Section RowEntryFacts.

Variable check : string -> bool.
Variable column : nat.

Lemma passingEntries_cons row rows :
  passingEntries check column (row :: rows)
  = match rowEntry check column row with
    | Some m => m :: passingEntries check column rows
    | None => passingEntries check column rows
    end.
Proof.
  unfold rowEntry. cbn [passingEntries].
  destruct (cellAt row column) as [s|]; [|reflexivity].
  destruct (check s); reflexivity.
Qed.

(** Rows that all make an entry make as many entries as there are rows. *)
Lemma passingEntries_all (P : ParameterMap -> Prop) rows :
  Forall (fun row => exists m, rowEntry check column row = Some m /\ P m)
    rows ->
  List.length (passingEntries check column rows) = List.length rows
  /\ Forall P (passingEntries check column rows).
Proof.
  induction rows as [|row rows IH]; intro H; [split; constructor|].
  inversion H as [|? ? (m & E & Pm) H']; subst.
  destruct (IH H') as (L & F).
  rewrite passingEntries_cons, E. cbn [List.length].
  split; [rewrite L; reflexivity | constructor; assumption].
Qed.

Lemma mismatchMessage_rowMismatch index placeholderCount parameterCount :
  mismatchMessage index placeholderCount parameterCount
  = rowMismatch (S index) placeholderCount parameterCount.
Proof.
  unfold mismatchMessage, rowMismatch. rewrite Nat.add_1_r. reflexivity.
Qed.

Lemma rowMismatch_row i i' a a' b b' :
  rowMismatch i a b = rowMismatch i' a' b' -> i = i'.
Proof.
  unfold rowMismatch. intro H.
  apply append_inv_head in H.
  apply digits_before_bracket in H;
    [apply show_nat_inj; exact H | apply show_nat_digits..].
Qed.

(** The data row after [above] is row [S (length above)] of the sheet. *)
Lemma dataRows_nth sheetData above row rest :
  dataRows sheetData = (above ++ row :: rest)%list ->
  nth_error sheetData (S (List.length above)) = Some row.
Proof.
  unfold dataRows. destruct sheetData as [|header rows]; cbn [skipn].
  - destruct above; discriminate.
  - intros ->. cbn [nth_error]. rewrite nth_error_app2 by lia.
    rewrite Nat.sub_diag. reflexivity.
Qed.

(** The first row with a wrong number of parameters, when no row above it
    was skipped: the placeholder check stops there, at the index of the
    row. *)
Lemma mismatch_at_row paragraphs rows above row rest bad :
  rows = (above ++ row :: rest)%list ->
  Forall (fun r => exists m,
            rowEntry check column r = Some m
            /\ List.length (parameters m)
               = list_sum (map occurrences paragraphs)) above ->
  rowEntry check column row = Some bad ->
  List.length (parameters bad) <> list_sum (map occurrences paragraphs) ->
  validateMessagePlaceholders paragraphs (passingEntries check column rows)
  = inl (rowMismatch (S (List.length above))
           (list_sum (map occurrences paragraphs))
           (List.length (parameters bad))).
Proof.
  intros -> Ha Hr Hb.
  destruct (passingEntries_all _ above Ha) as (L & F).
  rewrite passingEntries_app, passingEntries_cons, Hr.
  unfold validateMessagePlaceholders. rewrite placeholderCountOf_sum.
  rewrite (checkParameterMaps_first_mismatch _ _ bad _ 0 F Hb).
  rewrite mismatchMessage_rowMismatch, L. reflexivity.
Qed.

End RowEntryFacts.

(** ** The identity provider and the eligibility check *)

Section LedgerFacts.

Variable env : ProcessEnv.
Variable ext : Collaborators.

Lemma advance_advance w n added m added' :
  advance (advance w n added) m added'
  = advance w (m + n) (added ++ added')%list.
Proof.
  unfold advance. simpl. rewrite Nat.add_assoc, app_assoc. reflexivity.
Qed.

Lemma advance_0_nil w : advance w 0 [] = w.
Proof. destruct w. unfold advance. simpl. rewrite app_nil_r. reflexivity. Qed.

Lemma axiosGetUsersByEmail_run emailAddress w :
  axiosGetUsersByEmail ext emailAddress w
  = (match idpFault ext (requests w) with
     | Some failure => inl failure
     | None =>
         inr (filter (fun u => String.eqb (email u) emailAddress) (users w))
     end,
     advance w 1 [IdpGetUsers (Some emailAddress)]).
Proof.
  unfold axiosGetUsersByEmail, request, advance.
  destruct (idpFault ext (requests w)); reflexivity.
Qed.

Lemma getUserByEmail_run emailAddress w :
  getUserByEmail ext emailAddress w
  = (match idpFault ext (requests w) with
     | Some failure =>
         ResponseHandler.error None "Failed to fetch user by email"
           (Some failure)
     | None =>
         match filter (fun u => String.eqb (email u) emailAddress) (users w)
         with
         | [] => ResponseHandler.notFound "User not found" (Some emailAddress)
         | found =>
             ResponseHandler.success "Successfully fetched user by email"
               (Some found)
         end
     end,
     advance w 1 [IdpGetUsers (Some emailAddress)]).
Proof.
  unfold getUserByEmail, bind. rewrite axiosGetUsersByEmail_run.
  destruct (idpFault ext (requests w)); [reflexivity|].
  destruct (filter _ (users w)); reflexivity.
Qed.

(** The eligibility check, read off its one lookup. *)
Lemma validateBatchRequest_run emailAddress batchSize batchType w :
  validateBatchRequest env ext emailAddress batchSize batchType w
  = (match idpFault ext (requests w) with
     | Some failure => inl ("Failed to validate batch request: " ++ failure)
     | None =>
         match filter (fun u => String.eqb (email u) emailAddress) (users w)
         with
         | [] => inl ("Failed to validate batch request: " ++ emailAddress)
         | user :: _ =>
             if negb (is_active user) then inl "User is not active!"
             else if negb (email_verified user) then
               inl "User email not verified!"
             else if (calculateBatchCost env batchSize batchType
                      >? tokens user)%Z then
               inl "User has insufficient tokens!"
             else inr tt
         end
     end,
     advance w 1 [IdpGetUsers (Some emailAddress)]).
Proof.
  unfold validateBatchRequest, bind. rewrite getUserByEmail_run.
  destruct (idpFault ext (requests w)); [reflexivity|].
  destruct (filter _ (users w)) as [|user rest]; [reflexivity|].
  simpl.
  destruct (negb (is_active user)); [reflexivity|].
  destruct (negb (email_verified user)); [reflexivity|].
  destruct (calculateBatchCost env batchSize batchType >? tokens user)%Z;
    reflexivity.
Qed.

Lemma calculateBatchCost_costPerItem batchSize batchType :
  calculateBatchCost env batchSize batchType
  = (Z.of_nat batchSize * costPerItem env batchType)%Z.
Proof. destruct batchType; reflexivity. Qed.

(** Eligibility holds exactly for an account that is found, active, verified
    and has the tokens. *)
Lemma validateBatchRequest_passes emailAddress batchSize batchType w :
  fst (validateBatchRequest env ext emailAddress batchSize batchType w)
  = inr tt
  <-> exists user,
        lookupAccount ext w emailAddress = Some user
        /\ is_active user = true
        /\ email_verified user = true
        /\ (tokens user
            >= Z.of_nat batchSize * costPerItem env batchType)%Z.
Proof.
  rewrite validateBatchRequest_run, calculateBatchCost_costPerItem.
  unfold lookupAccount. simpl.
  destruct (idpFault ext (requests w)).
  - split; [discriminate | intros (u & H & _); discriminate].
  - destruct (filter _ (users w)) as [|user rest]; simpl.
    + split; [discriminate | intros (u & H & _); discriminate].
    + destruct (is_active user) eqn:A; simpl.
      2:{ split; [discriminate|].
          intros (u & H & A' & _). inversion H; subst. congruence. }
      destruct (email_verified user) eqn:V; simpl.
      2:{ split; [discriminate|].
          intros (u & H & _ & V' & _). inversion H; subst. congruence. }
      destruct (Z.of_nat batchSize * costPerItem env batchType
                >? tokens user)%Z eqn:C.
      * split; [discriminate|].
        intros (u & H & _ & _ & T). inversion H; subst.
        apply Z.gtb_lt in C. lia.
      * split; [|reflexivity]. intros _. exists user.
        repeat split; auto.
        rewrite Z.gtb_ltb in C. apply Z.ltb_ge in C. lia.
Qed.

(** Each failing condition has its own reason. *)
Lemma validateBatchRequest_reasons emailAddress batchSize batchType w :
  (lookupAccount ext w emailAddress = None ->
   exists detail,
     fst (validateBatchRequest env ext emailAddress batchSize batchType w)
     = inl ("Failed to validate batch request: " ++ detail))
  /\ (forall user,
        lookupAccount ext w emailAddress = Some user ->
        (is_active user = false ->
         fst (validateBatchRequest env ext emailAddress batchSize batchType w)
         = inl "User is not active!")
        /\ (is_active user = true -> email_verified user = false ->
            fst (validateBatchRequest env ext emailAddress batchSize
                   batchType w)
            = inl "User email not verified!")
        /\ (is_active user = true -> email_verified user = true ->
            (tokens user < Z.of_nat batchSize * costPerItem env batchType)%Z ->
            fst (validateBatchRequest env ext emailAddress batchSize
                   batchType w)
            = inl "User has insufficient tokens!")).
Proof.
  rewrite validateBatchRequest_run, calculateBatchCost_costPerItem.
  unfold lookupAccount. simpl.
  destruct (idpFault ext (requests w)) as [failure|].
  - split; [eauto | discriminate].
  - destruct (filter _ (users w)) as [|user rest]; simpl.
    + split; [eauto | discriminate].
    + split; [discriminate|].
      intros u H. inversion H; subst u. split; [|split].
      * intros ->. reflexivity.
      * intros -> ->. reflexivity.
      * intros -> -> T. simpl.
        apply Z.gtb_lt in T. rewrite T. reflexivity.
Qed.

Lemma axiosPatchUser_run userId p w :
  axiosPatchUser ext userId p w
  = match idpFault ext (requests w) with
    | Some failure => (inl failure, advance w 1 [IdpPatchUser userId p])
    | None =>
        match find (fun u => String.eqb (user_id u) userId) (users w) with
        | Some u =>
            (inr (applyPatch p u),
             mkWorld (patchUsers userId p (users w)) (1 + requests w)
               (effects w ++ [IdpPatchUser userId p])%list)
        | None => (inl "Not Found", advance w 1 [IdpPatchUser userId p])
        end
    end.
Proof.
  unfold axiosPatchUser, request, advance.
  destruct (idpFault ext (requests w)); [reflexivity|].
  destruct (find _ (users w)); reflexivity.
Qed.

(** The deduction of a batch: one lookup, then one write of the balance
    found minus the amount. *)
Lemma updateUserTokens_run emailAddress amount w :
  updateUserTokens env ext emailAddress amount "-" true w
  = match idpFault ext (requests w) with
    | Some failure =>
        (ResponseHandler.error None "Failed to update user tokens"
           (Some failure),
         advance w 1 [IdpGetUsers (Some emailAddress)])
    | None =>
        match filter (fun u => String.eqb (email u) emailAddress) (users w)
        with
        | [] =>
            (ResponseHandler.notFound "User not found" (Some emailAddress),
             advance w 1 [IdpGetUsers (Some emailAddress)])
        | user :: _ =>
            let t := (tokens user - amount)%Z in
            let write := IdpPatchUser (user_id user) (PatchTokens t) in
            match idpFault ext (S (requests w)) with
            | Some failure =>
                (ResponseHandler.error None "Failed to update user tokens"
                   (Some failure),
                 advance w 2 [IdpGetUsers (Some emailAddress); write])
            | None =>
                match find (fun u => String.eqb (user_id u) (user_id user))
                        (users w) with
                | Some _ =>
                    (ResponseHandler.success "Successfully updated user tokens"
                       (Some t),
                     mkWorld
                       (patchUsers (user_id user) (PatchTokens t) (users w))
                       (2 + requests w)
                       (effects w
                        ++ [IdpGetUsers (Some emailAddress); write])%list)
                | None =>
                    (ResponseHandler.error None "Failed to update user tokens"
                       (Some "Not Found"),
                     advance w 2 [IdpGetUsers (Some emailAddress); write])
                end
            end
        end
    end.
Proof.
  unfold updateUserTokens, returned, bindR, catchReturn, ret.
  rewrite axiosGetUsersByEmail_run.
  destruct (idpFault ext (requests w)) eqn:F0; [reflexivity|].
  destruct (filter _ (users w)) as [|user rest]; [reflexivity|].
  cbn [String.eqb Ascii.eqb Bool.eqb negb].
  rewrite axiosPatchUser_run.
  cbn [requests advance users effects].
  change (1 + requests w) with (S (requests w)).
  destruct (idpFault ext (S (requests w))) eqn:F1.
  - unfold advance. cbn [requests users effects].
    rewrite <- app_assoc. reflexivity.
  - destruct (find _ (users w)) as [u|].
    + cbn [applyPatch tokens]. rewrite <- app_assoc. reflexivity.
    + unfold advance. cbn [requests users effects].
      rewrite <- app_assoc. reflexivity.
Qed.


End LedgerFacts.

(** ** Traces *)

Section TraceFacts.

Variable env : ProcessEnv.
Variable ext : Collaborators.

Lemma tokenWrites_app a b :
  tokenWrites (a ++ b)%list = (tokenWrites a ++ tokenWrites b)%list.
Proof.
  induction a as [|e a IH]; simpl; [reflexivity|].
  destruct e as [| ? [|] | | | | | | | | | ]; simpl; rewrite IH; reflexivity.
Qed.

Lemma dispatchedTo_app a b :
  dispatchedTo (a ++ b)%list = (dispatchedTo a ++ dispatchedTo b)%list.
Proof.
  induction a as [|e a IH]; simpl; [reflexivity|].
  destruct e; simpl; rewrite IH; reflexivity.
Qed.

Lemma emitAll_run es w : emitAll es w = (tt, advance w 0 es).
Proof. reflexivity. Qed.

Lemma emit_run e w : emit e w = (tt, advance w 0 [e]).
Proof. reflexivity. Qed.

(** The requests of the email callbacks: one send per entry, to the address
    of the entry. *)
Lemma emailCallback_requests clientEmail emailSubject emailBody maps :
  forall i,
    map (fun c => fst (fst c))
      (mapiFrom (emailCallback ext clientEmail emailSubject emailBody) i maps)
    = map (fun m =>
             SesSendEmail clientEmail (address m) emailSubject
               (censorMessageBody ext
                  (replacePlaceholders emailBody (parameters m))))
        maps.
Proof.
  induction maps as [|m maps IH]; intro i; simpl; [reflexivity|].
  rewrite IH. f_equal. unfold emailCallback.
  destruct (sesSend ext i (address m) _); reflexivity.
Qed.

Lemma sendBatchEmails_world clientEmail emailSubject emailBody maps isDraft w :
  snd (sendBatchEmails ext clientEmail emailSubject emailBody maps isDraft w)
  = advance w 0
      (map (fun m =>
              SesSendEmail clientEmail (address m) emailSubject
                (censorMessageBody ext
                   (replacePlaceholders emailBody (parameters m))))
         maps).
Proof.
  unfold sendBatchEmails, bind, mapi. rewrite emitAll_run.
  rewrite emailCallback_requests.
  destruct (Promise_all _); reflexivity.
Qed.

Lemma sends_tokenWrites (f : ParameterMap -> Effect) maps :
  (forall m rest, tokenWrites (f m :: rest) = tokenWrites rest) ->
  tokenWrites (map f maps) = [].
Proof.
  intro H. induction maps as [|m maps IH]; cbn [map]; [reflexivity|].
  rewrite H. exact IH.
Qed.

Lemma sends_dispatchedTo (f : ParameterMap -> Effect) maps :
  (forall m rest, dispatchedTo (f m :: rest) = address m :: dispatchedTo rest) ->
  dispatchedTo (map f maps) = map address maps.
Proof.
  intro H. induction maps as [|m maps IH]; cbn [map]; [reflexivity|].
  rewrite H, IH. reflexivity.
Qed.

Lemma uploadLogFileToS3_world filePath logFile w :
  exists added,
    snd (uploadLogFileToS3 env ext filePath logFile w) = advance w 0 added
    /\ quiet added.
Proof.
  unfold uploadLogFileToS3.
  destruct (String.eqb filePath "" || String.eqb logFile "").
  - exists []. rewrite advance_0_nil. repeat split.
  - destruct (ENABLE_UPLOAD_LOG_FILE_TO_S3 env).
    + exists [S3PutObject filePath logFile]. unfold bind.
      rewrite emit_run. destruct (s3Fault ext filePath); repeat split.
    + exists []. rewrite advance_0_nil. repeat split.
Qed.

Lemma storeLog_world concatFileName logContent w :
  exists added,
    snd (storeLog env ext concatFileName logContent w) = advance w 0 added
    /\ quiet added.
Proof.
  unfold storeLog, bind.
  destruct (uploadLogFileToS3_world concatFileName logContent w)
    as (added & E & Q).
  destruct (uploadLogFileToS3 env ext concatFileName logContent w)
    as [[message|[]] w'] eqn:U; simpl in E; subst w'; exists added; auto.
Qed.

Lemma emailLogFileToClient_world clientName clientEmail batchType logFileName
    logFile w :
  exists added,
    snd (emailLogFileToClient env ext clientName clientEmail batchType
           logFileName logFile w) = advance w 0 added
    /\ quiet added.
Proof.
  unfold emailLogFileToClient.
  destruct (ENABLE_SEND_LOG_FILE_TO_CLIENT env).
  - unfold sendRawEmail, bind, emit, ret, advance. cbn [fst snd].
    eexists.
    destruct (sesRawFault ext clientEmail logFileName); cbn [fst snd];
      (split; [reflexivity | split; reflexivity]).
  - exists []. rewrite advance_0_nil. repeat split.
Qed.

(** When the two persistence steps fail: the upload when a name or content is
    empty, the upload is switched off or the bucket refuses; the mail of the
    log when it is switched off or SES refuses. *)
Lemma storeLog_fails concatFileName logContent w :
  (exists error,
      fst (storeLog env ext concatFileName logContent w) = inl error)
  <-> concatFileName = "" \/ logContent = ""
      \/ ENABLE_UPLOAD_LOG_FILE_TO_S3 env = false
      \/ s3Fault ext concatFileName <> None.
Proof.
  unfold storeLog, uploadLogFileToS3, bind, emit, ret.
  destruct (String.eqb_spec concatFileName "") as [->|Hn];
    [cbn [orb fst]; split; eauto|].
  destruct (String.eqb_spec logContent "") as [->|Hc];
    [cbn [orb fst]; split; eauto|].
  cbn [orb]. destruct (ENABLE_UPLOAD_LOG_FILE_TO_S3 env);
    [|cbn [fst]; split; eauto].
  destruct (s3Fault ext concatFileName) as [error|]; cbn [fst]; split.
  - intros _. right. right. right. discriminate.
  - eauto.
  - intros (error & H). discriminate H.
  - intros [H | [H | [H | H]]]; congruence.
Qed.

Lemma emailLogFileToClient_fails clientName clientEmail batchType logFileName
    logFile w :
  (exists error,
      fst (emailLogFileToClient env ext clientName clientEmail batchType
             logFileName logFile w) = inl error)
  <-> ENABLE_SEND_LOG_FILE_TO_CLIENT env = false
      \/ sesRawFault ext clientEmail logFileName <> None.
Proof.
  unfold emailLogFileToClient, sendRawEmail, bind, emit, ret.
  destruct (ENABLE_SEND_LOG_FILE_TO_CLIENT env); [|cbn [fst]; split; eauto].
  destruct (sesRawFault ext clientEmail logFileName) as [error|];
    cbn [fst]; split.
  - intros _. right. discriminate.
  - eauto.
  - intros (error & H). discriminate H.
  - intros [H | H]; congruence.
Qed.

Lemma balances_advance w n added : balances (advance w n added) = balances w.
Proof. reflexivity. Qed.

Lemma balancesOf_patch_credentials userId accessToken phoneNumberId accounts :
  balancesOf (patchUsers userId (PatchWhatsapp accessToken phoneNumberId)
                accounts)
  = balancesOf accounts.
Proof.
  unfold balancesOf, patchUsers. rewrite map_map. apply map_ext.
  intro u. destruct (String.eqb (user_id u) userId); reflexivity.
Qed.

End TraceFacts.

(** ** The three channels and the ledger *)

Ltac ledger :=
  cbn [effects advance];
  repeat (rewrite tokenWrites_app || cbn [tokenWrites app]);
  repeat match goal with
         | Q : tokenWrites _ = [] |- _ => rewrite Q
         end;
  cbn [app]; rewrite ?app_nil_r; reflexivity.

(** An exit before the deduction: the ledger is as it was, and the result is
    an error other than a persistence failure. *)
Ltac early :=
  let H := fresh "H" in
  intro H; inversion H; subst; left;
  split; [reflexivity | split; [intros [P|P]; discriminate P | reflexivity]].

Section ChannelFacts.

Variable env : ProcessEnv.
Variable ext : Collaborators.

(** The requests of the event log reach neither the ledger nor a
    recipient. *)
Lemma ensureLogStreamExist_quiet index logStreamName :
  quiet (snd (ensureLogStreamExist ext index logStreamName)).
Proof.
  unfold ensureLogStreamExist.
  destruct (describeLogStreams ext index AWS_SMS_LOG_STREAM_NAME)
    as [error|[logStreams|]]; [split; reflexivity | | split; reflexivity].
  destruct (existsb _ logStreams); split; reflexivity.
Qed.

Lemma logSmsEvent_quiet index clientEmail mobileNumber messageId message :
  quiet (snd (logSmsEvent ext index clientEmail mobileNumber messageId
                message)).
Proof.
  unfold logSmsEvent.
  pose proof (ensureLogStreamExist_quiet index ("Sender-" ++ clientEmail))
    as [T D].
  destruct (ensureLogStreamExist ext index ("Sender-" ++ clientEmail))
    as [[error|[]] requests]; cbn [snd] in *; [split; assumption|].
  split.
  - rewrite tokenWrites_app, T. reflexivity.
  - rewrite dispatchedTo_app, D. reflexivity.
Qed.

Lemma smsCallback_requests smsBody clientEmail maps : forall i,
  tokenWrites
    (concat (map (fun c => fst (fst c))
               (mapiFrom (smsCallback ext smsBody clientEmail) i maps))) = [].
Proof.
  induction maps as [|m maps IH]; intro i; cbn [mapiFrom map concat];
    [reflexivity|].
  rewrite tokenWrites_app, IH, app_nil_r.
  unfold smsCallback.
  destruct (snsSend ext i (address m) _) as [t messageId| |];
    [|reflexivity..].
  pose proof (logSmsEvent_quiet i clientEmail (address m) messageId
                (censorMessageBody ext
                   (replacePlaceholders smsBody (parameters m)))) as [T _].
  destruct (logSmsEvent ext i clientEmail (address m) messageId _)
    as [logged requests]. cbn [fst snd] in *. exact T.
Qed.

Lemma smsCallback_recipients smsBody clientEmail maps : forall i,
  dispatchedTo
    (concat (map (fun c => fst (fst c))
               (mapiFrom (smsCallback ext smsBody clientEmail) i maps)))
  = map address maps.
Proof.
  induction maps as [|m maps IH]; intro i; cbn [mapiFrom map concat];
    [reflexivity|].
  rewrite dispatchedTo_app, IH.
  unfold smsCallback.
  destruct (snsSend ext i (address m) _) as [t messageId| |];
    [|reflexivity..].
  pose proof (logSmsEvent_quiet i clientEmail (address m) messageId
                (censorMessageBody ext
                   (replacePlaceholders smsBody (parameters m)))) as [_ D].
  destruct (logSmsEvent ext i clientEmail (address m) messageId _)
    as [logged requests]. cbn [fst snd dispatchedTo] in *.
  rewrite D. reflexivity.
Qed.

Lemma sendBatchSMS_world smsBody maps clientMobile clientEmail isDraft w :
  snd (sendBatchSMS ext smsBody maps clientMobile clientEmail isDraft w)
  = advance w 0
      (concat (map (fun c => fst (fst c))
                 (mapi (smsCallback ext smsBody clientEmail) maps))).
Proof.
  unfold sendBatchSMS, bind. rewrite emitAll_run.
  destruct (Promise_all _); reflexivity.
Qed.

Lemma whatsappCallback_requests apiUrl messages : forall i,
  map (fun c => fst (fst c))
    (mapiFrom (whatsappCallback ext apiUrl) i messages)
  = map (fun message =>
           WhatsappPost apiUrl (Message.phoneNumber message)
             (Message.templateName message) (Message.languageCode message)
             None)
      messages.
Proof.
  induction messages as [|m messages IH]; intro i; simpl; [reflexivity|].
  rewrite IH. f_equal. unfold whatsappCallback.
  destruct (whatsappSend ext i (Message.phoneNumber m)); reflexivity.
Qed.

Lemma sendBatchWhatsapp_world messages accessToken apiUrl w :
  snd (sendBatchWhatsappTemplateMessages ext messages accessToken apiUrl w)
  = advance w 0
      (map (fun message =>
              WhatsappPost apiUrl (Message.phoneNumber message)
                (Message.templateName message) (Message.languageCode message)
                None)
         messages).
Proof.
  unfold sendBatchWhatsappTemplateMessages, bind, mapi. rewrite emitAll_run.
  rewrite whatsappCallback_requests.
  destruct (Promise_all _); reflexivity.
Qed.

Lemma posts_tokenWrites (f : Message.t -> Effect) messages :
  (forall m rest, tokenWrites (f m :: rest) = tokenWrites rest) ->
  tokenWrites (map f messages) = [].
Proof.
  intro H. induction messages as [|m messages IH]; cbn [map]; [reflexivity|].
  rewrite H. exact IH.
Qed.

(** Storing the credentials writes no balance and changes none. *)
Lemma updateUserWhatsAppCredentials_world emailAddress accessToken
    phoneNumberId w :
  exists accounts n added,
    snd (updateUserWhatsAppCredentials ext emailAddress accessToken
           phoneNumberId w)
    = mkWorld accounts n (effects w ++ added)%list
    /\ balancesOf accounts = balances w
    /\ quiet added.
Proof.
  unfold updateUserWhatsAppCredentials, returned, bindR, catchReturn, ret.
  rewrite axiosGetUsersByEmail_run.
  destruct (idpFault ext (requests w)).
  { cbn [snd]. unfold advance. eexists _, _, _. repeat split. }
  destruct (filter _ (users w)) as [|user rest].
  { cbn [snd]. unfold advance. eexists _, _, _. repeat split. }
  rewrite axiosPatchUser_run.
  change (requests (advance w 1 [IdpGetUsers (Some emailAddress)]))
    with (S (requests w)).
  change (users (advance w 1 [IdpGetUsers (Some emailAddress)]))
    with (users w).
  destruct (idpFault ext (S (requests w))).
  { cbn [snd]. rewrite advance_advance. unfold advance.
    eexists _, _, _. repeat split. }
  destruct (find _ (users w)).
  - cbn [snd effects advance]. rewrite <- app_assoc.
    eexists _, _, _. split; [reflexivity|].
    split; [apply balancesOf_patch_credentials | repeat split].
  - cbn [snd]. rewrite advance_advance. unfold advance.
    eexists _, _, _. repeat split.
Qed.

(** *** Email *)

Lemma processEmails_nondraft sheetData w resp w' :
  processEmails env ext sheetData false w = (resp, w') ->
  (balances w' = balances w
   /\ ~ persistenceFailure resp /\ statusCode resp = 500)
  \/ (exists r user,
        extractEmail sheetData = inr r
        /\ lookupAccount ext w (EmailSheet.clientEmail r) = Some user
        /\ deductedOnce w w' user
             (calculateBatchCost env
                (List.length (EmailSheet.emailParameterMaps r)) TypeEmail)
        /\ ((persistenceFailure resp /\ statusCode resp = 500)
            \/ (~ persistenceFailure resp /\ statusCode resp = 200))).
Proof.
  unfold processEmails, returned, bindR, catchReturn, ret, bind. cbn [negb].
  destruct (extractEmail sheetData) as [e|r]; [early|].
  rewrite validateBatchRequest_run.
  destruct (idpFault ext (requests w)) eqn:F0; [early|].
  destruct (filter _ (users w)) as [|user rest] eqn:Fl; [early|].
  destruct (negb (is_active user)); [early|].
  destruct (negb (email_verified user)); [early|].
  destruct (_ >? _)%Z; [early|].
  destruct (ENABLE_SEND_EMAIL env); [|early].
  match goal with
  | |- context [sendBatchEmails ?e ?a ?b ?c ?d ?f ?w0] =>
      pose proof (sendBatchEmails_world e a b c d f w0) as Sw;
      destruct (sendBatchEmails e a b c d f w0) as [logs w2]
  end.
  cbn [snd] in Sw. subst w2. rewrite advance_advance.
  match goal with
  | |- context [map ?f (EmailSheet.emailParameterMaps r)] =>
      assert (Ts : tokenWrites (map f (EmailSheet.emailParameterMaps r)) = [])
        by (apply sends_tokenWrites; reflexivity);
      generalize dependent (map f (EmailSheet.emailParameterMaps r));
      intros sent Ts
  end.
  rewrite updateUserTokens_run.
  cbn [requests users advance Nat.add]. rewrite Fl. cbv zeta.
  destruct (idpFault ext (S (requests w))) eqn:F1; [early|].
  destruct (idpFault ext (S (S (requests w)))) eqn:F2; [early|].
  destruct (find _ (users w)) as [found|]; [|early].
  cbn [statusCode ResponseHandler.success Nat.eqb negb data].
  assert (L : lookupAccount ext w (EmailSheet.clientEmail r) = Some user)
    by (unfold lookupAccount; rewrite F0, Fl; reflexivity).
  unfold logEmailToFile.
  match goal with
  | |- context [storeLog ?e ?x ?n ?c ?w0] =>
      destruct (storeLog_world e x n c w0) as (added & Lw & Lq & _);
      destruct (storeLog e x n c w0) as [[error|logResponse] w4]
  end; cbn [snd] in Lw; subst w4.
  - intro H. inversion H; subst. right. exists r, user.
    split; [reflexivity|]. split; [exact L|].
    split; [split; [ledger | auto]|].
    left. split; [left; reflexivity | reflexivity].
  - match goal with
    | |- context [emailLogFileToClient ?e ?x ?a ?b ?c ?d ?f ?w0] =>
        destruct (emailLogFileToClient_world e x a b c d f w0)
          as (added' & Mw & Mq & _);
        destruct (emailLogFileToClient e x a b c d f w0) as [[error|[]] w5]
    end; cbn [snd] in Mw; subst w5.
    + intro H. inversion H; subst. right. exists r, user.
      split; [reflexivity|]. split; [exact L|].
      split; [split; [ledger | auto]|].
      left. split; [right; reflexivity | reflexivity].
    + intro H. inversion H; subst. right. exists r, user.
      split; [reflexivity|]. split; [exact L|].
      split; [split; [ledger | auto]|].
      right. split; [intros [P|P]; discriminate P | reflexivity].
Qed.

(** A draft run writes nothing to the ledger; when it dispatches, it sends
    to the addresses of the entries of the sheet. *)
Lemma processEmails_draft sheetData w resp w' :
  processEmails env ext sheetData true w = (resp, w') ->
  ledgerUntouched w w'
  /\ (forall r,
        extractEmail sheetData = inr r ->
        ENABLE_SEND_EMAIL env = true ->
        dispatchedTo (effects w')
        = (dispatchedTo (effects w)
           ++ map address (EmailSheet.emailParameterMaps r))%list).
Proof.
  unfold processEmails, returned, bindR, catchReturn, ret, bind, ledgerUntouched.
  cbn [negb].
  destruct (extractEmail sheetData) as [e|r].
  { intro H. inversion H; subst. split; [split; reflexivity|].
    intros r0 E. discriminate E. }
  destruct (ENABLE_SEND_EMAIL env).
  2:{ intro H. inversion H; subst. split; [split; reflexivity|].
      intros r0 _ E. discriminate E. }
  match goal with
  | |- context [sendBatchEmails ?e ?a ?b ?c ?d ?f ?w0] =>
      pose proof (sendBatchEmails_world e a b c d f w0) as Sw;
      destruct (sendBatchEmails e a b c d f w0) as [logs w2]
  end.
  cbn [snd] in Sw. subst w2.
  match goal with
  | |- context [map ?f (EmailSheet.emailParameterMaps r)] =>
      assert (Ts : tokenWrites (map f (EmailSheet.emailParameterMaps r)) = [])
        by (apply sends_tokenWrites; reflexivity);
      assert (Ds : dispatchedTo (map f (EmailSheet.emailParameterMaps r))
                   = map address (EmailSheet.emailParameterMaps r))
        by (apply sends_dispatchedTo; reflexivity);
      generalize dependent (map f (EmailSheet.emailParameterMaps r));
      intros sent Ts Ds
  end.
  unfold logEmailToFile.
  match goal with
  | |- context [storeLog ?e ?x ?n ?c ?w0] =>
      destruct (storeLog_world e x n c w0) as (added & Lw & Lq & Ld);
      destruct (storeLog e x n c w0) as [[error|logResponse] w4]
  end; cbn [snd] in Lw; subst w4.
  { intro H. inversion H; subst. split; [split; [ledger | reflexivity]|].
    intros r0 E _. inversion E; subst r0.
    cbn [effects advance]. rewrite !dispatchedTo_app, Ds, Ld, !app_nil_r.
    reflexivity. }
  match goal with
  | |- context [emailLogFileToClient ?e ?x ?a ?b ?c ?d ?f ?w0] =>
      destruct (emailLogFileToClient_world e x a b c d f w0)
        as (added' & Mw & Mq & Md);
      destruct (emailLogFileToClient e x a b c d f w0) as [[error|[]] w5]
  end; cbn [snd] in Mw; subst w5;
    (intro H; inversion H; subst; split; [split; [ledger | reflexivity]|];
     intros r0 E _; inversion E; subst r0;
     cbn [effects advance];
     rewrite !dispatchedTo_app, Ds, Ld, Md, !app_nil_r; reflexivity).
Qed.

(** *** SMS *)

Lemma processSms_nondraft sheetData w resp w' :
  processSms env ext sheetData false w = (resp, w') ->
  (balances w' = balances w
   /\ ~ persistenceFailure resp /\ statusCode resp = 500)
  \/ (exists r user,
        extractMobile sheetData = inr r
        /\ lookupAccount ext w (SmsSheet.clientEmail r) = Some user
        /\ deductedOnce w w' user
             (calculateBatchCost env
                (List.length (SmsSheet.mobileParameterMaps r)) TypeSms)
        /\ ((persistenceFailure resp /\ statusCode resp = 500)
            \/ (~ persistenceFailure resp /\ statusCode resp = 200))).
Proof.
  unfold processSms, returned, bindR, catchReturn, ret, bind. cbn [negb].
  destruct (extractMobile sheetData) as [e|r]; [early|].
  rewrite validateBatchRequest_run.
  destruct (idpFault ext (requests w)) eqn:F0; [early|].
  destruct (filter _ (users w)) as [|user rest] eqn:Fl; [early|].
  destruct (negb (is_active user)); [early|].
  destruct (negb (email_verified user)); [early|].
  destruct (_ >? _)%Z; [early|].
  destruct (ENABLE_SEND_SMS env); [|early].
  match goal with
  | |- context [sendBatchSMS ?e ?a ?b ?c ?d ?f ?w0] =>
      pose proof (sendBatchSMS_world a b c d f w0) as Sw;
      destruct (sendBatchSMS e a b c d f w0) as [[error|logs] w2]
  end; cbn [snd] in Sw; subst w2; [early|].
  rewrite advance_advance.
  pose proof (smsCallback_requests (SmsSheet.smsBody r)
                (SmsSheet.clientEmail r) (SmsSheet.mobileParameterMaps r) 0)
    as Ts.
  fold (mapi (smsCallback ext (SmsSheet.smsBody r) (SmsSheet.clientEmail r))
          (SmsSheet.mobileParameterMaps r)) in Ts.
  generalize dependent
    (concat
       (map (fun c => fst (fst c))
          (mapi (smsCallback ext (SmsSheet.smsBody r) (SmsSheet.clientEmail r))
             (SmsSheet.mobileParameterMaps r)))).
  intros sent Ts.
  rewrite updateUserTokens_run.
  cbn [requests users advance Nat.add]. rewrite Fl. cbv zeta.
  destruct (idpFault ext (S (requests w))) eqn:F1; [early|].
  destruct (idpFault ext (S (S (requests w)))) eqn:F2; [early|].
  destruct (find _ (users w)) as [found|]; [|early].
  cbn [statusCode ResponseHandler.success Nat.eqb negb data].
  assert (L : lookupAccount ext w (SmsSheet.clientEmail r) = Some user)
    by (unfold lookupAccount; rewrite F0, Fl; reflexivity).
  unfold logSmsToFile.
  match goal with
  | |- context [storeLog ?e ?x ?n ?c ?w0] =>
      destruct (storeLog_world e x n c w0) as (added & Lw & Lq & _);
      destruct (storeLog e x n c w0) as [[error|logResponse] w4]
  end; cbn [snd] in Lw; subst w4.
  - intro H. inversion H; subst. right. exists r, user.
    split; [reflexivity|]. split; [exact L|].
    split; [split; [ledger | auto]|].
    left. split; [left; reflexivity | reflexivity].
  - match goal with
    | |- context [emailLogFileToClient ?e ?x ?a ?b ?c ?d ?f ?w0] =>
        destruct (emailLogFileToClient_world e x a b c d f w0)
          as (added' & Mw & Mq & _);
        destruct (emailLogFileToClient e x a b c d f w0) as [[error|[]] w5]
    end; cbn [snd] in Mw; subst w5.
    + intro H. inversion H; subst. right. exists r, user.
      split; [reflexivity|]. split; [exact L|].
      split; [split; [ledger | auto]|].
      left. split; [right; reflexivity | reflexivity].
    + intro H. inversion H; subst. right. exists r, user.
      split; [reflexivity|]. split; [exact L|].
      split; [split; [ledger | auto]|].
      right. split; [intros [P|P]; discriminate P | reflexivity].
Qed.

Lemma processSms_draft sheetData w resp w' :
  processSms env ext sheetData true w = (resp, w') ->
  ledgerUntouched w w'
  /\ (forall r,
        extractMobile sheetData = inr r ->
        ENABLE_SEND_SMS env = true ->
        dispatchedTo (effects w')
        = (dispatchedTo (effects w)
           ++ map address (SmsSheet.mobileParameterMaps r))%list).
Proof.
  unfold processSms, returned, bindR, catchReturn, ret, bind, ledgerUntouched.
  cbn [negb].
  destruct (extractMobile sheetData) as [e|r].
  { intro H. inversion H; subst. split; [split; reflexivity|].
    intros r0 E. discriminate E. }
  destruct (ENABLE_SEND_SMS env).
  2:{ intro H. inversion H; subst. split; [split; reflexivity|].
      intros r0 _ E. discriminate E. }
  match goal with
  | |- context [sendBatchSMS ?e ?a ?b ?c ?d ?f ?w0] =>
      pose proof (sendBatchSMS_world a b c d f w0) as Sw;
      destruct (sendBatchSMS e a b c d f w0) as [[error|logs] w2]
  end; cbn [snd] in Sw; subst w2;
    pose proof (smsCallback_requests (SmsSheet.smsBody r)
                  (SmsSheet.clientEmail r) (SmsSheet.mobileParameterMaps r) 0)
      as Ts;
    pose proof (smsCallback_recipients (SmsSheet.smsBody r)
                  (SmsSheet.clientEmail r) (SmsSheet.mobileParameterMaps r) 0)
      as Ds;
    fold (mapi (smsCallback ext (SmsSheet.smsBody r) (SmsSheet.clientEmail r))
            (SmsSheet.mobileParameterMaps r)) in Ts, Ds;
    generalize dependent
      (concat
         (map (fun c => fst (fst c))
            (mapi
               (smsCallback ext (SmsSheet.smsBody r) (SmsSheet.clientEmail r))
               (SmsSheet.mobileParameterMaps r))));
    intros sent Ts Ds.
  { intro H. inversion H; subst. split; [split; [ledger | reflexivity]|].
    intros r0 E _. inversion E; subst r0.
    cbn [effects advance]. rewrite dispatchedTo_app, Ds. reflexivity. }
  unfold logSmsToFile.
  match goal with
  | |- context [storeLog ?e ?x ?n ?c ?w0] =>
      destruct (storeLog_world e x n c w0) as (added & Lw & Lq & Ld);
      destruct (storeLog e x n c w0) as [[error|logResponse] w4]
  end; cbn [snd] in Lw; subst w4.
  { intro H. inversion H; subst. split; [split; [ledger | reflexivity]|].
    intros r0 E _. inversion E; subst r0.
    cbn [effects advance]. rewrite !dispatchedTo_app, Ds, Ld, !app_nil_r.
    reflexivity. }
  match goal with
  | |- context [emailLogFileToClient ?e ?x ?a ?b ?c ?d ?f ?w0] =>
      destruct (emailLogFileToClient_world e x a b c d f w0)
        as (added' & Mw & Mq & Md);
      destruct (emailLogFileToClient e x a b c d f w0) as [[error|[]] w5]
  end; cbn [snd] in Mw; subst w5;
    (intro H; inversion H; subst; split; [split; [ledger | reflexivity]|];
     intros r0 E _; inversion E; subst r0;
     cbn [effects advance];
     rewrite !dispatchedTo_app, Ds, Ld, Md, !app_nil_r; reflexivity).
Qed.

(** *** WhatsApp *)

(** The amount of the deduction is computed with the literal ["email"]. *)
Lemma processWhatsapp_nondraft sheetData w resp w' :
  processWhatsapp env ext sheetData false w = (resp, w') ->
  (balances w' = balances w
   /\ ~ persistenceFailure resp /\ statusCode resp = 500)
  \/ (exists r user,
        extractWhatsapp sheetData = inr r
        /\ lookupAccount ext w (WhatsappSheet.clientEmail r) = Some user
        /\ deductedOnce w w' user
             (calculateBatchCost env
                (List.length (WhatsappSheet.whatsappParameterMaps r))
                TypeEmail)
        /\ ((persistenceFailure resp /\ statusCode resp = 500)
            \/ (~ persistenceFailure resp /\ statusCode resp = 200))).
Proof.
  unfold processWhatsapp, returned, bindR, catchReturn, ret, bind. cbn [negb].
  destruct (extractWhatsapp sheetData) as [e|r]; [early|].
  rewrite validateBatchRequest_run.
  destruct (idpFault ext (requests w)) eqn:F0; [early|].
  destruct (filter _ (users w)) as [|user rest] eqn:Fl; [early|].
  destruct (negb (is_active user)); [early|].
  destruct (negb (email_verified user)); [early|].
  destruct (_ >? _)%Z; [early|].
  destruct (ENABLE_SEND_WHATSAPP env); [|early].
  match goal with
  | |- context [sendBatchWhatsappTemplateMessages ?e ?a ?b ?c ?w0] =>
      pose proof (sendBatchWhatsapp_world a b c w0) as Sw;
      destruct (sendBatchWhatsappTemplateMessages e a b c w0)
        as [[error|logs] w2]
  end; cbn [snd] in Sw; subst w2;
    match goal with
    | |- context [map ?f (map ?g (WhatsappSheet.whatsappParameterMaps r))] =>
        assert (Ts : tokenWrites
                       (map f (map g (WhatsappSheet.whatsappParameterMaps r)))
                     = [])
          by (apply posts_tokenWrites; reflexivity);
        generalize dependent
          (map f (map g (WhatsappSheet.whatsappParameterMaps r)));
        intros sent Ts
    end; [early|].
  rewrite advance_advance.
  rewrite updateUserTokens_run.
  cbn [requests users advance Nat.add]. rewrite Fl. cbv zeta.
  destruct (idpFault ext (S (requests w))) eqn:F1; [early|].
  destruct (idpFault ext (S (S (requests w)))) eqn:F2; [early|].
  destruct (find _ (users w)) as [found|]; [|early].
  cbn [statusCode ResponseHandler.success Nat.eqb negb data].
  assert (L : lookupAccount ext w (WhatsappSheet.clientEmail r) = Some user)
    by (unfold lookupAccount; rewrite F0, Fl; reflexivity).
  match goal with
  | |- context [updateUserWhatsAppCredentials ?e ?a ?b ?c ?w0] =>
      destruct (updateUserWhatsAppCredentials_world a b c w0)
        as (accounts & n & stored & Cw & Cb & Cq & _);
      destruct (updateUserWhatsAppCredentials e a b c w0) as [credentials w3]
  end; cbn [snd] in Cw; subst w3.
  unfold logWhatsappToFile.
  match goal with
  | |- context [storeLog ?e ?x ?n ?c ?w0] =>
      destruct (storeLog_world e x n c w0) as (added & Lw & Lq & _);
      destruct (storeLog e x n c w0) as [[error|logResponse] w4]
  end; cbn [snd] in Lw; subst w4.
  - intro H. inversion H; subst. right. exists r, user.
    split; [reflexivity|]. split; [exact L|].
    split; [split; [ledger | auto]|].
    left. split; [left; reflexivity | reflexivity].
  - match goal with
    | |- context [emailLogFileToClient ?e ?x ?a ?b ?c ?d ?f ?w0] =>
        destruct (emailLogFileToClient_world e x a b c d f w0)
          as (added' & Mw & Mq & _);
        destruct (emailLogFileToClient e x a b c d f w0) as [[error|[]] w5]
    end; cbn [snd] in Mw; subst w5.
    + intro H. inversion H; subst. right. exists r, user.
      split; [reflexivity|]. split; [exact L|].
      split; [split; [ledger | auto]|].
      left. split; [right; reflexivity | reflexivity].
    + intro H. inversion H; subst. right. exists r, user.
      split; [reflexivity|]. split; [exact L|].
      split; [split; [ledger | auto]|].
      right. split; [intros [P|P]; discriminate P | reflexivity].
Qed.


(** A draft run writes nothing to the ledger; when it dispatches, the one
    message goes to the client's own mobile. *)
Lemma processWhatsapp_draft sheetData w resp w' :
  processWhatsapp env ext sheetData true w = (resp, w') ->
  ledgerUntouched w w'
  /\ (forall r,
        extractWhatsapp sheetData = inr r ->
        ENABLE_SEND_WHATSAPP env = true ->
        dispatchedTo (effects w')
        = (dispatchedTo (effects w)
           ++ [join "," (WhatsappSheet.clientMobile r)])%list).
Proof.
  unfold processWhatsapp, returned, bindR, catchReturn, ret, bind,
    ledgerUntouched.
  cbn [negb].
  destruct (extractWhatsapp sheetData) as [e|r].
  { intro H. inversion H; subst. split; [split; reflexivity|].
    intros r0 E. discriminate E. }
  destruct (ENABLE_SEND_WHATSAPP env).
  2:{ intro H. inversion H; subst. split; [split; reflexivity|].
      intros r0 _ E. discriminate E. }
  match goal with
  | |- context [sendBatchWhatsappTemplateMessages ?e ?a ?b ?c ?w0] =>
      pose proof (sendBatchWhatsapp_world a b c w0) as Sw;
      destruct (sendBatchWhatsappTemplateMessages e a b c w0)
        as [[error|logs] w2]
  end; cbn [snd map Message.phoneNumber] in Sw; subst w2.
  { intro H. inversion H; subst. split; [split; [ledger | reflexivity]|].
    intros r0 E _. inversion E; subst r0.
    cbn [effects advance]. rewrite dispatchedTo_app. reflexivity. }
  match goal with
  | |- context [updateUserWhatsAppCredentials ?e ?a ?b ?c ?w0] =>
      destruct (updateUserWhatsAppCredentials_world a b c w0)
        as (accounts & n & stored & Cw & Cb & Cq & Cd);
      destruct (updateUserWhatsAppCredentials e a b c w0) as [credentials w3]
  end; cbn [snd] in Cw; subst w3.
  unfold logWhatsappToFile.
  match goal with
  | |- context [storeLog ?e ?x ?n ?c ?w0] =>
      destruct (storeLog_world e x n c w0) as (added & Lw & Lq & Ld);
      destruct (storeLog e x n c w0) as [[error|logResponse] w4]
  end; cbn [snd] in Lw; subst w4.
  { intro H. inversion H; subst. split; [split; [ledger | exact Cb]|].
    intros r0 E _. inversion E; subst r0.
    cbn [effects advance]. rewrite !dispatchedTo_app, Cd, Ld, !app_nil_r.
    reflexivity. }
  match goal with
  | |- context [emailLogFileToClient ?e ?x ?a ?b ?c ?d ?f ?w0] =>
      destruct (emailLogFileToClient_world e x a b c d f w0)
        as (added' & Mw & Mq & Md);
      destruct (emailLogFileToClient e x a b c d f w0) as [[error|[]] w5]
  end; cbn [snd] in Mw; subst w5;
    (intro H; inversion H; subst; split; [split; [ledger | exact Cb]|];
     intros r0 E _; inversion E; subst r0;
     cbn [effects advance];
     rewrite !dispatchedTo_app, Cd, Ld, Md, !app_nil_r; reflexivity).
Qed.


(** *** Ineligible batches stop at the lookup *)

Lemma processEmails_ineligible sheetData r w e :
  extractEmail sheetData = inr r ->
  fst (validateBatchRequest env ext (EmailSheet.clientEmail r)
         (List.length (EmailSheet.emailParameterMaps r)) TypeEmail w) = inl e ->
  processEmails env ext sheetData false w
  = (failWith "Failed to validate batch request" (Some e),
     advance w 1 [IdpGetUsers (Some (EmailSheet.clientEmail r))]).
Proof.
  intros E V.
  unfold processEmails, returned, bindR, catchReturn, ret. cbn [negb].
  rewrite E.
  rewrite validateBatchRequest_run in V |- *. cbn [fst] in V.
  rewrite V. reflexivity.
Qed.

Lemma processSms_ineligible sheetData r w e :
  extractMobile sheetData = inr r ->
  fst (validateBatchRequest env ext (SmsSheet.clientEmail r)
         (List.length (SmsSheet.mobileParameterMaps r)) TypeSms w) = inl e ->
  processSms env ext sheetData false w
  = (failWith "Failed to validate batch request" (Some e),
     advance w 1 [IdpGetUsers (Some (SmsSheet.clientEmail r))]).
Proof.
  intros E V.
  unfold processSms, returned, bindR, catchReturn, ret. cbn [negb].
  rewrite E.
  rewrite validateBatchRequest_run in V |- *. cbn [fst] in V.
  rewrite V. reflexivity.
Qed.

Lemma processWhatsapp_ineligible sheetData r w e :
  extractWhatsapp sheetData = inr r ->
  fst (validateBatchRequest env ext (WhatsappSheet.clientEmail r)
         (List.length (WhatsappSheet.whatsappParameterMaps r)) TypeWhatsapp w)
  = inl e ->
  processWhatsapp env ext sheetData false w
  = (failWith "Failed to validate batch request" (Some e),
     advance w 1 [IdpGetUsers (Some (WhatsappSheet.clientEmail r))]).
Proof.
  intros E V.
  unfold processWhatsapp, returned, bindR, catchReturn, ret. cbn [negb].
  rewrite E.
  rewrite validateBatchRequest_run in V |- *. cbn [fst] in V.
  rewrite V. reflexivity.
Qed.


End ChannelFacts.

(** ** Dispatch and isolation *)

Section DispatchFacts.

Variable ext : Collaborators.

Lemma In_insertByTime x y l : In x (insertByTime y l) <-> x = y \/ In x l.
Proof.
  induction l as [|z l IH]; simpl.
  - split; intros [H | H]; auto.
  - destruct (Nat.leb (fst y) (fst z)); simpl.
    + split; intros [H | H]; auto.
    + rewrite IH. split; intros [H | [H | H]]; auto.
Qed.

(** Ordering the pushed lines loses none and invents none. *)
Lemma In_inCompletionOrder line pushed :
  In line (inCompletionOrder pushed) <-> exists t, In (t, line) pushed.
Proof.
  unfold inCompletionOrder. rewrite in_map_iff.
  assert (G : forall x, In x (fold_right insertByTime [] pushed)
                        <-> In x pushed).
  { induction pushed as [|y pushed IH]; intro x; simpl; [tauto|].
    rewrite In_insertByTime, IH. split; intros [H | H]; auto. }
  split.
  - intros ([t l] & E & H). simpl in E. subst l. exists t. apply G. exact H.
  - intros (t & H). exists (t, line). split; [reflexivity | apply G; exact H].
Qed.

Lemma nth_error_mapiFrom {A B : Type} (f : A -> nat -> B) l : forall i k x,
  nth_error l k = Some x ->
  nth_error (mapiFrom f i l) k = Some (f x (i + k)).
Proof.
  induction l as [|a l IH]; intros i k x H; destruct k; simpl in *;
    try discriminate.
  - inversion H; subst. rewrite Nat.add_0_r. reflexivity.
  - rewrite (IH (S i) k x H). f_equal. f_equal. lia.
Qed.

Lemma In_valuesOf {A : Type} t (v : A) promises :
  In (Promise t (inr v)) promises -> In v (valuesOf promises).
Proof.
  induction promises as [|p promises IH]; simpl; [tauto|].
  intros [-> | H].
  - left. reflexivity.
  - destruct p as [t' [reason|v']|v']; simpl; auto.
Qed.

(** The promises of the SMS callbacks are never rejected. *)
Lemma smsCallback_fulfilled smsBody clientEmail maps : forall i,
  firstRejection
    (map (fun c => snd (fst c))
       (mapiFrom (smsCallback ext smsBody clientEmail) i maps)) = None.
Proof.
  induction maps as [|m maps IH]; intro i; cbn [mapiFrom map];
    [reflexivity|].
  unfold smsCallback at 1.
  destruct (snsSend ext i (address m) _).
  - destruct (logSmsEvent ext _ _ _ _). cbn [snd fst firstRejection].
    apply IH.
  - cbn [snd fst firstRejection]. apply IH.
  - cbn [snd fst firstRejection]. apply IH.
Qed.

(** Isolation in [sendBatchSMS]: the batch never fails, every fulfilled send
    has its success line in the returned list and every failed send its
    failure line. *)
Lemma sendBatchSMS_isolates smsBody maps clientMobile clientEmail isDraft w :
  exists logs,
    fst (sendBatchSMS ext smsBody maps clientMobile clientEmail isDraft w)
    = inr logs
    /\ forall index m,
         nth_error maps index = Some m ->
         match snsSend ext index (address m)
                 (censorMessageBody ext
                    (replacePlaceholders smsBody (parameters m))) with
         | Fulfilled _ messageId =>
             In ("SMS sent to " ++ address m ++ ". MessageId: " ++ messageId)
               logs
         | Rejected _ error =>
             In ("Failed to send SMS to " ++ address m ++ ": " ++ error) logs
         | Thrown error =>
             In ("Failed to send SMS to " ++ address m ++ ": " ++ error) logs
         end.
Proof.
  unfold sendBatchSMS, bind, Promise_all, mapi. rewrite emitAll_run.
  rewrite smsCallback_fulfilled. cbn [fst ret].
  eexists. split; [reflexivity|].
  intros index m Hm.
  pose proof (nth_error_mapiFrom (smsCallback ext smsBody clientEmail)
                maps 0 index m Hm) as Hc.
  apply nth_error_In in Hc. cbn [Nat.add] in Hc.
  remember (mapiFrom (smsCallback ext smsBody clientEmail) 0 maps) as calls.
  clear Heqcalls.
  unfold smsCallback in Hc.
  destruct (snsSend ext index (address m) _) as [t messageId|t error|error].
  - destruct (logSmsEvent ext _ _ _ _) as [logged requests'].
    apply in_or_app. right.
    apply in_concat. eexists. split.
    + apply in_map_iff.
      exists (Some (address m, messageId)). split; [reflexivity|].
      apply (In_valuesOf t).
      apply in_map_iff. eexists. split; [|exact Hc]. reflexivity.
    + left. reflexivity.
  - apply in_or_app. left. apply In_inCompletionOrder. exists t.
    apply in_concat. eexists. split.
    + apply in_map_iff. eexists. split; [|exact Hc]. reflexivity.
    + left. reflexivity.
  - apply in_or_app. left. apply In_inCompletionOrder. exists 0.
    apply in_concat. eexists. split.
    + apply in_map_iff. eexists. split; [|exact Hc]. reflexivity.
    + left. reflexivity.
Qed.

Lemma firstRejection_some {A : Type} t reason (promises : list (Awaitable A)) :
  In (Promise t (inl reason)) promises -> firstRejection promises <> None.
Proof.
  induction promises as [|p promises IH]; simpl; [tauto|].
  intros [-> | H].
  - destruct (firstRejection promises) as [[t' reason']|];
      [destruct (Nat.leb t t')|]; discriminate.
  - destruct p as [t' [reason'|v]|v]; auto.
    destruct (firstRejection promises) as [[t'' reason'']|];
      [destruct (Nat.leb t' t'')|]; discriminate.
Qed.

Lemma emailCallback_thrown_lines clientEmail emailSubject emailBody maps :
  forall i line,
    In line
      (concat (map snd
                 (mapiFrom (emailCallback ext clientEmail emailSubject
                              emailBody) i maps))) ->
    exists rest, line = "Failed to send email to " ++ rest.
Proof.
  induction maps as [|m maps IH]; intros i line H; cbn [mapiFrom map concat] in H;
    [contradiction|].
  apply in_app_or in H as [H | H]; [|eauto].
  unfold emailCallback in H.
  destruct (sesSend ext i (address m) _); cbn [snd] in H;
    try contradiction.
  destruct H as [<- | []]. eauto.
Qed.

(** No isolation in [sendBatchEmails]: as soon as the send of one entry is
    rejected, no success line is returned, for any entry. *)
Lemma sendBatchEmails_masks clientEmail emailSubject emailBody maps isDraft w
    index m t reason :
  nth_error maps index = Some m ->
  sesSend ext index (address m)
    (censorMessageBody ext (replacePlaceholders emailBody (parameters m)))
  = Rejected t reason ->
  forall to messageId,
    ~ In ("Email sent to " ++ to ++ ". MessageId: " ++ messageId)
        (fst (sendBatchEmails ext clientEmail emailSubject emailBody maps
                isDraft w)).
Proof.
  intros Hm Hr to messageId.
  unfold sendBatchEmails, bind, Promise_all, mapi. rewrite emitAll_run.
  pose proof (nth_error_mapiFrom
                (emailCallback ext clientEmail emailSubject emailBody)
                maps 0 index m Hm) as Hc.
  apply nth_error_In in Hc. cbn [Nat.add] in Hc.
  unfold emailCallback at 1 in Hc. rewrite Hr in Hc.
  assert (Hp : In (Promise t (inl reason))
                 (map (fun c => snd (fst c))
                    (mapiFrom
                       (emailCallback ext clientEmail emailSubject emailBody)
                       0 maps)))
    by (apply in_map_iff; eexists; split; [|exact Hc]; reflexivity).
  apply firstRejection_some in Hp.
  destruct (firstRejection _) as [[t' reason']|]; [|congruence].
  cbn [fst ret]. intro H. apply in_app_or in H as [H | [H | []]].
  - apply emailCallback_thrown_lines in H as (rest & E). discriminate E.
  - discriminate H.
Qed.


End DispatchFacts.

(** * The claims *)

(** ** Substitution of placeholders *)

(** C10. A message body is a sequence of segments separated by the
    placeholder ["{}"] (every body is, see [join_segmentsOf] and
    [segmentsOf_tokenFree]). [replacePlaceholders] returns the segments with
    the i-th placeholder, counted from the left, replaced by the i-th
    parameter; a placeholder beyond the last parameter stays the literal
    ["{}"]. The function is total: nothing is raised. *)
Theorem replacePlaceholders_positional :
  forall (segments parameters : list string),
    Forall (fun seg => tokenFree seg = true) segments ->
    replacePlaceholders (join "{}" segments) parameters
    = fillFrom parameters 0 segments.
Proof.
  intros segments parameters H. unfold replacePlaceholders.
  apply replaceFrom_join. exact H.
Qed.

Lemma replacePlaceholders_positional_witness :
  Forall (fun seg => tokenFree seg = true) ["Dear "; ", code "; " or "; "."]
  /\ replacePlaceholders "Dear {}, code {} or {}." ["Ann"; "7"]
     = "Dear Ann, code 7 or {}.".
Proof.
  split.
  - repeat constructor.
  - exact (replacePlaceholders_positional
             ["Dear "; ", code "; " or "; "."] ["Ann"; "7"]
             ltac:(repeat constructor)).
Defined.

(** ** Validation of the placeholder count *)

(** [validateMessagePlaceholders] on its own: the count is the sum of the
    tokens of the paragraphs, the check succeeds exactly when every entry
    has that many parameters, and otherwise it throws at the first entry
    that has not, with the position of that entry in the list. *)
Lemma validateMessagePlaceholders_spec :
  forall (messageParagraphs : list string) (parameterMaps : list ParameterMap),
    let total := list_sum (map occurrences messageParagraphs) in
    placeholderCountOf messageParagraphs = total
    /\ (validateMessagePlaceholders messageParagraphs parameterMaps = inr tt
        <-> Forall (fun m => List.length (parameters m) = total) parameterMaps)
    /\ (forall before bad after,
          parameterMaps = (before ++ bad :: after)%list ->
          Forall (fun m => List.length (parameters m) = total) before ->
          List.length (parameters bad) <> total ->
          validateMessagePlaceholders messageParagraphs parameterMaps
          = inl (mismatchMessage (List.length before) total
                   (List.length (parameters bad))))
    /\ (forall i i' a a' b b',
          mismatchMessage i a b = mismatchMessage i' a' b' -> i = i').
Proof.
  intros messageParagraphs parameterMaps total.
  unfold validateMessagePlaceholders.
  rewrite placeholderCountOf_sum. fold total.
  split; [reflexivity|]. split; [apply checkParameterMaps_ok|]. split.
  - intros before bad after -> Hok Hbad.
    apply (checkParameterMaps_first_mismatch total before bad after 0 Hok Hbad).
  - apply mismatchMessage_row.
Qed.

(** C6, as the code has it, for a sheet of text cells whose required fields
    are present and which has a paragraph (a body, for SMS) and a row with a
    valid address. The placeholder count is the number of ["{}"] tokens
    inside the paragraphs, paragraph by paragraph; it is the count over the
    concatenated paragraphs unless a paragraph ends with an opening brace.
    The extraction succeeds exactly when every row with a valid address has
    that many parameters. Otherwise it fails at the first such row that has
    not, with the mismatch error, which states the two counts and a row
    number: the position of that row among the rows with a valid address
    and so, when no row above it was skipped, the index of the row in the
    sheet. The error determines the number. *)
Theorem placeholder_validation_in_extraction :
  (forall (sheetData : Sheet)
          (clientName clientEmail companyName companyAddress emailSubject
             : string),
      sheetCell sheetData 1 1 = inr (Some clientName) ->
      sheetCell sheetData 2 1 = inr (Some clientEmail) ->
      sheetCell sheetData 3 1 = inr (Some companyName) ->
      sheetCell sheetData 4 1 = inr (Some companyAddress) ->
      sheetCell sheetData 5 1 = inr (Some emailSubject) ->
      let paragraphs :=
        paragraphsOf (map (fun row => cellAt row 2) (dataRows sheetData)) in
      let recipients := passingEntries isValidEmail 3 (dataRows sheetData) in
      let total := list_sum (map occurrences paragraphs) in
      paragraphs <> [] ->
      recipients <> [] ->
      placeholderCountOf paragraphs = total
      /\ (Forall (fun p => endsWithOpen p = false) paragraphs ->
          total = occurrences (join "" paragraphs))
      /\ ((exists r, extractEmail sheetData = inr r)
          <-> Forall (fun m => List.length (parameters m) = total) recipients)
      /\ (forall before bad after,
            recipients = (before ++ bad :: after)%list ->
            Forall (fun m => List.length (parameters m) = total) before ->
            List.length (parameters bad) <> total ->
            extractEmail sheetData
            = inl ("Failed to validate email sheet: "
                   ++ "Failed to validate message placeholders: "
                   ++ rowMismatch (S (List.length before)) total
                        (List.length (parameters bad))))
      /\ (forall above row rest bad,
            dataRows sheetData = (above ++ row :: rest)%list ->
            Forall (fun r => exists m,
                      rowEntry isValidEmail 3 r = Some m
                      /\ List.length (parameters m) = total) above ->
            rowEntry isValidEmail 3 row = Some bad ->
            List.length (parameters bad) <> total ->
            nth_error sheetData (S (List.length above)) = Some row
            /\ extractEmail sheetData
               = inl ("Failed to validate email sheet: "
                      ++ "Failed to validate message placeholders: "
                      ++ rowMismatch (S (List.length above)) total
                           (List.length (parameters bad)))))
  /\ (forall (sheetData : Sheet)
             (clientName clientEmail clientMobile smsBody : string),
        sheetCell sheetData 1 1 = inr (Some clientName) ->
        sheetCell sheetData 2 1 = inr (Some clientEmail) ->
        sheetCell sheetData 3 1 = inr (Some clientMobile) ->
        sheetCell sheetData 4 1 = inr (Some smsBody) ->
        let recipients := passingEntries mobileCheck 2 (dataRows sheetData) in
        let total := occurrences smsBody in
        recipients <> [] ->
        placeholderCountOf [smsBody] = total
        /\ ((exists r, extractMobile sheetData = inr r)
            <-> Forall (fun m => List.length (parameters m) = total)
                  recipients)
        /\ (forall before bad after,
              recipients = (before ++ bad :: after)%list ->
              Forall (fun m => List.length (parameters m) = total) before ->
              List.length (parameters bad) <> total ->
              extractMobile sheetData
              = inl ("Failed to validate SMS sheet: "
                     ++ "Failed to validate message placeholders: "
                     ++ rowMismatch (S (List.length before)) total
                          (List.length (parameters bad))))
        /\ (forall above row rest bad,
              dataRows sheetData = (above ++ row :: rest)%list ->
              Forall (fun r => exists m,
                        rowEntry mobileCheck 2 r = Some m
                        /\ List.length (parameters m) = total) above ->
              rowEntry mobileCheck 2 row = Some bad ->
              List.length (parameters bad) <> total ->
              nth_error sheetData (S (List.length above)) = Some row
              /\ extractMobile sheetData
                 = inl ("Failed to validate SMS sheet: "
                        ++ "Failed to validate message placeholders: "
                        ++ rowMismatch (S (List.length above)) total
                             (List.length (parameters bad)))))
  /\ (forall i i' a a' b b',
        rowMismatch i a b = rowMismatch i' a' b' -> i = i').
Proof.
  split; [|split; [|exact rowMismatch_row]].
  - intros sheetData clientName clientEmail companyName companyAddress
      emailSubject H1 H2 H3 H4 H5 paragraphs recipients total Hp Hr.
    pose proof (extractEmail_placeholders sheetData clientName clientEmail
                  companyName companyAddress emailSubject H1 H2 H3 H4 H5 Hp Hr)
      as X.
    fold paragraphs recipients in X.
    split; [apply placeholderCountOf_sum|].
    split; [intro E; symmetry; apply occurrences_join; exact E|].
    split; [|split].
    + unfold total.
      rewrite <- (validateMessagePlaceholders_ok paragraphs recipients).
      rewrite X.
      destruct (validateMessagePlaceholders paragraphs recipients)
        as [message|[]]; split.
      * intros (r & E). discriminate E.
      * discriminate.
      * reflexivity.
      * eauto.
    + intros before bad after E F B. rewrite X, E.
      unfold validateMessagePlaceholders. rewrite placeholderCountOf_sum.
      fold total.
      rewrite (checkParameterMaps_first_mismatch total before bad after 0 F B).
      rewrite mismatchMessage_rowMismatch. reflexivity.
    + intros above row rest bad E F R B.
      split; [exact (dataRows_nth sheetData above row rest E)|].
      rewrite X. unfold recipients.
      rewrite (mismatch_at_row isValidEmail 3 paragraphs (dataRows sheetData)
                 above row rest bad E F R B).
      reflexivity.
  - intros sheetData clientName clientEmail clientMobile smsBody H1 H2 H3 H4
      recipients total Hr.
    pose proof (extractMobile_placeholders sheetData clientName clientEmail
                  clientMobile smsBody H1 H2 H3 H4 Hr) as X.
    fold recipients in X.
    assert (S1 : list_sum (map occurrences [smsBody]) = total)
      by (unfold total; simpl; lia).
    split; [rewrite placeholderCountOf_sum; exact S1|].
    split; [|split].
    + rewrite <- S1.
      rewrite <- (validateMessagePlaceholders_ok [smsBody] recipients).
      rewrite X.
      destruct (validateMessagePlaceholders [smsBody] recipients)
        as [message|[]]; split.
      * intros (r & E). discriminate E.
      * discriminate.
      * reflexivity.
      * eauto.
    + intros before bad after E F B. rewrite X, E.
      unfold validateMessagePlaceholders. rewrite placeholderCountOf_sum, S1.
      rewrite (checkParameterMaps_first_mismatch total before bad after 0 F B).
      rewrite mismatchMessage_rowMismatch. reflexivity.
    + intros above row rest bad E F R B.
      split; [exact (dataRows_nth sheetData above row rest E)|].
      rewrite X. unfold recipients. rewrite <- S1 in F, B.
      rewrite (mismatch_at_row mobileCheck 2 [smsBody] (dataRows sheetData)
                 above row rest bad E F R B).
      rewrite S1. reflexivity.
Qed.

(** The example of the specification: a body with two placeholders and a
    second recipient with one parameter. *)
Lemma placeholder_validation_in_extraction_witness :
  nth_error smsSheetMismatch 2
  = Some [Some "Client email"; Some "client@acme.com"; Some "+27831234567";
          Some "Bob"]
  /\ extractMobile smsSheetMismatch
     = inl "Failed to validate SMS sheet: Failed to validate message placeholders: Parameter mismatch detected in row[2]: Found 2 '{}' placeholders but 1 parameter values!".
Proof.
  refine (proj2 (proj2 (proj2
            (proj1 (proj2 placeholder_validation_in_extraction)
               smsSheetMismatch "Acme" "client@acme.com" "+27 82 000 0000"
               "Hello {}, your code is {}" eq_refl eq_refl eq_refl eq_refl
               _)))
            [[Some "Client name"; Some "Acme"; Some "+27821234567";
              Some "Ann"; Some "7"]]
            [Some "Client email"; Some "client@acme.com";
             Some "+27831234567"; Some "Bob"]
            [[Some "Client mobile"; Some "+27 82 000 0000"];
             [Some "Body"; Some "Hello {}, your code is {}"]]
            (mkParameterMap "+27831234567" ["Bob"]) eq_refl _ eq_refl _).
  - vm_compute. discriminate.
  - constructor; [|constructor].
    exists (mkParameterMap "+27821234567" ["Ann"; "7"]).
    split; reflexivity.
  - vm_compute. discriminate.
Defined.

(** C6, as the claim states it, fails: a placeholder split between two
    paragraphs is in the concatenated body and is not counted. The
    concatenation of the two paragraphs has one placeholder and each
    recipient has one parameter, yet the extraction finds no placeholder and
    refuses the sheet. *)
Lemma split_placeholder_is_not_counted :
  paragraphsOf (map (fun row => cellAt row 2) (dataRows emailSheetSplitToken))
  = ["a{"; "}b"]
  /\ occurrences (join "" ["a{"; "}b"]) = 1
  /\ passingEntries isValidEmail 3 (dataRows emailSheetSplitToken)
     = [mkParameterMap "a@x.com" ["Ann"]; mkParameterMap "b@x.com" ["Bob"]]
  /\ extractEmail emailSheetSplitToken
     = inl "Failed to validate email sheet: Failed to validate message placeholders: Parameter mismatch detected in row[1]: Found 0 '{}' placeholders but 1 parameter values!".
Proof. repeat split; vm_compute; reflexivity. Qed.

(** ** Deduplication of the recipients *)

(** What the three extractions do: the recipient list is the deduplication
    of the format-valid rows by the address as it is written in the sheet.
    No written address occurs twice, every written address of a valid row
    is present, and the entry kept for an address is the first row with
    that address, with that row's parameters. *)
Lemma extraction_keeps_first_written_address :
  forall sheetData : Sheet,
    (forall r, extractEmail sheetData = inr r ->
               firstOccurrences
                 (passingEntries isValidEmail 3 (dataRows sheetData))
                 (EmailSheet.emailParameterMaps r))
    /\ (forall r, extractMobile sheetData = inr r ->
                  firstOccurrences
                    (passingEntries mobileCheck 2 (dataRows sheetData))
                    (SmsSheet.mobileParameterMaps r))
    /\ (forall r, extractWhatsapp sheetData = inr r ->
                  firstOccurrences
                    (passingEntries mobileCheck 2 (dataRows sheetData))
                    (WhatsappSheet.whatsappParameterMaps r)).
Proof.
  intro sheetData. split; [|split]; intros r H.
  - apply extractEmail_inv in H as (? & ? & ? & ? & ? & _ & _ & _ & _ & _ & _ & ->).
    apply uniqueEntries_spec.
  - apply extractMobile_inv in H as (? & ? & ? & ? & _ & _ & _ & _ & _ & ->).
    apply uniqueEntries_spec.
  - apply extractWhatsapp_inv in H
      as (? & ? & ? & ? & ? & ? & _ & _ & _ & _ & _ & _ & _ & ->).
    apply uniqueEntries_spec.
Qed.

(** C5 is broken by the code on the SMS and WhatsApp channels. The JSDoc
    of the extraction promises non-duplicate mobile number entries, and its
    callback formats the number of a row and checks the formatted number;
    but the entry it returns holds the cell as written ([mobile: row]), and
    the [Map] is keyed on that. Two rows that write one number in two ways
    give two recipients whose addresses normalize to one text, while the
    client's own mobile, in the same result, is returned formatted. Both
    messages are dispatched and both are charged. *)
Theorem two_spellings_two_recipients :
  exists r,
    extractMobile smsSheetTwoSpellings = inr r
    /\ SmsSheet.mobileParameterMaps r
       = [mkParameterMap "+27 82 123 4567" ["Ann"];
          mkParameterMap "+27821234567" ["Bob"]]
    /\ formatMobileNumber "+27 82 123 4567" = formatMobileNumber "+27821234567"
    /\ SmsSheet.clientMobile r = ["+27820000000"]
    /\ dispatchedTo
         (effects (snd (processSms env0 ext0 smsSheetTwoSpellings false
                          world0)))
       = ["+27 82 123 4567"; "+27821234567"]
    /\ balances (snd (processSms env0 ext0 smsSheetTwoSpellings false world0))
       = [("auth0|1", 8%Z)].
Proof.
  eexists. split; [vm_compute; reflexivity|].
  repeat split; vm_compute; reflexivity.
Qed.

(** ** Address formats and invalid rows *)

(** C8, as the claim states it, fails: a ['+'] followed by four digits is
    rejected. *)
Lemma plus_and_four_digits_rejected :
  formatMobileNumber "+1234" = "+1234" /\ isValidMobile "+1234" = false.
Proof. split; vm_compute; reflexivity. Qed.

(** C8, as the code has it. The mobile check of the extractions accepts a
    number exactly when its formatted form is a ['+'] followed by 5 to 17
    digits; the email check accepts exactly the texts
    [local@domain.suffix] whose three parts are non-empty and free of white
    space and ['@']. In every extraction the invalid list holds, in row
    order, the addresses that are text, not blank, and fail the check; no
    recipient fails the check; and one more failing row leaves a successful
    extraction successful, with the same recipients. Rows that fail the
    check never decide whether an extraction aborts: on any sheet the
    extraction ends as it does on the sheet with the failing addresses
    emptied, with the same error or with the same fields and recipients. *)
Theorem format_checks_and_invalid_rows :
  (forall number,
      mobileCheck number = true <->
      exists digits,
        formatMobileNumber number = String "+" digits
        /\ allChars isDigit digits = true
        /\ 5 <= String.length digits <= 17)
  /\ (forall s,
        isValidEmail s = true <->
        exists localPart domain suffix,
          s = localPart ++ "@" ++ domain ++ "." ++ suffix
          /\ localPart <> "" /\ allChars notSpaceNorAt localPart = true
          /\ domain <> "" /\ allChars notSpaceNorAt domain = true
          /\ suffix <> "" /\ allChars notSpaceNorAt suffix = true)
  /\ (forall sheetData r,
        extractEmail sheetData = inr r ->
        EmailSheet.invalidEmailAddresses r
        = failingAddresses isValidEmail 3 (dataRows sheetData)
        /\ (forall item, In item (EmailSheet.emailParameterMaps r) ->
                         isValidEmail (address item) = true)
        /\ (forall row a,
              cellAt row 2 = None -> cellAt row 3 = Some a ->
              isValidEmail a = false -> trim a <> "" ->
              extractEmail (sheetData ++ [row])%list
              = inr (EmailSheet.mk (EmailSheet.clientName r)
                       (EmailSheet.clientEmail r) (EmailSheet.companyName r)
                       (EmailSheet.companyAddress r)
                       (EmailSheet.emailSubject r)
                       (EmailSheet.emailParagraphs r)
                       (EmailSheet.emailParameterMaps r)
                       (EmailSheet.invalidEmailAddresses r ++ [a])%list)))
  /\ (forall sheetData r,
        extractMobile sheetData = inr r ->
        SmsSheet.invalidMobileNumbers r
        = failingAddresses mobileCheck 2 (dataRows sheetData)
        /\ (forall item, In item (SmsSheet.mobileParameterMaps r) ->
                         mobileCheck (address item) = true)
        /\ (forall row a,
              cellAt row 2 = Some a -> mobileCheck a = false ->
              trim a <> "" ->
              extractMobile (sheetData ++ [row])%list
              = inr (SmsSheet.mk (SmsSheet.clientName r)
                       (SmsSheet.clientEmail r) (SmsSheet.clientMobile r)
                       (SmsSheet.smsBody r) (SmsSheet.mobileParameterMaps r)
                       (SmsSheet.invalidMobileNumbers r ++ [a])%list)))
  /\ (forall sheetData r,
        extractWhatsapp sheetData = inr r ->
        WhatsappSheet.invalidMobileNumbers r
        = failingAddresses mobileCheck 2 (dataRows sheetData)
        /\ (forall item, In item (WhatsappSheet.whatsappParameterMaps r) ->
                         mobileCheck (address item) = true)
        /\ (forall row a,
              cellAt row 2 = Some a -> mobileCheck a = false ->
              trim a <> "" ->
              extractWhatsapp (sheetData ++ [row])%list
              = inr (WhatsappSheet.mk (WhatsappSheet.clientName r)
                       (WhatsappSheet.clientEmail r)
                       (WhatsappSheet.clientMobile r)
                       (WhatsappSheet.whatsappAccessToken r)
                       (WhatsappSheet.whatsappPhoneNumberId r)
                       (WhatsappSheet.whatsappTemplateName r)
                       (WhatsappSheet.whatsappParameterMaps r)
                       (WhatsappSheet.invalidMobileNumbers r ++ [a])%list)))
  /\ (forall sheetData,
        extractEmail (eraseFailing isValidEmail 3 sheetData)
        = match extractEmail sheetData with
          | inl e => inl e
          | inr r =>
              inr (EmailSheet.mk (EmailSheet.clientName r)
                     (EmailSheet.clientEmail r) (EmailSheet.companyName r)
                     (EmailSheet.companyAddress r) (EmailSheet.emailSubject r)
                     (EmailSheet.emailParagraphs r)
                     (EmailSheet.emailParameterMaps r) [])
          end)
  /\ (forall sheetData,
        extractMobile (eraseFailing mobileCheck 2 sheetData)
        = match extractMobile sheetData with
          | inl e => inl e
          | inr r =>
              inr (SmsSheet.mk (SmsSheet.clientName r) (SmsSheet.clientEmail r)
                     (SmsSheet.clientMobile r) (SmsSheet.smsBody r)
                     (SmsSheet.mobileParameterMaps r) [])
          end)
  /\ (forall sheetData,
        extractWhatsapp (eraseFailing mobileCheck 2 sheetData)
        = match extractWhatsapp sheetData with
          | inl e => inl e
          | inr r =>
              inr (WhatsappSheet.mk (WhatsappSheet.clientName r)
                     (WhatsappSheet.clientEmail r)
                     (WhatsappSheet.clientMobile r)
                     (WhatsappSheet.whatsappAccessToken r)
                     (WhatsappSheet.whatsappPhoneNumberId r)
                     (WhatsappSheet.whatsappTemplateName r)
                     (WhatsappSheet.whatsappParameterMaps r) [])
          end).
Proof.
  split; [exact isValidMobile_formatted|].
  split; [exact isValidEmail_shape|].
  split; [|split; [|split; [|split; [exact extractEmail_erased|
    split; [exact extractMobile_erased | exact extractWhatsapp_erased]]]]];
    intros sheetData r H.
  - split; [|split].
    + apply extractEmail_inv in H
        as (? & ? & ? & ? & ? & _ & _ & _ & _ & _ & _ & ->). reflexivity.
    + apply extractEmail_inv in H
        as (? & ? & ? & ? & ? & _ & _ & _ & _ & _ & _ & ->).
      simpl. intros item Hin.
      apply (proj2 (proj2 (uniqueEntries_spec _))) in Hin.
      unfold firstWith in Hin. apply find_some in Hin as [Hin _].
      apply (passingEntries_pass _ _ _ _ Hin).
    + intros row a. apply extractEmail_invalid_row. exact H.
  - split; [|split].
    + apply extractMobile_inv in H
        as (? & ? & ? & ? & _ & _ & _ & _ & _ & ->). reflexivity.
    + apply extractMobile_inv in H
        as (? & ? & ? & ? & _ & _ & _ & _ & _ & ->).
      simpl. intros item Hin.
      apply (proj2 (proj2 (uniqueEntries_spec _))) in Hin.
      unfold firstWith in Hin. apply find_some in Hin as [Hin _].
      apply (passingEntries_pass _ _ _ _ Hin).
    + intros row a. apply extractMobile_invalid_row. exact H.
  - split; [|split].
    + apply extractWhatsapp_inv in H
        as (? & ? & ? & ? & ? & ? & _ & _ & _ & _ & _ & _ & _ & ->).
      reflexivity.
    + apply extractWhatsapp_inv in H
        as (? & ? & ? & ? & ? & ? & _ & _ & _ & _ & _ & _ & _ & ->).
      simpl. intros item Hin.
      apply (proj2 (proj2 (uniqueEntries_spec _))) in Hin.
      unfold firstWith in Hin. apply find_some in Hin as [Hin _].
      apply (passingEntries_pass _ _ _ _ Hin).
    + intros row a. apply extractWhatsapp_invalid_row. exact H.
Qed.

Lemma format_checks_and_invalid_rows_witness :
  extractMobile (smsSheet ++ [[None; None; Some "+1234"]])%list
  = inr (SmsSheet.mk "Acme" "client@acme.com" ["+27820000000"] "Hello {}"
           [mkParameterMap "+27821234567" ["Ann"];
            mkParameterMap "+27831234567" ["Cy"]]
           ["call me"; "+1234"]).
Proof.
  refine (proj2 (proj2
            (proj1 (proj2 (proj2 (proj2 format_checks_and_invalid_rows)))
               smsSheet
               (SmsSheet.mk "Acme" "client@acme.com" ["+27820000000"]
                  "Hello {}"
                  [mkParameterMap "+27821234567" ["Ann"];
                   mkParameterMap "+27831234567" ["Cy"]]
                  ["call me"]) _))
            [None; None; Some "+1234"] "+1234" eq_refl _ _).
  - vm_compute. reflexivity.
  - vm_compute. reflexivity.
  - vm_compute. discriminate.
Defined.

(** ** Eligibility *)

(** C4. For every non-draft batch the eligibility check passes exactly when
    the identity provider answers the lookup with an account that is active,
    has a verified email and holds at least batchSize times the unit cost of
    the channel; a missing account, an inactive one, an unverified one and an
    insufficient balance each give their own reason; and when the check
    fails, each of the three channels returns the error with the lookup as
    its only request: nothing is dispatched and the ledger is as it was. *)
Theorem eligibility_gate :
  forall (env : ProcessEnv) (ext : Collaborators),
    (forall emailAddress batchSize batchType w,
        fst (validateBatchRequest env ext emailAddress batchSize batchType w)
        = inr tt
        <-> exists user,
              lookupAccount ext w emailAddress = Some user
              /\ is_active user = true
              /\ email_verified user = true
              /\ (tokens user
                  >= Z.of_nat batchSize * costPerItem env batchType)%Z)
    /\ (forall emailAddress batchSize batchType w,
          (lookupAccount ext w emailAddress = None ->
           exists detail,
             fst (validateBatchRequest env ext emailAddress batchSize
                    batchType w)
             = inl ("Failed to validate batch request: " ++ detail))
          /\ (forall user,
                lookupAccount ext w emailAddress = Some user ->
                (is_active user = false ->
                 fst (validateBatchRequest env ext emailAddress batchSize
                        batchType w)
                 = inl "User is not active!")
                /\ (is_active user = true -> email_verified user = false ->
                    fst (validateBatchRequest env ext emailAddress batchSize
                           batchType w)
                    = inl "User email not verified!")
                /\ (is_active user = true -> email_verified user = true ->
                    (tokens user
                     < Z.of_nat batchSize * costPerItem env batchType)%Z ->
                    fst (validateBatchRequest env ext emailAddress batchSize
                           batchType w)
                    = inl "User has insufficient tokens!")))
    /\ ("User is not active!" <> "User email not verified!"
        /\ "User is not active!" <> "User has insufficient tokens!"
        /\ "User email not verified!" <> "User has insufficient tokens!")
    /\ (forall sheetData r w e,
          extractEmail sheetData = inr r ->
          fst (validateBatchRequest env ext (EmailSheet.clientEmail r)
                 (List.length (EmailSheet.emailParameterMaps r)) TypeEmail w)
          = inl e ->
          fst (processEmails env ext sheetData false w)
          = failWith "Failed to validate batch request" (Some e)
          /\ dispatchedTo (effects (snd (processEmails env ext sheetData false w)))
             = dispatchedTo (effects w)
          /\ balances (snd (processEmails env ext sheetData false w))
             = balances w)
    /\ (forall sheetData r w e,
          extractMobile sheetData = inr r ->
          fst (validateBatchRequest env ext (SmsSheet.clientEmail r)
                 (List.length (SmsSheet.mobileParameterMaps r)) TypeSms w)
          = inl e ->
          fst (processSms env ext sheetData false w)
          = failWith "Failed to validate batch request" (Some e)
          /\ dispatchedTo (effects (snd (processSms env ext sheetData false w)))
             = dispatchedTo (effects w)
          /\ balances (snd (processSms env ext sheetData false w))
             = balances w)
    /\ (forall sheetData r w e,
          extractWhatsapp sheetData = inr r ->
          fst (validateBatchRequest env ext (WhatsappSheet.clientEmail r)
                 (List.length (WhatsappSheet.whatsappParameterMaps r))
                 TypeWhatsapp w)
          = inl e ->
          fst (processWhatsapp env ext sheetData false w)
          = failWith "Failed to validate batch request" (Some e)
          /\ dispatchedTo
               (effects (snd (processWhatsapp env ext sheetData false w)))
             = dispatchedTo (effects w)
          /\ balances (snd (processWhatsapp env ext sheetData false w))
             = balances w).
Proof.
  intros env ext.
  split; [intros; apply validateBatchRequest_passes|].
  split; [intros; apply validateBatchRequest_reasons|].
  split; [repeat split; discriminate|].
  split; [|split]; intros sheetData r w e E V.
  - rewrite (processEmails_ineligible env ext sheetData r w e E V).
    cbn [fst snd effects advance]. rewrite dispatchedTo_app, app_nil_r.
    repeat split.
  - rewrite (processSms_ineligible env ext sheetData r w e E V).
    cbn [fst snd effects advance]. rewrite dispatchedTo_app, app_nil_r.
    repeat split.
  - rewrite (processWhatsapp_ineligible env ext sheetData r w e E V).
    cbn [fst snd effects advance]. rewrite dispatchedTo_app, app_nil_r.
    repeat split.
Qed.

(** The example of the specification: balance 5, unit cost 2, batch size 3. *)
Lemma eligibility_gate_witness :
  fst (processEmails env0 ext0 emailSheet false worldPoor)
  = failWith "Failed to validate batch request"
      (Some "User has insufficient tokens!")
  /\ dispatchedTo
       (effects (snd (processEmails env0 ext0 emailSheet false worldPoor)))
     = dispatchedTo (effects worldPoor)
  /\ balances (snd (processEmails env0 ext0 emailSheet false worldPoor))
     = balances worldPoor.
Proof.
  refine (proj1 (proj2 (proj2 (proj2 (eligibility_gate env0 ext0))))
            emailSheet
            (EmailSheet.mk "Acme" "client@acme.com" "Acme Ltd" "1 Road" "News"
               ["Hello {}"] threeRecipients [])
            worldPoor "User has insufficient tokens!" _ _);
    vm_compute; reflexivity.
Defined.

(** ** Persistence failures *)

(** Read from the answer: in a non-draft batch of any channel, a run that
    ends with one of the two persistence failures answers with status 500,
    has written the ledger exactly once, by the deduction, and leaves the
    balance of the account the deducted one. *)
Lemma persistence_failure_after_deduction :
  forall (env : ProcessEnv) (ext : Collaborators),
    (forall sheetData w resp w',
        processEmails env ext sheetData false w = (resp, w') ->
        persistenceFailure resp ->
        statusCode resp = 500
        /\ exists r user,
             extractEmail sheetData = inr r
             /\ lookupAccount ext w (EmailSheet.clientEmail r) = Some user
             /\ deductedOnce w w' user
                  (calculateBatchCost env
                     (List.length (EmailSheet.emailParameterMaps r))
                     TypeEmail))
    /\ (forall sheetData w resp w',
          processSms env ext sheetData false w = (resp, w') ->
          persistenceFailure resp ->
          statusCode resp = 500
          /\ exists r user,
               extractMobile sheetData = inr r
               /\ lookupAccount ext w (SmsSheet.clientEmail r) = Some user
               /\ deductedOnce w w' user
                    (calculateBatchCost env
                       (List.length (SmsSheet.mobileParameterMaps r))
                       TypeSms))
    /\ (forall sheetData w resp w',
          processWhatsapp env ext sheetData false w = (resp, w') ->
          persistenceFailure resp ->
          statusCode resp = 500
          /\ exists r user,
               extractWhatsapp sheetData = inr r
               /\ lookupAccount ext w (WhatsappSheet.clientEmail r) = Some user
               /\ deductedOnce w w' user
                    (calculateBatchCost env
                       (List.length (WhatsappSheet.whatsappParameterMaps r))
                       TypeEmail)).
Proof.
  intros env ext. split; [|split]; intros sheetData w resp w' H P.
  - destruct (processEmails_nondraft env ext sheetData w resp w' H)
      as [(_ & N & _) | (r & user & E & L & D & [(_ & S) | (N & _)])];
      try contradiction.
    split; [exact S|]. exists r, user. auto.
  - destruct (processSms_nondraft env ext sheetData w resp w' H)
      as [(_ & N & _) | (r & user & E & L & D & [(_ & S) | (N & _)])];
      try contradiction.
    split; [exact S|]. exists r, user. auto.
  - destruct (processWhatsapp_nondraft env ext sheetData w resp w' H)
      as [(_ & N & _) | (r & user & E & L & D & [(_ & S) | (N & _)])];
      try contradiction.
    split; [exact S|]. exists r, user. auto.
Qed.

(** ** Draft batches *)

(** What holds of a draft batch on every channel: the ledger is neither
    written nor changed, whatever the outcome. When the draft dispatches, the
    WhatsApp draft goes to the client's own mobile, and the email and SMS
    drafts go to the addresses of the entries of the sheet. *)
Lemma draft_runs (env : ProcessEnv) (ext : Collaborators) :
  (forall sheetData w resp w',
      processEmails env ext sheetData true w = (resp, w') ->
      ledgerUntouched w w'
      /\ (forall r,
            extractEmail sheetData = inr r ->
            ENABLE_SEND_EMAIL env = true ->
            dispatchedTo (effects w')
            = (dispatchedTo (effects w)
               ++ map address (EmailSheet.emailParameterMaps r))%list))
  /\ (forall sheetData w resp w',
        processSms env ext sheetData true w = (resp, w') ->
        ledgerUntouched w w'
        /\ (forall r,
              extractMobile sheetData = inr r ->
              ENABLE_SEND_SMS env = true ->
              dispatchedTo (effects w')
              = (dispatchedTo (effects w)
                 ++ map address (SmsSheet.mobileParameterMaps r))%list))
  /\ (forall sheetData w resp w',
        processWhatsapp env ext sheetData true w = (resp, w') ->
        ledgerUntouched w w'
        /\ (forall r,
              extractWhatsapp sheetData = inr r ->
              ENABLE_SEND_WHATSAPP env = true ->
              dispatchedTo (effects w')
              = (dispatchedTo (effects w)
                 ++ [join "," (WhatsappSheet.clientMobile r)])%list)).
Proof.
  split; [|split]; intros sheetData w resp w' H.
  - exact (processEmails_draft env ext sheetData w resp w' H).
  - exact (processSms_draft env ext sheetData w resp w' H).
  - exact (processWhatsapp_draft env ext sheetData w resp w' H).
Qed.

(** C1 fails on the email and SMS channels: [sendBatchEmails] and
    [sendBatchSMS] put the client's address in a list they only use for the
    log lines, and map the send over the entries of the sheet whatever
    [isDraft] is. A draft of the three-recipient email sheet is sent to the
    three recipients and not to [client@acme.com]; its log names the client
    and [undefined]. A draft of the SMS sheet goes to its two recipients. *)
Theorem draft_email_and_sms_reach_the_recipients :
  EmailSheet.clientEmail
    (EmailSheet.mk "Acme" "client@acme.com" "Acme Ltd" "1 Road" "News"
       ["Hello {}"] threeRecipients []) = "client@acme.com"
  /\ extractEmail emailSheet
     = inr (EmailSheet.mk "Acme" "client@acme.com" "Acme Ltd" "1 Road" "News"
              ["Hello {}"] threeRecipients [])
  /\ dispatchedTo
       (effects (snd (processEmails env0 ext0 emailSheet true world0)))
     = ["a@x.com"; "b@x.com"; "c@x.com"]
  /\ fst (sendBatchEmails ext0 "client@acme.com" "News" "Hello {}"
            threeRecipients true world0)
     = ["Email sent to client@acme.com. MessageId: ses-a@x.com";
        "Email sent to undefined. MessageId: ses-b@x.com";
        "Email sent to undefined. MessageId: ses-c@x.com"]
  /\ dispatchedTo (effects (snd (processSms env0 ext0 smsSheet true world0)))
     = ["+27821234567"; "+27831234567"]
  /\ balances (snd (processEmails env0 ext0 emailSheet true world0))
     = balances world0.
Proof. repeat split; vm_compute; reflexivity. Qed.

(** ** Isolation of failures *)

(** C2 fails on the email channel: the [try] around [sesClient.send] returns
    the promise without awaiting it, so a rejection reaches [Promise.all],
    whose [then] branch, the one that reports the successes, is skipped.
    With three recipients and the second send rejected, the returned list
    is the one line of the [catch]; the two successful sends are not
    reported. ([sendBatchEmails_masks] shows this for every batch with a
    rejected send; [sendBatchSMS_isolates] shows that the SMS path, which
    awaits inside the [try], does isolate.) *)
Theorem email_rejection_hides_the_other_results :
  fst (sendBatchEmails extSecondFails "client@acme.com" "News" "Hello {}"
         threeRecipients false world0)
  = ["Error sending email: Error: Throttled"]
  /\ dispatchedTo
       (effects
          (snd (sendBatchEmails extSecondFails "client@acme.com" "News"
                  "Hello {}" threeRecipients false world0)))
     = ["a@x.com"; "b@x.com"; "c@x.com"]
  /\ fst (sendBatchSMS extSecondFails "Hello {}" threeRecipients
            ["+27820000000"] "client@acme.com" false world0)
     = inr ["Failed to send SMS to b@x.com: Error: Throttled";
            "SMS sent to a@x.com. MessageId: sns-a@x.com";
            "SMS sent to c@x.com. MessageId: sns-c@x.com"].
Proof. repeat split; vm_compute; reflexivity. Qed.

(** ** The amount of the deduction *)

(** What holds of the deduction on every channel: a non-draft run either
    leaves every balance as it was, or writes the ledger exactly once, the
    balance found minus the batch size times a unit cost. The unit cost is
    the channel's own for email and SMS; for WhatsApp it is the email one. *)
Lemma deduction_once_and_amount (env : ProcessEnv) (ext : Collaborators) :
  (forall sheetData w resp w',
      processEmails env ext sheetData false w = (resp, w') ->
      balances w' = balances w
      \/ exists r user,
           extractEmail sheetData = inr r
           /\ lookupAccount ext w (EmailSheet.clientEmail r) = Some user
           /\ deductedOnce w w' user
                (Z.of_nat (List.length (EmailSheet.emailParameterMaps r))
                 * TOKENS_PER_EMAIL env))
  /\ (forall sheetData w resp w',
        processSms env ext sheetData false w = (resp, w') ->
        balances w' = balances w
        \/ exists r user,
             extractMobile sheetData = inr r
             /\ lookupAccount ext w (SmsSheet.clientEmail r) = Some user
             /\ deductedOnce w w' user
                  (Z.of_nat (List.length (SmsSheet.mobileParameterMaps r))
                   * TOKENS_PER_SMS env))
  /\ (forall sheetData w resp w',
        processWhatsapp env ext sheetData false w = (resp, w') ->
        balances w' = balances w
        \/ exists r user,
             extractWhatsapp sheetData = inr r
             /\ lookupAccount ext w (WhatsappSheet.clientEmail r) = Some user
             /\ deductedOnce w w' user
                  (Z.of_nat
                     (List.length (WhatsappSheet.whatsappParameterMaps r))
                   * TOKENS_PER_EMAIL env)).
Proof.
  split; [|split]; intros sheetData w resp w' H.
  - destruct (processEmails_nondraft env ext sheetData w resp w' H)
      as [(B & _) | (r & user & E & L & D & _)]; [left; exact B | right].
    exists r, user. auto.
  - destruct (processSms_nondraft env ext sheetData w resp w' H)
      as [(B & _) | (r & user & E & L & D & _)]; [left; exact B | right].
    exists r, user. auto.
  - destruct (processWhatsapp_nondraft env ext sheetData w resp w' H)
      as [(B & _) | (r & user & E & L & D & _)]; [left; exact B | right].
    exists r, user. auto.
Qed.

(** C3 fails on the WhatsApp channel: [processWhatsapp] checks eligibility
    with ["whatsapp"] and computes the deduction with ["email"]. With unit
    costs 2 (email) and 3 (WhatsApp), two recipients and a balance of 10,
    the claim deducts 6 and leaves 4; the code deducts 4 and leaves 6. *)
Theorem whatsapp_deducts_at_the_email_rate :
  costPerItem env0 TypeWhatsapp = 3%Z
  /\ costPerItem env0 TypeEmail = 2%Z
  /\ balances world0 = [("auth0|1", 10%Z)]
  /\ fst (processWhatsapp env0 ext0 whatsappSheet false world0)
     = ResponseHandler.success "Successfully sent WhatsApp batch!"
         (Some "You have 6 tokens left")
  /\ dispatchedTo
       (effects (snd (processWhatsapp env0 ext0 whatsappSheet false world0)))
     = ["+27821234567"; "+27831234567"]
  /\ tokenWrites
       (effects (snd (processWhatsapp env0 ext0 whatsappSheet false world0)))
     = [("auth0|1", 6%Z)]
  /\ balances (snd (processWhatsapp env0 ext0 whatsappSheet false world0))
     = [("auth0|1", 6%Z)].
Proof. repeat split; vm_compute; reflexivity. Qed.

(** ** Monthly reports *)

(** What the loop of [processMonthlyReports] does on every list of users:
    it skips the users that are not eligible, runs the body for the first
    eligible one and returns; the users after it are not looked at. *)
Lemma reportLoop_first_eligible (env : ProcessEnv) (ext : Collaborators) :
  forall skipped user rest w,
    forallb (fun u => negb (eligibleForReport u)) skipped = true ->
    eligibleForReport user = true ->
    snd (reportLoop env ext (skipped ++ user :: rest)%list w)
    = snd (reportUser env ext user w)
    /\ fst (reportLoop env ext (skipped ++ user :: rest)%list w) <> None.
Proof.
  intros skipped user rest w. unfold eligibleForReport.
  induction skipped as [|u skipped IH]; intros Hs Hu.
  - cbn [app reportLoop]. apply andb_prop in Hu as [Hu Ht].
    apply andb_prop in Hu as [Hv Ha]. rewrite Hv, Ha.
    apply negb_true_iff in Ht. rewrite Ht. cbn [negb]. unfold bind, ret.
    destruct (reportUser env ext user w) as [[error|response] w1];
      split; [reflexivity | discriminate | reflexivity | discriminate].
  - cbn [forallb] in Hs. apply andb_prop in Hs as [Hn Hs].
    cbn [app reportLoop].
    destruct (email_verified u); cbn [negb]; [|exact (IH Hs Hu)].
    destruct (is_active u); cbn [negb]; [|exact (IH Hs Hu)].
    destruct (tokens u =? 0)%Z; [exact (IH Hs Hu)|].
    discriminate Hn.
Qed.

(** C7 fails: every path of the loop body is a [return], so an invocation
    reports on the first eligible client only. With two eligible clients the
    second gets no report, whether the report of the first succeeds or
    fails. *)
Theorem monthly_report_stops_after_first_client :
  map eligibleForReport (users worldTwoClients) = [true; true]
  /\ fst (processMonthlyReports env0 ext0 worldTwoClients)
     = Some (ResponseHandler.success
               "Successfully sent monthly report to client@acme.com" None)
  /\ rawMailsTo (effects (snd (processMonthlyReports env0 ext0 worldTwoClients)))
     = ["client@acme.com"]
  /\ fst (processMonthlyReports env0 extMailDown worldTwoClients)
     = Some (failWith "Failed to send monthly report to client@acme.com"
               (Some "MessageRejected"))
  /\ rawMailsTo
       (effects (snd (processMonthlyReports env0 extMailDown worldTwoClients)))
     = ["client@acme.com"].
Proof. repeat split; vm_compute; reflexivity. Qed.

(** * Further properties *)

(** ** White space around an address *)

Section SurroundingSpace.

Lemma dropWhile_blank a : forall s,
  blank a = true -> dropWhile isSpace (a ++ s) = dropWhile isSpace s.
Proof.
  induction a as [|c a IH]; intros s H; [reflexivity|].
  unfold blank in H. simpl in H. apply andb_true_iff in H as [Hc Ha].
  simpl. rewrite Hc. apply IH. exact Ha.
Qed.

Lemma blank_rev b : blank b = true -> blank (rev_string b "") = true.
Proof.
  unfold blank. intro H. rewrite allChars_rev, H. reflexivity.
Qed.

Lemma dropWhile_rev_padded s : forall b,
  blank b = true ->
  dropWhile isSpace (rev_string (dropWhile isSpace (s ++ b)) "")
  = dropWhile isSpace (rev_string (dropWhile isSpace s) "").
Proof.
  induction s as [|c s IH]; intros b H.
  - change ("" ++ b) with b.
    rewrite <- (append_nil_r b) at 1. rewrite dropWhile_blank by exact H.
    reflexivity.
  - simpl. destruct (isSpace c) eqn:E; [apply IH; exact H|].
    change (String c (s ++ b)) with (String c s ++ b).
    rewrite rev_string_distr.
    apply dropWhile_blank. apply blank_rev. exact H.
Qed.

Lemma trim_padded a s b :
  blank a = true -> blank b = true -> trim (a ++ s ++ b) = trim s.
Proof.
  intros Ha Hb. unfold trim.
  rewrite dropWhile_blank by exact Ha.
  rewrite dropWhile_rev_padded by exact Hb. reflexivity.
Qed.

Lemma isValidEmail_no_space s :
  isValidEmail s = true -> allChars (fun c => negb (isSpace c)) s = true.
Proof.
  intro H. apply isValidEmail_shape in H
    as (l & d & x & -> & _ & Hl & _ & Hd & _ & Hx).
  assert (W : forall t, allChars notSpaceNorAt t = true ->
                        allChars (fun c => negb (isSpace c)) t = true).
  { intro t. apply allChars_impl. intros c Hc. unfold notSpaceNorAt in Hc.
    destruct (isSpace c); [discriminate | reflexivity]. }
  repeat (rewrite allChars_append; apply andb_true_iff; split);
    auto; reflexivity.
Qed.

End SurroundingSpace.

(** X1. [isValidMobile] trims its argument: white space before and after a
    number does not change the verdict. [isValidEmail] does not: an address
    with white space before or after it is rejected. *)
Theorem surrounding_space_mobile_and_email :
  forall before s after,
    blank before = true -> blank after = true ->
    isValidMobile (before ++ s ++ after) = isValidMobile s
    /\ (before <> "" -> isValidEmail (before ++ s) = false)
    /\ (after <> "" -> isValidEmail (s ++ after) = false).
Proof.
  intros a s b Ha Hb. split; [|split].
  - unfold isValidMobile. rewrite trim_padded by assumption. reflexivity.
  - intro Ne. destruct (isValidEmail (a ++ s)) eqn:E; [|reflexivity].
    apply isValidEmail_no_space in E. rewrite allChars_append in E.
    apply andb_true_iff in E as [E _].
    destruct a as [|c a]; [congruence|].
    unfold blank in Ha. simpl in Ha, E.
    destruct (isSpace c); discriminate.
  - intro Ne. destruct (isValidEmail (s ++ b)) eqn:E; [|reflexivity].
    apply isValidEmail_no_space in E. rewrite allChars_append in E.
    apply andb_true_iff in E as [_ E].
    destruct b as [|c b]; [congruence|].
    unfold blank in Hb. simpl in Hb, E.
    destruct (isSpace c); discriminate.
Qed.

Lemma surrounding_space_mobile_and_email_witness :
  isValidMobile ("  " ++ "+27 82 123 4567" ++ " ") = true
  /\ isValidEmail ("  " ++ "a@x.com") = false
  /\ isValidEmail ("a@x.com" ++ " ") = false.
Proof.
  split; [|split].
  - rewrite (proj1 (surrounding_space_mobile_and_email "  " "+27 82 123 4567"
                      " " eq_refl eq_refl)).
    reflexivity.
  - apply (surrounding_space_mobile_and_email "  " "a@x.com" " " eq_refl
             eq_refl).
    discriminate.
  - apply (surrounding_space_mobile_and_email "  " "a@x.com" " " eq_refl
             eq_refl).
    discriminate.
Defined.

(** ** Formatting of mobile numbers *)

Section FormattingFacts.

Lemma removeSpaces_append a : forall b,
  removeSpaces (a ++ b) = removeSpaces a ++ removeSpaces b.
Proof.
  induction a as [|c a IH]; intro b; [reflexivity|].
  simpl. destruct (isSpace c); rewrite IH; reflexivity.
Qed.

Lemma removeSpaces_dropWhile s :
  removeSpaces (dropWhile isSpace s) = removeSpaces s.
Proof.
  induction s as [|c s IH]; [reflexivity|].
  simpl. destruct (isSpace c) eqn:E; [exact IH|].
  simpl. rewrite E. reflexivity.
Qed.

Lemma removeSpaces_rev s :
  removeSpaces (rev_string s "") = rev_string (removeSpaces s) "".
Proof.
  induction s as [|c s IH]; [reflexivity|].
  simpl. rewrite rev_string_append, removeSpaces_append, IH.
  simpl. destruct (isSpace c).
  - apply append_nil_r.
  - simpl. symmetry. apply rev_string_append.
Qed.

Lemma removeSpaces_trim s : removeSpaces (trim s) = removeSpaces s.
Proof.
  unfold trim.
  rewrite removeSpaces_rev, removeSpaces_dropWhile, removeSpaces_rev,
    rev_string_involutive.
  apply removeSpaces_dropWhile.
Qed.

Lemma removeSpaces_id s :
  allChars (fun c => negb (isSpace c)) s = true -> removeSpaces s = s.
Proof.
  induction s as [|c s IH]; [reflexivity|].
  simpl. intro H. apply andb_true_iff in H as [Hc Hs].
  destruct (isSpace c); [discriminate|]. rewrite IH by exact Hs. reflexivity.
Qed.

Lemma digits_no_space s :
  allChars isDigit s = true -> allChars (fun c => negb (isSpace c)) s = true.
Proof. apply allChars_impl. exact digit_not_space. Qed.

Lemma removeSpecialFrom_id s : forall position,
  allChars isDigit s = true -> removeSpecialFrom s position = s.
Proof.
  induction s as [|c s IH]; intros position H; [reflexivity|].
  simpl in H. apply andb_true_iff in H as [Hc Hs].
  simpl. rewrite Hc. simpl. rewrite IH by exact Hs. reflexivity.
Qed.

Lemma formatMobileNumber_plus_digits digits :
  allChars isDigit digits = true ->
  formatMobileNumber (String "+" digits) = String "+" digits.
Proof.
  intro H. unfold formatMobileNumber.
  rewrite removeSpaces_id
    by (simpl; apply digits_no_space; exact H).
  simpl. rewrite removeSpecialFrom_id by exact H. reflexivity.
Qed.

Lemma formatMobileNumber_digits digits :
  allChars isDigit digits = true -> formatMobileNumber digits = digits.
Proof.
  intro H. unfold formatMobileNumber.
  rewrite removeSpaces_id by (apply digits_no_space; exact H).
  apply removeSpecialFrom_id. exact H.
Qed.

Lemma spacedDigit_digit : spacedDigit (Class isDigit).
Proof.
  intros s H. apply Lang_Class_inv in H as (c & -> & Hc).
  exists c. split; [exact Hc|]. simpl.
  destruct (isSpace c) eqn:E; [|reflexivity].
  apply space_not_digit in E. congruence.
Qed.

Lemma spacedDigit_group :
  spacedDigit (Seq (Opt (Class isSpace)) (Class isDigit)).
Proof.
  intros s H. apply Lang_Seq_inv in H as (s1 & s2 & -> & H1 & H2).
  apply spacedDigit_digit in H2 as (d & Hd & E2). exists d.
  split; [exact Hd|]. rewrite removeSpaces_append, E2.
  apply Lang_Alt_inv in H1 as [H1|H1].
  - apply Lang_Class_inv in H1 as (c & -> & Hc). simpl. rewrite Hc.
    reflexivity.
  - apply Lang_Eps_inv in H1. subst. reflexivity.
Qed.

Lemma Lang_power_spaced r : spacedDigit r -> forall k s,
  Lang (power k r) s ->
  allChars isDigit (removeSpaces s) = true
  /\ String.length (removeSpaces s) = k.
Proof.
  intros Hr k. induction k as [|k IH]; intros s H; simpl in H.
  - apply Lang_Eps_inv in H. subst. split; reflexivity.
  - apply Lang_Seq_inv in H as (s1 & s2 & -> & H1 & H2).
    apply Hr in H1 as (d & Hd & E1). apply IH in H2 as [A L].
    rewrite removeSpaces_append, E1. simpl. rewrite Hd, A, L.
    split; reflexivity.
Qed.

Lemma Lang_upto_spaced r : spacedDigit r -> forall k s,
  Lang (upto k r) s ->
  allChars isDigit (removeSpaces s) = true
  /\ String.length (removeSpaces s) <= k.
Proof.
  intros Hr k. induction k as [|k IH]; intros s H; simpl in H.
  - apply Lang_Eps_inv in H. subst. split; [reflexivity | simpl; lia].
  - apply Lang_Alt_inv in H as [H|H].
    + apply Lang_Seq_inv in H as (s1 & s2 & -> & H1 & H2).
      apply Hr in H1 as (d & Hd & E1). apply IH in H2 as [A L].
      rewrite removeSpaces_append, E1. simpl. rewrite Hd, A.
      split; [reflexivity | lia].
    + apply Lang_Eps_inv in H. subst. split; [reflexivity | simpl; lia].
Qed.

Lemma Lang_Repeat_spaced r m n : spacedDigit r -> m <= n -> forall s,
  Lang (Repeat m n r) s ->
  allChars isDigit (removeSpaces s) = true
  /\ m <= String.length (removeSpaces s) <= n.
Proof.
  intros Hr Hmn s H. unfold Repeat in H.
  apply Lang_Seq_inv in H as (s1 & s2 & -> & H1 & H2).
  apply (Lang_power_spaced r Hr) in H1 as [A1 L1].
  apply (Lang_upto_spaced r Hr) in H2 as [A2 L2].
  rewrite removeSpaces_append, allChars_append, length_append, A1, A2.
  split; [reflexivity | lia].
Qed.

Lemma mobileRegex_spaced s :
  test mobileRegex s = true ->
  exists digits,
    removeSpaces s = String "+" digits
    /\ allChars isDigit digits = true
    /\ 5 <= String.length digits <= 17.
Proof.
  intro H. apply test_Lang in H. unfold mobileRegex in H.
  apply Lang_Seq_inv in H as (p & rest & -> & Hp & H).
  apply Lang_Chr in Hp. subst p.
  apply Lang_Seq_inv in H as (s1 & s2 & -> & H1 & H2).
  apply (Lang_Repeat_spaced _ 1 3 spacedDigit_digit) in H1 as [A1 L1];
    [|lia].
  apply (Lang_Repeat_spaced _ 4 14 spacedDigit_group) in H2 as [A2 L2];
    [|lia].
  exists (removeSpaces s1 ++ removeSpaces s2).
  rewrite allChars_append, length_append, A1, A2.
  split; [|split; [reflexivity | lia]].
  simpl. rewrite removeSpaces_append. reflexivity.
Qed.

End FormattingFacts.

(** X2. A number that [isValidMobile] accepts as it is written is accepted
    by the check of the extractions too, which validates the formatted
    number; formatting such a number only takes its white space out. *)
Theorem valid_number_survives_formatting :
  forall number,
    isValidMobile number = true ->
    mobileCheck number = true
    /\ formatMobileNumber number = removeSpaces number.
Proof.
  intros number H. unfold isValidMobile in H.
  apply mobileRegex_spaced in H as (digits & E & A & L).
  rewrite removeSpaces_trim in E.
  assert (F : formatMobileNumber number = String "+" digits).
  { unfold formatMobileNumber. rewrite E. simpl.
    rewrite removeSpecialFrom_id by exact A. reflexivity. }
  split.
  - unfold mobileCheck. apply isValidMobile_formatted.
    exists digits. auto.
  - rewrite F. symmetry. exact E.
Qed.

Lemma valid_number_survives_formatting_witness :
  mobileCheck " +27 82 123 4567" = true
  /\ formatMobileNumber " +27 82 123 4567" = removeSpaces " +27 82 123 4567".
Proof.
  apply (valid_number_survives_formatting " +27 82 123 4567"). reflexivity.
Defined.

(** X3. [formatMobileNumbers] is idempotent: a formatted list is left as it
    is, so formatting at several places of the pipeline is harmless. *)
Theorem formatMobileNumbers_idempotent :
  forall mobileNumbers,
    formatMobileNumbers (formatMobileNumbers mobileNumbers)
    = formatMobileNumbers mobileNumbers.
Proof.
  intro l. unfold formatMobileNumbers. rewrite map_map.
  apply map_ext. intro number.
  destruct (formatMobileNumber_shape number) as [(digits & E & A) | A].
  - rewrite E. apply formatMobileNumber_plus_digits. exact A.
  - apply formatMobileNumber_digits. exact A.
Qed.

(** ** Substitution: the cases in which nothing changes *)

Section SubstitutionFacts.

Lemma isPlaceholderAt_true c d :
  isPlaceholderAt c d = true -> c = "{"%char /\ d = "}"%char.
Proof.
  unfold isPlaceholderAt. intro H. apply andb_true_iff in H as [Hc Hd].
  apply Ascii.eqb_eq in Hc, Hd. auto.
Qed.

Lemma replaceFrom_nil body : forall index, replaceFrom [] body index = body.
Proof.
  induction body as [| c | c d s IHs IHd] using string_pair_ind;
    intro index; try reflexivity.
  change (replaceFrom [] (String c (String d s)) index)
    with (if isPlaceholderAt c d
          then (match nth_error (@nil string) index with
                | Some r => r
                | None => "{}"
                end) ++ replaceFrom [] s (S index)
          else String c (replaceFrom [] (String d s) index)).
  destruct (isPlaceholderAt c d) eqn:E.
  - apply isPlaceholderAt_true in E as [-> ->].
    rewrite IHs. destruct index; reflexivity.
  - rewrite IHd. reflexivity.
Qed.

Lemma occurrences_tokenFree body :
  occurrences body = 0 -> tokenFree body = true.
Proof.
  induction body as [| c | c d s IHs IHd] using string_pair_ind;
    try reflexivity.
  change (occurrences (String c (String d s)))
    with ((if isPlaceholderAt c d then 1 else 0) + occurrences (String d s)).
  change (tokenFree (String c (String d s)))
    with (negb (isPlaceholderAt c d) && tokenFree (String d s)).
  destruct (isPlaceholderAt c d); [discriminate|].
  intro H. simpl. apply IHd. exact H.
Qed.

Lemma occurrences_after_close s :
  occurrences (String "}" s) = occurrences s.
Proof. destruct s; reflexivity. Qed.

(** The substitution reads the parameters at the positions of the
    placeholders only. *)
Lemma replaceFrom_ext ps ps' body : forall index,
  (forall j, index <= j < index + occurrences body ->
             nth_error ps j = nth_error ps' j) ->
  replaceFrom ps body index = replaceFrom ps' body index.
Proof.
  induction body as [| c | c d s IHs IHd] using string_pair_ind;
    intros index H; try reflexivity.
  change (occurrences (String c (String d s)))
    with ((if isPlaceholderAt c d then 1 else 0) + occurrences (String d s))
    in H.
  change (replaceFrom ps (String c (String d s)) index)
    with (if isPlaceholderAt c d
          then (match nth_error ps index with
                | Some r => r
                | None => "{}"
                end) ++ replaceFrom ps s (S index)
          else String c (replaceFrom ps (String d s) index)).
  change (replaceFrom ps' (String c (String d s)) index)
    with (if isPlaceholderAt c d
          then (match nth_error ps' index with
                | Some r => r
                | None => "{}"
                end) ++ replaceFrom ps' s (S index)
          else String c (replaceFrom ps' (String d s) index)).
  destruct (isPlaceholderAt c d) eqn:E.
  - apply isPlaceholderAt_true in E as [-> ->].
    rewrite occurrences_after_close in H.
    rewrite (H index) by lia.
    rewrite (IHs (S index)); [reflexivity|].
    intros j Hj. apply H. lia.
  - rewrite (IHd index); [reflexivity|].
    intros j Hj. apply H. lia.
Qed.

End SubstitutionFacts.

(** X4. [replacePlaceholders] returns the body unchanged when the list of
    parameters is empty (every placeholder is put back as the literal
    ["{}"]) and when the body has no placeholder. *)
Theorem replacePlaceholders_unchanged :
  (forall messageBody, replacePlaceholders messageBody [] = messageBody)
  /\ (forall messageBody parameters,
        occurrences messageBody = 0 ->
        replacePlaceholders messageBody parameters = messageBody).
Proof.
  split.
  - intro body. apply replaceFrom_nil.
  - intros body ps H. apply replaceFrom_tokenFree.
    apply occurrences_tokenFree. exact H.
Qed.

Lemma replacePlaceholders_unchanged_witness :
  replacePlaceholders "Dear {}" [] = "Dear {}"
  /\ replacePlaceholders "No gaps here" ["Ann"] = "No gaps here".
Proof.
  split.
  - apply (proj1 replacePlaceholders_unchanged).
  - apply (proj2 replacePlaceholders_unchanged). reflexivity.
Defined.

(** X5. The result of [replacePlaceholders] depends on the first n
    parameters only, n being the number of placeholders of the body: the
    parameters after them are ignored, whatever they are. *)
Theorem replacePlaceholders_surplus_ignored :
  forall messageBody parameters parameters',
    firstn (occurrences messageBody) parameters
    = firstn (occurrences messageBody) parameters' ->
    replacePlaceholders messageBody parameters
    = replacePlaceholders messageBody parameters'.
Proof.
  intros body ps ps' H. apply replaceFrom_ext.
  intros j Hj.
  assert (E : forall l : list string,
             nth_error (firstn (occurrences body) l) j = nth_error l j).
  { intro l. rewrite nth_error_firstn.
    destruct (Nat.ltb_spec j (occurrences body)); [reflexivity | lia]. }
  rewrite <- (E ps), <- (E ps'), H. reflexivity.
Qed.

Lemma replacePlaceholders_surplus_ignored_witness :
  replacePlaceholders "Dear {}, bye" ["Ann"; "unused"]
  = replacePlaceholders "Dear {}, bye" ["Ann"].
Proof.
  apply (replacePlaceholders_surplus_ignored "Dear {}, bye"). reflexivity.
Defined.

(** ** utils/convert.js: [convertString] *)

Lemma supported_lower name :
  In name Convert.supported -> toLowerCase name = name.
Proof.
  unfold Convert.supported.
  intros [<-|[<-|[<-|[<-|[<-|[]]]]]]; reflexivity.
Qed.

(** X6. [convertString] selects the conversion by the type name without
    regard to case. For any other type name it raises [Unsupported type],
    quoting the name as it was given: it never hands the input back. A first
    argument that is not a string raises before the type is looked at. *)
Theorem convertString_selection :
  forall (N D : Type) (Number : string -> option N)
         (JSON_parse : string -> string + Convert.Json N)
         (newDate : string -> option D)
         (value : Convert.Input) (type : string),
    (forall name, In name Convert.supported -> toLowerCase type = name ->
                  Convert.convertString N D Number JSON_parse newDate value type
                  = Convert.convertString N D Number JSON_parse newDate value
                      name)
    /\ (~ In (toLowerCase type) Convert.supported ->
        forall text,
          Convert.convertString N D Number JSON_parse newDate
            (Convert.Text text) type
          = inl ("Unsupported type " ++ Convert.quote ++ type
                 ++ Convert.quote))
    /\ Convert.convertString N D Number JSON_parse newDate Convert.NotText type
       = inl "Input value must be a string".
Proof.
  intros N D Number JSON_parse newDate value type. split; [|split].
  - intros name Hin E. unfold Convert.convertString.
    destruct value as [text|]; [|reflexivity].
    rewrite (supported_lower name Hin), E.
    unfold Convert.supported in Hin.
    destruct Hin as [<-|[<-|[<-|[<-|[<-|[]]]]]]; reflexivity.
  - intros Hout text. unfold Convert.convertString.
    unfold Convert.supported in Hout. simpl in Hout.
    repeat match goal with
           | |- context [String.eqb (toLowerCase type) ?n] =>
               destruct (String.eqb_spec (toLowerCase type) n) as [E|_];
               [exfalso; apply Hout; rewrite E; tauto|]
           end.
    reflexivity.
  - reflexivity.
Qed.

Lemma convertString_selection_witness :
  Convert.convertString nat nat (fun _ => None) (fun _ => inl "SyntaxError")
    (fun _ => None) (Convert.Text "yes") "Boolean"
  = Convert.convertString nat nat (fun _ => None) (fun _ => inl "SyntaxError")
      (fun _ => None) (Convert.Text "yes") "boolean"
  /\ Convert.convertString nat nat (fun _ => None)
       (fun _ => inl "SyntaxError") (fun _ => None) (Convert.Text "1")
       "integer"
     = inl ("Unsupported type " ++ Convert.quote ++ "integer"
            ++ Convert.quote).
Proof.
  split.
  - apply (convertString_selection nat nat (fun _ => None)
             (fun _ => inl "SyntaxError") (fun _ => None)
             (Convert.Text "yes") "Boolean");
      [simpl; tauto | reflexivity].
  - apply (convertString_selection nat nat (fun _ => None)
             (fun _ => inl "SyntaxError") (fun _ => None)
             (Convert.Text "1") "integer").
    simpl. intros [H|[H|[H|[H|[H|[]]]]]]; discriminate H.
Defined.

(** X7. What the conversions accept. A boolean is read from the texts that
    are ["true"] or ["false"] up to case, and from no other. An array is
    returned exactly when the text parses to an array, an object exactly
    when it parses to an object or to [null]; every failure of these two,
    a syntax error or a value of another kind, raises the same
    [Cannot convert] message: the inner [Expected ...] error never leaves
    the function. *)
Theorem convertString_accepts :
  forall (N D : Type) (Number : string -> option N)
         (JSON_parse : string -> string + Convert.Json N)
         (newDate : string -> option D) (text : string),
    (forall b,
        Convert.convertString N D Number JSON_parse newDate
          (Convert.Text text) "boolean" = inr (Convert.BooleanValue b)
        <-> toLowerCase text = if b then "true" else "false")
    /\ (forall parsed,
          Convert.convertString N D Number JSON_parse newDate
            (Convert.Text text) "array" = inr (Convert.ArrayValue parsed)
          <-> JSON_parse text = inr parsed
              /\ exists items, parsed = Convert.JArray items)
    /\ (forall parsed,
          Convert.convertString N D Number JSON_parse newDate
            (Convert.Text text) "object" = inr (Convert.ObjectValue parsed)
          <-> JSON_parse text = inr parsed
              /\ (parsed = Convert.JNull
                  \/ exists fields, parsed = Convert.JObject fields))
    /\ (forall message,
          Convert.convertString N D Number JSON_parse newDate
            (Convert.Text text) "array" = inl message ->
          message = Convert.cannotConvert text "an array")
    /\ (forall message,
          Convert.convertString N D Number JSON_parse newDate
            (Convert.Text text) "object" = inl message ->
          message = Convert.cannotConvert text "an object").
Proof.
  intros N D Number JSON_parse newDate text. unfold Convert.convertString.
  change (toLowerCase "boolean") with "boolean".
  change (toLowerCase "array") with "array".
  change (toLowerCase "object") with "object".
  cbn [String.eqb Ascii.eqb Bool.eqb].
  split; [|split; [|split; [|split]]].
  - intro b.
    destruct (String.eqb_spec (toLowerCase text) "true") as [E|E].
    { rewrite E. destruct b; split; intro H;
        try reflexivity; try discriminate; inversion H. }
    destruct (String.eqb_spec (toLowerCase text) "false") as [E'|E'].
    { rewrite E'. destruct b; split; intro H;
        try reflexivity; try discriminate; inversion H. }
    split; [discriminate|].
    destruct b; intro H; contradiction.
  - intro parsed. destruct (JSON_parse text) as [error|j].
    { split; [discriminate | intros [H _]; discriminate H]. }
    destruct j; cbn [Convert.isArray negb];
      (split;
       [intro H; inversion H; subst; (split; [reflexivity | eauto])
       |intros [H [items I]]; congruence]).
  - intro parsed. destruct (JSON_parse text) as [error|j].
    { split; [discriminate | intros [H _]; discriminate H]. }
    destruct j; cbn [Convert.isArray Convert.typeofObject negb orb];
      (split;
       [intro H; inversion H; subst; (split; [reflexivity | eauto])
       |intros [H [I|[fields I]]]; congruence]).
  - intro message. destruct (JSON_parse text) as [error|j].
    { intro H. inversion H. reflexivity. }
    destruct (negb (Convert.isArray j)); intro H; inversion H; reflexivity.
  - intro message. destruct (JSON_parse text) as [error|j].
    { intro H. inversion H. reflexivity. }
    destruct (negb (Convert.typeofObject j) || Convert.isArray j);
      intro H; inversion H; reflexivity.
Qed.

Lemma convertString_accepts_witness :
  Convert.convertString nat nat (fun _ => None) (fun _ => inr Convert.JNull)
    (fun _ => None) (Convert.Text "null") "object"
  = inr (Convert.ObjectValue Convert.JNull).
Proof.
  destruct (convertString_accepts nat nat (fun _ => None)
              (fun _ => inr Convert.JNull) (fun _ => None) "null")
    as (_ & _ & O & _).
  apply O. split; [reflexivity | left; reflexivity].
Defined.

(** ** utils/date.js *)

Section ClockFacts.

Lemma show_nat_nonempty n : show_nat n <> "".
Proof.
  unfold show_nat, NilZero.string_of_uint.
  destruct (Nat.to_uint n); discriminate.
Qed.

Lemma padStart_two s :
  s <> "" ->
  Clock.padStart s 2 "0"
  = if Nat.eqb (String.length s) 1 then String "0" s else s.
Proof.
  destruct s as [|c [|d s]]; [congruence | reflexivity | reflexivity].
Qed.

Lemma padStart_two_digits n :
  allChars isDigit (Clock.padStart (show_nat n) 2 "0") = true.
Proof.
  rewrite padStart_two by apply show_nat_nonempty.
  destruct (Nat.eqb _ 1); simpl; apply show_nat_digits.
Qed.

(** A padded field reads back as the number it was made from. *)
Lemma padStart_two_value n :
  option_map Nat.of_uint
    (NilZero.uint_of_string (Clock.padStart (show_nat n) 2 "0"))
  = Some n.
Proof.
  rewrite padStart_two by apply show_nat_nonempty.
  assert (A : NilZero.uint_of_string (show_nat n) = Some (Nat.to_uint n))
    by (apply NilZero.usu, to_uint_not_Nil).
  destruct (Nat.eqb _ 1).
  - destruct (show_nat n) as [|c s] eqn:E;
      [exfalso; exact (show_nat_nonempty n E)|].
    unfold NilZero.uint_of_string in *.
    change (NilEmpty.uint_of_string (String "0" (String c s)))
      with (option_map Decimal.D0 (NilEmpty.uint_of_string (String c s))).
    rewrite A. cbn [option_map].
    change (Nat.of_uint (Decimal.D0 (Nat.to_uint n)))
      with (Nat.of_uint (Nat.to_uint n)).
    rewrite Unsigned.of_to. reflexivity.
  - rewrite A. cbn [option_map]. rewrite Unsigned.of_to. reflexivity.
Qed.

Lemma padStart_two_inj n m :
  Clock.padStart (show_nat n) 2 "0" = Clock.padStart (show_nat m) 2 "0" ->
  n = m.
Proof.
  intro H. pose proof (padStart_two_value n) as A.
  rewrite H, padStart_two_value in A. congruence.
Qed.

(** A run of digits before a separator is determined by the whole text, and
    so is what follows the separator. *)
Lemma digits_before_separator sep a : forall b x y,
  isDigit sep = false ->
  allChars isDigit a = true -> allChars isDigit b = true ->
  a ++ String sep x = b ++ String sep y -> a = b /\ x = y.
Proof.
  induction a as [|c a IH]; intros [|d b] x y Hs Ha Hb H; simpl in *.
  - inversion H. auto.
  - inversion H; subst d. apply andb_prop in Hb as [Hb _]. congruence.
  - inversion H; subst c. apply andb_prop in Ha as [Ha _]. congruence.
  - inversion H; subst d.
    apply andb_prop in Ha as [_ Ha]. apply andb_prop in Hb as [_ Hb].
    destruct (IH b x y Hs Ha Hb) as [-> ->]; auto.
Qed.

Lemma Date_fields_inj a b :
  Clock.getDate a = Clock.getDate b ->
  Clock.getMonth a + 1 = Clock.getMonth b + 1 ->
  Clock.getFullYear a = Clock.getFullYear b ->
  Clock.getHours a = Clock.getHours b ->
  Clock.getMinutes a = Clock.getMinutes b ->
  Clock.getSeconds a = Clock.getSeconds b -> a = b.
Proof.
  destruct a, b. simpl. intros. f_equal; lia.
Qed.

End ClockFacts.

(** X8. The two renderings of an instant are injective: instants that differ
    in a field (day, month, year, hours, minutes or seconds) give different
    texts, so logs written at different seconds get different file names. *)
Theorem date_renderings_injective :
  forall a b : Clock.Date,
    (Clock.getFileNameDate a = Clock.getFileNameDate b -> a = b)
    /\ (Clock.getFormattedDate a = Clock.getFormattedDate b -> a = b).
Proof.
  intros a b. split; intro H.
  - unfold Clock.getFileNameDate in H. cbv zeta in H.
    change ("_" ++ ?x) with (String "_" x) in H.
    apply digits_before_separator in H as [E1 H];
      [|reflexivity | apply padStart_two_digits ..].
    apply digits_before_separator in H as [E2 H];
      [|reflexivity | apply padStart_two_digits ..].
    apply digits_before_separator in H as [E3 H];
      [|reflexivity | apply show_nat_digits ..].
    apply digits_before_separator in H as [E4 H];
      [|reflexivity | apply padStart_two_digits ..].
    apply digits_before_separator in H as [E5 E6];
      [|reflexivity | apply padStart_two_digits ..].
    apply padStart_two_inj in E1, E2, E4, E5, E6. apply show_nat_inj in E3.
    apply Date_fields_inj; assumption.
  - unfold Clock.getFormattedDate in H. cbv zeta in H.
    change ("-" ++ ?x) with (String "-" x) in H.
    change (" " ++ ?x) with (String " " x) in H.
    change (":" ++ ?x) with (String ":" x) in H.
    apply digits_before_separator in H as [E1 H];
      [|reflexivity | apply padStart_two_digits ..].
    apply digits_before_separator in H as [E2 H];
      [|reflexivity | apply padStart_two_digits ..].
    apply digits_before_separator in H as [E3 H];
      [|reflexivity | apply show_nat_digits ..].
    apply digits_before_separator in H as [E4 H];
      [|reflexivity | apply padStart_two_digits ..].
    apply digits_before_separator in H as [E5 E6];
      [|reflexivity | apply padStart_two_digits ..].
    apply padStart_two_inj in E1, E2, E4, E5, E6. apply show_nat_inj in E3.
    apply Date_fields_inj; assumption.
Qed.

(** ** Sheet fields and extraction *)

Section SheetFacts.

Lemma forallb_false {A : Type} (f : A -> bool) l :
  forallb f l = false <-> exists x, In x l /\ f x = false.
Proof.
  induction l as [|a l IH]; simpl.
  - split; [discriminate | intros (x & [] & _)].
  - destruct (f a) eqn:E; simpl.
    + rewrite IH. split.
      * intros (x & Hx & Fx). eauto.
      * intros (x & [<-|Hx] & Fx); [congruence | eauto].
    + split; [eauto | reflexivity].
Qed.

Lemma existsb_truthy maps :
  existsb (fun item => truthy (address item)) maps = true
  <-> exists m, In m maps /\ address m <> "".
Proof.
  rewrite existsb_exists. unfold truthy.
  split; intros (m & Hm & H); exists m; (split; [exact Hm|]).
  - intro E. rewrite E in H. discriminate.
  - destruct (String.eqb_spec (address m) ""); [contradiction | reflexivity].
Qed.

Lemma validateEmailSheetFields_ok clientName clientEmail companyName
    companyAddress emailSubject emailParagraphs emailParameterMaps :
  validateEmailSheetFields clientName clientEmail companyName companyAddress
    emailSubject emailParagraphs emailParameterMaps = inr tt
  <-> clientName <> None /\ clientEmail <> None /\ companyName <> None
      /\ companyAddress <> None /\ emailSubject <> None
      /\ (exists p, In p emailParagraphs /\ trim p <> "")
      /\ (exists m, In m emailParameterMaps /\ address m <> "")
      /\ Forall (fun m => List.length (parameters m)
                          = list_sum (map occurrences emailParagraphs))
           emailParameterMaps.
Proof.
  unfold validateEmailSheetFields.
  destruct clientName; cbn [isNullish];
    [|split; [discriminate | intros (H & _); congruence]].
  destruct clientEmail; cbn [isNullish];
    [|split; [discriminate | intros (_ & H & _); congruence]].
  destruct companyName; cbn [isNullish];
    [|split; [discriminate | intros (_ & _ & H & _); congruence]].
  destruct companyAddress; cbn [isNullish];
    [|split; [discriminate | intros (_ & _ & _ & H & _); congruence]].
  destruct emailSubject; cbn [isNullish];
    [|split; [discriminate | intros (_ & _ & _ & _ & H & _); congruence]].
  cbv zeta.
  destruct (forallb isBlankText emailParagraphs) eqn:P.
  { split; [discriminate|]. intros (_ & _ & _ & _ & _ & (p & Hp & Np) & _).
    rewrite forallb_forall in P. apply P in Hp. unfold isBlankText in Hp.
    apply String.eqb_eq in Hp. contradiction. }
  apply forallb_false in P as (p & Hp & Np). unfold isBlankText in Np.
  apply String.eqb_neq in Np.
  destruct (existsb _ emailParameterMaps) eqn:X; cbn [negb].
  - apply existsb_truthy in X.
    destruct (validateMessagePlaceholders emailParagraphs emailParameterMaps)
      as [message|[]] eqn:V.
    + split; [discriminate|]. intros (_ & _ & _ & _ & _ & _ & _ & F).
      apply validateMessagePlaceholders_ok in F. congruence.
    + apply validateMessagePlaceholders_ok in V.
      split; [|reflexivity]. intros _.
      repeat (split; [discriminate|]). eauto.
  - split; [discriminate|]. intros (_ & _ & _ & _ & _ & _ & M & _).
    apply existsb_truthy in M. congruence.
Qed.

Lemma validateSmsSheetFields_ok clientName clientEmail clientMobile smsBody
    mobileParameterMaps :
  validateSmsSheetFields clientName clientEmail clientMobile smsBody
    mobileParameterMaps = inr tt
  <-> clientName <> None /\ clientEmail <> None /\ clientMobile <> None
      /\ exists body,
           smsBody = Some body
           /\ (exists m, In m mobileParameterMaps /\ address m <> "")
           /\ Forall (fun m => List.length (parameters m) = occurrences body)
                mobileParameterMaps.
Proof.
  unfold validateSmsSheetFields.
  destruct clientName; cbn [isNullish];
    [|split; [discriminate | intros (H & _); congruence]].
  destruct clientEmail; cbn [isNullish];
    [|split; [discriminate | intros (_ & H & _); congruence]].
  destruct clientMobile; cbn [isNullish];
    [|split; [discriminate | intros (_ & _ & H & _); congruence]].
  destruct smsBody as [body|];
    [|split; [discriminate | intros (_ & _ & _ & b & H & _); congruence]].
  assert (S1 : list_sum (map occurrences [body]) = occurrences body)
    by (simpl; lia).
  destruct (existsb _ mobileParameterMaps) eqn:X; cbn [negb].
  - apply existsb_truthy in X.
    destruct (validateMessagePlaceholders [body] mobileParameterMaps)
      as [message|[]] eqn:V.
    + split; [discriminate|]. intros (_ & _ & _ & b & E & _ & F).
      inversion E; subst b. rewrite <- S1 in F.
      apply validateMessagePlaceholders_ok in F. congruence.
    + apply validateMessagePlaceholders_ok in V. rewrite S1 in V.
      split; [|reflexivity]. intros _.
      repeat (split; [discriminate|]). eauto.
  - split; [discriminate|]. intros (_ & _ & _ & b & _ & M & _).
    apply existsb_truthy in M. congruence.
Qed.

Lemma uniqueEntries_subset items item :
  In item (uniqueEntries items) -> In item items.
Proof. rewrite uniqueEntries_keepFirst. apply keepFirst_subset. Qed.

Lemma uniqueEntries_nonempty items :
  (exists m, In m items) -> uniqueEntries items <> [].
Proof.
  intros (m & Hm) E.
  destruct (uniqueEntries_spec items) as (_ & C & _).
  assert (A : In (address m) (map address items)) by (apply in_map; exact Hm).
  apply C in A. rewrite E in A. exact A.
Qed.

Lemma keepFirst_distinct items : forall seen,
  NoDup (map address items) ->
  (forall a, In a seen -> ~ In a (map address items)) ->
  keepFirst seen items = items.
Proof.
  induction items as [|item items IH]; intros seen Hn Hs; [reflexivity|].
  simpl. inversion Hn as [|a l Hin Hn']; subst.
  destruct (existsb (String.eqb (address item)) seen) eqn:E.
  - apply existsb_eqb_In in E. apply Hs in E. simpl in E. tauto.
  - f_equal. apply IH; [exact Hn'|].
    intros a Ha Hin'. apply in_app_or in Ha as [Ha|[<-|[]]].
    + apply (Hs a Ha). simpl. auto.
    + contradiction.
Qed.

End SheetFacts.

(** X9. What the two validators of the sheet fields accept.
    [validateEmailSheetFields] accepts exactly the sheets in which the five
    header cells are present, some paragraph is not blank, some entry has a
    non-empty address and every entry has as many parameters as the
    paragraphs have placeholders. [validateSmsSheetFields] accepts exactly
    the sheets in which the three client cells and the body are present,
    some entry has a non-empty address and every entry has as many
    parameters as the body has placeholders. *)
Theorem sheet_fields_accepted :
  (forall (clientName clientEmail companyName companyAddress emailSubject
             : Cell)
          (emailParagraphs : list string)
          (emailParameterMaps : list ParameterMap),
      validateEmailSheetFields clientName clientEmail companyName
        companyAddress emailSubject emailParagraphs emailParameterMaps
      = inr tt
      <-> clientName <> None /\ clientEmail <> None /\ companyName <> None
          /\ companyAddress <> None /\ emailSubject <> None
          /\ (exists p, In p emailParagraphs /\ trim p <> "")
          /\ (exists m, In m emailParameterMaps /\ address m <> "")
          /\ Forall (fun m => List.length (parameters m)
                              = list_sum (map occurrences emailParagraphs))
               emailParameterMaps)
  /\ (forall (clientName clientEmail clientMobile smsBody : Cell)
             (mobileParameterMaps : list ParameterMap),
        validateSmsSheetFields clientName clientEmail clientMobile smsBody
          mobileParameterMaps = inr tt
        <-> clientName <> None /\ clientEmail <> None
            /\ clientMobile <> None
            /\ exists body,
                 smsBody = Some body
                 /\ (exists m, In m mobileParameterMaps /\ address m <> "")
                 /\ Forall (fun m => List.length (parameters m)
                                     = occurrences body)
                      mobileParameterMaps).
Proof.
  split.
  - exact validateEmailSheetFields_ok.
  - exact validateSmsSheetFields_ok.
Qed.

(** X10. What a successful extraction guarantees for email and SMS: there
    is at least one recipient, every recipient is a row of the sheet, and
    every recipient has exactly one parameter per placeholder of the
    message. *)
Theorem extraction_recipients_ready :
  forall sheetData : Sheet,
    (forall r,
        extractEmail sheetData = inr r ->
        EmailSheet.emailParameterMaps r <> []
        /\ EmailSheet.emailParagraphs r <> []
        /\ forall item,
             In item (EmailSheet.emailParameterMaps r) ->
             In item (passingEntries isValidEmail 3 (dataRows sheetData))
             /\ List.length (parameters item)
                = list_sum (map occurrences (EmailSheet.emailParagraphs r)))
    /\ (forall r,
          extractMobile sheetData = inr r ->
          SmsSheet.mobileParameterMaps r <> []
          /\ forall item,
               In item (SmsSheet.mobileParameterMaps r) ->
               In item (passingEntries mobileCheck 2 (dataRows sheetData))
               /\ List.length (parameters item)
                  = occurrences (SmsSheet.smsBody r)).
Proof.
  intro sheetData. split; intros r H.
  - apply extractEmail_inv in H
      as (cn & ce & co & ca & es & _ & _ & _ & _ & _ & V & ->).
    apply validateEmailSheetFields_ok in V
      as (_ & _ & _ & _ & _ & (p & Hp & _) & (m & Hm & _) & F).
    cbn [EmailSheet.emailParameterMaps EmailSheet.emailParagraphs].
    split; [apply uniqueEntries_nonempty; eauto|].
    split; [intro E; rewrite E in Hp; exact Hp|].
    intros item Hi. apply uniqueEntries_subset in Hi.
    split; [exact Hi|]. rewrite Forall_forall in F. apply F. exact Hi.
  - apply extractMobile_inv in H as (cn & ce & cm & sb & _ & _ & _ & _ & V & ->).
    apply validateSmsSheetFields_ok in V
      as (_ & _ & _ & body & -> & (m & Hm & _) & F).
    cbn [SmsSheet.mobileParameterMaps SmsSheet.smsBody orEmpty].
    split; [apply uniqueEntries_nonempty; eauto|].
    intros item Hi. apply uniqueEntries_subset in Hi.
    split; [exact Hi|]. rewrite Forall_forall in F. apply F. exact Hi.
Qed.

Lemma extraction_recipients_ready_witness :
  EmailSheet.emailParameterMaps emailSheetExtract <> []
  /\ EmailSheet.emailParagraphs emailSheetExtract <> []
  /\ forall item,
       In item (EmailSheet.emailParameterMaps emailSheetExtract) ->
       In item (passingEntries isValidEmail 3 (dataRows emailSheet))
       /\ List.length (parameters item)
          = list_sum
              (map occurrences (EmailSheet.emailParagraphs emailSheetExtract)).
Proof.
  apply (proj1 (extraction_recipients_ready emailSheet) emailSheetExtract).
  reflexivity.
Defined.

(** X11. For a sheet of text cells, [extractWhatsapp] succeeds exactly when
    the six header cells of the sheet are present: unlike the other two
    extractions it asks neither for a recipient nor for parameters. (That
    an extraction which succeeds has its six header cells holds of every
    sheet; the converse is for text cells, since the formatting of a number
    throws on a cell that is not text.) *)
Theorem extractWhatsapp_accepts :
  forall sheetData : Sheet,
    (exists r, extractWhatsapp sheetData = inr r)
    <-> forall i, 1 <= i <= 6 ->
                  exists s, sheetCell sheetData i 1 = inr (Some s).
Proof.
  intro sheetData. split.
  - intros (r & H).
    apply extractWhatsapp_inv in H
      as (c1 & c2 & c3 & c4 & c5 & c6 & E1 & E2 & E3 & E4 & E5 & E6 & V & _).
    unfold validateWhatsappSheetFields in V.
    destruct c1; [|discriminate]. destruct c2; [|discriminate].
    destruct c3; [|discriminate]. destruct c4; [|discriminate].
    destruct c5; [|discriminate]. destruct c6; [|discriminate].
    intros i Hi.
    assert (C : i = 1 \/ i = 2 \/ i = 3 \/ i = 4 \/ i = 5 \/ i = 6) by lia.
    decompose [or] C; subst; eauto.
  - intro H.
    destruct (H 1) as (s1 & E1); [lia|]. destruct (H 2) as (s2 & E2); [lia|].
    destruct (H 3) as (s3 & E3); [lia|]. destruct (H 4) as (s4 & E4); [lia|].
    destruct (H 5) as (s5 & E5); [lia|]. destruct (H 6) as (s6 & E6); [lia|].
    unfold extractWhatsapp, bindE. rewrite E1, E2, E3, E4, E5, E6.
    cbn. eauto.
Qed.

(** X12. Deduplication changes nothing when the addresses are already
    distinct, and is idempotent. *)
Theorem uniqueEntries_stable :
  forall items : list ParameterMap,
    (NoDup (map address items) -> uniqueEntries items = items)
    /\ uniqueEntries (uniqueEntries items) = uniqueEntries items.
Proof.
  intro items.
  assert (A : forall l, NoDup (map address l) -> uniqueEntries l = l).
  { intros l H. rewrite uniqueEntries_keepFirst.
    apply keepFirst_distinct; [exact H | intros a []]. }
  split; [apply A|]. apply A. apply uniqueEntries_spec.
Qed.

Lemma uniqueEntries_stable_witness :
  uniqueEntries threeRecipients = threeRecipients.
Proof.
  apply (proj1 (uniqueEntries_stable threeRecipients)).
  repeat constructor; simpl; intuition discriminate.
Defined.

(** ** Extraction failures and the accounts *)

Section AccountFacts.

Variable env : ProcessEnv.
Variable ext : Collaborators.

Lemma sheetCell_short sheetData i j :
  List.length sheetData <= i -> exists e, sheetCell sheetData i j = inl e.
Proof.
  intro H. unfold sheetCell.
  apply nth_error_None in H. rewrite H. eauto.
Qed.

Lemma filter_patchUsers emailAddress userId p accounts :
  filter (fun u => String.eqb (email u) emailAddress)
    (patchUsers userId p accounts)
  = patchUsers userId p
      (filter (fun u => String.eqb (email u) emailAddress) accounts).
Proof.
  unfold patchUsers.
  induction accounts as [|u accounts IH]; [reflexivity|].
  simpl.
  assert (E : email (if String.eqb (user_id u) userId then applyPatch p u
                     else u) = email u).
  { destruct (String.eqb (user_id u) userId); [|reflexivity].
    destruct p; reflexivity. }
  rewrite E. destruct (String.eqb (email u) emailAddress); simpl;
    rewrite IH; reflexivity.
Qed.

Lemma balanceOf_patched emailAddress accounts user rest t :
  filter (fun u => String.eqb (email u) emailAddress) accounts = user :: rest ->
  balanceOf (patchUsers (user_id user) (PatchTokens t) accounts) emailAddress
  = Some t.
Proof.
  intro F. unfold balanceOf. rewrite filter_patchUsers, F.
  simpl. rewrite String.eqb_refl. reflexivity.
Qed.

Lemma find_account emailAddress accounts user rest :
  filter (fun u => String.eqb (email u) emailAddress) accounts = user :: rest ->
  exists found,
    find (fun u => String.eqb (user_id u) (user_id user)) accounts = Some found.
Proof.
  intro F.
  assert (I : In user accounts).
  { assert (J : In user (filter (fun u => String.eqb (email u) emailAddress)
                            accounts)) by (rewrite F; left; reflexivity).
    apply filter_In in J. tauto. }
  destruct (find _ accounts) as [found|] eqn:E; [eauto|].
  apply (find_none _ _ E) in I. rewrite String.eqb_refl in I. discriminate.
Qed.

(** A change of balance that reaches the provider: the lookup and the write
    succeed. The notification that follows, if any, cannot undo it. *)
Lemma updateUserTokens_written emailAddress amount mathOperator isBatch w
    user rest t :
  idpFault ext (requests w) = None ->
  filter (fun u => String.eqb (email u) emailAddress) (users w)
  = user :: rest ->
  idpFault ext (S (requests w)) = None ->
  (mathOperator = "+" /\ t = (tokens user + amount)%Z)
  \/ (mathOperator = "-" /\ t = (tokens user - amount)%Z) ->
  users (snd (updateUserTokens env ext emailAddress amount mathOperator
                isBatch w))
  = patchUsers (user_id user) (PatchTokens t) (users w)
  /\ requests (snd (updateUserTokens env ext emailAddress amount mathOperator
                      isBatch w)) = 2 + requests w
  /\ (isBatch = true ->
      fst (updateUserTokens env ext emailAddress amount mathOperator isBatch w)
      = ResponseHandler.success "Successfully updated user tokens" (Some t))
  /\ (isBatch = false -> ENABLE_SEND_AUTH0_EMAIL env = false ->
      fst (updateUserTokens env ext emailAddress amount mathOperator isBatch w)
      = ResponseHandler.error None "Failed to send user tokens updated email"
          (Some "Send Auth0 emails disabled")).
Proof.
  intros F0 Fl F1 Op.
  destruct (find_account emailAddress (users w) user rest Fl) as (found & Ff).
  unfold updateUserTokens, returned, bindR, catchReturn, ret.
  rewrite axiosGetUsersByEmail_run, F0, Fl.
  assert (O : (if String.eqb mathOperator "+"
               then inr (tokens user + amount)%Z
               else if String.eqb mathOperator "-"
                    then inr (tokens user - amount)%Z
                    else inl (ResponseHandler.error None
                                "A subtraction or addition mathematical operator is required"
                                None))
              = (inr t : Response Z + Z)).
  { destruct Op as [[-> ->]|[-> ->]]; reflexivity. }
  rewrite O. clear O.
  rewrite axiosPatchUser_run.
  change (requests (advance w 1 [IdpGetUsers (Some emailAddress)]))
    with (S (requests w)).
  change (users (advance w 1 [IdpGetUsers (Some emailAddress)]))
    with (users w).
  rewrite F1, Ff.
  destruct isBatch; cbn [negb].
  - cbn [fst snd users requests applyPatch tokens].
    split; [reflexivity|]. split; [reflexivity|].
    split; [intros _; reflexivity | discriminate].
  - unfold emailUserTokensUpdated.
    destruct (ENABLE_SEND_AUTH0_EMAIL env) eqn:Flag.
    + unfold bind, sendRawEmail, bind, emit, ret. cbn [fst snd].
      destruct (sesRawFault ext emailAddress "");
        cbn [fst snd users requests];
        (split; [reflexivity|]); (split; [reflexivity|]);
        (split; [discriminate | intros _ H; discriminate H]).
    + cbn [fst snd users requests].
      split; [reflexivity|]. split; [reflexivity|].
      split; [discriminate | intros _ _; reflexivity].
Qed.

Lemma setUserTokens_written emailAddress amount w user rest :
  idpFault ext (requests w) = None ->
  filter (fun u => String.eqb (email u) emailAddress) (users w)
  = user :: rest ->
  idpFault ext (S (requests w)) = None ->
  users (snd (setUserTokens env ext emailAddress (Some amount) w))
  = patchUsers (user_id user) (PatchTokens amount) (users w)
  /\ requests (snd (setUserTokens env ext emailAddress (Some amount) w))
     = 2 + requests w.
Proof.
  intros F0 Fl F1.
  destruct (find_account emailAddress (users w) user rest Fl) as (found & Ff).
  unfold setUserTokens, returned, bindR, catchReturn, ret.
  rewrite axiosGetUsersByEmail_run, F0, Fl.
  rewrite axiosPatchUser_run.
  change (requests (advance w 1 [IdpGetUsers (Some emailAddress)]))
    with (S (requests w)).
  change (users (advance w 1 [IdpGetUsers (Some emailAddress)]))
    with (users w).
  rewrite F1, Ff.
  unfold emailUserTokensUpdated.
  destruct (ENABLE_SEND_AUTH0_EMAIL env).
  - unfold bind, sendRawEmail, bind, emit, ret. cbn [fst snd].
    destruct (sesRawFault ext emailAddress "");
      cbn [fst snd users requests]; split; reflexivity.
  - cbn [fst snd users requests]. split; reflexivity.
Qed.

Lemma getUserTokens_run emailAddress w :
  idpFault ext (requests w) = None ->
  fst (getUserTokens ext emailAddress w)
  = match balanceOf (users w) emailAddress with
    | Some t =>
        inr (ResponseHandler.success "Successfully fetched user tokens"
               (Some t))
    | None =>
        inr (ResponseHandler.error None "Failed to fetch user tokens"
               (Some emailAddress))
    end.
Proof.
  intro F0. unfold getUserTokens, bind, balanceOf.
  rewrite getUserByEmail_run, F0.
  destruct (filter _ (users w)) as [|user rest]; reflexivity.
Qed.

End AccountFacts.

(** X13. A sheet that fails extraction makes no request at all: each of the
    three pipelines returns the extraction error and leaves the world as it
    was, in draft mode or not. A sheet with fewer rows than the header
    cells that are read always fails extraction. *)
Theorem failed_extraction_is_silent :
  forall (env : ProcessEnv) (ext : Collaborators) (sheetData : Sheet)
         (isDraft : bool) (w : World),
    (forall e, extractEmail sheetData = inl e ->
               processEmails env ext sheetData isDraft w
               = (failWith "Failed to extract from email spreadsheet"
                    (Some e), w))
    /\ (forall e, extractMobile sheetData = inl e ->
                  processSms env ext sheetData isDraft w
                  = (failWith "Failed to extract values from spreadsheet"
                       (Some e), w))
    /\ (forall e, extractWhatsapp sheetData = inl e ->
                  processWhatsapp env ext sheetData isDraft w
                  = (failWith "Failed to extract values from spreadsheet"
                       (Some e), w))
    /\ (List.length sheetData <= 5 -> exists e, extractEmail sheetData = inl e)
    /\ (List.length sheetData <= 4 -> exists e, extractMobile sheetData = inl e)
    /\ (List.length sheetData <= 6 ->
        exists e, extractWhatsapp sheetData = inl e).
Proof.
  intros env ext sheetData isDraft w.
  split; [|split; [|split; [|split; [|split]]]].
  - intros e H. unfold processEmails, returned, bindR, catchReturn, ret.
    rewrite H. reflexivity.
  - intros e H. unfold processSms, returned, bindR, catchReturn, ret.
    rewrite H. reflexivity.
  - intros e H. unfold processWhatsapp, returned, bindR, catchReturn, ret.
    rewrite H. reflexivity.
  - intro H. destruct (sheetCell_short sheetData 5 1 H) as (e & E).
    unfold extractEmail, bindE. rewrite E.
    repeat match goal with
           | |- context [match sheetCell sheetData ?i 1 with _ => _ end] =>
               destruct (sheetCell sheetData i 1); [eauto|]
           end.
    eauto.
  - intro H. destruct (sheetCell_short sheetData 4 1 H) as (e & E).
    unfold extractMobile, bindE. rewrite E.
    repeat match goal with
           | |- context [match sheetCell sheetData ?i 1 with _ => _ end] =>
               destruct (sheetCell sheetData i 1); [eauto|]
           end.
    eauto.
  - intro H. destruct (sheetCell_short sheetData 6 1 H) as (e & E).
    unfold extractWhatsapp, bindE. rewrite E.
    repeat match goal with
           | |- context [match sheetCell sheetData ?i 1 with _ => _ end] =>
               destruct (sheetCell sheetData i 1); [eauto|]
           end.
    eauto.
Qed.

Lemma failed_extraction_is_silent_witness :
  processSms env0 ext0 [] true world0
  = (failWith "Failed to extract values from spreadsheet"
       (Some "Cannot read properties of undefined (reading '1')"), world0).
Proof.
  apply (proj1 (proj2 (failed_extraction_is_silent env0 ext0 [] true world0))).
  reflexivity.
Defined.

(** X14. [getUserByEmail] makes exactly one request and changes no account.
    It answers 200, with the accounts of that address, first account first,
    exactly when the provider answers with at least one; 404 exactly when
    the provider answers with none; 500 exactly when the request fails. *)
Theorem getUserByEmail_answers :
  forall (ext : Collaborators) (emailAddress : string) (w : World),
    snd (getUserByEmail ext emailAddress w)
    = advance w 1 [IdpGetUsers (Some emailAddress)]
    /\ (forall found,
          fst (getUserByEmail ext emailAddress w)
          = ResponseHandler.success "Successfully fetched user by email"
              (Some found)
          <-> idpFault ext (requests w) = None
              /\ found <> []
              /\ found = filter (fun u => String.eqb (email u) emailAddress)
                           (users w))
    /\ (statusCode (fst (getUserByEmail ext emailAddress w)) = 200
        <-> exists user, lookupAccount ext w emailAddress = Some user)
    /\ (statusCode (fst (getUserByEmail ext emailAddress w)) = 404
        <-> idpFault ext (requests w) = None
            /\ filter (fun u => String.eqb (email u) emailAddress) (users w)
               = [])
    /\ (statusCode (fst (getUserByEmail ext emailAddress w)) = 500
        <-> idpFault ext (requests w) <> None).
Proof.
  intros ext emailAddress w. rewrite getUserByEmail_run. cbn [fst snd].
  unfold lookupAccount.
  split; [reflexivity|].
  destruct (idpFault ext (requests w)) as [failure|].
  { split; [|split; [|split]].
    - intro found. split; [discriminate | intros (H & _); discriminate H].
    - split; [discriminate | intros (user & H); discriminate H].
    - split; [discriminate | intros (H & _); discriminate H].
    - split; [discriminate | reflexivity]. }
  destruct (filter _ (users w)) as [|user rest].
  { split; [|split; [|split]].
    - intro found. split; [discriminate | intros (_ & H & E); congruence].
    - split; [discriminate | intros (user & H); discriminate H].
    - split; [auto | reflexivity].
    - split; [discriminate | intro H; congruence]. }
  split; [|split; [|split]].
  - intro found. split.
    + intro H. inversion H; subst.
      split; [reflexivity | split; [discriminate | reflexivity]].
    + intros (_ & _ & ->). reflexivity.
  - split; [intros _; simpl; eauto | reflexivity].
  - split; [discriminate | intros (_ & H); discriminate H].
  - split; [discriminate | intro H; congruence].
Qed.

(** X15. [updateUserTokens] with an operator other than ["+"] and ["-"]
    writes nothing: its only request is the lookup, and the answer is not a
    success. *)
Theorem updateUserTokens_needs_operator :
  forall (env : ProcessEnv) (ext : Collaborators)
         (emailAddress : string) (tokenAmount : Z) (mathOperator : string)
         (isBatch : bool) (w : World),
    mathOperator <> "+" -> mathOperator <> "-" ->
    snd (updateUserTokens env ext emailAddress tokenAmount mathOperator
           isBatch w)
    = advance w 1 [IdpGetUsers (Some emailAddress)]
    /\ statusCode (fst (updateUserTokens env ext emailAddress tokenAmount
                          mathOperator isBatch w)) <> 200.
Proof.
  intros env ext emailAddress amount op isBatch w Hp Hm.
  unfold updateUserTokens, returned, bindR, catchReturn, ret.
  rewrite axiosGetUsersByEmail_run.
  destruct (idpFault ext (requests w)); [split; [reflexivity | discriminate]|].
  destruct (filter _ (users w)) as [|user rest];
    [split; [reflexivity | discriminate]|].
  apply String.eqb_neq in Hp, Hm. rewrite Hp, Hm.
  split; [reflexivity | discriminate].
Qed.

Lemma updateUserTokens_needs_operator_witness :
  snd (updateUserTokens env0 ext0 "client@acme.com" 5 "*" false world0)
  = advance world0 1 [IdpGetUsers (Some "client@acme.com")]
  /\ statusCode (fst (updateUserTokens env0 ext0 "client@acme.com" 5 "*"
                        false world0)) <> 200.
Proof.
  apply (updateUserTokens_needs_operator env0 ext0 "client@acme.com" 5 "*"
           false world0); discriminate.
Defined.

(** X16. Adding an amount and then subtracting it restores the balance,
    as long as the balance, the amount and their sum are safe integers, on
    which the sum and the difference of Numbers are exact. When the provider
    answers the four requests, the balance after the first update is the
    old one plus the amount, and after the second it is the old one again,
    which is also what the second answer carries. *)
Theorem updateUserTokens_add_then_subtract :
  forall (env : ProcessEnv) (ext : Collaborators)
         (emailAddress : string) (tokenAmount balance : Z) (w : World),
    isSafeInteger balance = true ->
    isSafeInteger tokenAmount = true ->
    isSafeInteger (balance + tokenAmount) = true ->
    (forall k, k < 4 -> idpFault ext (k + requests w) = None) ->
    balanceOf (users w) emailAddress = Some balance ->
    let w1 := snd (updateUserTokens env ext emailAddress tokenAmount "+" true
                     w) in
    let second := updateUserTokens env ext emailAddress tokenAmount "-" true
                    w1 in
    balanceOf (users w1) emailAddress = Some (balance + tokenAmount)%Z
    /\ balanceOf (users (snd second)) emailAddress = Some balance
    /\ fst second
       = ResponseHandler.success "Successfully updated user tokens"
           (Some balance).
Proof.
  intros env ext emailAddress amount balance w _ _ _ F B w1 second.
  unfold balanceOf in B.
  destruct (filter _ (users w)) as [|user rest] eqn:Fl; [discriminate|].
  simpl in B. inversion B; subst balance. clear B.
  destruct (updateUserTokens_written env ext emailAddress amount "+" true w
              user rest (tokens user + amount)%Z)
    as (U1 & R1 & S1 & _);
    [apply (F 0); lia | exact Fl | apply (F 1); lia | left; auto |].
  fold w1 in U1, R1.
  assert (Fl1 : filter (fun u => String.eqb (email u) emailAddress) (users w1)
                = applyPatch (PatchTokens (tokens user + amount)) user
                  :: patchUsers (user_id user)
                       (PatchTokens (tokens user + amount)) rest).
  { rewrite U1, filter_patchUsers, Fl. simpl.
    rewrite String.eqb_refl. reflexivity. }
  destruct (updateUserTokens_written env ext emailAddress amount "-" true w1
              _ _ (tokens user)%Z (eq_trans (f_equal _ R1) (F 2 ltac:(lia)))
              Fl1)
    as (U2 & R2 & S2 & _).
  { rewrite R1. apply (F 3). lia. }
  { right. split; [reflexivity|]. simpl. lia. }
  fold second in U2, R2, S2.
  split; [|split].
  - rewrite U1. apply (balanceOf_patched _ _ _ _ _ Fl).
  - rewrite U2. apply (balanceOf_patched _ _ _ _ _ Fl1).
  - apply S2. reflexivity.
Qed.

Lemma updateUserTokens_add_then_subtract_witness :
  balanceOf
    (users (snd (updateUserTokens env0 ext0 "client@acme.com" 7 "-" true
                   (snd (updateUserTokens env0 ext0 "client@acme.com" 7 "+"
                           true world0)))))
    "client@acme.com"
  = Some 10%Z.
Proof.
  apply (updateUserTokens_add_then_subtract env0 ext0 "client@acme.com" 7 10
           world0); reflexivity.
Defined.

(** X17. An update asked for outside a batch that cannot announce itself
    still stands: with the notification mails switched off the answer is an
    error, and the balance the provider holds is the updated one. *)
Theorem updateUserTokens_unannounced_update_stands :
  forall (env : ProcessEnv) (ext : Collaborators)
         (emailAddress : string) (tokenAmount balance : Z) (w : World),
    idpFault ext (requests w) = None ->
    idpFault ext (S (requests w)) = None ->
    balanceOf (users w) emailAddress = Some balance ->
    ENABLE_SEND_AUTH0_EMAIL env = false ->
    let run := updateUserTokens env ext emailAddress tokenAmount "-" false w in
    fst run
    = ResponseHandler.error None "Failed to send user tokens updated email"
        (Some "Send Auth0 emails disabled")
    /\ balanceOf (users (snd run)) emailAddress
       = Some (balance - tokenAmount)%Z.
Proof.
  intros env ext emailAddress amount balance w F0 F1 B Flag run.
  unfold balanceOf in B.
  destruct (filter _ (users w)) as [|user rest] eqn:Fl; [discriminate|].
  simpl in B. inversion B; subst balance. clear B.
  destruct (updateUserTokens_written env ext emailAddress amount "-" false w
              user rest (tokens user - amount)%Z F0 Fl F1)
    as (U & _ & _ & E); [right; auto|].
  fold run in U, E. split; [apply E; auto|].
  rewrite U. apply (balanceOf_patched _ _ _ _ _ Fl).
Qed.

Lemma updateUserTokens_unannounced_update_stands_witness :
  balanceOf
    (users (snd (updateUserTokens
                   (mkProcessEnv 2 1 3 true true true true true false true
                      "admin@batchbytes.io" "https://graph.example/v1")
                   ext0 "client@acme.com" 4 "-" false world0)))
    "client@acme.com"
  = Some 6%Z.
Proof.
  apply (updateUserTokens_unannounced_update_stands
           (mkProcessEnv 2 1 3 true true true true true false true
              "admin@batchbytes.io" "https://graph.example/v1")
           ext0 "client@acme.com" 4 10 world0); reflexivity.
Defined.

(** X18. Setting a balance and reading it back: when the provider answers
    the three requests and has an account for the address, [getUserTokens]
    after [setUserTokens] answers with the amount that was set, whether or
    not the notification of the change could be sent. *)
Theorem setUserTokens_then_getUserTokens :
  forall (env : ProcessEnv) (ext : Collaborators)
         (emailAddress : string) (amount balance : Z) (w : World),
    (forall k, k < 3 -> idpFault ext (k + requests w) = None) ->
    balanceOf (users w) emailAddress = Some balance ->
    fst (getUserTokens ext emailAddress
           (snd (setUserTokens env ext emailAddress (Some amount) w)))
    = inr (ResponseHandler.success "Successfully fetched user tokens"
             (Some amount)).
Proof.
  intros env ext emailAddress amount balance w F B.
  unfold balanceOf in B.
  destruct (filter _ (users w)) as [|user rest] eqn:Fl; [discriminate|].
  destruct (setUserTokens_written env ext emailAddress amount w user rest)
    as (U & R); [apply (F 0); lia | exact Fl | apply (F 1); lia |].
  rewrite getUserTokens_run by (rewrite R; apply (F 2); lia).
  rewrite U, (balanceOf_patched _ _ _ _ _ Fl). reflexivity.
Qed.

Lemma setUserTokens_then_getUserTokens_witness :
  fst (getUserTokens ext0 "client@acme.com"
         (snd (setUserTokens env0 ext0 "client@acme.com" (Some 50%Z) world0)))
  = inr (ResponseHandler.success "Successfully fetched user tokens"
           (Some 50%Z)).
Proof.
  apply (setUserTokens_then_getUserTokens env0 ext0 "client@acme.com" 50 10
           world0); reflexivity.
Defined.

(** ** The batch senders *)

Section SenderFacts.

Lemma startsWith_append prefix rest : startsWith prefix (prefix ++ rest) = true.
Proof.
  induction prefix as [|c prefix IH]; [reflexivity|].
  simpl. rewrite Ascii.eqb_refl. exact IH.
Qed.

Lemma length_insertByTime x l :
  List.length (insertByTime x l) = S (List.length l).
Proof.
  induction l as [|y l IH]; [reflexivity|].
  simpl. destruct (Nat.leb (fst x) (fst y)); simpl; [reflexivity|].
  rewrite IH. reflexivity.
Qed.

Lemma length_inCompletionOrder pushed :
  List.length (inCompletionOrder pushed) = List.length pushed.
Proof.
  unfold inCompletionOrder. rewrite length_map.
  induction pushed as [|x pushed IH]; [reflexivity|].
  simpl. rewrite length_insertByTime, IH. reflexivity.
Qed.

(** [logSmsEvent] returns in every case: its failures are response
    objects. *)
Lemma logSmsEvent_returns ext index clientEmail mobileNumber messageId
    message :
  exists response requests,
    logSmsEvent ext index clientEmail mobileNumber messageId message
    = (inr response, requests).
Proof.
  unfold logSmsEvent.
  destruct (ensureLogStreamExist ext index _) as [[error|[]] requests];
    [do 2 eexists; reflexivity|].
  destruct (putLogEventsFault ext _ messageId); do 2 eexists; reflexivity.
Qed.

(** What a callback of [sendBatchSMS] hands back, read off the outcome of
    its one send: the log of the event plays no part. *)
Lemma smsCallback_outcome ext smsBody clientEmail m index :
  (snd (fst (smsCallback ext smsBody clientEmail m index)),
   snd (smsCallback ext smsBody clientEmail m index))
  = match snsSend ext index (address m)
            (censorMessageBody ext
               (replacePlaceholders smsBody (parameters m))) with
    | Fulfilled t messageId =>
        (Promise t (inr (Some (address m, messageId))), [])
    | Rejected t error =>
        (Promise t (inr None),
         [(t, "Failed to send SMS to " ++ address m ++ ": " ++ error)])
    | Thrown error =>
        (Promise 0 (inr None),
         [(0, "Failed to send SMS to " ++ address m ++ ": " ++ error)])
    end.
Proof.
  unfold smsCallback.
  destruct (snsSend ext index (address m) _) as [t messageId| |];
    try reflexivity.
  destruct (logSmsEvent_returns ext index clientEmail (address m) messageId
              (censorMessageBody ext
                 (replacePlaceholders smsBody (parameters m))))
    as (response & requests & E).
  rewrite E. reflexivity.
Qed.

(** The lines of a run of [sendBatchSMS]: each callback contributes one
    line, a failure line pushed when its send fails or a success line
    written after all sends have settled. *)
Lemma smsCallback_count ext smsBody clientEmail maps : forall i,
  List.length
    (concat (map snd (mapiFrom (smsCallback ext smsBody clientEmail) i maps)))
  + List.length
      (concat
         (map (fun result : option (string * string) =>
                 match result with
                 | Some (mobile, messageId) =>
                     ["SMS sent to " ++ mobile ++ ". MessageId: " ++ messageId]
                 | None => []
                 end)
            (valuesOf
               (map (fun c => snd (fst c))
                  (mapiFrom (smsCallback ext smsBody clientEmail) i maps)))))
  = List.length maps.
Proof.
  induction maps as [|m maps IH]; intro i; [reflexivity|].
  cbn [mapiFrom map concat].
  pose proof (smsCallback_outcome ext smsBody clientEmail m i) as O.
  destruct (smsCallback ext smsBody clientEmail m i) as [[sent promise] lines].
  cbn [fst snd] in *. specialize (IH (S i)).
  destruct (snsSend ext i (address m) _); inversion O; subst;
    cbn [valuesOf map concat app List.length]; rewrite ?length_app;
    cbn [List.length]; lia.
Qed.

Lemma smsCallback_failure_lines ext smsBody clientEmail maps : forall i t line,
  In (t, line)
    (concat (map snd (mapiFrom (smsCallback ext smsBody clientEmail) i maps)))
  -> startsWith "Failed to send SMS to " line = true.
Proof.
  induction maps as [|m maps IH]; intros i t line H; [contradiction|].
  cbn [mapiFrom map concat] in H. apply in_app_or in H as [H|H]; [|eauto].
  pose proof (smsCallback_outcome ext smsBody clientEmail m i) as O.
  destruct (smsCallback ext smsBody clientEmail m i) as [[sent promise] lines].
  cbn [fst snd] in *.
  destruct (snsSend ext i (address m) _); inversion O; subst;
    try contradiction;
    destruct H as [H|[]]; inversion H; reflexivity.
Qed.

Lemma sms_success_lines (results : list (option (string * string))) :
  forall line,
    In line
      (concat
         (map (fun result : option (string * string) =>
                 match result with
                 | Some (mobile, messageId) =>
                     ["SMS sent to " ++ mobile ++ ". MessageId: " ++ messageId]
                 | None => []
                 end)
            results))
    -> startsWith "SMS sent to " line = true.
Proof.
  induction results as [|result results IH]; intros line H; [contradiction|].
  cbn [map concat] in H. apply in_app_or in H as [H|H]; [|exact (IH line H)].
  destruct result as [[mobile messageId]|]; [|contradiction].
  destruct H as [<-|[]]. reflexivity.
Qed.

Lemma smsCallback_independent ext ext' smsBody clientEmail maps :
  (forall index mobile body,
      snsSend ext index mobile body = snsSend ext' index mobile body) ->
  (forall body, censorMessageBody ext body = censorMessageBody ext' body) ->
  forall i,
    map (fun c => (snd (fst c), snd c))
      (mapiFrom (smsCallback ext smsBody clientEmail) i maps)
    = map (fun c => (snd (fst c), snd c))
        (mapiFrom (smsCallback ext' smsBody clientEmail) i maps).
Proof.
  intros Hs Hc. induction maps as [|m maps IH]; intro i; [reflexivity|].
  cbn [mapiFrom map]. rewrite IH. f_equal.
  rewrite !smsCallback_outcome, Hs, Hc. reflexivity.
Qed.

End SenderFacts.

(** X19. [sendBatchSMS] never fails as a whole and answers with exactly one
    line per recipient: a line that begins with [SMS sent to] or one that
    begins with [Failed to send SMS to]. No line reports a failure to log
    the event. *)
Theorem sendBatchSMS_one_line_each :
  forall (ext : Collaborators) (smsBody : string)
         (mobileParameterMaps : list ParameterMap)
         (clientMobile : list string) (clientEmail : string)
         (isDraft : bool) (w : World),
    exists logs,
      fst (sendBatchSMS ext smsBody mobileParameterMaps clientMobile
             clientEmail isDraft w) = inr logs
      /\ List.length logs = List.length mobileParameterMaps
      /\ forall line,
           In line logs ->
           startsWith "SMS sent to " line = true
           \/ startsWith "Failed to send SMS to " line = true.
Proof.
  intros ext smsBody maps clientMobile clientEmail isDraft w.
  unfold sendBatchSMS, bind, Promise_all, mapi. rewrite emitAll_run.
  rewrite smsCallback_fulfilled. cbn [ret fst].
  eexists. split; [reflexivity|]. split.
  - rewrite length_app, length_inCompletionOrder.
    apply smsCallback_count.
  - intros line H. apply in_app_or in H as [H|H].
    + right. apply In_inCompletionOrder in H as (t & H).
      exact (smsCallback_failure_lines _ _ _ _ _ _ _ H).
    + left. exact (sms_success_lines _ _ H).
Qed.

(** X20. The answer of [sendBatchSMS] does not depend on the logging of the
    events: two worlds outside that agree on the sends and on the censor
    give the same lines, whatever happens to the log stream and to the log
    events. *)
Theorem sendBatchSMS_ignores_event_log :
  forall (ext ext' : Collaborators) (smsBody : string)
         (mobileParameterMaps : list ParameterMap)
         (clientMobile : list string) (clientEmail : string)
         (isDraft : bool) (w : World),
    (forall index mobile body,
        snsSend ext index mobile body = snsSend ext' index mobile body) ->
    (forall body, censorMessageBody ext body = censorMessageBody ext' body) ->
    fst (sendBatchSMS ext smsBody mobileParameterMaps clientMobile
           clientEmail isDraft w)
    = fst (sendBatchSMS ext' smsBody mobileParameterMaps clientMobile
             clientEmail isDraft w).
Proof.
  intros ext ext' smsBody maps clientMobile clientEmail isDraft w Hs Hc.
  pose proof (smsCallback_independent ext ext' smsBody clientEmail maps Hs Hc 0)
    as E.
  assert (P : map (fun c => snd (fst c))
                (mapiFrom (smsCallback ext smsBody clientEmail) 0 maps)
              = map (fun c => snd (fst c))
                  (mapiFrom (smsCallback ext' smsBody clientEmail) 0 maps)).
  { apply (f_equal (map fst)) in E. rewrite !map_map in E. exact E. }
  assert (L : map snd (mapiFrom (smsCallback ext smsBody clientEmail) 0 maps)
              = map snd
                  (mapiFrom (smsCallback ext' smsBody clientEmail) 0 maps)).
  { apply (f_equal (map snd)) in E. rewrite !map_map in E. exact E. }
  unfold sendBatchSMS, bind, mapi. rewrite !emitAll_run.
  rewrite P, L.
  destruct (Promise_all _); reflexivity.
Qed.

Lemma sendBatchSMS_ignores_event_log_witness :
  fst (sendBatchSMS ext0 "Hello {}" threeRecipients ["+27820000000"]
         "client@acme.com" false world0)
  = fst (sendBatchSMS
           (mkCollaborators
              (fun _ => None)
              (fun index to _ => Fulfilled index ("ses-" ++ to))
              (fun index to _ => Fulfilled index ("sns-" ++ to))
              (fun index _ => Fulfilled index "ok")
              (fun _ _ => inl "ResourceNotFoundException")
              (fun _ _ => None)
              (fun _ _ => Some "ThrottlingException")
              (fun _ _ _ _ => inr (Some []))
              (fun _ => None) (fun _ _ => None)
              (fun _ => inl "Unexpected token in JSON")
              (fun _ => inl "Unexpected token in JSON")
              (fun _ => inl "Unexpected token in JSON")
              (fun text => text)
              (fun paragraphs _ _ _ => join "" paragraphs)
              (fun _ _ => ("Your batch log", "See the attachment"))
              (fun _ _ => ("Your tokens", "Updated"))
              (fun _ _ => ("Your monthly report", "See the attachment"))
              (fun text => text)
              "01_01_2000_13_01_59" "01-01-2000 13:01:59")
           "Hello {}" threeRecipients ["+27820000000"] "client@acme.com"
           false world0).
Proof.
  apply sendBatchSMS_ignores_event_log; reflexivity.
Defined.

Section EmailAndWhatsappFacts.

Variable ext : Collaborators.

Lemma showIndexed_app pre a rest :
  showIndexed (pre ++ a :: rest)%list (List.length pre) = a.
Proof.
  unfold showIndexed. rewrite nth_error_app2 by lia.
  rewrite Nat.sub_diag. reflexivity.
Qed.

(** The success lines of [sendBatchEmails], one per fulfilled send, each
    with the address at the position of the send. *)
Lemma email_success_lines maps : forall ids pre,
  List.length ids = List.length maps ->
  concat
    (mapiFrom
       (fun (result : option string) index =>
          match result with
          | Some messageId =>
              ["Email sent to "
               ++ showIndexed (pre ++ map address maps)%list index
               ++ ". MessageId: " ++ messageId]
          | None => []
          end)
       (List.length pre) (map Some ids))
  = map (fun entry =>
           "Email sent to " ++ address (fst entry) ++ ". MessageId: "
           ++ snd entry)
      (combine maps ids).
Proof.
  induction maps as [|m maps IH]; intros [|id ids] pre H;
    try discriminate H; [reflexivity|].
  cbn [map mapiFrom concat combine app fst snd].
  rewrite showIndexed_app. f_equal.
  specialize (IH ids (pre ++ [address m])%list).
  rewrite <- app_assoc, length_app in IH. cbn [app List.length] in IH.
  rewrite Nat.add_1_r in IH. apply IH. simpl in H. lia.
Qed.

Lemma emailCallback_all_fulfilled clientEmail emailSubject emailBody maps :
  forall ids i,
    List.length ids = List.length maps ->
    (forall k m,
        nth_error maps k = Some m ->
        exists t id,
          nth_error ids k = Some id
          /\ sesSend ext (i + k) (address m)
               (censorMessageBody ext
                  (replacePlaceholders emailBody (parameters m)))
             = Fulfilled t id) ->
    concat (map snd
              (mapiFrom (emailCallback ext clientEmail emailSubject emailBody)
                 i maps)) = []
    /\ firstRejection
         (map (fun c => snd (fst c))
            (mapiFrom (emailCallback ext clientEmail emailSubject emailBody)
               i maps)) = None
    /\ valuesOf
         (map (fun c => snd (fst c))
            (mapiFrom (emailCallback ext clientEmail emailSubject emailBody)
               i maps)) = map Some ids.
Proof.
  induction maps as [|m maps IH]; intros [|id ids] i H F;
    try discriminate H; [repeat split|].
  destruct (F 0 m eq_refl) as (t & id' & E & S0).
  cbn [nth_error] in E. inversion E; subst id'. rewrite Nat.add_0_r in S0.
  destruct (IH ids (S i)) as (L & R & V).
  { simpl in H. lia. }
  { intros k m' Hk. destruct (F (S k) m' Hk) as (t' & id' & E' & S').
    exists t', id'. split; [exact E'|].
    rewrite <- S'. f_equal. lia. }
  cbn [mapiFrom map concat]. unfold emailCallback at 1 3 5.
  rewrite S0. cbn [fst snd firstRejection valuesOf app map].
  rewrite L, R, V. repeat split.
Qed.

Lemma firstRejection_In {A : Type} (promises : list (Awaitable A)) :
  forall t reason,
    firstRejection promises = Some (t, reason) ->
    In (Promise t (inl reason)) promises.
Proof.
  induction promises as [|p promises IH]; intros t reason H; [discriminate|].
  simpl in H. destruct p as [t' [reason'|v]|v];
    try (apply in_cons; apply IH; exact H).
  destruct (firstRejection promises) as [[t'' reason'']|].
  - destruct (Nat.leb t' t''); inversion H; subst.
    + apply in_eq.
    + apply in_cons. apply IH. reflexivity.
  - inversion H. apply in_eq.
Qed.

Lemma whatsappCallback_rejections apiUrl messages : forall i t reason,
  In (Promise t (inl reason))
    (map (fun c => snd (fst c))
       (mapiFrom (whatsappCallback ext apiUrl) i messages)) ->
  startsWith "Failed to send WhatsApp message to: " reason = true.
Proof.
  induction messages as [|m messages IH]; intros i t reason H;
    [contradiction|].
  cbn [mapiFrom map] in H. destruct H as [H|H]; [|eauto].
  unfold whatsappCallback in H.
  destruct (whatsappSend ext i (Message.phoneNumber m)); cbn [fst snd] in H;
    inversion H; reflexivity.
Qed.

Lemma whatsappCallback_all_fulfilled apiUrl messages : forall i,
  (forall k m,
      nth_error messages k = Some m ->
      exists t responseData,
        whatsappSend ext (i + k) (Message.phoneNumber m)
        = Fulfilled t responseData) ->
  firstRejection
    (map (fun c => snd (fst c))
       (mapiFrom (whatsappCallback ext apiUrl) i messages)) = None
  /\ List.length
       (concat (map snd (mapiFrom (whatsappCallback ext apiUrl) i messages)))
     = 2 * List.length messages
  /\ forall m,
       In m messages ->
       exists t,
         In (t, "Successfully sent WhatsApp message to: "
                ++ showPhone (Message.phoneNumber m))
           (concat
              (map snd (mapiFrom (whatsappCallback ext apiUrl) i messages))).
Proof.
  induction messages as [|m messages IH]; intros i F.
  { repeat split. intros m []. }
  destruct (F 0 m eq_refl) as (t & responseData & S0).
  rewrite Nat.add_0_r in S0.
  destruct (IH (S i)) as (R & L & I).
  { intros k m' Hk. destruct (F (S k) m' Hk) as (t' & d' & S').
    exists t', d'. rewrite <- S'. f_equal. lia. }
  cbn [mapiFrom map concat]. unfold whatsappCallback at 1 3 5.
  rewrite S0. cbn [fst snd firstRejection app].
  split; [exact R|]. split.
  - cbn [List.length]. rewrite L. simpl. lia.
  - intros m' [<-|Hm].
    + exists t. left. reflexivity.
    + destruct (I m' Hm) as (t' & Ht'). exists t'. right. right. exact Ht'.
Qed.

Lemma whatsappCallback_some_failed apiUrl messages : forall i k m,
  nth_error messages k = Some m ->
  (forall t responseData,
      whatsappSend ext (i + k) (Message.phoneNumber m)
      <> Fulfilled t responseData) ->
  firstRejection
    (map (fun c => snd (fst c))
       (mapiFrom (whatsappCallback ext apiUrl) i messages)) <> None.
Proof.
  intros i k m Hk F.
  pose proof (nth_error_mapiFrom (whatsappCallback ext apiUrl) messages i k m
                Hk) as Hc.
  apply nth_error_In in Hc.
  unfold whatsappCallback at 1 in Hc.
  destruct (whatsappSend ext (i + k) (Message.phoneNumber m))
    as [t d|t error|error] eqn:E.
  - exfalso. exact (F t d eq_refl).
  - eapply firstRejection_some.
    apply in_map_iff. eexists. split; [|exact Hc]. reflexivity.
  - eapply firstRejection_some.
    apply in_map_iff. eexists. split; [|exact Hc]. reflexivity.
Qed.

(** The two ways [sendBatchWhatsappTemplateMessages] can end. *)
Lemma sendBatchWhatsapp_outcomes messages accessToken apiUrl w :
  ((forall index m,
       nth_error messages index = Some m ->
       exists t responseData,
         whatsappSend ext index (Message.phoneNumber m)
         = Fulfilled t responseData) ->
   exists logs,
     fst (sendBatchWhatsappTemplateMessages ext messages accessToken apiUrl w)
     = inr logs
     /\ List.length logs = 2 * List.length messages
     /\ forall m, In m messages ->
                  In ("Successfully sent WhatsApp message to: "
                      ++ showPhone (Message.phoneNumber m)) logs)
  /\ (forall index m,
        nth_error messages index = Some m ->
        (forall t responseData,
            whatsappSend ext index (Message.phoneNumber m)
            <> Fulfilled t responseData) ->
        exists error,
          fst (sendBatchWhatsappTemplateMessages ext messages accessToken
                 apiUrl w) = inl error
          /\ startsWith "Failed to send WhatsApp message to: " error = true).
Proof.
  unfold sendBatchWhatsappTemplateMessages, bind, Promise_all, mapi.
  rewrite emitAll_run. split.
  - intro F.
    destruct (whatsappCallback_all_fulfilled apiUrl messages 0 F)
      as (R & L & I).
    rewrite R. cbn [ret fst]. eexists. split; [reflexivity|].
    split; [rewrite length_inCompletionOrder; exact L|].
    intros m Hm. destruct (I m Hm) as (t & Ht).
    apply In_inCompletionOrder. eauto.
  - intros index m Hm F.
    pose proof (whatsappCallback_some_failed apiUrl messages 0 index m Hm F)
      as N.
    destruct (firstRejection _) as [[t reason]|] eqn:E; [|congruence].
    cbn [ret fst]. exists reason. split; [reflexivity|].
    apply firstRejection_In in E.
    exact (whatsappCallback_rejections _ _ _ _ _ E).
Qed.

End EmailAndWhatsappFacts.

(** X21. When every send of a batch that is not a draft is fulfilled,
    [sendBatchEmails] answers with one line per recipient, in the order of
    the recipients, each naming the recipient's address and the message id
    of the recipient's own send. *)
Theorem sendBatchEmails_all_sent :
  forall (ext : Collaborators)
         (clientEmail emailSubject emailBody : string)
         (emailParameterMaps : list ParameterMap) (w : World)
         (messageIds : list string),
    List.length messageIds = List.length emailParameterMaps ->
    (forall index m,
        nth_error emailParameterMaps index = Some m ->
        exists t messageId,
          nth_error messageIds index = Some messageId
          /\ sesSend ext index (address m)
               (censorMessageBody ext
                  (replacePlaceholders emailBody (parameters m)))
             = Fulfilled t messageId) ->
    fst (sendBatchEmails ext clientEmail emailSubject emailBody
           emailParameterMaps false w)
    = map (fun entry =>
             "Email sent to " ++ address (fst entry) ++ ". MessageId: "
             ++ snd entry)
        (combine emailParameterMaps messageIds).
Proof.
  intros ext clientEmail emailSubject emailBody maps w ids H F.
  destruct (emailCallback_all_fulfilled ext clientEmail emailSubject emailBody
              maps ids 0 H F) as (L & R & V).
  unfold sendBatchEmails, bind, Promise_all, mapi. rewrite emitAll_run.
  rewrite R, L, V. cbn [ret fst app].
  exact (email_success_lines maps ids [] H).
Qed.

Lemma sendBatchEmails_all_sent_witness :
  fst (sendBatchEmails ext0 "client@acme.com" "News" "Hello {}"
         threeRecipients false world0)
  = ["Email sent to a@x.com. MessageId: ses-a@x.com";
     "Email sent to b@x.com. MessageId: ses-b@x.com";
     "Email sent to c@x.com. MessageId: ses-c@x.com"].
Proof.
  apply (sendBatchEmails_all_sent ext0 "client@acme.com" "News" "Hello {}"
           threeRecipients world0
           ["ses-a@x.com"; "ses-b@x.com"; "ses-c@x.com"]);
    [reflexivity|].
  intros [|[|[|index]]] m H; simpl in H; inversion H; subst;
    try (eexists _, _; split; reflexivity).
  destruct index; discriminate.
Defined.

(** X22. [sendBatchWhatsappTemplateMessages] is all or nothing. When every
    post is answered, it returns two lines per message, among them the
    success line of each recipient. When a post fails, the whole call
    fails, with an error that begins [Failed to send WhatsApp message to:],
    and the success lines of the other recipients are lost. In both cases
    every message has been posted. *)
Theorem sendBatchWhatsapp_all_or_nothing :
  forall (ext : Collaborators) (messages : list Message.t)
         (accessToken apiUrl : string) (w : World),
    ((forall index m,
         nth_error messages index = Some m ->
         exists t responseData,
           whatsappSend ext index (Message.phoneNumber m)
           = Fulfilled t responseData) ->
     exists logs,
       fst (sendBatchWhatsappTemplateMessages ext messages accessToken apiUrl
              w) = inr logs
       /\ List.length logs = 2 * List.length messages
       /\ forall m, In m messages ->
                    In ("Successfully sent WhatsApp message to: "
                        ++ showPhone (Message.phoneNumber m)) logs)
    /\ (forall index m,
          nth_error messages index = Some m ->
          (forall t responseData,
              whatsappSend ext index (Message.phoneNumber m)
              <> Fulfilled t responseData) ->
          exists error,
            fst (sendBatchWhatsappTemplateMessages ext messages accessToken
                   apiUrl w) = inl error
            /\ startsWith "Failed to send WhatsApp message to: " error = true)
    /\ dispatchedTo
         (effects
            (snd (sendBatchWhatsappTemplateMessages ext messages accessToken
                    apiUrl w)))
       = (dispatchedTo (effects w)
          ++ map (fun m => showPhone (Message.phoneNumber m)) messages)%list.
Proof.
  intros ext messages accessToken apiUrl w.
  destruct (sendBatchWhatsapp_outcomes ext messages accessToken apiUrl w)
    as (A & B).
  split; [exact A|]. split; [exact B|].
  rewrite sendBatchWhatsapp_world. cbn [effects advance].
  rewrite dispatchedTo_app. f_equal.
  clear A B. induction messages as [|m messages IH]; [reflexivity|].
  simpl. rewrite IH. reflexivity.
Qed.

Lemma sendBatchWhatsapp_all_or_nothing_witness :
  exists logs,
    fst (sendBatchWhatsappTemplateMessages ext0
           [Message.mk (PhoneText "+27821234567") "welcome" (Some ["Ann"])
              "en_US";
            Message.mk (PhoneText "+27831234567") "welcome" (Some ["Bob"])
              "en_US"]
           "token" "https://graph.example/v1/1234/messages" world0)
    = inr logs
    /\ List.length logs = 2 * 2
    /\ forall m,
         In m [Message.mk (PhoneText "+27821234567") "welcome" (Some ["Ann"])
                 "en_US";
               Message.mk (PhoneText "+27831234567") "welcome" (Some ["Bob"])
                 "en_US"] ->
         In ("Successfully sent WhatsApp message to: "
             ++ showPhone (Message.phoneNumber m)) logs.
Proof.
  apply (proj1 (sendBatchWhatsapp_all_or_nothing ext0
                  [Message.mk (PhoneText "+27821234567") "welcome"
                     (Some ["Ann"]) "en_US";
                   Message.mk (PhoneText "+27831234567") "welcome"
                     (Some ["Bob"]) "en_US"]
                  "token" "https://graph.example/v1/1234/messages" world0)).
  intros index m H. eexists _, _. reflexivity.
Defined.

(** ** Failed sends and the ledger *)

Section ChargeFacts.

Variable env : ProcessEnv.
Variable ext : Collaborators.

(** What a passed eligibility check says of the lookup. *)
Lemma validateBatchRequest_passed emailAddress batchSize batchType w :
  fst (validateBatchRequest env ext emailAddress batchSize batchType w)
  = inr tt ->
  idpFault ext (requests w) = None
  /\ exists user rest,
       filter (fun u => String.eqb (email u) emailAddress) (users w)
       = user :: rest
       /\ validateBatchRequest env ext emailAddress batchSize batchType w
          = (inr tt, advance w 1 [IdpGetUsers (Some emailAddress)]).
Proof.
  rewrite validateBatchRequest_run. cbn [fst].
  destruct (idpFault ext (requests w)); [discriminate|].
  destruct (filter _ (users w)) as [|user rest]; [discriminate|].
  intro H. split; [reflexivity|]. exists user, rest.
  split; [reflexivity|]. rewrite H. reflexivity.
Qed.

Lemma whatsapp_posts_recipients apiUrl templateName maps :
  dispatchedTo
    (map (fun message =>
            WhatsappPost apiUrl (Message.phoneNumber message)
              (Message.templateName message) (Message.languageCode message)
              None)
       (map (fun mobileNumber =>
               Message.mk (PhoneText (address mobileNumber)) templateName
                 (Some (parameters mobileNumber)) "en_US")
          maps))
  = map address maps.
Proof.
  induction maps as [|m maps IH]; [reflexivity|].
  simpl. rewrite IH. reflexivity.
Qed.

Lemma whatsapp_posts_tokenWrites apiUrl (messages : list Message.t) :
  tokenWrites
    (map (fun message =>
            WhatsappPost apiUrl (Message.phoneNumber message)
              (Message.templateName message) (Message.languageCode message)
              None)
       messages) = [].
Proof. apply posts_tokenWrites. reflexivity. Qed.

Lemma processWhatsapp_failed_send sheetData r w index m :
  extractWhatsapp sheetData = inr r ->
  fst (validateBatchRequest env ext (WhatsappSheet.clientEmail r)
         (List.length (WhatsappSheet.whatsappParameterMaps r)) TypeWhatsapp w)
  = inr tt ->
  ENABLE_SEND_WHATSAPP env = true ->
  nth_error (WhatsappSheet.whatsappParameterMaps r) index = Some m ->
  (forall t responseData,
      whatsappSend ext index (PhoneText (address m))
      <> Fulfilled t responseData) ->
  let run := processWhatsapp env ext sheetData false w in
  message (fst run) = "Failed to send batch WhatsApp"
  /\ statusCode (fst run) = 500
  /\ ledgerUntouched w (snd run)
  /\ dispatchedTo (effects (snd run))
     = (dispatchedTo (effects w)
        ++ map address (WhatsappSheet.whatsappParameterMaps r))%list.
Proof.
  intros X V Flag Hm F run. subst run.
  apply validateBatchRequest_passed in V as (F0 & user & rest & Fl & V).
  unfold processWhatsapp, returned, bindR, catchReturn, ret, bind.
  rewrite X. cbn [negb]. rewrite V, Flag.
  match goal with
  | |- context [sendBatchWhatsappTemplateMessages ?e ?ms ?tok ?url ?w0] =>
      pose proof (sendBatchWhatsapp_world e ms tok url w0) as Sw;
      destruct (proj2 (sendBatchWhatsapp_outcomes e ms tok url w0) index
                  (Message.mk (PhoneText (address m))
                     (WhatsappSheet.whatsappTemplateName r)
                     (Some (parameters m)) "en_US"))
        as (error & E & _);
      [rewrite nth_error_map, Hm; reflexivity | exact F |];
      destruct (sendBatchWhatsappTemplateMessages e ms tok url w0)
        as [result w2]
  end.
  cbn [fst snd] in Sw, E. subst w2 result. cbn [fst snd].
  split; [reflexivity|]. split; [reflexivity|].
  rewrite advance_advance. unfold ledgerUntouched, balances, advance.
  cbn [effects users app].
  split; [split|].
  - rewrite tokenWrites_app. cbn [tokenWrites].
    rewrite whatsapp_posts_tokenWrites, app_nil_r. reflexivity.
  - reflexivity.
  - rewrite dispatchedTo_app. cbn [dispatchedTo].
    rewrite whatsapp_posts_recipients. reflexivity.
Qed.

End ChargeFacts.

(** X23. A WhatsApp batch in which a post fails is not charged: the run
    answers [Failed to send batch WhatsApp], the ledger is neither written
    nor changed, and yet every recipient of the sheet has been posted to. *)
Theorem processWhatsapp_failed_send_not_charged :
  forall (env : ProcessEnv) (ext : Collaborators) (sheetData : Sheet)
         (r : WhatsappSheet.t) (w : World) (index : nat) (m : ParameterMap),
    extractWhatsapp sheetData = inr r ->
    fst (validateBatchRequest env ext (WhatsappSheet.clientEmail r)
           (List.length (WhatsappSheet.whatsappParameterMaps r))
           TypeWhatsapp w) = inr tt ->
    ENABLE_SEND_WHATSAPP env = true ->
    nth_error (WhatsappSheet.whatsappParameterMaps r) index = Some m ->
    (forall t responseData,
        whatsappSend ext index (PhoneText (address m))
        <> Fulfilled t responseData) ->
    let run := processWhatsapp env ext sheetData false w in
    message (fst run) = "Failed to send batch WhatsApp"
    /\ statusCode (fst run) = 500
    /\ ledgerUntouched w (snd run)
    /\ dispatchedTo (effects (snd run))
       = (dispatchedTo (effects w)
          ++ map address (WhatsappSheet.whatsappParameterMaps r))%list.
Proof. exact processWhatsapp_failed_send. Qed.

Lemma processWhatsapp_failed_send_not_charged_witness :
  message (fst (processWhatsapp env0 extAllSendsFail whatsappSheet false world0))
  = "Failed to send batch WhatsApp"
  /\ statusCode
       (fst (processWhatsapp env0 extAllSendsFail whatsappSheet false world0))
     = 500
  /\ ledgerUntouched world0
       (snd (processWhatsapp env0 extAllSendsFail whatsappSheet false world0))
  /\ dispatchedTo
       (effects
          (snd (processWhatsapp env0 extAllSendsFail whatsappSheet false
                  world0)))
     = (dispatchedTo (effects world0)
        ++ map address (WhatsappSheet.whatsappParameterMaps
                          whatsappSheetExtract))%list.
Proof.
  apply (processWhatsapp_failed_send_not_charged env0 extAllSendsFail
           whatsappSheet whatsappSheetExtract world0 1
           (mkParameterMap "+27831234567" ["Bob"]));
    try reflexivity.
  intros t responseData. discriminate.
Defined.

Section ChargedFacts.

Variable env : ProcessEnv.
Variable ext : Collaborators.

Lemma sendBatchSMS_never_fails smsBody maps clientMobile clientEmail isDraft w :
  exists logs,
    fst (sendBatchSMS ext smsBody maps clientMobile clientEmail isDraft w)
    = inr logs.
Proof.
  unfold sendBatchSMS, bind, Promise_all, mapi. rewrite emitAll_run.
  rewrite smsCallback_fulfilled. cbn [ret fst]. eauto.
Qed.

Lemma processSms_charged sheetData r w user :
  extractMobile sheetData = inr r ->
  fst (validateBatchRequest env ext (SmsSheet.clientEmail r)
         (List.length (SmsSheet.mobileParameterMaps r)) TypeSms w) = inr tt ->
  ENABLE_SEND_SMS env = true ->
  idpFault ext (S (requests w)) = None ->
  idpFault ext (S (S (requests w))) = None ->
  lookupAccount ext w (SmsSheet.clientEmail r) = Some user ->
  deductedOnce w (snd (processSms env ext sheetData false w)) user
    (calculateBatchCost env (List.length (SmsSheet.mobileParameterMaps r))
       TypeSms).
Proof.
  intros X V Flag F1 F2 L.
  apply validateBatchRequest_passed in V as (F0 & user' & rest & Fl & V).
  assert (U : user' = user).
  { unfold lookupAccount in L. rewrite F0, Fl in L. inversion L. reflexivity. }
  subst user'.
  destruct (find_account _ _ _ _ Fl) as (found & Ff).
  unfold processSms, returned, bindR, catchReturn, ret, bind. cbn [negb].
  rewrite X, V, Flag.
  match goal with
  | |- context [sendBatchSMS ?e ?a ?b ?c ?d ?f ?w0] =>
      pose proof (sendBatchSMS_world e a b c d f w0) as Sw;
      destruct (sendBatchSMS_never_fails a b c d f w0) as (logs & Sl);
      destruct (sendBatchSMS e a b c d f w0) as [result w2]
  end.
  cbn [fst snd] in Sw, Sl. subst w2 result.
  rewrite advance_advance.
  pose proof (smsCallback_requests ext (SmsSheet.smsBody r)
                (SmsSheet.clientEmail r) (SmsSheet.mobileParameterMaps r) 0)
    as Ts.
  fold (mapi (smsCallback ext (SmsSheet.smsBody r) (SmsSheet.clientEmail r))
          (SmsSheet.mobileParameterMaps r)) in Ts.
  generalize dependent
    (concat
       (map (fun c => fst (fst c))
          (mapi (smsCallback ext (SmsSheet.smsBody r) (SmsSheet.clientEmail r))
             (SmsSheet.mobileParameterMaps r)))).
  intros sent Ts.
  rewrite updateUserTokens_run.
  cbn [requests users advance Nat.add]. rewrite Fl. cbv zeta.
  rewrite F1, F2, Ff.
  cbn [statusCode ResponseHandler.success Nat.eqb negb data].
  unfold logSmsToFile.
  match goal with
  | |- context [storeLog ?e ?x ?n ?c ?w0] =>
      destruct (storeLog_world e x n c w0) as (added & Lw & Lq & _);
      destruct (storeLog e x n c w0) as [[error|logResponse] w4]
  end; cbn [snd] in Lw; subst w4.
  - cbn [snd]. split; [ledger | auto].
  - match goal with
    | |- context [emailLogFileToClient ?e ?x ?a ?b ?c ?d ?f ?w0] =>
        destruct (emailLogFileToClient_world e x a b c d f w0)
          as (added' & Mw & Mq & _);
        destruct (emailLogFileToClient e x a b c d f w0) as [[error|[]] w5]
    end; cbn [snd] in Mw; subst w5; cbn [snd]; (split; [ledger | auto]).
Qed.

Lemma processEmails_charged sheetData r w user :
  extractEmail sheetData = inr r ->
  fst (validateBatchRequest env ext (EmailSheet.clientEmail r)
         (List.length (EmailSheet.emailParameterMaps r)) TypeEmail w)
  = inr tt ->
  ENABLE_SEND_EMAIL env = true ->
  idpFault ext (S (requests w)) = None ->
  idpFault ext (S (S (requests w))) = None ->
  lookupAccount ext w (EmailSheet.clientEmail r) = Some user ->
  deductedOnce w (snd (processEmails env ext sheetData false w)) user
    (calculateBatchCost env (List.length (EmailSheet.emailParameterMaps r))
       TypeEmail).
Proof.
  intros X V Flag F1 F2 L.
  apply validateBatchRequest_passed in V as (F0 & user' & rest & Fl & V).
  assert (U : user' = user).
  { unfold lookupAccount in L. rewrite F0, Fl in L. inversion L. reflexivity. }
  subst user'.
  destruct (find_account _ _ _ _ Fl) as (found & Ff).
  unfold processEmails, returned, bindR, catchReturn, ret, bind. cbn [negb].
  rewrite X, V, Flag.
  match goal with
  | |- context [sendBatchEmails ?e ?a ?b ?c ?d ?f ?w0] =>
      pose proof (sendBatchEmails_world e a b c d f w0) as Sw;
      destruct (sendBatchEmails e a b c d f w0) as [logs w2]
  end.
  cbn [snd] in Sw. subst w2. rewrite advance_advance.
  match goal with
  | |- context [map ?f (EmailSheet.emailParameterMaps r)] =>
      assert (Ts : tokenWrites (map f (EmailSheet.emailParameterMaps r)) = [])
        by (apply sends_tokenWrites; reflexivity);
      generalize dependent (map f (EmailSheet.emailParameterMaps r));
      intros sent Ts
  end.
  rewrite updateUserTokens_run.
  cbn [requests users advance Nat.add]. rewrite Fl. cbv zeta.
  rewrite F1, F2, Ff.
  cbn [statusCode ResponseHandler.success Nat.eqb negb data].
  unfold logEmailToFile.
  match goal with
  | |- context [storeLog ?e ?x ?n ?c ?w0] =>
      destruct (storeLog_world e x n c w0) as (added & Lw & Lq & _);
      destruct (storeLog e x n c w0) as [[error|logResponse] w4]
  end; cbn [snd] in Lw; subst w4.
  - cbn [snd]. split; [ledger | auto].
  - match goal with
    | |- context [emailLogFileToClient ?e ?x ?a ?b ?c ?d ?f ?w0] =>
        destruct (emailLogFileToClient_world e x a b c d f w0)
          as (added' & Mw & Mq & _);
        destruct (emailLogFileToClient e x a b c d f w0) as [[error|[]] w5]
    end; cbn [snd] in Mw; subst w5; cbn [snd]; (split; [ledger | auto]).
Qed.

End ChargedFacts.

(** X24. An email or SMS batch is charged in full whatever becomes of its
    sends: once the batch is eligible, sending is switched on and the
    provider answers the lookup and the write of the deduction, the ledger
    is written once, with the balance minus the size of the batch times
    the unit cost, even if every send fails. *)
Theorem failed_sends_are_charged :
  forall (env : ProcessEnv) (ext : Collaborators) (sheetData : Sheet)
         (w : World) (user : User),
    idpFault ext (S (requests w)) = None ->
    idpFault ext (S (S (requests w))) = None ->
    (forall r,
        extractMobile sheetData = inr r ->
        fst (validateBatchRequest env ext (SmsSheet.clientEmail r)
               (List.length (SmsSheet.mobileParameterMaps r)) TypeSms w)
        = inr tt ->
        ENABLE_SEND_SMS env = true ->
        lookupAccount ext w (SmsSheet.clientEmail r) = Some user ->
        deductedOnce w (snd (processSms env ext sheetData false w)) user
          (Z.of_nat (List.length (SmsSheet.mobileParameterMaps r))
           * TOKENS_PER_SMS env))
    /\ (forall r,
          extractEmail sheetData = inr r ->
          fst (validateBatchRequest env ext (EmailSheet.clientEmail r)
                 (List.length (EmailSheet.emailParameterMaps r)) TypeEmail w)
          = inr tt ->
          ENABLE_SEND_EMAIL env = true ->
          lookupAccount ext w (EmailSheet.clientEmail r) = Some user ->
          deductedOnce w (snd (processEmails env ext sheetData false w)) user
            (Z.of_nat (List.length (EmailSheet.emailParameterMaps r))
             * TOKENS_PER_EMAIL env)).
Proof.
  intros env ext sheetData w user F1 F2. split; intros r X V Flag L.
  - exact (processSms_charged env ext sheetData r w user X V Flag F1 F2 L).
  - exact (processEmails_charged env ext sheetData r w user X V Flag F1 F2 L).
Qed.

Lemma failed_sends_are_charged_witness :
  deductedOnce world0
    (snd (processSms env0 extAllSendsFail smsSheet false world0)) client 2
  /\ deductedOnce world0
       (snd (processEmails env0 extAllSendsFail emailSheet false world0))
       client 6.
Proof.
  split.
  - apply (proj1 (failed_sends_are_charged env0 extAllSendsFail smsSheet
                    world0 client eq_refl eq_refl) smsSheetExtract);
      reflexivity.
  - apply (proj2 (failed_sends_are_charged env0 extAllSendsFail emailSheet
                    world0 client eq_refl eq_refl) emailSheetExtract);
      reflexivity.
Defined.

(** ** report.js *)

Section ReportFacts.

Lemma countEvent_fold events : forall report,
  fold_left countEvent events report
  = mkEmailReport
      (bounceCount report + List.length (eventsOfType "Bounce" events))
      (bounceRecipients report
       ++ recipientsOf (eventsOfType "Bounce" events))%list
      (complaintCount report + List.length (eventsOfType "Complaint" events))
      (complaintRecipients report
       ++ recipientsOf (eventsOfType "Complaint" events))%list
      (deliveredCount report + List.length (eventsOfType "Delivery" events))
      (deliveredRecipients report
       ++ recipientsOf (eventsOfType "Delivery" events))%list
      (sendCount report + List.length (eventsOfType "Send" events))
      (sendRecipients report ++ recipientsOf (eventsOfType "Send" events))%list
      (deliveryDelayCount report
       + List.length (eventsOfType "DeliveryDelay" events))
      (deliveryDelayRecipients report
       ++ recipientsOf (eventsOfType "DeliveryDelay" events))%list.
Proof.
  unfold recipientsOf, eventsOfType.
  induction events as [|[type to] events IH]; intro report.
  - destruct report. cbn. rewrite !app_nil_r, !Nat.add_0_r. reflexivity.
  - cbn [fold_left]. rewrite IH. clear IH.
    unfold countEvent. cbn [filter eventType destination].
    destruct (String.eqb_spec type "Bounce") as [->|N1].
    { cbn. rewrite <- !app_assoc, !Nat.add_succ_r. reflexivity. }
    destruct (String.eqb_spec type "Complaint") as [->|N2].
    { cbn. rewrite <- !app_assoc, !Nat.add_succ_r. reflexivity. }
    destruct (String.eqb_spec type "Delivery") as [->|N3].
    { cbn. rewrite <- !app_assoc, !Nat.add_succ_r. reflexivity. }
    destruct (String.eqb_spec type "Send") as [->|N4].
    { cbn. rewrite <- !app_assoc, !Nat.add_succ_r. reflexivity. }
    destruct (String.eqb_spec type "DeliveryDelay") as [->|N5].
    { cbn. rewrite <- !app_assoc, !Nat.add_succ_r. reflexivity. }
    reflexivity.
Qed.

Lemma eventsOfType_total events :
  List.length (eventsOfType "Bounce" events)
  + List.length (eventsOfType "Complaint" events)
  + List.length (eventsOfType "Delivery" events)
  + List.length (eventsOfType "Send" events)
  + List.length (eventsOfType "DeliveryDelay" events)
  <= List.length events.
Proof.
  unfold eventsOfType.
  induction events as [|[type to] events IH]; [simpl; lia|].
  cbn [filter eventType List.length].
  destruct (String.eqb_spec type "Bounce") as [->|N1];
    [cbn [String.eqb Ascii.eqb Bool.eqb andb List.length]; lia|].
  destruct (String.eqb_spec type "Complaint") as [->|N2];
    [cbn [String.eqb Ascii.eqb Bool.eqb andb List.length]; lia|].
  destruct (String.eqb_spec type "Delivery") as [->|N3];
    [cbn [String.eqb Ascii.eqb Bool.eqb andb List.length]; lia|].
  destruct (String.eqb_spec type "Send") as [->|N4];
    [cbn [String.eqb Ascii.eqb Bool.eqb andb List.length]; lia|].
  destruct (String.eqb_spec type "DeliveryDelay") as [->|N5];
    [cbn [String.eqb Ascii.eqb Bool.eqb andb List.length]; lia|].
  lia.
Qed.

End ReportFacts.

(** X25. [buildMonthlyEmailReport] counts, for each of the five event types
    it knows, the events of that type, and lists their recipients in the
    order of the events; events of any other type are ignored, so the five
    counts add up to at most the number of events. *)
Theorem buildMonthlyEmailReport_counts :
  forall events : list EmailEvent,
    exists report,
      buildMonthlyEmailReport (inr events) = inr report
      /\ (bounceCount report = List.length (eventsOfType "Bounce" events)
          /\ bounceRecipients report
             = recipientsOf (eventsOfType "Bounce" events))
      /\ (complaintCount report
          = List.length (eventsOfType "Complaint" events)
          /\ complaintRecipients report
             = recipientsOf (eventsOfType "Complaint" events))
      /\ (deliveredCount report = List.length (eventsOfType "Delivery" events)
          /\ deliveredRecipients report
             = recipientsOf (eventsOfType "Delivery" events))
      /\ (sendCount report = List.length (eventsOfType "Send" events)
          /\ sendRecipients report
             = recipientsOf (eventsOfType "Send" events))
      /\ (deliveryDelayCount report
          = List.length (eventsOfType "DeliveryDelay" events)
          /\ deliveryDelayRecipients report
             = recipientsOf (eventsOfType "DeliveryDelay" events))
      /\ bounceCount report + complaintCount report + deliveredCount report
         + sendCount report + deliveryDelayCount report
         <= List.length events.
Proof.
  intro events. eexists. split; [reflexivity|].
  rewrite countEvent_fold.
  cbn [bounceCount bounceRecipients complaintCount complaintRecipients
         deliveredCount deliveredRecipients sendCount sendRecipients
         deliveryDelayCount deliveryDelayRecipients Nat.add app].
  repeat split. apply eventsOfType_total.
Qed.

Section MonthlyFacts.

Variable env : ProcessEnv.
Variable ext : Collaborators.

Lemma reportLoop_none_eligible allUsers w :
  forallb (fun u => negb (eligibleForReport u)) allUsers = true ->
  reportLoop env ext allUsers w = (None, w).
Proof.
  unfold eligibleForReport.
  induction allUsers as [|u allUsers IH]; intro H; [reflexivity|].
  cbn [forallb] in H. apply andb_prop in H as [Hu H].
  cbn [reportLoop].
  destruct (email_verified u); cbn [negb]; [|exact (IH H)].
  destruct (is_active u); cbn [negb]; [|exact (IH H)].
  destruct (tokens u =? 0)%Z; [exact (IH H)|].
  discriminate Hu.
Qed.

Lemma rawMailsTo_app a b :
  rawMailsTo (a ++ b)%list = (rawMailsTo a ++ rawMailsTo b)%list.
Proof.
  induction a as [|e a IH]; [reflexivity|].
  destruct e; simpl; rewrite IH; reflexivity.
Qed.

End MonthlyFacts.

Lemma nth_error_mapiFrom_inv {A B : Type} (f : A -> nat -> B) l :
  forall i k y,
    nth_error (mapiFrom f i l) k = Some y ->
    exists x, nth_error l k = Some x /\ y = f x (i + k).
Proof.
  induction l as [|a l IH]; intros i k y H; destruct k; simpl in *;
    try discriminate.
  - inversion H; subst. rewrite Nat.add_0_r. eauto.
  - apply IH in H as (x & Hx & ->). rewrite Nat.add_succ_r. eauto.
Qed.

Section MonthlyQueries.

Variable env : ProcessEnv.
Variable ext : Collaborators.

(** The three readers of the logs: their answer does not depend on the
    world, and all they add to the trace are reads of the logs. *)
Lemma getEmailEventsBySender_run senderEmailAddress w :
  exists filterPattern,
    snd (getEmailEventsBySender ext senderEmailAddress w)
    = advance w 0
        [CloudWatchFilterLogEvents AWS_EMAIL_LOG_GROUP_NAME None
           (Some filterPattern)]
    /\ forall w0,
         fst (getEmailEventsBySender ext senderEmailAddress w)
         = fst (getEmailEventsBySender ext senderEmailAddress w0).
Proof.
  unfold getEmailEventsBySender, bind, emit, ret. eexists.
  destruct (filterLogEvents ext 0 AWS_EMAIL_LOG_GROUP_NAME None _)
    as [error|[messages|]]; cbn [fst snd];
    [split; reflexivity | | split; reflexivity].
  destruct (mapE (JSON_parseEmailEvent ext) messages); split; reflexivity.
Qed.

Lemma getSmsEventsBySender_run clientEmail w :
  exists added,
    snd (getSmsEventsBySender ext clientEmail w) = advance w 0 added
    /\ forallb isLogQuery added = true
    /\ forall w0,
         fst (getSmsEventsBySender ext clientEmail w)
         = fst (getSmsEventsBySender ext clientEmail w0).
Proof.
  unfold getSmsEventsBySender, bind, emit, ret.
  destruct (describeLogStreams ext 0 AWS_SMS_LOG_STREAM_NAME)
    as [error|[logStreams|]];
    [exists [CloudWatchDescribeLogStreams AWS_SMS_LOG_STREAM_NAME];
     repeat split | |
     exists [CloudWatchDescribeLogStreams AWS_SMS_LOG_STREAM_NAME];
     repeat split].
  destruct (existsb _ logStreams); cbn [negb];
    [|exists [CloudWatchDescribeLogStreams AWS_SMS_LOG_STREAM_NAME];
      repeat split].
  exists [CloudWatchDescribeLogStreams AWS_SMS_LOG_STREAM_NAME;
          CloudWatchFilterLogEvents AWS_SMS_LOG_STREAM_NAME
            (Some ("Sender-" ++ clientEmail)) None].
  cbn [users requests effects].
  destruct (filterLogEvents ext 0 AWS_SMS_LOG_STREAM_NAME _ None)
    as [error|[messages|]];
    [| destruct (mapE (JSON_parseSmsEvent ext) messages) |];
    cbn [fst snd]; unfold advance; cbn [users requests effects Nat.add];
    rewrite <- app_assoc; repeat split.
Qed.

Lemma searchLogStreams_queries index filterPattern logStreams :
  forallb isLogQuery
    (snd (searchLogStreams ext index filterPattern logStreams)) = true.
Proof.
  induction logStreams as [|logStreamName rest IH]; [reflexivity|].
  cbn [searchLogStreams].
  destruct (filterLogEvents ext index AWS_SMS_LOG_GROUP_NAME _ _)
    as [error|[[|event events]|]]; try reflexivity.
  destruct (searchLogStreams ext index filterPattern rest) as [found queries].
  cbn [snd forallb isLogQuery andb] in *. exact IH.
Qed.

Lemma searchSnsLogForMessageId_queries index messageId :
  forallb isLogQuery (snd (searchSnsLogForMessageId ext index messageId))
  = true.
Proof.
  unfold searchSnsLogForMessageId.
  destruct (describeLogStreams ext index AWS_SMS_LOG_GROUP_NAME)
    as [error|[[|logStream logStreams]|]]; try reflexivity.
  pose proof (searchLogStreams_queries index
                (doubleQuote ++ messageId ++ doubleQuote)
                (logStream :: logStreams)) as Q.
  destruct (searchLogStreams ext index _ (logStream :: logStreams))
    as [found queries].
  cbn [snd forallb isLogQuery andb] in *. exact Q.
Qed.

(** A failed search answers with its one message. *)
Lemma searchLogStreams_failed index filterPattern logStreams response :
  fst (searchLogStreams ext index filterPattern logStreams)
  = SearchFailed response ->
  message response = "Error searching SNS logs".
Proof.
  induction logStreams as [|logStreamName rest IH]; [discriminate|].
  cbn [searchLogStreams].
  destruct (filterLogEvents ext index AWS_SMS_LOG_GROUP_NAME _ _)
    as [error|[[|event events]|]]; cbn [fst];
    try (intro H; inversion H; reflexivity).
  destruct (searchLogStreams ext index filterPattern rest) as [found queries].
  cbn [fst] in *. exact IH.
Qed.

Lemma searchSnsLogForMessageId_failed index messageId response :
  fst (searchSnsLogForMessageId ext index messageId) = SearchFailed response ->
  message response = "Error searching SNS logs".
Proof.
  unfold searchSnsLogForMessageId.
  destruct (describeLogStreams ext index AWS_SMS_LOG_GROUP_NAME)
    as [error|[[|logStream logStreams]|]]; cbn [fst];
    try (intro H; inversion H; reflexivity).
  pose proof (searchLogStreams_failed index
                (doubleQuote ++ messageId ++ doubleQuote)
                (logStream :: logStreams) response) as Q.
  destruct (searchLogStreams ext index _ (logStream :: logStreams))
    as [found queries].
  cbn [fst] in *. exact Q.
Qed.

Lemma smsReportCallback_queries events : forall i,
  forallb isLogQuery
    (concat (map fst (mapiFrom (smsReportCallback ext) i events))) = true.
Proof.
  induction events as [|messageId events IH]; intro i; [reflexivity|].
  cbn [mapiFrom map concat]. rewrite forallb_app, IH, andb_true_r.
  unfold smsReportCallback.
  pose proof (searchSnsLogForMessageId_queries i messageId) as Q.
  destruct (searchSnsLogForMessageId ext i messageId) as [found queries].
  exact Q.
Qed.

(** The promise of a callback: fulfilled as [lookedUp] says, or rejected
    with an error of the parser. *)
Lemma smsReportCallback_fulfilled messageId index result :
  lookedUp ext index messageId result ->
  snd (smsReportCallback ext messageId index) = Promise index (inr result).
Proof.
  unfold lookedUp, smsReportCallback.
  destruct (searchSnsLogForMessageId ext index messageId)
    as [[|text|response] queries]; cbn [fst snd].
  - intros ->. reflexivity.
  - intros (entry & E & ->). rewrite E. reflexivity.
  - contradiction.
Qed.

Lemma smsReportCallback_rejected messageId index t reason :
  snd (smsReportCallback ext messageId index) = Promise t (inl reason) ->
  exists text, JSON_parseSnsLog ext text = inl reason.
Proof.
  unfold smsReportCallback.
  destruct (searchSnsLogForMessageId ext index messageId)
    as [[|text|response] queries]; cbn [snd]; [discriminate | |].
  - destruct (JSON_parseSnsLog ext text) as [error|entry] eqn:E;
      intro H; inversion H; subst. eauto.
  - destruct (JSON_parseSnsLog ext (message response)) as [error|entry] eqn:E;
      intro H; inversion H; subst. eauto.
Qed.

Lemma smsReportCallback_all_fulfilled events : forall i results,
  List.length results = List.length events ->
  (forall k messageId result,
      nth_error events k = Some messageId ->
      nth_error results k = Some result ->
      lookedUp ext (i + k) messageId result) ->
  Promise_all (map snd (mapiFrom (smsReportCallback ext) i events))
  = inr results.
Proof.
  unfold Promise_all.
  induction events as [|messageId events IH]; intros i results Hl H.
  - destruct results; [reflexivity | discriminate].
  - destruct results as [|result results]; [discriminate|].
    cbn [mapiFrom map].
    rewrite (smsReportCallback_fulfilled messageId i result).
    2:{ rewrite <- (Nat.add_0_r i). apply (H 0); reflexivity. }
    cbn [firstRejection valuesOf].
    specialize (IH (S i) results).
    destruct (firstRejection _) as [[t reason]|].
    + exfalso. assert (X : @inl string (list (option SmsReportEntry)) reason
                           = inr results); [|discriminate X].
      apply IH; [simpl in Hl; lia|].
      intros k m r Hm Hr. rewrite Nat.add_succ_comm. apply (H (S k)); assumption.
    + f_equal. f_equal.
      assert (X : inr (valuesOf (map snd (mapiFrom (smsReportCallback ext)
                                            (S i) events)))
                  = @inr string _ results); [|inversion X; reflexivity].
      apply IH; [simpl in Hl; lia|].
      intros k m r Hm Hr. rewrite Nat.add_succ_comm. apply (H (S k)); assumption.
Qed.

Lemma buildMonthlySmsReport_run smsEvents w :
  exists added,
    snd (buildMonthlySmsReport ext smsEvents w) = advance w 0 added
    /\ forallb isLogQuery added = true
    /\ forall w0,
         fst (buildMonthlySmsReport ext smsEvents w)
         = fst (buildMonthlySmsReport ext smsEvents w0).
Proof.
  unfold buildMonthlySmsReport.
  destruct smsEvents as [response|events].
  - exists []. rewrite advance_0_nil. repeat split.
  - unfold bind, mapi. rewrite emitAll_run.
    exists (concat (map fst (mapiFrom (smsReportCallback ext) 0 events))).
    destruct (Promise_all _); cbn [fst snd ret];
      (split; [reflexivity|]);
      (split; [apply smsReportCallback_queries | reflexivity]).
Qed.

Lemma forallb_isLogQuery_rawMails added :
  forallb isLogQuery added = true -> rawMailsTo added = [].
Proof.
  induction added as [|e added IH]; [reflexivity|].
  cbn [forallb]. intro H. apply andb_prop in H as [He H].
  destruct e; try discriminate He; cbn [rawMailsTo]; exact (IH H).
Qed.

End MonthlyQueries.

(** X26. [buildMonthlySmsReport] looks every SMS event up in the delivery
    logs. When every search ends without an error and every log that is
    found can be read, the report holds the entries of the logs found, in
    the order of the events, and the events without a log are left out.
    When the report fails, the error it carries is one of the parser of the
    logs: a search that fails answers with an error object, whose message
    the callback then parses, so the error of the search itself never shows.
    Since that message is no JSON, one failed search makes the report fail
    as a whole. *)
Theorem buildMonthlySmsReport_entries :
  forall (ext : Collaborators) (events : list string) (w : World),
    (forall results,
        List.length results = List.length events ->
        (forall k messageId result,
            nth_error events k = Some messageId ->
            nth_error results k = Some result ->
            lookedUp ext k messageId result) ->
        fst (buildMonthlySmsReport ext (inr events) w) = inr (somes results))
    /\ (forall reason,
          fst (buildMonthlySmsReport ext (inr events) w) = inl reason ->
          exists text, JSON_parseSnsLog ext text = inl reason)
    /\ (forall k messageId response,
          nth_error events k = Some messageId ->
          fst (searchSnsLogForMessageId ext k messageId)
          = SearchFailed response ->
          (forall entry,
              JSON_parseSnsLog ext "Error searching SNS logs" <> inr entry) ->
          exists reason,
            fst (buildMonthlySmsReport ext (inr events) w) = inl reason).
Proof.
  intros ext events w.
  unfold buildMonthlySmsReport, bind, mapi. rewrite emitAll_run.
  split; [|split].
  - intros results Hl H.
    rewrite (smsReportCallback_all_fulfilled ext events 0 results Hl H).
    reflexivity.
  - intros reason. unfold Promise_all.
    destruct (firstRejection _) as [[t reason']|] eqn:E; cbn [ret fst];
      [|discriminate].
    intro H. inversion H; subst reason'.
    apply firstRejection_In in E. apply in_map_iff in E as (call & Ec & Hin).
    apply In_nth_error in Hin as (k & Hk).
    apply nth_error_mapiFrom_inv in Hk as (messageId & _ & ->).
    exact (smsReportCallback_rejected ext messageId (0 + k) t reason Ec).
  - intros k messageId response Hk Hs Hp.
    pose proof (nth_error_mapiFrom (smsReportCallback ext) events 0 k messageId
                  Hk) as Hc.
    apply nth_error_In in Hc. cbn [Nat.add] in Hc.
    assert (R : exists reason,
                 snd (smsReportCallback ext messageId k)
                 = Promise k (inl reason)).
    { unfold smsReportCallback.
      pose proof (searchSnsLogForMessageId_failed ext k messageId response)
        as M.
      destruct (searchSnsLogForMessageId ext k messageId) as [found queries].
      cbn [fst snd] in *. subst found. rewrite (M eq_refl).
      destruct (JSON_parseSnsLog ext "Error searching SNS logs")
        as [error|entry] eqn:E; [eauto|].
      exfalso. exact (Hp entry eq_refl). }
    destruct R as (reason & R).
    assert (N : firstRejection
                  (map snd (mapiFrom (smsReportCallback ext) 0 events))
                <> None).
    { eapply firstRejection_some. rewrite <- R. apply in_map. exact Hc. }
    unfold Promise_all.
    destruct (firstRejection _) as [[t reason']|]; [|congruence].
    cbn [ret fst]. eauto.
Qed.

Lemma buildMonthlySmsReport_entries_witness :
  fst (buildMonthlySmsReport extDeliveryLogs (inr ["m-1"; "m-2"; "m-3"])
         world0)
  = inr [mkSmsReportEntry "+27821234567" "Vodacom" "Message accepted"
           "SUCCESS";
         mkSmsReportEntry "+27831234567" "MTN" "Phone is switched off"
           "FAILURE"].
Proof.
  apply (proj1 (buildMonthlySmsReport_entries extDeliveryLogs
                  ["m-1"; "m-2"; "m-3"] world0)
           [Some (mkSmsReportEntry "+27821234567" "Vodacom" "Message accepted"
                    "SUCCESS");
            None;
            Some (mkSmsReportEntry "+27831234567" "MTN"
                    "Phone is switched off" "FAILURE")]).
  - reflexivity.
  - intros [|[|[|k]]] messageId result Hm Hr; inversion Hm; inversion Hr;
      subst; try (destruct k; discriminate).
    + vm_compute. eexists. split; reflexivity.
    + vm_compute. reflexivity.
    + vm_compute. eexists. split; reflexivity.
Defined.

(** X27. [processMonthlyReports] when there is nothing to report on. If the
    list of users cannot be fetched it answers with an error; if no user is
    eligible it returns nothing at all ([undefined]). In both cases its
    only request is the one for the list of users. *)
Theorem processMonthlyReports_nothing_to_report :
  forall (env : ProcessEnv) (ext : Collaborators) (w : World),
    (forall failure,
        idpFault ext (requests w) = Some failure ->
        processMonthlyReports env ext w
        = (Some (failWith "Failed to process monthly report" (Some failure)),
           advance w 1 [IdpGetUsers None]))
    /\ (idpFault ext (requests w) = None ->
        forallb (fun u => negb (eligibleForReport u)) (users w) = true ->
        processMonthlyReports env ext w
        = (None, advance w 1 [IdpGetUsers None])).
Proof.
  intros env ext w.
  unfold processMonthlyReports, getAllUsers, axiosGetAllUsers, request, bind,
    ret.
  split.
  - intros failure F. rewrite F. reflexivity.
  - intros F H. rewrite F. cbn [statusCode ResponseHandler.success Nat.eqb
      negb data].
    apply reportLoop_none_eligible. exact H.
Qed.

Lemma processMonthlyReports_nothing_to_report_witness :
  processMonthlyReports env0 ext0
    (mkWorld
       [mkUser "auth0|4" "idle@acme.com" "idle" "idle@acme.com" true true 0
          "" ""] 0 [])
  = (None,
     advance
       (mkWorld
          [mkUser "auth0|4" "idle@acme.com" "idle" "idle@acme.com" true true 0
             "" ""] 0 [])
       1 [IdpGetUsers None]).
Proof.
  apply (proj2 (processMonthlyReports_nothing_to_report env0 ext0
                  (mkWorld
                     [mkUser "auth0|4" "idle@acme.com" "idle" "idle@acme.com"
                        true true 0 "" ""] 0 [])));
    reflexivity.
Defined.

Section MonthlyRun.

Variable env : ProcessEnv.
Variable ext : Collaborators.

(** The body of the loop up to the mail: the email events and the SMS
    events are read, the delivery logs are searched, and nothing else is
    requested. *)
Lemma reportUser_run user w :
  exists added,
    forallb isLogQuery added = true
    /\ reportUser env ext user w
       = match buildMonthlyEmailReport
                 (fst (getEmailEventsBySender ext (email user) w)) with
         | inl error => (inl error, advance w 0 added)
         | inr emailReport =>
             match fst (buildMonthlySmsReport ext
                          (fst (getSmsEventsBySender ext (email user) w)) w)
             with
             | inl error => (inl error, advance w 0 added)
             | inr smsReport =>
                 bind (sendMonthlyReportMail env ext
                         (logReportToFile ext (email user) emailReport
                            smsReport)
                         (nickname user) (name user) (tokens user))
                   (fun sent =>
                      match sent with
                      | inl error => ret (inl error)
                      | inr None =>
                          ret (inr (failWith "Failed to send monthly report"
                                      None))
                      | inr (Some _) =>
                          ret (inr (ResponseHandler.success
                                      ("Successfully sent monthly report to "
                                       ++ email user) None))
                      end)
                   (advance w 0 added)
             end
         end.
Proof.
  unfold reportUser. unfold bind at 1.
  destruct (getEmailEventsBySender_run ext (email user) w)
    as (filterPattern & We & _).
  destruct (getEmailEventsBySender ext (email user) w) as [emailEvents w1].
  cbn [fst snd] in *. subst w1.
  destruct (buildMonthlyEmailReport emailEvents) as [error|emailReport].
  { eexists. split; [|reflexivity]. reflexivity. }
  unfold bind at 1.
  set (w1 := advance w 0 _).
  destruct (getSmsEventsBySender_run ext (email user) w1)
    as (added & Ws & Qs & Is).
  rewrite <- (Is w).
  destruct (getSmsEventsBySender ext (email user) w1) as [smsEvents w2].
  cbn [fst snd] in *. subst w2.
  unfold bind at 1.
  set (w2 := advance w1 0 added).
  destruct (buildMonthlySmsReport_run ext smsEvents w2)
    as (added' & Wb & Qb & Ib).
  rewrite <- (Ib w).
  destruct (buildMonthlySmsReport ext smsEvents w2) as [built w3].
  cbn [fst snd] in *. subst w3 w2 w1.
  rewrite !advance_advance. cbn [Nat.add].
  eexists. split; [|destruct built; reflexivity].
  cbn [app forallb isLogQuery andb]. rewrite forallb_app, Qs, Qb.
  reflexivity.
Qed.

(** An eligible user ends the loop: the answer of the run is the one of
    that user. *)
Lemma reportLoop_eligible user rest w :
  eligibleForReport user = true ->
  reportLoop env ext (user :: rest) w
  = (Some (match fst (reportUser env ext user w) with
           | inr response => response
           | inl error =>
               failWith ("Failed to send monthly report to " ++ email user)
                 (Some error)
           end),
     snd (reportUser env ext user w)).
Proof.
  intro Hu. unfold eligibleForReport in Hu.
  apply andb_prop in Hu as [Hu Ht]. apply andb_prop in Hu as [Hv Ha].
  apply negb_true_iff in Ht.
  cbn [reportLoop]. rewrite Hv, Ha, Ht. cbn [negb].
  unfold bind. destruct (reportUser env ext user w) as [[error|response] w'];
    reflexivity.
Qed.

End MonthlyRun.

(** X28. What a run answers when the report of the first eligible user
    cannot be made. If the email events or the SMS events cannot be
    fetched, the reason of the failure is lost: the details of the answer
    are the type error of using the error answer as an array. If the
    delivery logs make the SMS report fail, the details are the error of
    that report. If the reports are switched off, the details say so. In
    all four cases no mail is sent: all that is requested are reads of the
    logs. (The answers of the readers of the logs do not depend on the
    world, so they are given at the world of the start.) *)
Theorem monthly_report_failures :
  forall (env : ProcessEnv) (ext : Collaborators) (user : User)
         (rest : list User) (w : World),
    eligibleForReport user = true ->
    (forall response,
        fst (getEmailEventsBySender ext (email user) w) = inl response ->
        exists added,
          reportLoop env ext (user :: rest) w
          = (Some (failWith ("Failed to send monthly report to " ++ email user)
                     (Some "emailEvents.forEach is not a function")),
             advance w 0 added)
          /\ forallb isLogQuery added = true)
    /\ (forall events response,
          fst (getEmailEventsBySender ext (email user) w) = inr events ->
          fst (getSmsEventsBySender ext (email user) w) = inl response ->
          exists added,
            reportLoop env ext (user :: rest) w
            = (Some (failWith
                       ("Failed to send monthly report to " ++ email user)
                       (Some "smsEvents.map is not a function")),
               advance w 0 added)
            /\ forallb isLogQuery added = true)
    /\ (forall events smsEvents reason,
          fst (getEmailEventsBySender ext (email user) w) = inr events ->
          fst (getSmsEventsBySender ext (email user) w) = inr smsEvents ->
          fst (buildMonthlySmsReport ext (inr smsEvents) w) = inl reason ->
          exists added,
            reportLoop env ext (user :: rest) w
            = (Some (failWith
                       ("Failed to send monthly report to " ++ email user)
                       (Some reason)),
               advance w 0 added)
            /\ forallb isLogQuery added = true)
    /\ (forall events smsEvents smsReport,
          fst (getEmailEventsBySender ext (email user) w) = inr events ->
          fst (getSmsEventsBySender ext (email user) w) = inr smsEvents ->
          fst (buildMonthlySmsReport ext (inr smsEvents) w) = inr smsReport ->
          ENABLE_SEND_MONTHLY_REPORT env = false ->
          exists added,
            reportLoop env ext (user :: rest) w
            = (Some (failWith
                       ("Failed to send monthly report to " ++ email user)
                       (Some "Send monthly reports disabled")),
               advance w 0 added)
            /\ forallb isLogQuery added = true).
Proof.
  intros env ext user rest w Hu.
  rewrite (reportLoop_eligible env ext user rest w Hu).
  destruct (reportUser_run env ext user w) as (added & Q & ->).
  split; [|split; [|split]].
  - intros response E. rewrite E. cbn [buildMonthlyEmailReport ret].
    exists added. split; [reflexivity|exact Q].
  - intros events response E S. rewrite E, S.
    cbn [buildMonthlyEmailReport buildMonthlySmsReport ret fst].
    exists added. split; [reflexivity|exact Q].
  - intros events smsEvents reason E S B. rewrite E, S.
    cbn [buildMonthlyEmailReport]. rewrite B. cbn [ret].
    exists added. split; [reflexivity|exact Q].
  - intros events smsEvents smsReport E S B Flag. rewrite E, S.
    cbn [buildMonthlyEmailReport]. rewrite B.
    unfold sendMonthlyReportMail, bind. rewrite Flag. cbn [ret].
    exists added. split; [reflexivity|exact Q].
Qed.

Lemma monthly_report_failures_witness :
  exists added,
    reportLoop env0 extLogsDown [client; secondClient] world0
    = (Some (failWith "Failed to send monthly report to client@acme.com"
               (Some "emailEvents.forEach is not a function")),
       advance world0 0 added)
    /\ forallb isLogQuery added = true.
Proof.
  apply (proj1 (monthly_report_failures env0 extLogsDown client [secondClient]
                  world0 eq_refl)
           (failWith "Error fetching email events"
              (Some "AccessDeniedException"))).
  reflexivity.
Defined.

(** X29. A monthly report is mailed to the [name] of the account, while the
    answer of the run speaks of the [email] of the account. (The answers of
    the readers of the logs do not depend on the world, so they are given
    at the world of the start.) *)
Theorem monthly_report_goes_to_name :
  forall (env : ProcessEnv) (ext : Collaborators) (user : User) (w : World)
         (events : list EmailEvent) (smsEvents : list string)
         (smsReport : list SmsReportEntry),
    fst (getEmailEventsBySender ext (email user) w) = inr events ->
    fst (getSmsEventsBySender ext (email user) w) = inr smsEvents ->
    fst (buildMonthlySmsReport ext (inr smsEvents) w) = inr smsReport ->
    ENABLE_SEND_MONTHLY_REPORT env = true ->
    (forall fileName, sesRawFault ext (name user) fileName = None) ->
    fst (reportUser env ext user w)
    = inr (ResponseHandler.success
             ("Successfully sent monthly report to " ++ email user) None)
    /\ rawMailsTo (effects (snd (reportUser env ext user w)))
       = (rawMailsTo (effects w) ++ [name user])%list.
Proof.
  intros env ext user w events smsEvents smsReport E S B Flag Ok.
  destruct (reportUser_run env ext user w) as (added & Q & ->).
  rewrite E, S. cbn [buildMonthlyEmailReport]. rewrite B.
  unfold sendMonthlyReportMail, sendRawEmail, bind, emit, ret. rewrite Flag.
  cbn [fst snd]. rewrite Ok. cbn [fst snd effects advance].
  split; [reflexivity|].
  rewrite !rawMailsTo_app, (forallb_isLogQuery_rawMails added Q), app_nil_r.
  reflexivity.
Qed.

Lemma monthly_report_goes_to_name_witness :
  fst (reportUser env0 ext0
         (mkUser "auth0|3" "billing@acme.com" "acme" "Acme Ltd" true true 5
            "" "")
         world0)
  = inr (ResponseHandler.success
           "Successfully sent monthly report to billing@acme.com" None)
  /\ rawMailsTo
       (effects
          (snd (reportUser env0 ext0
                  (mkUser "auth0|3" "billing@acme.com" "acme" "Acme Ltd" true
                     true 5 "" "")
                  world0)))
     = (rawMailsTo (effects world0) ++ ["Acme Ltd"])%list.
Proof.
  apply (monthly_report_goes_to_name env0 ext0
           (mkUser "auth0|3" "billing@acme.com" "acme" "Acme Ltd" true true 5
              "" "")
           world0 [] [] []); reflexivity.
Defined.

(** ** utils/logs.js: the names of the log files *)

Section LogNameFacts.







Lemma storeLog_name env ext concatFileName logContent w logFile :
  fst (storeLog env ext concatFileName logContent w) = inr logFile ->
  fileName logFile = concatFileName /\ file logFile = logContent.
Proof.
  unfold storeLog, bind, ret.
  destruct (uploadLogFileToS3 env ext concatFileName logContent w)
    as [[error|[]] w']; cbn [fst]; intro H; inversion H.
  split; reflexivity.
Qed.

End LogNameFacts.


(** * The audit log *)

Section PersistenceFacts.

Variable env : ProcessEnv.
Variable ext : Collaborators.

Lemma append_not_empty (a b : string) : b <> "" -> a ++ b <> "".
Proof. destruct a; [auto | discriminate]. Qed.

Lemma emailLogName_not_empty clientEmail emailSubject :
  emailLogName ext clientEmail emailSubject <> "".
Proof. apply append_not_empty. discriminate. Qed.

Lemma smsLogName_not_empty clientEmail : smsLogName ext clientEmail <> "".
Proof. apply append_not_empty. discriminate. Qed.

Lemma whatsappLogName_not_empty clientEmail :
  whatsappLogName ext clientEmail <> "".
Proof. apply append_not_empty. discriminate. Qed.

(** The two steps after the deduction, for a log writer that stores a
    content under a name: what they answer when the store or the mail
    refuses, and that they write nothing to the ledger. *)
Lemma persist_refused clientName clientEmail batchType logName logContent
    (logger : Eff (string + LogFile)) (done : Response string) w :
  logger = storeLog env ext logName logContent ->
  logName <> "" -> logContent <> "" ->
  storeRefuses env ext logName \/ mailRefuses env ext clientEmail logName ->
  exists resp added,
    returned (
      logResponse <-?
        catchReturn logger
          (fun error => failWith "Failed to create log file" (Some error)) ;;
      _ <-? catchReturn
              (emailLogFileToClient env ext clientName clientEmail batchType
                 (fileName logResponse) (file logResponse))
              (fun error =>
                 failWith "Failed to email log file to client" (Some error)) ;;
      ret (inr done)) w
    = (resp, advance w 0 added)
    /\ quiet added
    /\ statusCode resp = 500
    /\ (storeRefuses env ext logName ->
        message resp = "Failed to create log file")
    /\ (~ storeRefuses env ext logName ->
        message resp = "Failed to email log file to client").
Proof.
  intros -> Hn Hc R. unfold returned, bindR, catchReturn, ret.
  destruct (storeLog_world env ext logName logContent w) as (added & Lw & Lq).
  pose proof (storeLog_fails env ext logName logContent w) as Sf.
  pose proof (storeLog_name env ext logName logContent w) as Sn.
  destruct (storeLog env ext logName logContent w)
    as [[error|logResponse] w1]; cbn [fst snd] in *; subst w1.
  - exists (failWith "Failed to create log file" (Some error)), added.
    split; [reflexivity|]. split; [exact Lq|]. split; [reflexivity|].
    split; [reflexivity|].
    intro N. exfalso. apply N.
    destruct (proj1 Sf (ex_intro _ error eq_refl)) as [E|[E|[E|E]]];
      [contradiction | contradiction | left; exact E | right; exact E].
  - destruct (Sn logResponse eq_refl) as (En & Ec).
    assert (N : ~ storeRefuses env ext logName).
    { intro S. destruct Sf as [_ Sf].
      destruct Sf as (error & E); [|discriminate E].
      destruct S as [S|S]; auto. }
    destruct R as [R|R]; [contradiction|].
    rewrite En, Ec.
    destruct (emailLogFileToClient_world env ext clientName clientEmail
                batchType logName logContent (advance w 0 added))
      as (added' & Mw & Mq).
    pose proof (emailLogFileToClient_fails env ext clientName clientEmail
                  batchType logName logContent (advance w 0 added)) as Mf.
    destruct (emailLogFileToClient env ext clientName clientEmail batchType
                logName logContent (advance w 0 added))
      as [[error|[]] w2]; cbn [fst snd] in *; subst w2.
    + exists (failWith "Failed to email log file to client" (Some error)),
        (added ++ added')%list.
      rewrite advance_advance.
      split; [reflexivity|]. split.
      { destruct Lq as [T D], Mq as [T' D']. split.
        - rewrite tokenWrites_app, T, T'. reflexivity.
        - rewrite dispatchedTo_app, D, D'. reflexivity. }
      split; [reflexivity|]. split; [contradiction | reflexivity].
    + exfalso. destruct Mf as [_ Mf].
      destruct Mf as (error & E); [exact R | discriminate E].
Qed.

(** An email batch that has dispatched and deducted, and whose log the
    store or the mail refuses. *)
Lemma processEmails_persistence sheetData r w :
  extractEmail sheetData = inr r ->
  fst (validateBatchRequest env ext (EmailSheet.clientEmail r)
         (List.length (EmailSheet.emailParameterMaps r)) TypeEmail w)
  = inr tt ->
  ENABLE_SEND_EMAIL env = true ->
  idpFault ext (S (requests w)) = None ->
  idpFault ext (S (S (requests w))) = None ->
  let logName :=
    emailLogName ext (EmailSheet.clientEmail r) (EmailSheet.emailSubject r) in
  storeRefuses env ext logName
  \/ mailRefuses env ext (EmailSheet.clientEmail r) logName ->
  exists resp w' user,
    processEmails env ext sheetData false w = (resp, w')
    /\ statusCode resp = 500
    /\ (storeRefuses env ext logName ->
        message resp = "Failed to create log file")
    /\ (~ storeRefuses env ext logName ->
        message resp = "Failed to email log file to client")
    /\ lookupAccount ext w (EmailSheet.clientEmail r) = Some user
    /\ deductedOnce w w' user
         (calculateBatchCost env
            (List.length (EmailSheet.emailParameterMaps r)) TypeEmail).
Proof.
  intros X V Flag F1 F2 logName R.
  apply validateBatchRequest_passed in V as (F0 & user & rest & Fl & V).
  assert (L : lookupAccount ext w (EmailSheet.clientEmail r) = Some user)
    by (unfold lookupAccount; rewrite F0, Fl; reflexivity).
  destruct (find_account _ _ _ _ Fl) as (found & Ff).
  unfold processEmails, returned, bindR, catchReturn, ret, bind. cbn [negb].
  rewrite X, V, Flag.
  match goal with
  | |- context [sendBatchEmails ?e ?a ?b ?c ?d ?f ?w0] =>
      pose proof (sendBatchEmails_world e a b c d f w0) as Sw;
      destruct (sendBatchEmails e a b c d f w0) as [logs w2]
  end.
  cbn [snd] in Sw. subst w2. rewrite advance_advance.
  match goal with
  | |- context [map ?f (EmailSheet.emailParameterMaps r)] =>
      assert (Ts : tokenWrites (map f (EmailSheet.emailParameterMaps r)) = [])
        by (apply sends_tokenWrites; reflexivity);
      generalize dependent (map f (EmailSheet.emailParameterMaps r));
      intros sent Ts
  end.
  rewrite updateUserTokens_run.
  cbn [requests users advance Nat.add]. rewrite Fl. cbv zeta.
  rewrite F1, F2, Ff.
  cbn [statusCode ResponseHandler.success Nat.eqb negb data].
  match goal with
  | |- context [logEmailToFile ?e ?x ?cn ?ce ?es ?ps ?ms ?inv ?rs ?er ?t ?w0] =>
      edestruct (persist_refused cn ce "Email" logName _
                   (logEmailToFile e x cn ce es ps ms inv rs er t)
                   (ResponseHandler.success "Successfully sent email batch!"
                      (Some ("You have " ++ show_Z t ++ " tokens left")))
                   w0 eq_refl (emailLogName_not_empty _ _))
        as (resp & added & E & (Tq & _) & S5 & M1 & M2);
        [discriminate | exact R |]
  end.
  unfold returned, bindR, catchReturn, ret in E.
  eexists resp, _, user. split; [exact E|].
  split; [exact S5|]. split; [exact M1|]. split; [exact M2|].
  split; [exact L|]. split; [ledger | reflexivity].
Qed.

(** The same for an SMS batch, whose sends cannot make the batch fail. *)
Lemma processSms_persistence sheetData r w :
  extractMobile sheetData = inr r ->
  fst (validateBatchRequest env ext (SmsSheet.clientEmail r)
         (List.length (SmsSheet.mobileParameterMaps r)) TypeSms w) = inr tt ->
  ENABLE_SEND_SMS env = true ->
  idpFault ext (S (requests w)) = None ->
  idpFault ext (S (S (requests w))) = None ->
  let logName := smsLogName ext (SmsSheet.clientEmail r) in
  storeRefuses env ext logName
  \/ mailRefuses env ext (SmsSheet.clientEmail r) logName ->
  exists resp w' user,
    processSms env ext sheetData false w = (resp, w')
    /\ statusCode resp = 500
    /\ (storeRefuses env ext logName ->
        message resp = "Failed to create log file")
    /\ (~ storeRefuses env ext logName ->
        message resp = "Failed to email log file to client")
    /\ lookupAccount ext w (SmsSheet.clientEmail r) = Some user
    /\ deductedOnce w w' user
         (calculateBatchCost env
            (List.length (SmsSheet.mobileParameterMaps r)) TypeSms).
Proof.
  intros X V Flag F1 F2 logName R.
  apply validateBatchRequest_passed in V as (F0 & user & rest & Fl & V).
  assert (L : lookupAccount ext w (SmsSheet.clientEmail r) = Some user)
    by (unfold lookupAccount; rewrite F0, Fl; reflexivity).
  destruct (find_account _ _ _ _ Fl) as (found & Ff).
  unfold processSms, returned, bindR, catchReturn, ret, bind. cbn [negb].
  rewrite X, V, Flag.
  match goal with
  | |- context [sendBatchSMS ?e ?a ?b ?c ?d ?f ?w0] =>
      pose proof (sendBatchSMS_world e a b c d f w0) as Sw;
      destruct (sendBatchSMS_never_fails e a b c d f w0) as (logs & Sl);
      destruct (sendBatchSMS e a b c d f w0) as [result w2]
  end.
  cbn [fst snd] in Sw, Sl. subst w2 result.
  rewrite advance_advance.
  pose proof (smsCallback_requests ext (SmsSheet.smsBody r)
                (SmsSheet.clientEmail r) (SmsSheet.mobileParameterMaps r) 0)
    as Ts.
  fold (mapi (smsCallback ext (SmsSheet.smsBody r) (SmsSheet.clientEmail r))
          (SmsSheet.mobileParameterMaps r)) in Ts.
  generalize dependent
    (concat
       (map (fun c => fst (fst c))
          (mapi (smsCallback ext (SmsSheet.smsBody r) (SmsSheet.clientEmail r))
             (SmsSheet.mobileParameterMaps r)))).
  intros sent Ts.
  rewrite updateUserTokens_run.
  cbn [requests users advance Nat.add]. rewrite Fl. cbv zeta.
  rewrite F1, F2, Ff.
  cbn [statusCode ResponseHandler.success Nat.eqb negb data].
  match goal with
  | |- context [logSmsToFile ?e ?x ?cn ?ce ?cm ?sb ?ms ?inv ?rs ?er ?t ?w0] =>
      edestruct (persist_refused cn ce "SMS" logName _
                   (logSmsToFile e x cn ce cm sb ms inv rs er t)
                   (ResponseHandler.success "Successfully sent SMS batch!"
                      (Some ("You have " ++ show_Z t ++ " tokens left")))
                   w0 eq_refl (smsLogName_not_empty _))
        as (resp & added & E & (Tq & _) & S5 & M1 & M2);
        [discriminate | exact R |]
  end.
  unfold returned, bindR, catchReturn, ret in E.
  eexists resp, _, user. split; [exact E|].
  split; [exact S5|]. split; [exact M1|]. split; [exact M2|].
  split; [exact L|]. split; [ledger | reflexivity].
Qed.

(** The same for a WhatsApp batch all of whose posts succeed; the
    credentials are stored between the deduction and the log. *)
Lemma processWhatsapp_persistence sheetData r w :
  extractWhatsapp sheetData = inr r ->
  fst (validateBatchRequest env ext (WhatsappSheet.clientEmail r)
         (List.length (WhatsappSheet.whatsappParameterMaps r)) TypeWhatsapp w)
  = inr tt ->
  ENABLE_SEND_WHATSAPP env = true ->
  (forall index m,
      nth_error (WhatsappSheet.whatsappParameterMaps r) index = Some m ->
      exists t responseData,
        whatsappSend ext index (PhoneText (address m))
        = Fulfilled t responseData) ->
  idpFault ext (S (requests w)) = None ->
  idpFault ext (S (S (requests w))) = None ->
  let logName := whatsappLogName ext (WhatsappSheet.clientEmail r) in
  storeRefuses env ext logName
  \/ mailRefuses env ext (WhatsappSheet.clientEmail r) logName ->
  exists resp w' user,
    processWhatsapp env ext sheetData false w = (resp, w')
    /\ statusCode resp = 500
    /\ (storeRefuses env ext logName ->
        message resp = "Failed to create log file")
    /\ (~ storeRefuses env ext logName ->
        message resp = "Failed to email log file to client")
    /\ lookupAccount ext w (WhatsappSheet.clientEmail r) = Some user
    /\ deductedOnce w w' user
         (calculateBatchCost env
            (List.length (WhatsappSheet.whatsappParameterMaps r)) TypeEmail).
Proof.
  intros X V Flag Sent F1 F2 logName R.
  apply validateBatchRequest_passed in V as (F0 & user & rest & Fl & V).
  assert (L : lookupAccount ext w (WhatsappSheet.clientEmail r) = Some user)
    by (unfold lookupAccount; rewrite F0, Fl; reflexivity).
  destruct (find_account _ _ _ _ Fl) as (found & Ff).
  unfold processWhatsapp, returned, bindR, catchReturn, ret, bind.
  cbn [negb]. rewrite X, V, Flag.
  match goal with
  | |- context [sendBatchWhatsappTemplateMessages ?e ?ms ?tok ?url ?w0] =>
      pose proof (sendBatchWhatsapp_world e ms tok url w0) as Sw;
      destruct (proj1 (sendBatchWhatsapp_outcomes e ms tok url w0))
        as (logs & Sl & _);
      [intros index message Hm; rewrite nth_error_map in Hm;
       destruct (nth_error (WhatsappSheet.whatsappParameterMaps r) index)
         as [m|] eqn:Em; [|discriminate Hm];
       inversion Hm; subst message; exact (Sent index m Em)|];
      destruct (sendBatchWhatsappTemplateMessages e ms tok url w0)
        as [result w2]
  end.
  cbn [fst snd] in Sw, Sl. subst w2 result.
  match goal with
  | |- context [map ?f (map ?g (WhatsappSheet.whatsappParameterMaps r))] =>
      assert (Ts : tokenWrites
                     (map f (map g (WhatsappSheet.whatsappParameterMaps r)))
                   = [])
        by (apply posts_tokenWrites; reflexivity);
      generalize dependent
        (map f (map g (WhatsappSheet.whatsappParameterMaps r)));
      intros sent Ts
  end.
  rewrite advance_advance.
  rewrite updateUserTokens_run.
  cbn [requests users advance Nat.add]. rewrite Fl. cbv zeta.
  rewrite F1, F2, Ff.
  cbn [statusCode ResponseHandler.success Nat.eqb negb data].
  match goal with
  | |- context [updateUserWhatsAppCredentials ?e ?a ?b ?c ?w0] =>
      destruct (updateUserWhatsAppCredentials_world e a b c w0)
        as (accounts & n & stored & Cw & Cb & Cq & _);
      destruct (updateUserWhatsAppCredentials e a b c w0) as [credentials w3]
  end; cbn [snd] in Cw; subst w3.
  match goal with
  | |- context [logWhatsappToFile ?e ?x ?cn ?ce ?cm ?tn ?ms ?inv ?rs ?er ?t
                  ?w0] =>
      edestruct (persist_refused cn ce "WhatsApp" logName _
                   (logWhatsappToFile e x cn ce cm tn ms inv rs er t)
                   (ResponseHandler.success "Successfully sent WhatsApp batch!"
                      (Some ("You have " ++ show_Z t ++ " tokens left")))
                   w0 eq_refl (whatsappLogName_not_empty _))
        as (resp & added & E & (Tq & _) & S5 & M1 & M2);
        [discriminate | exact R |]
  end.
  unfold returned, bindR, catchReturn, ret in E.
  eexists resp, _, user. split; [exact E|].
  split; [exact S5|]. split; [exact M1|]. split; [exact M2|].
  split; [exact L|]. split; [ledger | auto].
Qed.

End PersistenceFacts.

(** C9. In a non-draft batch of any channel that has dispatched and
    deducted, a failure to store the audit log or to mail it to the client
    makes the run answer with an error, and the deduction stands. The batch
    is eligible, sending is switched on (and, for WhatsApp, every post
    succeeds) and the provider answers the lookup and the write of the
    deduction. Then, if the upload of the log is switched off or the bucket
    refuses the file, the answer is [Failed to create log file]; if the
    store takes the log and the mail of the log is switched off or refused,
    the answer is [Failed to email log file to client]. In both cases the
    status is 500, the ledger has been written exactly once in the run, by
    the deduction, and the balance of the account is the deducted one:
    nothing restores it. (The amount is the one the channel's deduction
    computes.) *)
Theorem persistence_failure_keeps_deduction :
  forall (env : ProcessEnv) (ext : Collaborators),
    (forall sheetData r w,
        extractEmail sheetData = inr r ->
        fst (validateBatchRequest env ext (EmailSheet.clientEmail r)
               (List.length (EmailSheet.emailParameterMaps r)) TypeEmail w)
        = inr tt ->
        ENABLE_SEND_EMAIL env = true ->
        idpFault ext (S (requests w)) = None ->
        idpFault ext (S (S (requests w))) = None ->
        let logName :=
          emailLogName ext (EmailSheet.clientEmail r)
            (EmailSheet.emailSubject r) in
        storeRefuses env ext logName
        \/ mailRefuses env ext (EmailSheet.clientEmail r) logName ->
        let run := processEmails env ext sheetData false w in
        statusCode (fst run) = 500
        /\ (storeRefuses env ext logName ->
            message (fst run) = "Failed to create log file")
        /\ (~ storeRefuses env ext logName ->
            message (fst run) = "Failed to email log file to client")
        /\ exists user,
             lookupAccount ext w (EmailSheet.clientEmail r) = Some user
             /\ deductedOnce w (snd run) user
                  (calculateBatchCost env
                     (List.length (EmailSheet.emailParameterMaps r))
                     TypeEmail))
    /\ (forall sheetData r w,
          extractMobile sheetData = inr r ->
          fst (validateBatchRequest env ext (SmsSheet.clientEmail r)
                 (List.length (SmsSheet.mobileParameterMaps r)) TypeSms w)
          = inr tt ->
          ENABLE_SEND_SMS env = true ->
          idpFault ext (S (requests w)) = None ->
          idpFault ext (S (S (requests w))) = None ->
          let logName := smsLogName ext (SmsSheet.clientEmail r) in
          storeRefuses env ext logName
          \/ mailRefuses env ext (SmsSheet.clientEmail r) logName ->
          let run := processSms env ext sheetData false w in
          statusCode (fst run) = 500
          /\ (storeRefuses env ext logName ->
              message (fst run) = "Failed to create log file")
          /\ (~ storeRefuses env ext logName ->
              message (fst run) = "Failed to email log file to client")
          /\ exists user,
               lookupAccount ext w (SmsSheet.clientEmail r) = Some user
               /\ deductedOnce w (snd run) user
                    (calculateBatchCost env
                       (List.length (SmsSheet.mobileParameterMaps r))
                       TypeSms))
    /\ (forall sheetData r w,
          extractWhatsapp sheetData = inr r ->
          fst (validateBatchRequest env ext (WhatsappSheet.clientEmail r)
                 (List.length (WhatsappSheet.whatsappParameterMaps r))
                 TypeWhatsapp w)
          = inr tt ->
          ENABLE_SEND_WHATSAPP env = true ->
          (forall index m,
              nth_error (WhatsappSheet.whatsappParameterMaps r) index
              = Some m ->
              exists t responseData,
                whatsappSend ext index (PhoneText (address m))
                = Fulfilled t responseData) ->
          idpFault ext (S (requests w)) = None ->
          idpFault ext (S (S (requests w))) = None ->
          let logName := whatsappLogName ext (WhatsappSheet.clientEmail r) in
          storeRefuses env ext logName
          \/ mailRefuses env ext (WhatsappSheet.clientEmail r) logName ->
          let run := processWhatsapp env ext sheetData false w in
          statusCode (fst run) = 500
          /\ (storeRefuses env ext logName ->
              message (fst run) = "Failed to create log file")
          /\ (~ storeRefuses env ext logName ->
              message (fst run) = "Failed to email log file to client")
          /\ exists user,
               lookupAccount ext w (WhatsappSheet.clientEmail r) = Some user
               /\ deductedOnce w (snd run) user
                    (calculateBatchCost env
                       (List.length (WhatsappSheet.whatsappParameterMaps r))
                       TypeEmail)).
Proof.
  intros env ext. split; [|split].
  - intros sheetData r w X V Flag F1 F2 logName R run.
    destruct (processEmails_persistence env ext sheetData r w X V Flag F1 F2 R)
      as (resp & w' & user & E & S5 & M1 & M2 & L & D).
    subst run. rewrite E. cbn [fst snd]. eauto 6.
  - intros sheetData r w X V Flag F1 F2 logName R run.
    destruct (processSms_persistence env ext sheetData r w X V Flag F1 F2 R)
      as (resp & w' & user & E & S5 & M1 & M2 & L & D).
    subst run. rewrite E. cbn [fst snd]. eauto 6.
  - intros sheetData r w X V Flag Sent F1 F2 logName R run.
    destruct (processWhatsapp_persistence env ext sheetData r w X V Flag Sent
                F1 F2 R)
      as (resp & w' & user & E & S5 & M1 & M2 & L & D).
    subst run. rewrite E. cbn [fst snd]. eauto 6.
Qed.

(** The bucket refuses the log of a batch of three emails: the run fails and
    the six tokens stay deducted. *)
Lemma persistence_failure_keeps_deduction_witness :
  message (fst (processEmails env0 extBucketDown emailSheet false world0))
  = "Failed to create log file"
  /\ statusCode (fst (processEmails env0 extBucketDown emailSheet false world0))
     = 500
  /\ balances (snd (processEmails env0 extBucketDown emailSheet false world0))
     = [("auth0|1", 4%Z)]
  /\ exists user,
       lookupAccount extBucketDown world0 "client@acme.com" = Some user
       /\ deductedOnce world0
            (snd (processEmails env0 extBucketDown emailSheet false world0))
            user 6%Z.
Proof.
  assert (R : storeRefuses env0 extBucketDown
                (emailLogName extBucketDown "client@acme.com" "News")).
  { right. discriminate. }
  destruct (proj1 (persistence_failure_keeps_deduction env0 extBucketDown)
              emailSheet emailSheetExtract world0 eq_refl eq_refl eq_refl
              eq_refl eq_refl (or_introl R))
    as (S5 & M1 & _ & D).
  split; [exact (M1 R)|]. split; [exact S5|].
  split; [vm_compute; reflexivity | exact D].
Defined.
